(* ===== verification/_CoqProject ===== *)
-Q . S2P
Prelude.v
Bytes.v
NvmeSpec.v
Kv.v
KvTable.v
KvInv.v
KvSpec.v
KvList.v
Dma.v
DmaSpec.v
Ctrl.v
Admin.v
Regs.v
Keeps.v
CtrlInv.v
RegsSpec.v
StateSpec.v
AdminSpec.v
IoSpec.v
QueueSpec.v
Progress.v
HostRing.v
System.v
Lifecycle.v
History.v
Demo.v
KvTheorems.v
DmaTheorems.v
CtrlTheorems.v
AdminTheorems.v
QueueTheorems.v
HostTheorems.v
DeviceTheorems.v
Trace.v
Cli.v
Process.v
ProcessSpec.v
CliTheorems.v
ProcessTheorems.v
