(* ===== verification/Prelude.v ===== *)
(** * vfio-user-kvssd: a verification development

    The program emulates an NVMe Key-Value SSD over vfio-user.  A host driver
    programs the register block of a controller (BAR 0), rings doorbells, and finds
    completions in its own memory; the controller fetches 64-byte commands by DMA,
    executes admin commands and KV commands on an in-memory namespace, and posts
    16-byte completions.  This library models the C code of [src/] and proves what
    makes it correct.

    ** The program and its model

    - [include/kvssd_nvme_spec.h]: [NvmeSpec].  Each packed struct is a record with
      an instance of [Packed]; [encode] and [decode] give its bytes, [cast] a
      pointer cast between two of them.
    - [src/kv.h], [src/kv.c]: [Kv].  [kv_ns] owns a slot table ([ns_pairs], [None]
      for [NULL]) and the Identify data; one function per handler ([kv_store],
      [kv_retrieve], [kv_delete], [kv_exist], [kv_list]) and for the life cycle.
      The allocator ([Heap]) and the callbacks of [struct kv_dma] act on a world
      [W], a parameter.
    - [src/nvme.c], "DMA helpers": [Dma].  libvfio-user is the class [Vfu]
      ([vfu_addr_to_sgl], [vfu_sgl_get]); [host] holds guest memory, the outcomes of
      later allocations and a log of library calls ([vfu_sgl_get], [vfu_sgl_put],
      [vfu_irq_trigger]).
    - [src/nvme.h] and the constants of [src/nvme.c]: [Ctrl] ([nvme_ctrl], its
      queues, registers, MSI-X store; [nvme_ctrl_init], [nvme_ctrl_teardown]).
    - [src/nvme.c], "Admin commands" and "KV I/O dispatch": [Admin].
    - [src/nvme.c], "Completion posting", "Queue engine", "Register access": [Regs]
      ([nvme_post_cqe], [nvme_process_sq], enable, disable, reset, [rd_le], [wr_le],
      register access, [nvme_bar0_access], [nvme_msix_access]).
    - [src/main.c]: [Cli] ([parse_size] over a model of [strtoull], the option loop
      over what [getopt_long] returns, the number of keys from the capacity),
      [Process] ([main]: PCI and MSI-X set-up, every error exit, the server loop with
      [errno] and signals, both tear-down paths) and [System.nvme_reset_cb].
    - [nvme_trace_us], [NVME_TRACE] and the DMA callbacks of [main.c]: [Trace].

    ** How it is modelled

    A function that runs on state is a value of the monad [M St A] of this file.
    Its result is [Done], or [Undef] where the C has undefined behaviour (an access
    outside an object, a NULL dereference, a shift of 64 or more, a division by
    zero), or [OutOfFuel].  Machine integers are [Z] with the wrap-around written
    out ([u8] to [u64], [int32]); the invariants keep the fields of the controller and
    of the namespace in the ranges of their C types.  Bounded loops are [for_range].  Of the unbounded loops,
    that of [nvme_process_sq] ([Regs.sq_loop]) takes fuel, one unit per entry, and
    [sq_size] units are enough when the tail is inside the queue
    ([QueueTheorems.process_sq_drains]); when it is not, no fuel is enough
    ([QueueTheorems.process_sq_diverges]).  The server loop of [main]
    ([Process.serve]) consumes one answer of the library for each call it makes, and
    the number of answers bounds its iterations; it is a state machine over the answers
    ([ProcessTheorems.serve_protocol]), and with a signal among them it ends
    ([ProcessTheorems.main_stops]).  [wp m Q s] is total correctness: no
    undefined behaviour, no lack of fuel, and [Q] of the result; [safe] allows the
    lack of fuel.

    ** Layers of the proofs

    - Interfaces: [Heap], [DmaOk] (what the KV handlers rely on from their
      callbacks; [DmaSpec.kvdma_ok] proves it of [kvdma_h2c] and [kvdma_c2h]),
      [VfuOk] (the documented behaviour of libvfio-user: a translated range is
      covered in order by its entries and mapped at the addresses of its vectors;
      [DmaSpec.flat_vfu_ok] is a concrete library that has it).
    - Invariants: [KvInv.kv_inv] of the namespace (for at most 2^31 keys, the range
      in which a slot index fits the [int] of the code) and [CtrlInv.ctrl_inv] of
      the controller.
    - Specifications: [KvSpec] and [KvList] (the namespace as a finite map, a
      relation for each command, and the proof that each handler refines it),
      [DmaSpec] ([xfer_post]), [RegsSpec] and [StateSpec] (the register image and
      the enable and shutdown state machine as the function [cc_next]),
      [AdminSpec] ([identify_fields], the fields of every Identify page by offset,
      [identify_fill_eq], and the effect of each admin command), [IoSpec] ([io_spec],
      one step of the abstract machine), [QueueSpec] ([sq_entry], one consumed
      entry), [System] (events, transitions and reachable states of the device),
      [Lifecycle] ([life], the flags of CC and CSTS as an abstract machine with one
      step for each callback), [History] (runs of the device labelled with the
      commands executed, and the abstract machine they follow), [ProcessSpec] (the
      grammar of the calls of [main]; [flat_serve], the server loop as one state
      machine).
    - Progress: [Keeps] (a calculus of what computations preserve, used for "every
      allocation succeeds"), [Progress] ([io_run], a batch of entries executed and
      completed), [HostRing] ([host_poll], a driver that polls by the phase tag, and
      the histories [ring_run] of a completion ring).
    - Theorems: [KvTheorems] (refinement of the handlers, store then retrieve, the
      reply of LIST as a host parses it, growth of the table), [DmaTheorems] (the
      place of every field on the wire, transfers),
      [CtrlTheorems] (registers, enable, shutdown, reset),
      [AdminTheorems] (the Identify pages, queue creation, features), [QueueTheorems]
      (termination and divergence of the engine, one iteration of it as one step of
      the abstract machine), [HostTheorems] (what each doorbell does; a doorbell
      completes its batch; the host finds exactly the completions posted),
      [DeviceTheorems] (safety, the invariant, the capacity accounting of every
      reachable state, whole histories as runs of the abstract key-value machine,
      initialisation, the life cycle, data stability, MSI-X), [CliTheorems],
      [ProcessTheorems] (no undefined behaviour from option parsing to exit, the
      resources released, the protocol of the server loop, signals, time stamps).  [Demo]
      is a concrete device on which they are instantiated and a whole session is run.

    ** Not modelled

    - The trace points inside the controller code, which print and change no state,
      and the messages of [main].
    - The sockets and message loop of libvfio-user: its effect is the sequence of
      callbacks of [System.event], with accesses of at most eight bytes to BAR 0,
      during [vfu_attach_ctx] and [vfu_run_ctx].  What [vfu_destroy_ctx] does to the
      device after its memory is freed is not modelled.  A library call that is never
      answered ends the model of the server loop ([OutOfFuel]).
    - [getopt_long], [clock_gettime] and the environment: their results are inputs.
    - The test programs, the build, vendored headers and patches.
    - Namespaces of more than 2^31 keys, which [main] allows: the code stores slot
      indices in an [int] there.

    ** Plan

    Further work: the bytes a host finds after a STORE and a RETRIEVE of several
    queues, stated on guest memory alone, and a namespace of more than 2^31 keys. *)

From Stdlib Require Import ZArith Lia List Bool.
From Stdlib Require Export Init.Byte.
From Stdlib Require Strings.Byte.
From stdpp Require Export base numbers list option gmap.

#[global] Open Scope Z_scope.

(** ** Outcomes of C code

    A piece of C code either finishes, or runs into undefined behaviour (a read
    or write out of bounds, a NULL dereference, an over-long shift, a division
    by zero), or has not finished within the number of iterations it was given.
    [OutOfFuel] is produced by the model of an unbounded loop only. *)

Inductive outcome (A : Type) : Type :=
| Done (a : A)
| Undef
| OutOfFuel.
Arguments Done {A} a.
Arguments Undef {A}.
Arguments OutOfFuel {A}.

(** State-passing computations over a state [St]. *)
Definition M (St A : Type) : Type := St → outcome (A * St).

#[export] Instance M_ret (St : Type) : MRet (M St) := λ A a s, Done (a, s).
#[export] Instance M_bind (St : Type) : MBind (M St) := λ A B k m s,
  match m s with
  | Done (a, s') => k a s'
  | Undef => Undef
  | OutOfFuel => OutOfFuel
  end.

Definition undef {St A : Type} : M St A := λ _, Undef.
Definition out_of_fuel {St A : Type} : M St A := λ _, OutOfFuel.
Definition gets {St A : Type} (f : St → A) : M St A := λ s, Done (f s, s).
Definition modify {St : Type} (f : St → St) : M St unit := λ s, Done (tt, f s).
Definition of_option {St A : Type} (o : option A) : M St A :=
  match o with Some a => mret a | None => undef end.

(** Run a computation on a component of the state. *)
Definition zoom {St T A : Type} (get : St → T) (put : T → St → St) (m : M T A) : M St A :=
  λ s, match m (get s) with
       | Done (a, t) => Done (a, put t s)
       | Undef => Undef
       | OutOfFuel => OutOfFuel
       end.

(** ** Loops

    [for_range lo hi l body] is [for (i = lo; i < hi; i++) body] with local
    variables [l]; the body goes on, breaks, or returns from the function. *)

Inductive flow (L R : Type) : Type :=
| Next (l : L)
| Break (l : L)
| Return (r : R).
Arguments Next {L R} l.
Arguments Break {L R} l.
Arguments Return {L R} r.

Fixpoint for_loop {St L R : Type} (n : nat) (i : Z) (l : L)
    (body : Z → L → M St (flow L R)) : M St (L + R) :=
  match n with
  | O => mret (inl l)
  | S n' =>
      f ← body i l;
      match f with
      | Next l' => for_loop n' (i + 1) l' body
      | Break l' => mret (inl l')
      | Return r => mret (inr r)
      end
  end.

Definition for_range {St L R : Type} (lo hi : Z) (l : L)
    (body : Z → L → M St (flow L R)) : M St (L + R) :=
  for_loop (Z.to_nat (hi - lo)) lo l body.

(** ** Total correctness

    [wp m Q s]: run from [s], [m] finishes without undefined behaviour in a
    result and a state that satisfy [Q]. *)

Definition wp {St A : Type} (m : M St A) (Q : A → St → Prop) (s : St) : Prop :=
  match m s with
  | Done (a, s') => Q a s'
  | Undef => False
  | OutOfFuel => False
  end.

Section wp_rules.
Context {St : Type}.

Lemma wp_ret {A} (a : A) (Q : A → St → Prop) s : Q a s → wp (mret a) Q s.
Proof. done. Qed.

Lemma wp_bind {A B} (m : M St A) (k : A → M St B) Q s :
  wp m (λ a s', wp (k a) Q s') s → wp (m ≫= k) Q s.
Proof. unfold wp, mbind, M_bind. by destruct (m s) as [[a s']| |]. Qed.

Lemma wp_gets {A} (f : St → A) (Q : A → St → Prop) s : Q (f s) s → wp (gets f) Q s.
Proof. done. Qed.

Lemma wp_modify (f : St → St) (Q : unit → St → Prop) s : Q tt (f s) → wp (modify f) Q s.
Proof. done. Qed.

Lemma wp_of_option {A} (o : option A) a (Q : A → St → Prop) s :
  o = Some a → Q a s → wp (of_option o) Q s.
Proof. by intros ->. Qed.

Lemma wp_mono {A} (m : M St A) (P Q : A → St → Prop) s :
  wp m P s → (∀ a s', P a s' → Q a s') → wp m Q s.
Proof. unfold wp. destruct (m s) as [[a s']| |]; auto. Qed.

Lemma wp_zoom {T A} (get : St → T) (put : T → St → St) (m : M T A) (Q : A → St → Prop) s :
  wp m (λ a t, Q a (put t s)) (get s) → wp (zoom get put m) Q s.
Proof. unfold wp, zoom. by destruct (m (get s)) as [[a t]| |]. Qed.

Lemma wp_done {A} (m : M St A) (Q : A → St → Prop) s :
  wp m Q s ↔ ∃ a s', m s = Done (a, s') ∧ Q a s'.
Proof.
  unfold wp. split.
  - destruct (m s) as [[a s']| |]; eauto; done.
  - by intros (a & s' & -> & HQ).
Qed.

Lemma wp_eq {A} (m m' : M St A) (Q : A → St → Prop) s : m s = m' s → wp m' Q s → wp m Q s.
Proof. unfold wp. by intros ->. Qed.

Lemma wp_run {A} (m : M St A) (Q : A → St → Prop) s a s' :
  m s = Done (a, s') → Q a s' → wp m Q s.
Proof. unfold wp. by intros ->. Qed.

(** The invariant rule: [I j] holds of the locals and the state before the
    [j]-th iteration. *)
Lemma wp_for_loop {L R} (I : nat → L → St → Prop) (Q : L + R → St → Prop)
    n i l body s :
  I 0%nat l s →
  (∀ j l s, (j < n)%nat → I j l s →
     wp (body (i + Z.of_nat j) l) (λ f s',
       match f with
       | Next l' => I (S j) l' s'
       | Break l' => Q (inl l') s'
       | Return r => Q (inr r) s'
       end) s) →
  (∀ l s, I n l s → Q (inl l) s) →
  wp (for_loop n i l body) Q s.
Proof.
  revert I i l s. induction n as [|n IH]; intros I i l s HI Hstep Hend; cbn.
  { by apply Hend. }
  apply wp_bind. eapply wp_mono.
  { replace i with (i + Z.of_nat 0) at 1 by lia. apply Hstep; [lia|done]. }
  intros [l'|l'|r] s' Hf; [|done..].
  apply (IH (λ j, I (S j))); [done| |by auto].
  intros j l1 s1 Hj HIj. replace (i + 1 + Z.of_nat j) with (i + Z.of_nat (S j)) by lia.
  apply Hstep; [lia|done].
Qed.

(** The first [k] iterations of a loop, when they all go on. *)
Lemma for_loop_skip {L R} (k m : nat) i (acc : nat → L)
    (body : Z → L → M St (flow L R)) s :
  (∀ j, (j < k)%nat → body (i + Z.of_nat j) (acc j) s = Done (Next (acc (S j)), s)) →
  for_loop (k + m) i (acc 0%nat) body s = for_loop m (i + Z.of_nat k) (acc k) body s.
Proof.
  revert i acc. induction k as [|k IH]; intros i acc Hj; cbn.
  { f_equal. lia. }
  unfold mbind, M_bind. specialize (Hj 0%nat) as H0.
  rewrite Z.add_0_r in H0. rewrite H0 by lia.
  rewrite (IH (i + 1) (λ j, acc (S j))).
  - f_equal. lia.
  - intros j Hlt. replace (i + 1 + Z.of_nat j) with (i + Z.of_nat (S j)) by lia.
    apply Hj. lia.
Qed.
End wp_rules.

(** Partial correctness with respect to fuel: [m] never runs into undefined
    behaviour, and a result it gives satisfies [Q]. *)
Definition safe {St A : Type} (m : M St A) (Q : A → St → Prop) (s : St) : Prop :=
  match m s with
  | Done (a, s') => Q a s'
  | Undef => False
  | OutOfFuel => True
  end.

Section safe_rules.
Context {St : Type}.

Lemma wp_safe {A} (m : M St A) (Q : A → St → Prop) s : wp m Q s → safe m Q s.
Proof. unfold wp, safe. by destruct (m s) as [[]| |]. Qed.

Lemma safe_bind {A B} (m : M St A) (k : A → M St B) Q s :
  safe m (λ a s', safe (k a) Q s') s → safe (m ≫= k) Q s.
Proof. unfold safe, mbind, M_bind. by destruct (m s) as [[a s']| |]. Qed.

Lemma safe_mono {A} (m : M St A) (P Q : A → St → Prop) s :
  safe m P s → (∀ a s', P a s' → Q a s') → safe m Q s.
Proof. unfold safe. destruct (m s) as [[a s']| |]; auto. Qed.
End safe_rules.

(** Monad laws, pointwise. *)
Lemma bind_ret_l {St A B} (a : A) (k : A → M St B) s : (mret a ≫= k) s = k a s.
Proof. done. Qed.

Lemma bind_run {St A B} (m : M St A) (k : A → M St B) s :
  (m ≫= k) s = match m s with
               | Done (a, s') => k a s'
               | Undef => Undef
               | OutOfFuel => OutOfFuel
               end.
Proof. done. Qed.

Lemma bind_done {St A B} (m : M St A) (k : A → M St B) s a s' :
  m s = Done (a, s') → (m ≫= k) s = k a s'.
Proof. unfold mbind, M_bind. by intros ->. Qed.

Lemma bind_undef {St A B} (m : M St A) (k : A → M St B) s :
  m s = Undef → (m ≫= k) s = Undef.
Proof. unfold mbind, M_bind. by intros ->. Qed.

(** ** Lists *)

Lemma list_insert_as_alter {A} (f : A → A) (l : list A) i x :
  l !! i = Some x → <[i:=f x]> l = alter f i l.
Proof.
  revert i. induction l as [|y l IH]; intros [|i]; cbn; [done..| |].
  - by intros [= ->].
  - intros Hi. f_equal. by apply IH.
Qed.

(** ** C integers *)

Definition u8 (z : Z) : Z := z mod 2 ^ 8.
Definition u16 (z : Z) : Z := z mod 2 ^ 16.
Definition u32 (z : Z) : Z := z mod 2 ^ 32.
Definition u64 (z : Z) : Z := z mod 2 ^ 64.
(** Conversion to a 32-bit [int] (two's complement). *)
Definition int32 (z : Z) : Z := (z + 2 ^ 31) mod 2 ^ 32 - 2 ^ 31.
(** Bitwise complement of a 32-bit unsigned. *)
Definition not32 (z : Z) : Z := 2 ^ 32 - 1 - z.

Lemma u8_small z : 0 ≤ z < 256 → u8 z = z.
Proof. apply Z.mod_small. Qed.
Lemma u16_small z : 0 ≤ z < 2 ^ 16 → u16 z = z.
Proof. apply Z.mod_small. Qed.
Lemma u32_small z : 0 ≤ z < 2 ^ 32 → u32 z = z.
Proof. apply Z.mod_small. Qed.
Lemma u64_small z : 0 ≤ z < 2 ^ 64 → u64 z = z.
Proof. apply Z.mod_small. Qed.
Lemma u16_range z : 0 ≤ u16 z < 2 ^ 16.
Proof. by apply Z.mod_pos_bound. Qed.
Lemma u32_range z : 0 ≤ u32 z < 2 ^ 32.
Proof. by apply Z.mod_pos_bound. Qed.
Lemma u64_range z : 0 ≤ u64 z < 2 ^ 64.
Proof. by apply Z.mod_pos_bound. Qed.
Lemma int32_small z : - 2 ^ 31 ≤ z < 2 ^ 31 → int32 z = z.
Proof. intros. unfold int32. rewrite Z.mod_small; lia. Qed.

Create HintDb cint.
(** Facts that the components export to one another. *)
Create HintDb kvssd.
Create Rewrite HintDb cint.
Create Rewrite HintDb lens.
#[export] Hint Rewrite u8_small u16_small u32_small u64_small int32_small using lia : cint.
#[export] Hint Resolve u16_range u32_range u64_range : cint.

(** A C condition on an integer. *)
Definition truthy (z : Z) : bool := negb (z =? 0).

(** Walk through a [wp] goal: one rule per syntactic construct. *)
Ltac wp_step :=
  first
    [ apply wp_bind
    | apply wp_ret
    | apply wp_gets
    | apply wp_modify
    | apply wp_zoom ].
Ltac wp_steps := repeat (wp_step; cbn beta iota zeta).
