(* ===== verification/Bytes.v ===== *)
(** * Bytes, little-endian integers and C buffers

    Bytes are [Init.Byte.byte], so a buffer is in range by typing.  A C object of
    [n] bytes is a [list byte] of length [n]; [buf_read] and [buf_write] are
    [memcpy] out of and into such an object and fail outside its bounds. *)

From S2P Require Import Prelude.

(** ** Bytes as integers *)

Definition Z_of_byte (b : byte) : Z := Z.of_N (Byte.to_N b).

Definition byte_of_Z (z : Z) : byte :=
  match Byte.of_N (Z.to_N (u8 z)) with
  | Some b => b
  | None => x00
  end.

#[export] Instance byte_eq_dec : EqDecision byte := Byte.byte_eq_dec.

Lemma byte_of_to_N b : Byte.of_N (Byte.to_N b) = Some b.
Proof. apply Byte.of_to_N. Qed.

#[export] Instance byte_countable : Countable byte :=
  inj_countable Byte.to_N Byte.of_N byte_of_to_N.

Lemma Z_of_byte_range b : 0 ≤ Z_of_byte b < 256.
Proof.
  unfold Z_of_byte. pose proof (Byte.to_N_bounded b). lia.
Qed.

Lemma Z_of_byte_inj b1 b2 : Z_of_byte b1 = Z_of_byte b2 → b1 = b2.
Proof.
  unfold Z_of_byte. intros H%N2Z.inj.
  pose proof (byte_of_to_N b1) as H1. rewrite H, byte_of_to_N in H1. congruence.
Qed.

Lemma Z_of_byte_of_Z z : Z_of_byte (byte_of_Z z) = u8 z.
Proof.
  unfold byte_of_Z. assert (0 ≤ u8 z < 256) by (by apply Z.mod_pos_bound).
  destruct (Byte.of_N (Z.to_N (u8 z))) as [b|] eqn:E.
  - unfold Z_of_byte. rewrite (Byte.to_of_N _ E). lia.
  - apply Byte.of_N_None_iff in E. lia.
Qed.

Lemma byte_of_Z_of_byte b : byte_of_Z (Z_of_byte b) = b.
Proof.
  apply Z_of_byte_inj. rewrite Z_of_byte_of_Z. apply u8_small, Z_of_byte_range.
Qed.

Lemma byte_of_Z_mod z1 z2 : u8 z1 = u8 z2 → byte_of_Z z1 = byte_of_Z z2.
Proof. intros H. apply Z_of_byte_inj. by rewrite !Z_of_byte_of_Z. Qed.

(** ** Little-endian integers *)

Fixpoint le_bytes (n : nat) (v : Z) : list byte :=
  match n with
  | O => []
  | S n' => byte_of_Z v :: le_bytes n' (v / 256)
  end.

Fixpoint le_val (bs : list byte) : Z :=
  match bs with
  | [] => 0
  | b :: bs' => Z_of_byte b + 256 * le_val bs'
  end.

Lemma length_le_bytes n v : length (le_bytes n v) = n.
Proof. revert v. induction n; intros; cbn; auto. Qed.

Lemma pow256_succ n : 256 ^ Z.of_nat (S n) = 256 * 256 ^ Z.of_nat n.
Proof. rewrite Nat2Z.inj_succ, Z.pow_succ_r by lia. done. Qed.

Lemma pow256_pos n : 0 < 256 ^ Z.of_nat n.
Proof. apply Z.pow_pos_nonneg; lia. Qed.

Lemma le_val_range bs : 0 ≤ le_val bs < 256 ^ Z.of_nat (length bs).
Proof.
  induction bs as [|b bs IH]; cbn [le_val length]; [done|].
  rewrite pow256_succ. pose proof (Z_of_byte_range b). lia.
Qed.

(** Decoding an encoded integer keeps its low [n] bytes. *)
Lemma le_val_le_bytes n v : le_val (le_bytes n v) = v mod 256 ^ Z.of_nat n.
Proof.
  revert v. induction n as [|n IH]; intros v; cbn [le_val le_bytes].
  { by rewrite Z.mod_1_r. }
  rewrite IH, Z_of_byte_of_Z, pow256_succ.
  pose proof (pow256_pos n). rewrite (Z.rem_mul_r v 256) by lia. done.
Qed.

Lemma le_val_le_bytes_small n v :
  0 ≤ v < 256 ^ Z.of_nat n → le_val (le_bytes n v) = v.
Proof. intros. rewrite le_val_le_bytes. by apply Z.mod_small. Qed.

(** Encoding a decoded buffer gives the buffer back. *)
Lemma le_bytes_le_val bs : le_bytes (length bs) (le_val bs) = bs.
Proof.
  induction bs as [|b bs IH]; cbn [le_val le_bytes length]; [done|].
  pose proof (Z_of_byte_range b). f_equal.
  - etrans; [|apply byte_of_Z_of_byte]. apply byte_of_Z_mod. unfold u8.
    rewrite (Z.add_comm (Z_of_byte b)), (Z.mul_comm 256), Z.add_comm.
    by rewrite Z.mod_add.
  - rewrite (Z.mul_comm 256), Z.div_add, Z.div_small by lia. apply IH.
Qed.

Lemma le_bytes_mod n v : le_bytes n (v mod 256 ^ Z.of_nat n) = le_bytes n v.
Proof.
  rewrite <-le_val_le_bytes. rewrite <-(length_le_bytes n v) at 1.
  apply le_bytes_le_val.
Qed.

Lemma le_bytes_inj n v1 v2 :
  0 ≤ v1 < 256 ^ Z.of_nat n → 0 ≤ v2 < 256 ^ Z.of_nat n →
  le_bytes n v1 = le_bytes n v2 → v1 = v2.
Proof.
  intros H1 H2 H. apply (f_equal le_val) in H.
  by rewrite !le_val_le_bytes_small in H.
Qed.

Lemma le_val_app bs1 bs2 :
  le_val (bs1 ++ bs2) = le_val bs1 + 256 ^ Z.of_nat (length bs1) * le_val bs2.
Proof.
  induction bs1 as [|b bs1 IH]; cbn [le_val app length].
  - change (256 ^ Z.of_nat 0) with 1. lia.
  - rewrite IH, pow256_succ. lia.
Qed.

Lemma le_bytes_app n m v :
  le_bytes (n + m) v = le_bytes n v ++ le_bytes m (v / 256 ^ Z.of_nat n).
Proof.
  revert v. induction n as [|n IH]; intros v; cbn [le_bytes Nat.add app].
  - by rewrite Z.div_1_r.
  - rewrite IH, pow256_succ. pose proof (pow256_pos n).
    by rewrite Z.div_div by lia.
Qed.

Lemma le_bytes_0 n : le_bytes n 0 = replicate n x00.
Proof. induction n; cbn; [done|]. by f_equal. Qed.

(** ** Buffers *)

Definition zeros (n : Z) : list byte := replicate (Z.to_nat n) x00.

(** The [n] bytes at offset [off], if they are inside the object. *)
Definition buf_read (buf : list byte) (off n : Z) : option (list byte) :=
  if (0 <=? off) && (0 <=? n) && (off + n <=? Z.of_nat (length buf))
  then Some (take (Z.to_nat n) (drop (Z.to_nat off) buf))
  else None.

(** Overwrite the bytes at offset [off], if they are inside the object. *)
Definition buf_write (buf : list byte) (off : Z) (bs : list byte) : option (list byte) :=
  if (0 <=? off) && (off + Z.of_nat (length bs) <=? Z.of_nat (length buf))
  then Some (take (Z.to_nat off) buf ++ bs ++ drop (Z.to_nat off + length bs) buf)
  else None.

Lemma buf_read_Some buf off n :
  0 ≤ off → 0 ≤ n → off + n ≤ Z.of_nat (length buf) →
  buf_read buf off n = Some (take (Z.to_nat n) (drop (Z.to_nat off) buf)).
Proof.
  intros. unfold buf_read.
  by rewrite !(proj2 (Z.leb_le _ _)) by lia.
Qed.

Lemma buf_read_inv buf off n bs :
  buf_read buf off n = Some bs →
  0 ≤ off ∧ 0 ≤ n ∧ off + n ≤ Z.of_nat (length buf) ∧ length bs = Z.to_nat n ∧
  bs = take (Z.to_nat n) (drop (Z.to_nat off) buf).
Proof.
  unfold buf_read. destruct (_ && _) eqn:E; [|done].
  intros [= <-]. rewrite !andb_true_iff, !Z.leb_le in E.
  rewrite length_take, length_drop. repeat split; lia.
Qed.

Lemma buf_write_Some buf off bs :
  0 ≤ off → off + Z.of_nat (length bs) ≤ Z.of_nat (length buf) →
  buf_write buf off bs =
    Some (take (Z.to_nat off) buf ++ bs ++ drop (Z.to_nat off + length bs) buf).
Proof. intros. unfold buf_write. by rewrite !(proj2 (Z.leb_le _ _)) by lia. Qed.

Lemma buf_write_0 buf bs :
  (length bs ≤ length buf)%nat →
  buf_write buf 0 bs = Some (bs ++ drop (length bs) buf).
Proof. intros. rewrite buf_write_Some by lia. done. Qed.

Lemma buf_write_length buf off bs buf' :
  buf_write buf off bs = Some buf' → length buf' = length buf.
Proof.
  unfold buf_write. destruct (_ && _) eqn:E; [|done]. intros [= <-].
  rewrite andb_true_iff, !Z.leb_le in E.
  rewrite !length_app, length_take, length_drop. lia.
Qed.

(** Writing over a segment of the same length. *)
Lemma buf_write_mid a b c off bs :
  off = Z.of_nat (length a) → length bs = length b →
  buf_write (a ++ b ++ c) off bs = Some (a ++ bs ++ c).
Proof.
  intros -> Hl. rewrite buf_write_Some by (rewrite ?length_app; lia).
  rewrite Nat2Z.id, take_app_length. do 2 f_equal.
  rewrite app_assoc, drop_app_length' by (rewrite length_app; lia). done.
Qed.

(** Reading back what was written. *)
Lemma buf_read_write_eq buf off bs buf' :
  buf_write buf off bs = Some buf' →
  buf_read buf' off (Z.of_nat (length bs)) = Some bs.
Proof.
  intros Hw. pose proof (buf_write_length _ _ _ _ Hw) as Hl. revert Hw.
  unfold buf_write. destruct (_ && _) eqn:E; [|done]. intros [= <-].
  rewrite andb_true_iff, !Z.leb_le in E.
  rewrite buf_read_Some by lia. f_equal.
  rewrite drop_app_ge by (rewrite length_take; lia).
  rewrite length_take. replace (_ - _)%nat with 0%nat by lia. rewrite drop_0.
  by rewrite Nat2Z.id, take_app_length.
Qed.

(** [memcmp (a, b, n)]: the sign of the first difference among the first [n]
    bytes; only its being zero matters to the callers. *)
Fixpoint memcmp (a b : list byte) (n : nat) : Z :=
  match n, a, b with
  | S n', x :: a', y :: b' =>
      if decide (x = y) then memcmp a' b' n' else Z_of_byte x - Z_of_byte y
  | _, _, _ => 0
  end.

Lemma memcmp_zero a b n :
  (n ≤ length a)%nat → (n ≤ length b)%nat →
  memcmp a b n = 0 ↔ take n a = take n b.
Proof.
  revert a b. induction n as [|n IH]; intros [|x a] [|y b] Ha Hb; cbn in *; try lia; [done..|].
  case_decide as Hxy.
  - subst. rewrite IH by lia. split; [by intros ->|by intros [= ->]].
  - split; [|by intros [= ]].
    intros H. destruct Hxy. apply Z_of_byte_inj. lia.
Qed.

#[export] Hint Resolve Z_of_byte_range le_val_range : cint.
#[export] Hint Rewrite length_le_bytes @length_app @length_replicate @length_take
  @length_drop @length_insert : lens.

#[global] Arguments le_bytes : simpl never.
#[global] Arguments le_val : simpl never.
#[global] Arguments zeros : simpl never.
#[global] Arguments buf_read : simpl never.
#[global] Arguments buf_write : simpl never.
#[global] Arguments memcmp : simpl never.
#[global] Arguments Z_of_byte : simpl never.
#[global] Arguments byte_of_Z : simpl never.
