(* ===== verification/NvmeSpec.v ===== *)
(** * The NVMe subset: constants and packed structures

    Models [include/kvssd_nvme_spec.h].  A packed C struct of integers is a
    record with an instance of [Packed]: its field widths in memory order and
    the conversions from and to the list of its fields.  [encode] and [decode]
    are then the bytes of the object and the object of the bytes, and a pointer
    cast between two structs of the same size is [cast]. *)

From S2P Require Import Prelude.
From S2P Require Import Bytes.

(** ** Constants *)

Definition KVSSD_PAGE_SIZE : Z := 4096.

(** KV I/O command opcodes. *)
Definition NVME_CMD_KV_STORE : Z := 0x01.
Definition NVME_CMD_KV_RETRIEVE : Z := 0x02.
Definition NVME_CMD_KV_LIST : Z := 0x06.
Definition NVME_CMD_KV_DELETE : Z := 0x10.
Definition NVME_CMD_KV_EXIST : Z := 0x14.

(** KV store options. *)
Definition NVME_CMD_KV_STORE_OPT_DONT_STORE_IF_KEY_NOT_EXISTS : Z := Z.shiftl 1 0.
Definition NVME_CMD_KV_STORE_OPT_DONT_STORE_IF_KEY_EXISTS : Z := Z.shiftl 1 1.
Definition NVME_CMD_KV_STORE_OPT_COMPRESS : Z := Z.shiftl 1 2.

(** Completion statuses. *)
Definition NVME_SUCCESS : Z := 0x0000.
Definition NVME_INVALID_OPCODE : Z := 0x0001.
Definition NVME_INVALID_FIELD : Z := 0x0002.
Definition NVME_CAP_EXCEEDED : Z := 0x0181.
Definition NVME_KV_INVALID_VAL_SIZE : Z := 0x0185.
Definition NVME_KV_INVALID_KEY_SIZE : Z := 0x0186.
Definition NVME_KV_KEY_NOT_EXISTS : Z := 0x0187.
Definition NVME_KV_KEY_EXISTS : Z := 0x0189.
Definition NVME_DNR : Z := 0x4000.

(** Command set identifiers. *)
Definition NVME_CSI_NVM : Z := 0x00.
Definition NVME_CSI_KV : Z := 0x01.
Definition NVME_CSI_ZONED : Z := 0x02.

(** KV namespace limits. *)
Definition NVME_KV_HARD_MAX_NUM_KEYS : Z := 2 ^ 32 - 1.
Definition NVME_KV_MAX_KEY_SIZE : Z := 16.
Definition NVME_KV_MAX_VAL_SIZE : Z := 4 * 1024.

(** ** Packed structures *)

Fixpoint pack (ws : list nat) (vs : list Z) : list byte :=
  match ws, vs with
  | w :: ws', v :: vs' => le_bytes w v ++ pack ws' vs'
  | _, _ => []
  end.

Fixpoint unpack (ws : list nat) (bs : list byte) : list Z :=
  match ws with
  | [] => []
  | w :: ws' => le_val (take w bs) :: unpack ws' (drop w bs)
  end.

Definition fits (w : nat) (v : Z) : Prop := 0 ≤ v < 256 ^ Z.of_nat w.

Lemma length_unpack ws bs : length (unpack ws bs) = length ws.
Proof. revert bs. induction ws; intros; cbn; auto. Qed.

Lemma length_pack ws vs : length vs = length ws → length (pack ws vs) = sum_list ws.
Proof.
  revert vs. induction ws as [|w ws IH]; intros [|v vs] [=]; cbn; [done|].
  rewrite length_app, length_le_bytes, IH; done.
Qed.

Lemma unpack_pack ws vs : Forall2 fits ws vs → unpack ws (pack ws vs) = vs.
Proof.
  induction 1 as [|w v ws vs Hf _ IH]; cbn; [done|].
  rewrite take_app_length', drop_app_length' by (by rewrite length_le_bytes).
  by rewrite le_val_le_bytes_small, IH.
Qed.

Lemma pack_unpack ws bs : length bs = sum_list ws → pack ws (unpack ws bs) = bs.
Proof.
  revert bs. induction ws as [|w ws IH]; intros bs Hl; cbn in *.
  { by destruct bs. }
  rewrite IH by (rewrite length_drop; lia).
  assert (Hw : length (take w bs) = w) by (rewrite length_take; lia).
  rewrite <-Hw at 1. rewrite le_bytes_le_val. apply take_drop.
Qed.

Lemma unpack_fits ws bs : length bs = sum_list ws → Forall2 fits ws (unpack ws bs).
Proof.
  revert bs. induction ws as [|w ws IH]; intros bs Hl; cbn in *; constructor.
  - unfold fits. pose proof (le_val_range (take w bs)) as H.
    rewrite length_take in H. replace (w `min` length bs)%nat with w in H by lia. done.
  - apply IH. rewrite length_drop. lia.
Qed.

(** The [i]-th field is the integer stored at its byte offset. *)
Lemma unpack_lookup ws bs i w :
  ws !! i = Some w →
  unpack ws bs !! i = Some (le_val (take w (drop (sum_list (take i ws)) bs))).
Proof.
  revert bs i. induction ws as [|w' ws IH]; intros bs [|i]; cbn; [done..| |].
  - by intros [= ->].
  - intros H. rewrite (IH _ _ H). by rewrite drop_drop.
Qed.

Class Packed (T : Type) := {
  layout : list nat;
  to_fields : T → list Z;
  of_fields : list Z → T;
  to_fields_length t : length (to_fields t) = length layout;
  of_to_fields t : of_fields (to_fields t) = t;
  to_of_fields l : length l = length layout → to_fields (of_fields l) = l;
}.
#[global] Hint Mode Packed ! : typeclass_instances.
Arguments layout T {_}.

Section packed.
Context {T : Type} `{Packed T}.

Definition sizeof : nat := sum_list (layout T).
Definition encode (t : T) : list byte := pack (layout T) (to_fields t).
Definition decode (bs : list byte) : T := of_fields (unpack (layout T) bs).
(** Every field holds a value of its C type. *)
Definition well_typed (t : T) : Prop := Forall2 fits (layout T) (to_fields t).

Lemma length_encode t : length (encode t) = sizeof.
Proof. apply length_pack, to_fields_length. Qed.

Lemma decode_encode t : well_typed t → decode (encode t) = t.
Proof. intros. unfold decode, encode. by rewrite unpack_pack, of_to_fields. Qed.

Lemma encode_decode bs : length bs = sizeof → encode (decode bs) = bs.
Proof.
  intros. unfold decode, encode.
  rewrite to_of_fields by apply length_unpack. by apply pack_unpack.
Qed.

Lemma decode_well_typed bs : length bs = sizeof → well_typed (decode bs).
Proof.
  intros. unfold well_typed, decode.
  rewrite to_of_fields by apply length_unpack. by apply unpack_fits.
Qed.
End packed.
Arguments sizeof T {_}.

(** [*(const B * )&a]. *)
Definition cast {A B : Type} `{Packed A, Packed B} (a : A) : B := decode (encode a).

(** ** The structures *)

(** The [i]-th field of a field list. *)
Local Notation "l .[ i ]" := (nth i l 0) (at level 1, left associativity, format "l .[ i ]").

(** Generic submission queue entry (64 bytes). *)
Record NvmeSqe : Type := {
  sqe_opcode : Z; sqe_flags : Z; sqe_cid : Z; sqe_nsid : Z;
  sqe_cdw2 : Z; sqe_cdw3 : Z; sqe_mptr : Z; sqe_prp1 : Z; sqe_prp2 : Z;
  sqe_cdw10 : Z; sqe_cdw11 : Z; sqe_cdw12 : Z; sqe_cdw13 : Z;
  sqe_cdw14 : Z; sqe_cdw15 : Z;
}.

(** Completion queue entry (16 bytes). *)
Record NvmeCqe : Type := {
  cqe_cdw0 : Z; cqe_cdw1 : Z; cqe_sq_head : Z; cqe_sq_id : Z;
  cqe_cid : Z; cqe_status : Z;
}.

(** KV command (64 bytes); [cmd_kl], [cmd_ro] and [cmd_rsvd] are [cdw11]. *)
Record NvmeKVCmd : Type := {
  cmd_opcode : Z; cmd_flags : Z; cmd_cid : Z; cmd_nsid : Z;
  cmd_key : Z; cmd_mptr : Z; cmd_prp1 : Z; cmd_prp2 : Z;
  cmd_hbs : Z; cmd_kl : Z; cmd_ro : Z; cmd_rsvd : Z;
  cmd_cdw12 : Z; cmd_cdw13 : Z; cmd_key_hi : Z;
}.

(** KV format descriptor (16 bytes). *)
Record NvmeKVF : Type := {
  kvf_kml : Z; kvf_rsvd2 : Z; kvf_fopt : Z; kvf_vml : Z; kvf_mnk : Z; kvf_rsvd12 : Z;
}.

(** Split a list of a known length into its elements. *)
Ltac explode_list l :=
  repeat (destruct l as [|? l]; [discriminate|]); destruct l; [|discriminate].

#[export, refine] Instance NvmeSqe_packed : Packed NvmeSqe := {|
  layout := [1;1;2;4;4;4;8;8;8;4;4;4;4;4;4]%nat;
  to_fields s :=
    [sqe_opcode s; sqe_flags s; sqe_cid s; sqe_nsid s; sqe_cdw2 s; sqe_cdw3 s;
     sqe_mptr s; sqe_prp1 s; sqe_prp2 s; sqe_cdw10 s; sqe_cdw11 s; sqe_cdw12 s;
     sqe_cdw13 s; sqe_cdw14 s; sqe_cdw15 s];
  of_fields l :=
    {| sqe_opcode := l.[0]; sqe_flags := l.[1]; sqe_cid := l.[2]; sqe_nsid := l.[3];
       sqe_cdw2 := l.[4]; sqe_cdw3 := l.[5]; sqe_mptr := l.[6]; sqe_prp1 := l.[7];
       sqe_prp2 := l.[8]; sqe_cdw10 := l.[9]; sqe_cdw11 := l.[10]; sqe_cdw12 := l.[11];
       sqe_cdw13 := l.[12]; sqe_cdw14 := l.[13]; sqe_cdw15 := l.[14] |};
|}.
Proof. all: [>done|by intros []|intros l Hl; by explode_list l]. Defined.

#[export, refine] Instance NvmeCqe_packed : Packed NvmeCqe := {|
  layout := [4;4;2;2;2;2]%nat;
  to_fields c := [cqe_cdw0 c; cqe_cdw1 c; cqe_sq_head c; cqe_sq_id c; cqe_cid c; cqe_status c];
  of_fields l :=
    {| cqe_cdw0 := l.[0]; cqe_cdw1 := l.[1]; cqe_sq_head := l.[2]; cqe_sq_id := l.[3];
       cqe_cid := l.[4]; cqe_status := l.[5] |};
|}.
Proof. all: [>done|by intros []|intros l Hl; by explode_list l]. Defined.

#[export, refine] Instance NvmeKVCmd_packed : Packed NvmeKVCmd := {|
  layout := [1;1;2;4;8;8;8;8;4;1;1;2;4;4;8]%nat;
  to_fields c :=
    [cmd_opcode c; cmd_flags c; cmd_cid c; cmd_nsid c; cmd_key c; cmd_mptr c;
     cmd_prp1 c; cmd_prp2 c; cmd_hbs c; cmd_kl c; cmd_ro c; cmd_rsvd c;
     cmd_cdw12 c; cmd_cdw13 c; cmd_key_hi c];
  of_fields l :=
    {| cmd_opcode := l.[0]; cmd_flags := l.[1]; cmd_cid := l.[2]; cmd_nsid := l.[3];
       cmd_key := l.[4]; cmd_mptr := l.[5]; cmd_prp1 := l.[6]; cmd_prp2 := l.[7];
       cmd_hbs := l.[8]; cmd_kl := l.[9]; cmd_ro := l.[10]; cmd_rsvd := l.[11];
       cmd_cdw12 := l.[12]; cmd_cdw13 := l.[13]; cmd_key_hi := l.[14] |};
|}.
Proof. all: [>done|by intros []|intros l Hl; by explode_list l]. Defined.

#[export, refine] Instance NvmeKVF_packed : Packed NvmeKVF := {|
  layout := [2;1;1;4;4;4]%nat;
  to_fields f :=
    [kvf_kml f; kvf_rsvd2 f; kvf_fopt f; kvf_vml f; kvf_mnk f; kvf_rsvd12 f];
  of_fields l :=
    {| kvf_kml := l.[0]; kvf_rsvd2 := l.[1]; kvf_fopt := l.[2]; kvf_vml := l.[3];
       kvf_mnk := l.[4]; kvf_rsvd12 := l.[5] |};
|}.
Proof. all: [>done|by intros []|intros l Hl; by explode_list l]. Defined.

(** KV-specific Identify Namespace data structure (4096 bytes). *)
Record NvmeIdNsKV : Type := {
  id_nsze : Z; id_rsvd8 : list byte; id_nuse : Z;
  id_nsfeat : Z; id_nkvf : Z; id_nmic : Z; id_rescap : Z; id_fpi : Z;
  id_rsvd29 : list byte; id_novg : Z; id_anagrpid : Z; id_rsvd40 : list byte;
  id_nsattr : Z; id_nvmsetid : Z; id_endgid : Z; id_nguid : list Z; id_eui64 : Z;
  id_kvf : list NvmeKVF; id_rsvd328 : list byte; id_vs : list byte;
}.

(** The bytes of the structure, in memory order. *)
Definition id_ns_bytes (d : NvmeIdNsKV) : list byte :=
  le_bytes 8 (id_nsze d) ++ id_rsvd8 d ++ le_bytes 8 (id_nuse d) ++
  pack [1;1;1;1;1]%nat [id_nsfeat d; id_nkvf d; id_nmic d; id_rescap d; id_fpi d] ++
  id_rsvd29 d ++ pack [4;4]%nat [id_novg d; id_anagrpid d] ++ id_rsvd40 d ++
  pack [1;2;2]%nat [id_nsattr d; id_nvmsetid d; id_endgid d] ++
  concat (le_bytes 8 <$> id_nguid d) ++ le_bytes 8 (id_eui64 d) ++
  concat (encode <$> id_kvf d) ++ id_rsvd328 d ++ id_vs d.

(** The lengths of the array members. *)
Definition id_ns_shape (d : NvmeIdNsKV) : Prop :=
  length (id_rsvd8 d) = 8%nat ∧ length (id_rsvd29 d) = 3%nat ∧
  length (id_rsvd40 d) = 3%nat ∧ length (id_nguid d) = 2%nat ∧
  length (id_kvf d) = 16%nat ∧ length (id_rsvd328 d) = Z.to_nat 3512 ∧
  length (id_vs d) = 256%nat.

Definition kvf_zero : NvmeKVF := Build_NvmeKVF 0 0 0 0 0 0.

(** [calloc (1, sizeof (NvmeIdNsKV))]. *)
Definition id_ns_zero : NvmeIdNsKV := {|
  id_nsze := 0; id_rsvd8 := zeros 8; id_nuse := 0;
  id_nsfeat := 0; id_nkvf := 0; id_nmic := 0; id_rescap := 0; id_fpi := 0;
  id_rsvd29 := zeros 3; id_novg := 0; id_anagrpid := 0; id_rsvd40 := zeros 3;
  id_nsattr := 0; id_nvmsetid := 0; id_endgid := 0; id_nguid := [0; 0]; id_eui64 := 0;
  id_kvf := replicate 16 kvf_zero; id_rsvd328 := zeros 3512; id_vs := zeros 256;
|}.

Definition set_id_nuse (d : NvmeIdNsKV) (nuse : Z) : NvmeIdNsKV := {|
  id_nsze := id_nsze d; id_rsvd8 := id_rsvd8 d; id_nuse := nuse;
  id_nsfeat := id_nsfeat d; id_nkvf := id_nkvf d; id_nmic := id_nmic d;
  id_rescap := id_rescap d; id_fpi := id_fpi d;
  id_rsvd29 := id_rsvd29 d; id_novg := id_novg d; id_anagrpid := id_anagrpid d;
  id_rsvd40 := id_rsvd40 d; id_nsattr := id_nsattr d; id_nvmsetid := id_nvmsetid d;
  id_endgid := id_endgid d; id_nguid := id_nguid d; id_eui64 := id_eui64 d;
  id_kvf := id_kvf d; id_rsvd328 := id_rsvd328 d; id_vs := id_vs d;
|}.

Lemma length_concat_uniform {A B} (f : A → list B) (l : list A) n :
  (∀ a, a ∈ l → length (f a) = n) → length (concat (f <$> l)) = (length l * n)%nat.
Proof.
  induction l as [|a l IH]; intros Hf; cbn; [done|].
  rewrite length_app, IH, Hf by (intros; try apply Hf; set_solver). lia.
Qed.

Lemma id_ns_bytes_length d : id_ns_shape d → Z.of_nat (length (id_ns_bytes d)) = 4096.
Proof.
  intros (H1 & H2 & H3 & H4 & H5 & H6 & H7). unfold id_ns_bytes.
  rewrite !length_app, !length_le_bytes, !length_pack by done.
  rewrite (length_concat_uniform _ _ 8) by (intros; apply length_le_bytes).
  rewrite (length_concat_uniform _ _ 16) by (intros; by rewrite length_encode).
  rewrite H1, H2, H3, H4, H5, H6, H7. cbn. lia.
Qed.

Lemma id_ns_shape_zero : id_ns_shape id_ns_zero.
Proof. repeat split. Qed.

Lemma id_ns_shape_set_nuse d v : id_ns_shape d → id_ns_shape (set_id_nuse d v).
Proof. done. Qed.

#[export] Hint Resolve id_ns_shape_zero id_ns_shape_set_nuse : kvssd.
