(* ===== verification/Kv.v ===== *)
(** * The in-memory KV namespace and its command handlers

    Models [src/kv.h] and [src/kv.c].  A handler runs on the namespace and on
    the world [W] of its caller: the allocator ([Heap]) and the host-data
    callbacks ([kv_dma]) act on [W] only.  [struct kv_ns] owns its two heap
    objects, so a pointer member is an [option]: [None] is [NULL]. *)

From S2P Require Import Prelude.
From S2P Require Import Bytes.
From S2P Require Import NvmeSpec.

(** ** The interfaces the handlers use *)

(** [malloc]/[calloc]/[realloc]: whether the next request is granted, and what a
    fresh uninitialised byte holds. *)
Class Heap (W : Type) := {
  heap_alloc : W → bool * W;
  heap_junk : Z → byte;
}.

Definition alloc {W} `{Heap W} : M W bool := λ w, Done (heap_alloc w).

(** [struct kv_dma].  [h2c cmd dst len] gives the return code and the new
    contents of [dst]; [c2h cmd src len] gives the return code. *)
Record kv_dma (W : Type) : Type := {
  h2c : NvmeKVCmd → list byte → Z → M W (Z * list byte);
  c2h : NvmeKVCmd → list byte → Z → M W Z;
}.
Arguments h2c {W} k.
Arguments c2h {W} k.

(** ** Data *)

Record kv_pair : Type := {
  p_key : list byte;   (* uint8_t key[16] *)
  p_kl : Z;            (* size_t kl *)
  p_val : list byte;   (* uint8_t val[NVME_KV_MAX_VAL_SIZE] *)
  p_used : bool;
}.

Record kv_ns : Type := {
  ns_pairs : option (list kv_pair);
  ns_entries_allocated : Z;
  ns_max_num_keys : Z;
  ns_id_ns_kv : option NvmeIdNsKV;
  ns_ednek : Z;
}.

Definition KV_INITIAL_ENTRIES : Z := 16.
(** [NVME_KV_MAX_KEY_SIZE + NVME_KV_MAX_VAL_SIZE]: what one key adds to NUSE. *)
Definition SLOT : Z := NVME_KV_MAX_KEY_SIZE + NVME_KV_MAX_VAL_SIZE.
(** [sizeof (struct kv_pair)] on the LP64 targets. *)
Definition SIZEOF_KV_PAIR : Z := 16 + 8 + 4096 + 1 + 7.

(** A slot filled with zero bytes. *)
Definition zero_pair : kv_pair :=
  {| p_key := zeros 16; p_kl := 0; p_val := zeros NVME_KV_MAX_VAL_SIZE; p_used := false |}.

Definition pair_set_val (p : kv_pair) (v : list byte) : kv_pair :=
  {| p_key := p_key p; p_kl := p_kl p; p_val := v; p_used := p_used p |}.

Definition ns_set_pairs (ns : kv_ns) (ps : option (list kv_pair)) : kv_ns :=
  {| ns_pairs := ps; ns_entries_allocated := ns_entries_allocated ns;
     ns_max_num_keys := ns_max_num_keys ns; ns_id_ns_kv := ns_id_ns_kv ns;
     ns_ednek := ns_ednek ns |}.
Definition ns_set_entries (ns : kv_ns) (n : Z) : kv_ns :=
  {| ns_pairs := ns_pairs ns; ns_entries_allocated := n;
     ns_max_num_keys := ns_max_num_keys ns; ns_id_ns_kv := ns_id_ns_kv ns;
     ns_ednek := ns_ednek ns |}.
Definition ns_set_id (ns : kv_ns) (id : option NvmeIdNsKV) : kv_ns :=
  {| ns_pairs := ns_pairs ns; ns_entries_allocated := ns_entries_allocated ns;
     ns_max_num_keys := ns_max_num_keys ns; ns_id_ns_kv := id;
     ns_ednek := ns_ednek ns |}.
Definition ns_set_ednek (ns : kv_ns) (e : Z) : kv_ns :=
  {| ns_pairs := ns_pairs ns; ns_entries_allocated := ns_entries_allocated ns;
     ns_max_num_keys := ns_max_num_keys ns; ns_id_ns_kv := ns_id_ns_kv ns;
     ns_ednek := e |}.

(** The bytes of [&cmd->key] and [&cmd->key_hi]. *)
Definition cmd_key_lo_bytes (cmd : NvmeKVCmd) : list byte := le_bytes 8 (cmd_key cmd).
Definition cmd_key_hi_bytes (cmd : NvmeKVCmd) : list byte := le_bytes 8 (cmd_key_hi cmd).

#[global] Arguments cmd_key_lo_bytes : simpl never.
#[global] Arguments cmd_key_hi_bytes : simpl never.

Definition kv_key_match (cmd : NvmeKVCmd) (p : kv_pair) : bool :=
  if negb (p_used p) then false
  else if negb (cmd_kl cmd =? p_kl p) then false
  else if truthy (memcmp (cmd_key_lo_bytes cmd) (p_key p) (Z.to_nat (cmd_kl cmd `min` 8)))
  then false
  else if 8 <? cmd_kl cmd then
    negb (truthy (memcmp (cmd_key_hi_bytes cmd) (drop 8 (p_key p))
                    (Z.to_nat ((cmd_kl cmd - 8) `min` 8))))
  else true.

Definition kv_key_store (p : kv_pair) (cmd : NvmeKVCmd) : option kv_pair :=
  lo ← buf_read (cmd_key_lo_bytes cmd) 0 (cmd_kl cmd `min` 8);
  key ← buf_write (p_key p) 0 lo;
  key ← (if 8 <? cmd_kl cmd then
           hi ← buf_read (cmd_key_hi_bytes cmd) 0 ((cmd_kl cmd - 8) `min` 8);
           buf_write key 8 hi
         else Some key);
  Some {| p_key := key; p_kl := cmd_kl cmd `min` 16; p_val := p_val p; p_used := true |}.

(** ** The table *)

Section kv.
Context {W : Type} `{Heap W} (dma : kv_dma W).
Abbreviation KV := (M (kv_ns * W)).

Definition in_world {A} (m : M W A) : KV A :=
  zoom snd (λ w s, (s.1, w)) m.
Definition get_ns : KV kv_ns := gets fst.
Definition put_ns (ns : kv_ns) : KV unit := modify (λ s, (ns, s.2)).

(** [ns->pairs[i]] as a value and as the target of an assignment. *)
Definition pair_at (i : Z) : KV kv_pair :=
  ns ← get_ns;
  match ns_pairs ns with
  | None => undef
  | Some ps => if i <? 0 then undef else of_option (ps !! Z.to_nat i)
  end.

Definition set_pair_at (i : Z) (p : kv_pair) : KV unit :=
  ns ← get_ns;
  match ns_pairs ns with
  | None => undef
  | Some ps =>
      if (i <? 0) || (Z.of_nat (length ps) <=? i) then undef
      else put_ns (ns_set_pairs ns (Some (<[Z.to_nat i := p]> ps)))
  end.

(** [ns->id_ns_kv->nuse], read and written. *)
Definition get_nuse : KV Z :=
  ns ← get_ns;
  id ← of_option (ns_id_ns_kv ns);
  mret (id_nuse id).

Definition set_nuse (v : Z) : KV unit :=
  ns ← get_ns;
  id ← of_option (ns_id_ns_kv ns);
  put_ns (ns_set_id ns (Some (set_id_nuse id v))).

(** ** Life cycle *)

(** The assignments of [kv_ns_init] to [*id]. *)
Definition id_ns_fill (id : NvmeIdNsKV) (max_num_keys : Z) : NvmeIdNsKV :=
  {| id_nsze := u64 (max_num_keys * SLOT);
     id_rsvd8 := id_rsvd8 id; id_nuse := 0; id_nsfeat := id_nsfeat id;
     id_nkvf := 1;
     id_nmic := id_nmic id; id_rescap := id_rescap id; id_fpi := id_fpi id;
     id_rsvd29 := id_rsvd29 id; id_novg := id_novg id; id_anagrpid := id_anagrpid id;
     id_rsvd40 := id_rsvd40 id; id_nsattr := id_nsattr id;
     id_nvmsetid := id_nvmsetid id; id_endgid := id_endgid id;
     id_nguid := id_nguid id; id_eui64 := id_eui64 id;
     id_kvf := <[0%nat := {| kvf_kml := NVME_KV_MAX_KEY_SIZE; kvf_rsvd2 := 0;
                             kvf_fopt := 0; kvf_vml := NVME_KV_MAX_VAL_SIZE;
                             kvf_mnk := max_num_keys; kvf_rsvd12 := 0 |}]> (id_kvf id);
     id_rsvd328 := id_rsvd328 id; id_vs := id_vs id |}.
Definition id_ns_init (max_num_keys : Z) : NvmeIdNsKV := id_ns_fill id_ns_zero max_num_keys.

(** The pointer [id] is [None] for [NULL]; assigning through it is then undefined. *)
Definition kv_ns_init (max_num_keys : Z) : KV Z :=
  id_ok ← in_world alloc;
  let id := if id_ok : bool then Some id_ns_zero else None in
  if negb (bool_decide (is_Some id)) then mret (-1) else
  pairs_ok ← in_world alloc;
  ns ← get_ns;
  put_ns (ns_set_pairs ns
    (if pairs_ok : bool then Some (replicate (Z.to_nat KV_INITIAL_ENTRIES) zero_pair)
     else None));;
  ns ← get_ns;
  if negb (bool_decide (is_Some (ns_pairs ns))) then mret (-1) else
  id ← of_option id;
  put_ns {|
    ns_pairs := ns_pairs ns;
    ns_entries_allocated := KV_INITIAL_ENTRIES;
    ns_max_num_keys := max_num_keys;
    ns_ednek := 0;
    ns_id_ns_kv := Some (id_ns_fill id max_num_keys)
  |};;
  mret 0.

Definition kv_ns_teardown : KV unit :=
  ns ← get_ns;
  put_ns {| ns_pairs := None; ns_id_ns_kv := None; ns_entries_allocated := 0;
            ns_max_num_keys := ns_max_num_keys ns; ns_ednek := ns_ednek ns |}.

(** ** STORE *)

(** [dma->h2c (dma->ctx, cmd, ns->pairs[i].val, cmd->hbs)]. *)
Definition h2c_into_val (cmd : NvmeKVCmd) (i : Z) : KV Z :=
  p ← pair_at i;
  r ← in_world (h2c dma cmd (p_val p) (cmd_hbs cmd));
  set_pair_at i (pair_set_val p r.2);;
  mret r.1.

(** A slot of freshly [realloc]ed, uninitialised memory. *)
Definition junk_pair : kv_pair := {|
  p_key := heap_junk <$> seqZ 0 16; p_kl := Z_of_byte (heap_junk 16);
  p_val := heap_junk <$> seqZ 24 4096; p_used := negb (Z_of_byte (heap_junk 4120) =? 0) |}.

(** [realloc (pairs, bytes)]: as many whole slots as fit in [bytes]. *)
Definition realloc_pairs (ps : list kv_pair) (bytes : Z) : list kv_pair :=
  let n := Z.to_nat (bytes / SIZEOF_KV_PAIR) in
  take n ps ++ replicate (n - length ps) junk_pair.

(** [memset (&ps[lo], 0, (hi - lo) * sizeof ( *ps))]. *)
Definition memset_pairs (ps : list kv_pair) (lo hi : Z) : option (list kv_pair) :=
  if (0 <=? lo) && (lo <=? hi) && (hi <=? Z.of_nat (length ps))
  then Some (take (Z.to_nat lo) ps ++ replicate (Z.to_nat (hi - lo)) zero_pair ++
             drop (Z.to_nat hi) ps)
  else None.

(** The body of [if (fst_empty < 0)]: double the table.  Gives the slot to
    use, or nothing when the allocation fails. *)
Definition kv_grow : KV (option Z) :=
  ns ← get_ns;
  let new_entries := u64 (ns_entries_allocated ns * 2) in
  ok ← in_world alloc;
  if negb ok then mret None else
  ps ← of_option (ns_pairs ns);
  ps' ← of_option (memset_pairs
           (realloc_pairs ps (u64 (new_entries * SIZEOF_KV_PAIR)))
           (ns_entries_allocated ns) new_entries);
  put_ns (ns_set_entries (ns_set_pairs ns (Some ps')) new_entries);;
  mret (Some (int32 (ns_entries_allocated ns))).

(** The part of [kv_store] after the search: insert a new key. *)
Definition kv_store_new (cmd : NvmeKVCmd) (fst_empty : Z) : KV Z :=
  if truthy (Z.land (cmd_ro cmd) NVME_CMD_KV_STORE_OPT_DONT_STORE_IF_KEY_NOT_EXISTS)
  then mret NVME_KV_KEY_NOT_EXISTS else
  nuse ← get_nuse;
  ns ← get_ns;
  if ns_max_num_keys ns <=? nuse / SLOT then mret NVME_CAP_EXCEEDED else
  slot ← (if fst_empty <? 0 then kv_grow else mret (Some fst_empty));
  match slot with
  | None => mret NVME_CAP_EXCEEDED
  | Some fst_empty =>
      p ← pair_at fst_empty;
      p' ← of_option (kv_key_store p cmd);
      set_pair_at fst_empty p';;
      nuse ← get_nuse;
      set_nuse (u64 (nuse + SLOT));;
      rc ← h2c_into_val cmd fst_empty;
      if truthy rc then mret NVME_INVALID_FIELD else mret NVME_SUCCESS
  end.

Definition kv_store (cmd : NvmeKVCmd) : KV Z :=
  if 16 <? cmd_kl cmd then mret NVME_KV_INVALID_KEY_SIZE else
  if NVME_KV_MAX_VAL_SIZE <? cmd_hbs cmd then mret NVME_KV_INVALID_VAL_SIZE else
  ns ← get_ns;
  r ← for_range 0 (ns_entries_allocated ns) (-1) (λ i fst_empty,
    p ← pair_at i;
    let fst_empty :=
      if (fst_empty <? 0) && negb (p_used p) then int32 i else fst_empty in
    if kv_key_match cmd p then
      if truthy (Z.land (cmd_ro cmd) NVME_CMD_KV_STORE_OPT_DONT_STORE_IF_KEY_EXISTS)
      then mret (Return NVME_KV_KEY_EXISTS)
      else
        rc ← h2c_into_val cmd i;
        if truthy rc then mret (Return NVME_INVALID_FIELD)
        else mret (Return NVME_SUCCESS)
    else mret (Next fst_empty));
  match r with
  | inr status => mret status
  | inl fst_empty => kv_store_new cmd fst_empty
  end.

(** ** RETRIEVE, DELETE, EXIST *)

Definition kv_retrieve (cmd : NvmeKVCmd) : KV Z :=
  if 16 <? cmd_kl cmd then mret NVME_INVALID_FIELD else
  ns ← get_ns;
  r ← for_range 0 (ns_entries_allocated ns) tt (λ i _,
    p ← pair_at i;
    if kv_key_match cmd p then
      let len := cmd_hbs cmd `min` NVME_KV_MAX_VAL_SIZE in
      rc ← in_world (c2h dma cmd (p_val p) len);
      if truthy rc then mret (Return NVME_INVALID_FIELD)
      else mret (Return NVME_SUCCESS)
    else mret (Next tt));
  match r with
  | inr status => mret status
  | inl _ => mret NVME_KV_KEY_NOT_EXISTS
  end.

Definition kv_delete (cmd : NvmeKVCmd) : KV Z :=
  if 16 <? cmd_kl cmd then mret NVME_INVALID_FIELD else
  ns ← get_ns;
  r ← for_range 0 (ns_entries_allocated ns) tt (λ i _,
    p ← pair_at i;
    if kv_key_match cmd p then
      set_pair_at i zero_pair;;
      nuse ← get_nuse;
      set_nuse (u64 (nuse - SLOT));;
      mret (Return NVME_SUCCESS)
    else mret (Next tt));
  match r with
  | inr status => mret status
  | inl _ =>
      ns ← get_ns;
      if truthy (Z.land (ns_ednek ns) 0x01) then mret NVME_KV_KEY_NOT_EXISTS
      else mret NVME_SUCCESS
  end.

Definition kv_exist (cmd : NvmeKVCmd) : KV Z :=
  if 16 <? cmd_kl cmd then mret NVME_INVALID_FIELD else
  ns ← get_ns;
  r ← for_range 0 (ns_entries_allocated ns) tt (λ i _,
    p ← pair_at i;
    if kv_key_match cmd p then mret (Return NVME_SUCCESS) else mret (Next tt));
  match r with
  | inr status => mret status
  | inl _ => mret NVME_KV_KEY_NOT_EXISTS
  end.

(** ** LIST *)

Definition kls_size : Z := 2.   (* sizeof (uint16_t) *)
Definition rds_hdr : Z := 4.    (* sizeof (uint32_t) *)

(** [realloc (rds, n)] of the return data structure. *)
Definition realloc_bytes (buf : list byte) (n : Z) : list byte :=
  take (Z.to_nat n) buf ++
  (heap_junk <$> seqZ (Z.of_nat (length buf)) (n - Z.of_nat (length buf))).

(** One key data structure appended at [rds_size]: the zero pad, the key
    length, the key, and the count of returned keys at the start. *)
Definition rds_append (rds : list byte) (rds_size : Z) (p : kv_pair)
    (kds_wo_pad kds : Z) : option (list byte) :=
  rds ← (if kds_wo_pad <? kds
         then buf_write rds (rds_size + kds_wo_pad) (zeros (kds - kds_wo_pad))
         else Some rds);
  rds ← buf_write rds rds_size (le_bytes 2 (u16 (p_kl p)));
  key ← buf_read (p_key p) 0 (p_kl p);
  rds ← buf_write rds (rds_size + kls_size) key;
  nrk ← buf_read rds 0 2;
  buf_write rds 0 (le_bytes 2 (u16 (le_val nrk + 1))).

(** The body of the second loop, with the locals [rds] and [rds_size]. *)
Definition list_step (cmd : NvmeKVCmd) (i : Z) (l : list byte * Z) :
    KV (flow (list byte * Z) Z) :=
  let '(rds, rds_size) := l in
  p ← pair_at i;
  if negb (p_used p) then mret (Next (rds, rds_size)) else
  let kds_wo_pad := u64 (kls_size + p_kl p) in
  let kds := u64 (kds_wo_pad + kds_wo_pad mod 4) in
  ok ← in_world alloc;
  if negb ok then mret (Return NVME_CAP_EXCEEDED) else
  let rds := realloc_bytes rds (u64 (rds_size + kds)) in
  if cmd_hbs cmd <? u64 (rds_size + kds) then mret (Break (rds, rds_size)) else
  rds ← of_option (rds_append rds rds_size p kds_wo_pad kds);
  mret (Next (rds, u64 (rds_size + kds))).

Definition kv_list (cmd : NvmeKVCmd) : KV Z :=
  rds_ok ← in_world alloc;
  if 16 <? cmd_kl cmd then mret NVME_INVALID_FIELD else
  if negb rds_ok then mret NVME_CAP_EXCEEDED else
  ns ← get_ns;
  f ← for_range 0 (ns_entries_allocated ns) 0 (λ i first_entry,
    p ← pair_at i;
    if kv_key_match cmd p then mret (@Break Z Z i) else mret (Next first_entry));
  let first_entry := match f with inl i => i | inr i => i end in
  r ← for_range first_entry (ns_entries_allocated ns) (zeros rds_hdr, rds_hdr)
        (list_step cmd);
  match r with
  | inr status => mret status
  | inl (rds, rds_size) =>
      rc ← in_world (c2h dma cmd rds rds_size);
      if truthy rc then mret NVME_INVALID_FIELD else mret NVME_SUCCESS
  end.
End kv.
