(* ===== verification/KvTable.v ===== *)
(** * The slot table as a finite map

    The facts about [struct kv_pair] arrays that every handler of [Kv] needs:
    key comparison, the search for a key, the map from keys to values that a
    table stands for, and how assigning one slot changes that map. *)

From S2P Require Import Prelude.
From S2P Require Import Bytes.
From S2P Require Import NvmeSpec.
From S2P Require Import Kv.

(** ** Keys *)

(** The key of a command and of a slot: the first [kl] bytes. *)
Definition ckey (cmd : NvmeKVCmd) : list byte :=
  take (Z.to_nat (cmd_kl cmd)) (cmd_key_lo_bytes cmd ++ cmd_key_hi_bytes cmd).
Definition pkey (p : kv_pair) : list byte := take (Z.to_nat (p_kl p)) (p_key p).

(** A slot is well formed: its arrays have their sizes, its key length is at
    most 16, and a slot that is not in use is all zero. *)
Record pair_wf (p : kv_pair) : Prop := {
  pw_key : length (p_key p) = 16%nat;
  pw_val : Z.of_nat (length (p_val p)) = 4096;
  pw_kl : 0 ≤ p_kl p ≤ 16;
  pw_zero : p_used p = false → p = zero_pair;
}.

Lemma zero_pair_wf : pair_wf zero_pair.
Proof. by split. Qed.

Lemma pair_set_val_wf p v :
  pair_wf p → p_used p = true → Z.of_nat (length v) = 4096 → pair_wf (pair_set_val p v).
Proof. intros [? ? ? ?] Hu Hv. split; cbn; [done..|]. by rewrite Hu. Qed.

(** The range facts of a command decoded from 64 bytes. *)
Lemma cmd_fits cmd :
  well_typed cmd →
  0 ≤ cmd_kl cmd < 256 ∧ 0 ≤ cmd_ro cmd < 256 ∧ 0 ≤ cmd_hbs cmd < 2 ^ 32 ∧
  0 ≤ cmd_key cmd < 2 ^ 64 ∧ 0 ≤ cmd_key_hi cmd < 2 ^ 64.
Proof.
  unfold well_typed. cbn. rewrite !Forall2_cons. unfold fits.
  change (256 ^ Z.of_nat 1) with 256. change (256 ^ Z.of_nat 4) with (2 ^ 32).
  change (256 ^ Z.of_nat 8) with (2 ^ 64). intuition.
Qed.

Lemma length_key_bytes cmd :
  length (cmd_key_lo_bytes cmd) = 8%nat ∧ length (cmd_key_hi_bytes cmd) = 8%nat.
Proof. split; apply length_le_bytes. Qed.

(** A prefix of two concatenated halves, compared half by half as the code does. *)
Lemma take_halves {A} (a b c : list A) (n : nat) :
  length a = 8%nat → length b = 8%nat → length c = 16%nat → (n ≤ 16)%nat →
  take n (a ++ b) = take n c ↔
  take (n `min` 8) a = take (n `min` 8) c ∧
  ((8 < n)%nat → take (n - 8) b = take (n - 8) (drop 8 c)).
Proof.
  intros Ha Hb Hc Hn. rewrite take_app, Ha.
  assert (Hc' : take n c = take (n `min` 8) c ++ take (n - 8) (drop 8 c)).
  { destruct (decide (n ≤ 8)%nat).
    - replace (n `min` 8)%nat with n by lia. replace (n - 8)%nat with 0%nat by lia.
      by rewrite app_nil_r.
    - replace (n `min` 8)%nat with 8%nat by lia. rewrite take_take_drop. f_equal. lia. }
  assert (Ha' : take n a = take (n `min` 8) a).
  { destruct (decide (n ≤ 8)%nat); [f_equal; lia|].
    rewrite !take_ge by lia. done. }
  rewrite Hc', Ha'. split.
  - intros [H1 H2]%app_inj_1; [|rewrite !length_take; lia]. done.
  - intros [-> H2]. f_equal. destruct (decide (8 < n)%nat); [by apply H2|].
    by replace (n - 8)%nat with 0%nat by lia.
Qed.

Lemma kv_key_match_spec cmd p :
  0 ≤ cmd_kl cmd ≤ 16 → pair_wf p →
  kv_key_match cmd p = true ↔ p_used p = true ∧ pkey p = ckey cmd.
Proof.
  intros Hkl [Hk _ Hpkl _]. unfold kv_key_match, pkey, ckey, truthy.
  destruct (length_key_bytes cmd) as [Hlo Hhi].
  destruct (p_used p); cbn; [|by split; [|intros []]].
  destruct (Z.eqb_spec (cmd_kl cmd) (p_kl p)) as [Heq|Hne]; cbn.
  2:{ split; [done|]. intros [_ Ht]. apply (f_equal length) in Ht.
      rewrite !length_take, length_app in Ht. lia. }
  rewrite <-Heq. set (n := Z.to_nat (cmd_kl cmd)).
  replace (Z.to_nat (cmd_kl cmd `min` 8)) with (n `min` 8)%nat by lia.
  pose proof (take_halves _ _ (p_key p) n Hlo Hhi Hk ltac:(lia)) as Hh.
  assert (Hm : memcmp (cmd_key_lo_bytes cmd) (p_key p) (n `min` 8) = 0 ↔
    take (n `min` 8) (cmd_key_lo_bytes cmd) = take (n `min` 8) (p_key p))
    by (apply memcmp_zero; lia).
  destruct (Z.eqb_spec (memcmp (cmd_key_lo_bytes cmd) (p_key p) (n `min` 8)) 0) as [E|E]; cbn.
  2:{ split; [done|]. intros [_ Ht]. destruct E. apply Hm. by apply Hh. }
  destruct (Z.ltb_spec 8 (cmd_kl cmd)).
  - replace (Z.to_nat _) with (n - 8)%nat by lia.
    assert (Hm' : memcmp (cmd_key_hi_bytes cmd) (drop 8 (p_key p)) (n - 8) = 0 ↔
      take (n - 8) (cmd_key_hi_bytes cmd) = take (n - 8) (drop 8 (p_key p)))
      by (apply memcmp_zero; rewrite ?length_drop; lia).
    rewrite negb_involutive, Z.eqb_eq, Hm'. split.
    + intros Ht. split; [done|]. symmetry. apply Hh. split; [by apply Hm|done].
    + intros [_ Ht]. symmetry in Ht. apply Hh in Ht as [_ Ht]. apply Ht. lia.
  - split; [|done]. intros _. split; [done|]. symmetry. apply Hh.
    split; [by apply Hm|lia].
Qed.

(** Storing a key in a slot makes it the key of the slot. *)
Lemma kv_key_store_spec cmd p :
  0 ≤ cmd_kl cmd ≤ 16 → pair_wf p →
  ∃ p', kv_key_store p cmd = Some p' ∧ pair_wf p' ∧ p_used p' = true ∧
        pkey p' = ckey cmd ∧ p_val p' = p_val p.
Proof.
  intros Hkl [Hk Hv Hpkl _]. destruct (length_key_bytes cmd) as [Hlo Hhi].
  unfold kv_key_store, pkey, ckey. set (n := Z.to_nat (cmd_kl cmd)).
  rewrite (buf_read_Some (cmd_key_lo_bytes cmd)) by lia. cbn -[Z.min].
  replace (Z.to_nat (cmd_kl cmd `min` 8)) with (n `min` 8)%nat by lia.
  rewrite drop_0, buf_write_0 by (rewrite length_take; lia). cbn -[Z.min].
  set (key1 := take _ _ ++ _).
  assert (H1 : length key1 = 16%nat)
    by (unfold key1; rewrite length_app, length_drop, length_take; lia).
  assert (Ht1 : take (n `min` 8) key1 = take (n `min` 8) (cmd_key_lo_bytes cmd)).
  { unfold key1. by rewrite take_app_length' by (rewrite length_take; lia). }
  destruct (Z.ltb_spec 8 (cmd_kl cmd)) as [Hgt|Hle].
  - rewrite buf_read_Some by lia. cbn -[Z.min].
    replace (Z.to_nat ((cmd_kl cmd - 8) `min` 8)) with (n - 8)%nat by lia.
    rewrite drop_0, buf_write_Some by (rewrite ?length_take; lia). cbn -[Z.min].
    change (Z.to_nat 8) with 8%nat. eexists. split; [done|].
    cbn -[Z.min take drop]. split_and!; [|done| |done].
    + split; cbn -[Z.min take drop]; [|done|lia|done].
      rewrite !length_app, !length_take, length_drop. lia.
    + replace (Z.to_nat (cmd_kl cmd `min` 16)) with n by lia. symmetry.
      apply take_halves; [done|done| |lia|].
      { rewrite !length_app, !length_take, length_drop. lia. }
      replace (n `min` 8)%nat with 8%nat in * by lia. split.
      * rewrite <-Ht1. rewrite take_app_length' by (rewrite length_take; lia). done.
      * intros _. rewrite drop_app_length' by (rewrite length_take; lia).
        by rewrite take_app_length' by (rewrite length_take; lia).
  - eexists. split; [done|]. cbn -[Z.min take drop]. split_and!; [|done| |done].
    + split; cbn -[Z.min take drop]; [done|done|lia|done].
    + replace (Z.to_nat (cmd_kl cmd `min` 16)) with n by lia. symmetry.
      apply take_halves; [done|done|done|lia|]. split; [done|lia].
Qed.

(** ** The map of a table *)

Abbreviation kvmap := (gmap (list byte) (list byte)).

Definition entry (p : kv_pair) : option (list byte * list byte) :=
  if p_used p then Some (pkey p, p_val p) else None.
Definition entries (ps : list kv_pair) : list (list byte * list byte) := omap entry ps.
Definition kv_abs (ps : list kv_pair) : kvmap := list_to_map (entries ps).

(** Distinct used slots hold distinct keys. *)
Definition keys_distinct (ps : list kv_pair) : Prop := NoDup (entries ps).*1.

Lemma entries_app ps1 ps2 : entries (ps1 ++ ps2) = entries ps1 ++ entries ps2.
Proof. apply omap_app. Qed.

Lemma entries_zero n : entries (replicate n zero_pair) = [].
Proof. by induction n. Qed.

Lemma entries_length ps : (length (entries ps) ≤ length ps)%nat.
Proof.
  induction ps as [|p ps IH]; [done|]. unfold entries in *. cbn.
  destruct (entry p); cbn; lia.
Qed.

Lemma entries_all_used ps :
  Forall (λ p, p_used p = true) ps → length (entries ps) = length ps.
Proof.
  induction 1 as [|p ps Hu _ IH]; [done|]. unfold entries, entry in *. cbn.
  by rewrite Hu; cbn; rewrite IH.
Qed.

Lemma entries_slot ps i p :
  ps !! i = Some p →
  entries ps ≡ₚ option_list (entry p) ++ entries (take i ps ++ drop (S i) ps).
Proof.
  intros Hi. rewrite <-(take_drop_middle _ _ _ Hi) at 1.
  rewrite !entries_app. unfold entries at 2. cbn.
  destruct (entry p); cbn; [|done]. by rewrite Permutation_middle.
Qed.

Lemma entries_insert ps i p p' :
  ps !! i = Some p →
  entries (<[i:=p']> ps) ≡ₚ option_list (entry p') ++ entries (take i ps ++ drop (S i) ps).
Proof.
  intros Hi. pose proof (lookup_lt_Some _ _ _ Hi) as Hlt.
  rewrite (entries_slot _ i p') by (by apply list_lookup_insert_eq).
  by rewrite take_insert_ge, drop_insert_lt by lia.
Qed.

Lemma kv_abs_perm ps l : keys_distinct ps → entries ps ≡ₚ l → kv_abs ps = list_to_map l.
Proof. intros Hd Hp. by apply list_to_map_proper. Qed.

Lemma keys_distinct_perm ps l : entries ps ≡ₚ l → keys_distinct ps ↔ NoDup l.*1.
Proof. intros Hp. unfold keys_distinct. by rewrite Hp. Qed.

Lemma entry_elem ps i p :
  ps !! i = Some p → p_used p = true → (pkey p, p_val p) ∈ entries ps.
Proof.
  intros Hi Hu. apply list_elem_of_omap. exists p. unfold entry. rewrite Hu.
  split; [|done]. by apply list_elem_of_lookup_2 in Hi.
Qed.

Lemma kv_abs_lookup ps k v :
  keys_distinct ps →
  kv_abs ps !! k = Some v ↔
  ∃ i p, ps !! i = Some p ∧ p_used p = true ∧ pkey p = k ∧ p_val p = v.
Proof.
  intros Hd. unfold kv_abs. rewrite <-elem_of_list_to_map by done.
  unfold entries. rewrite list_elem_of_omap. split.
  - intros (p & [i Hi]%list_elem_of_lookup & He). unfold entry in He.
    destruct (p_used p) eqn:Hu; naive_solver.
  - intros (i & p & Hi & Hu & <- & <-). exists p. unfold entry. rewrite Hu.
    split; [|done]. by apply list_elem_of_lookup_2 in Hi.
Qed.

Lemma kv_abs_size ps : keys_distinct ps → size (kv_abs ps) = length (entries ps).
Proof.
  unfold kv_abs, keys_distinct. induction (entries ps) as [|[k v] l IH]; cbn; [done|].
  intros [Hk Hd]%NoDup_cons.
  rewrite map_size_insert_None; [by rewrite IH|]. by apply not_elem_of_list_to_map_1.
Qed.

(** *** Assigning one slot *)

Section slot_update.
Context (ps : list kv_pair) (i : nat) (p : kv_pair).
Hypothesis (Hi : ps !! i = Some p) (Hd : keys_distinct ps).

(** Overwriting the value of a used slot, or its deletion. *)
Lemma update_value p' :
  p_used p = true → p_used p' = true → pkey p' = pkey p →
  keys_distinct (<[i:=p']> ps) ∧
  kv_abs (<[i:=p']> ps) = <[pkey p := p_val p']> (kv_abs ps) ∧
  length (entries (<[i:=p']> ps)) = length (entries ps).
Proof.
  intros Hu Hu' Hk. pose proof (entries_slot _ _ _ Hi) as E.
  pose proof (entries_insert _ _ _ p' Hi) as E'.
  unfold entry in E, E'. rewrite Hu in E. rewrite Hu', Hk in E'. cbn in E, E'.
  assert (Hd' : keys_distinct (<[i:=p']> ps)).
  { rewrite (keys_distinct_perm _ _ E'). by rewrite (keys_distinct_perm _ _ E) in Hd. }
  split_and!; [done| |by rewrite E, E'].
  rewrite (kv_abs_perm _ _ Hd' E'), (kv_abs_perm _ _ Hd E). cbn.
  by rewrite insert_insert_eq.
Qed.

Lemma update_clear :
  p_used p = true →
  keys_distinct (<[i:=zero_pair]> ps) ∧
  kv_abs (<[i:=zero_pair]> ps) = delete (pkey p) (kv_abs ps) ∧
  length (entries ps) = S (length (entries (<[i:=zero_pair]> ps))).
Proof.
  intros Hu. pose proof (entries_slot _ _ _ Hi) as E.
  pose proof (entries_insert _ _ _ zero_pair Hi) as E'.
  unfold entry in E, E'. rewrite Hu in E. cbn in E, E'.
  pose proof Hd as Hn. rewrite (keys_distinct_perm _ _ E) in Hn. cbn in Hn.
  apply NoDup_cons in Hn as [Hnin Hn].
  assert (Hd' : keys_distinct (<[i:=zero_pair]> ps))
    by (by rewrite (keys_distinct_perm _ _ E')).
  split_and!; [done| |by rewrite E, E'].
  rewrite (kv_abs_perm _ _ Hd' E'), (kv_abs_perm _ _ Hd E). cbn.
  rewrite delete_insert_id; [done|]. by apply not_elem_of_list_to_map_1.
Qed.

Lemma update_new p' :
  p_used p = false → p_used p' = true → kv_abs ps !! pkey p' = None →
  keys_distinct (<[i:=p']> ps) ∧
  kv_abs (<[i:=p']> ps) = <[pkey p' := p_val p']> (kv_abs ps) ∧
  length (entries (<[i:=p']> ps)) = S (length (entries ps)).
Proof.
  intros Hu Hu' Hnone. pose proof (entries_slot _ _ _ Hi) as E.
  pose proof (entries_insert _ _ _ p' Hi) as E'.
  unfold entry in E, E'. rewrite Hu in E. rewrite Hu' in E'. cbn in E, E'.
  pose proof Hd as Hn. rewrite (keys_distinct_perm _ _ E) in Hn.
  rewrite (kv_abs_perm _ _ Hd E) in Hnone.
  assert (Hd' : keys_distinct (<[i:=p']> ps)).
  { rewrite (keys_distinct_perm _ _ E'). cbn. apply NoDup_cons. split; [|done].
    by apply not_elem_of_list_to_map_2. }
  split_and!; [done| |by rewrite E, E'].
  by rewrite (kv_abs_perm _ _ Hd' E'), (kv_abs_perm _ _ Hd E).
Qed.
End slot_update.

(** Adding unused slots changes nothing. *)
Lemma entries_grow ps n : entries (ps ++ replicate n zero_pair) = entries ps.
Proof. by rewrite entries_app, entries_zero, app_nil_r. Qed.

(** ** Search *)

Definition matches (cmd : NvmeKVCmd) (p : kv_pair) : Prop := kv_key_match cmd p = true.
#[export] Instance matches_dec cmd p : Decision (matches cmd p).
Proof. unfold matches. apply _. Defined.

(** The first slot that matches the key of the command. *)
Definition find_slot (cmd : NvmeKVCmd) (ps : list kv_pair) : option (nat * kv_pair) :=
  list_find (matches cmd) ps.

Section search.
Context (cmd : NvmeKVCmd) (ps : list kv_pair).
Hypothesis (Hkl : 0 ≤ cmd_kl cmd ≤ 16) (Hwf : Forall pair_wf ps).

Lemma find_slot_Some i p :
  find_slot cmd ps = Some (i, p) →
  ps !! i = Some p ∧ pair_wf p ∧ p_used p = true ∧ pkey p = ckey cmd ∧
  ∀ j q, (j < i)%nat → ps !! j = Some q → kv_key_match cmd q = false.
Proof.
  intros (Hi & Hm & Hlt)%list_find_Some.
  pose proof (Forall_lookup_1 _ _ _ _ Hwf Hi) as Hp.
  apply kv_key_match_spec in Hm as [Hu Hk]; [|done..].
  split_and!; [done..|]. intros j q Hj Hq.
  specialize (Hlt j q Hq Hj). unfold matches in Hlt. by destruct (kv_key_match cmd q).
Qed.

Lemma find_slot_None :
  find_slot cmd ps = None →
  ∀ j q, ps !! j = Some q → kv_key_match cmd q = false.
Proof.
  intros Hf%list_find_None j q Hq. pose proof (Forall_lookup_1 _ _ _ _ Hf Hq) as Hm.
  unfold matches in Hm. by destruct (kv_key_match cmd q).
Qed.

(** The search decides membership in the map. *)
Lemma find_slot_abs :
  keys_distinct ps → kv_abs ps !! ckey cmd = p_val ∘ snd <$> find_slot cmd ps.
Proof.
  intros Hd. destruct (find_slot cmd ps) as [[i p]|] eqn:Hf; cbn.
  - apply find_slot_Some in Hf as (Hi & _ & Hu & Hk & _).
    apply kv_abs_lookup; [done|]. by exists i, p.
  - apply eq_None_not_Some. intros [v (j & q & Hq & Hu & Hk & _)%kv_abs_lookup]; [|done].
    pose proof (find_slot_None Hf _ _ Hq) as Hm.
    pose proof (Forall_lookup_1 _ _ _ _ Hwf Hq) as Hqwf.
    assert (Ht : kv_key_match cmd q = true) by (by apply kv_key_match_spec).
    congruence.
Qed.
End search.

#[export] Hint Resolve zero_pair_wf pair_set_val_wf : kvssd.
