(* ===== verification/KvInv.v ===== *)
(** * The namespace invariant

    [kv_inv ns ps id]: the namespace owns a table [ps] and an Identify
    structure [id] that agree with its counters.  This file proves what each
    primitive step of the handlers does under the invariant: reading and writing
    a slot, scanning the table, growing it. *)

From S2P Require Import Prelude.
From S2P Require Import Bytes.
From S2P Require Import NvmeSpec.
From S2P Require Import Kv.
From S2P Require Import KvTable.

Record kv_inv (ns : kv_ns) (ps : list kv_pair) (id : NvmeIdNsKV) : Prop := {
  ki_pairs : ns_pairs ns = Some ps;
  ki_id : ns_id_ns_kv ns = Some id;
  ki_wf : Forall pair_wf ps;
  ki_len : Z.of_nat (length ps) = ns_entries_allocated ns;
  ki_pow2 : ∃ k : nat, ns_entries_allocated ns = 16 * 2 ^ Z.of_nat k;
  ki_bound : ns_entries_allocated ns = 16 ∨ ns_entries_allocated ns < 2 * ns_max_num_keys ns;
  (** every slot index of a table this large is an [int] *)
  ki_max : 0 ≤ ns_max_num_keys ns ≤ 2 ^ 31;
  ki_distinct : keys_distinct ps;
  ki_ident : id = set_id_nuse (id_ns_init (ns_max_num_keys ns))
                    (SLOT * Z.of_nat (length (entries ps)));
  ki_cap : Z.of_nat (length (entries ps)) ≤ ns_max_num_keys ns;
  ki_ednek : 0 ≤ ns_ednek ns < 2 ^ 32;
}.

Definition kv_ok (ns : kv_ns) : Prop := ∃ ps id, kv_inv ns ps id.

(** The map a namespace stands for. *)
Definition ns_map (ns : kv_ns) : kvmap :=
  match ns_pairs ns with Some ps => kv_abs ps | None => ∅ end.

(** The settings a command leaves alone. *)
Definition same_config (ns ns' : kv_ns) : Prop :=
  ns_max_num_keys ns' = ns_max_num_keys ns ∧ ns_ednek ns' = ns_ednek ns.

Lemma SLOT_eq : SLOT = 4112.
Proof. done. Qed.

Section inv_facts.
Context (ns : kv_ns) (ps : list kv_pair) (id : NvmeIdNsKV).
Hypothesis (Hinv : kv_inv ns ps id).

Lemma kv_inv_map : ns_map ns = kv_abs ps.
Proof. unfold ns_map. by rewrite (ki_pairs _ _ _ Hinv). Qed.

Lemma kv_inv_nuse : id_nuse id = SLOT * Z.of_nat (size (ns_map ns)).
Proof.
  rewrite kv_inv_map, kv_abs_size by apply Hinv. by rewrite (ki_ident _ _ _ Hinv).
Qed.

Lemma kv_inv_size : Z.of_nat (size (ns_map ns)) ≤ ns_max_num_keys ns.
Proof. rewrite kv_inv_map, kv_abs_size by apply Hinv. apply Hinv. Qed.

(** A power of two below [2 ^ 32] is at most [2 ^ 31]. *)
Lemma kv_inv_entries : 16 ≤ ns_entries_allocated ns ≤ 2 ^ 31.
Proof.
  destruct (ki_pow2 _ _ _ Hinv) as [k Hk]. pose proof (ki_max _ _ _ Hinv) as Hm.
  pose proof (ki_bound _ _ _ Hinv) as Hb.
  assert (Hk0 : 0 < 2 ^ Z.of_nat k) by (apply Z.pow_pos_nonneg; lia).
  split; [lia|].
  assert (Hk27 : Z.of_nat k ≤ 27).
  { destruct (decide (Z.of_nat k ≤ 27)) as [|Hgt]; [done|].
    assert (2 ^ 28 ≤ 2 ^ Z.of_nat k) by (apply Z.pow_le_mono_r; lia). lia. }
  assert (2 ^ Z.of_nat k ≤ 2 ^ 27) by (apply Z.pow_le_mono_r; lia). lia.
Qed.

Lemma kv_inv_slot i p : ps !! i = Some p → pair_wf p ∧ Z.of_nat i < 2 ^ 31.
Proof.
  intros Hi. split.
  - eapply Forall_lookup_1; [apply Hinv|done].
  - apply lookup_lt_Some in Hi. pose proof kv_inv_entries.
    pose proof (ki_len _ _ _ Hinv). lia.
Qed.
End inv_facts.

(** ** Primitive steps *)

Section steps.
Context {W : Type} `{Heap W} (dma : kv_dma W).
Implicit Types (w : W) (ns : kv_ns).
Abbreviation KV := (M (kv_ns * W)).

Lemma pair_at_eq ns w ps i p :
  ns_pairs ns = Some ps → ps !! i = Some p →
  pair_at (Z.of_nat i) (ns, w) = Done (p, (ns, w)).
Proof.
  intros Hps Hi. unfold pair_at, get_ns, gets, mbind, M_bind. cbn. rewrite Hps.
  destruct (Z.ltb_spec (Z.of_nat i) 0); [lia|]. by rewrite Nat2Z.id, Hi.
Qed.

Lemma set_pair_at_eq ns w ps i p :
  ns_pairs ns = Some ps → (i < length ps)%nat →
  set_pair_at (Z.of_nat i) p (ns, w) =
    Done (tt, (ns_set_pairs ns (Some (<[i:=p]> ps)), w)).
Proof.
  intros Hps Hi. unfold set_pair_at, get_ns, gets, mbind, M_bind. cbn. rewrite Hps.
  destruct (Z.ltb_spec (Z.of_nat i) 0); [lia|].
  destruct (Z.leb_spec (Z.of_nat (length ps)) (Z.of_nat i)); [lia|].
  by rewrite Nat2Z.id.
Qed.

Lemma get_nuse_eq ns w id :
  ns_id_ns_kv ns = Some id → get_nuse (ns, w) = Done (id_nuse id, (ns, w)).
Proof.
  intros Hid. unfold get_nuse, get_ns, gets, mbind, M_bind. cbn. by rewrite Hid.
Qed.

Lemma set_nuse_eq ns w id v :
  ns_id_ns_kv ns = Some id →
  set_nuse v (ns, w) = Done (tt, (ns_set_id ns (Some (set_id_nuse id v)), w)).
Proof.
  intros Hid. unfold set_nuse, get_ns, gets, mbind, M_bind. cbn. by rewrite Hid.
Qed.

Lemma in_world_eq {A} (m : M W A) ns w a w' :
  m w = Done (a, w') → in_world m (ns, w) = Done (a, (ns, w')).
Proof. unfold in_world, zoom. cbn. by intros ->. Qed.

Lemma alloc_eq ns w :
  in_world alloc (ns, w) = Done ((heap_alloc w).1, (ns, (heap_alloc w).2)).
Proof. unfold in_world, zoom, alloc. cbn. by destruct (heap_alloc w). Qed.

(** A scan of the table whose body goes on at every slot that does not match
    stops at the slot found by [find_slot]. *)
Lemma scan_eq {L R} (acc : nat → L) (body : Z → L → KV (flow L R)) cmd ns w ps id :
  kv_inv ns ps id →
  (∀ j p, ps !! j = Some p → kv_key_match cmd p = false →
     body (Z.of_nat j) (acc j) (ns, w) = Done (Next (acc (S j)), (ns, w))) →
  for_range 0 (ns_entries_allocated ns) (acc 0%nat) body (ns, w) =
    match find_slot cmd ps with
    | None => Done (inl (acc (length ps)), (ns, w))
    | Some (i, _) => for_loop (S (length ps - S i)) (Z.of_nat i) (acc i) body (ns, w)
    end.
Proof.
  intros Hinv Hbody. unfold for_range. rewrite <-(ki_len _ _ _ Hinv).
  rewrite Z.sub_0_r, Nat2Z.id. destruct (find_slot cmd ps) as [[i p]|] eqn:Hf.
  - apply list_find_Some in Hf as (Hi & _ & Hlt).
    pose proof (lookup_lt_Some _ _ _ Hi).
    replace (length ps) with (i + S (length ps - S i))%nat at 1 by lia.
    rewrite for_loop_skip; [done|]. intros j Hj.
    destruct (lookup_lt_is_Some_2 ps j) as [q Hq]; [lia|].
    apply (Hbody _ q); [done|]. specialize (Hlt _ _ Hq Hj).
    unfold matches in Hlt. by destruct (kv_key_match cmd q).
  - replace (length ps) with (length ps + 0)%nat at 1 by lia.
    rewrite for_loop_skip; [done|]. intros j Hj.
    destruct (lookup_lt_is_Some_2 ps j) as [q Hq]; [lia|].
    apply (Hbody _ q); [done|]. by eapply find_slot_None.
Qed.

(** The same as a rule: the scan either misses, or runs its body at the slot
    that [find_slot] gives, where it must leave the loop. *)
Lemma wp_scan {L R} (acc : nat → L) (body : Z → L → KV (flow L R)) cmd ns w ps id
    (Q : L + R → kv_ns * W → Prop) :
  kv_inv ns ps id →
  (∀ j p, ps !! j = Some p → kv_key_match cmd p = false →
     body (Z.of_nat j) (acc j) (ns, w) = Done (Next (acc (S j)), (ns, w))) →
  (find_slot cmd ps = None → Q (inl (acc (length ps))) (ns, w)) →
  (∀ i p, find_slot cmd ps = Some (i, p) →
     wp (body (Z.of_nat i) (acc i)) (λ f s',
       match f with
       | Next _ => False
       | Break l => Q (inl l) s'
       | Return r => Q (inr r) s'
       end) (ns, w)) →
  wp (for_range 0 (ns_entries_allocated ns) (acc 0%nat) body) Q (ns, w).
Proof.
  intros Hinv Hnext Hmiss Hhit. unfold wp.
  rewrite (scan_eq _ _ _ _ _ _ _ Hinv Hnext).
  destruct (find_slot cmd ps) as [[i p]|]; [|by apply Hmiss].
  specialize (Hhit i p eq_refl) as (f & s' & Hb & HQ)%wp_done.
  cbn. rewrite (bind_done _ _ _ _ _ Hb). by destruct f.
Qed.

(** ** Preservation by the primitive updates *)

Lemma kv_inv_overwrite ns ps id i p v :
  kv_inv ns ps id → ps !! i = Some p → p_used p = true →
  Z.of_nat (length v) = 4096 →
  kv_inv (ns_set_pairs ns (Some (<[i:=pair_set_val p v]> ps)))
    (<[i:=pair_set_val p v]> ps) id ∧
  kv_abs (<[i:=pair_set_val p v]> ps) = <[pkey p := v]> (kv_abs ps).
Proof.
  intros Hinv Hi Hu Hv. destruct (kv_inv_slot _ _ _ Hinv _ _ Hi) as [Hp _].
  destruct (update_value ps i p Hi (ki_distinct _ _ _ Hinv) (pair_set_val p v))
    as (Hd & Habs & Hlen); [done..|].
  split; [|done]. destruct Hinv. split; cbn; rewrite ?length_insert, ?Hlen; try done.
  apply Forall_insert; [done|]. by apply pair_set_val_wf.
Qed.

Lemma kv_inv_clear ns ps id i p :
  kv_inv ns ps id → ps !! i = Some p → p_used p = true →
  let ns' := ns_set_pairs ns (Some (<[i:=zero_pair]> ps)) in
  let id' := set_id_nuse id (u64 (id_nuse id - SLOT)) in
  kv_inv (ns_set_id ns' (Some id')) (<[i:=zero_pair]> ps) id' ∧
  kv_abs (<[i:=zero_pair]> ps) = delete (pkey p) (kv_abs ps).
Proof.
  intros Hinv Hi Hu.
  destruct (update_clear ps i p Hi (ki_distinct _ _ _ Hinv) Hu) as (Hd & Habs & Hlen).
  split; [|done].
  pose proof (kv_inv_entries _ _ _ Hinv). pose proof (ki_cap _ _ _ Hinv) as Hcap.
  pose proof (ki_max _ _ _ Hinv). rewrite Hlen in Hcap.
  destruct Hinv; subst; split; cbn; rewrite ?length_insert; try done; try lia.
  - apply Forall_insert; [done|]. apply zero_pair_wf.
  - f_equal. rewrite Hlen, u64_small; rewrite SLOT_eq; lia.
Qed.

Lemma kv_inv_new ns ps id i p p' :
  kv_inv ns ps id → ps !! i = Some p → p_used p = false →
  pair_wf p' → p_used p' = true → kv_abs ps !! pkey p' = None →
  Z.of_nat (length (entries ps)) < ns_max_num_keys ns →
  let ns' := ns_set_pairs ns (Some (<[i:=p']> ps)) in
  let id' := set_id_nuse id (u64 (id_nuse id + SLOT)) in
  kv_inv (ns_set_id ns' (Some id')) (<[i:=p']> ps) id' ∧
  kv_abs (<[i:=p']> ps) = <[pkey p' := p_val p']> (kv_abs ps).
Proof.
  intros Hinv Hi Hu Hp' Hu' Hnone Hcap.
  destruct (update_new ps i p Hi (ki_distinct _ _ _ Hinv) p') as (Hd & Habs & Hlen);
    [done..|].
  split; [|done]. pose proof (ki_max _ _ _ Hinv).
  destruct Hinv; subst; split; cbn; rewrite ?length_insert, ?Hlen; try done; try lia.
  - by apply Forall_insert.
  - f_equal. rewrite u64_small; rewrite SLOT_eq; lia.
Qed.

Lemma kv_inv_grow ns ps id :
  kv_inv ns ps id → ns_entries_allocated ns < ns_max_num_keys ns →
  let n := ns_entries_allocated ns in
  let ps' := ps ++ replicate (Z.to_nat n) zero_pair in
  kv_inv (ns_set_entries (ns_set_pairs ns (Some ps')) (n * 2)) ps' id ∧
  kv_abs ps' = kv_abs ps ∧ ps' !! length ps = Some zero_pair.
Proof.
  intros Hinv Hlt n ps'. pose proof (kv_inv_entries _ _ _ Hinv).
  assert (He : entries ps' = entries ps) by apply entries_grow.
  destruct (ki_pow2 _ _ _ Hinv) as [k Hk].
  split_and!.
  - destruct Hinv. subst. split; cbn; unfold keys_distinct; rewrite ?He; try done; try lia.
    + apply Forall_app. split; [done|]. apply Forall_replicate, zero_pair_wf.
    + unfold ps'. rewrite length_app, length_replicate. lia.
    + exists (S k). unfold n. rewrite Hk, Nat2Z.inj_succ, Z.pow_succ_r; lia.
  - unfold kv_abs. by rewrite He.
  - unfold ps'. rewrite lookup_app_r, Nat.sub_diag by lia.
    apply lookup_replicate. split; [done|]. unfold n. lia.
Qed.

(** ** Growing the table *)

(** [realloc] to twice the size and [memset] of the second half. *)
Lemma grown_pairs (ps : list kv_pair) n :
  Z.of_nat (length ps) = n →
  memset_pairs (realloc_pairs ps (n * 2 * SIZEOF_KV_PAIR)) n (n * 2) =
    Some (ps ++ replicate (Z.to_nat n) zero_pair).
Proof.
  intros Hlen. unfold realloc_pairs, memset_pairs. rewrite Z.div_mul by done.
  rewrite take_ge by lia. rewrite length_app, length_replicate.
  rewrite !(proj2 (Z.leb_le _ _)) by lia. cbn. f_equal.
  rewrite take_app_length' by lia.
  rewrite (drop_ge (ps ++ _)) by (rewrite length_app, length_replicate; lia).
  rewrite app_nil_r. do 2 f_equal. lia.
Qed.

Lemma kv_grow_eq ns w ps id :
  kv_inv ns ps id → ns_entries_allocated ns < ns_max_num_keys ns →
  kv_grow (ns, w) =
    let n := ns_entries_allocated ns in
    if (heap_alloc w).1 then
      Done (Some n,
            (ns_set_entries
               (ns_set_pairs ns (Some (ps ++ replicate (Z.to_nat n) zero_pair))) (n * 2),
             (heap_alloc w).2))
    else Done (None, (ns, (heap_alloc w).2)).
Proof.
  intros Hinv Hlt. cbv zeta. set (n := ns_entries_allocated ns).
  pose proof (kv_inv_entries _ _ _ Hinv) as Hn. fold n in Hn.
  pose proof (ki_max _ _ _ Hinv) as Hmax.
  unfold kv_grow, get_ns, gets. erewrite bind_done by done. cbn beta zeta.
  erewrite bind_done by apply alloc_eq. cbn.
  destruct (heap_alloc w) as [[] w']; cbn; [|done].
  rewrite (ki_pairs _ _ _ Hinv). cbn. fold n.
  rewrite (u64_small (n * 2)), u64_small by (unfold SIZEOF_KV_PAIR; lia).
  rewrite bind_ret_l, (grown_pairs ps n) by (done || apply Hinv || lia).
  cbn. by rewrite int32_small by lia.
Qed.

(** ** Transfers into a slot *)

Lemma h2c_into_val_eq ns w ps cmd i p rc v w' :
  ns_pairs ns = Some ps → ps !! i = Some p →
  h2c dma cmd (p_val p) (cmd_hbs cmd) w = Done ((rc, v), w') →
  h2c_into_val dma cmd (Z.of_nat i) (ns, w) =
    Done (rc, (ns_set_pairs ns (Some (<[i:=pair_set_val p v]> ps)), w')).
Proof.
  intros Hps Hi Hdma. pose proof (lookup_lt_Some _ _ _ Hi) as Hlt. unfold h2c_into_val.
  erewrite bind_done by (by eapply pair_at_eq).
  erewrite bind_done by (by apply in_world_eq).
  erewrite bind_done by (by eapply set_pair_at_eq).
  done.
Qed.
End steps.
