(* ===== verification/KvSpec.v ===== *)
(** * What the key-value handlers promise, and that they keep it

    The abstract machine is a finite map from keys to 4096-byte values.  One
    relation per command says which status and which map it may end with; the
    lemmas below show that every handler finishes, without undefined behaviour,
    in an outcome its relation allows, and preserves the namespace invariant. *)

From S2P Require Import Prelude.
From S2P Require Import Bytes.
From S2P Require Import NvmeSpec.
From S2P Require Import Kv.
From S2P Require Import KvTable.
From S2P Require Import KvInv.

(** ** The contract of the host-data callbacks

    [dma_read w cmd d]: in the world [w] the host buffer of [cmd] begins with the
    bytes [d].  [dma_write w cmd d w']: [w'] is [w] after [d] has been written to
    the host buffer of [cmd]. *)

Class DmaOk {W : Type} (dma : kv_dma W) := {
  dma_read : W → NvmeKVCmd → list byte → Prop;
  dma_write : W → NvmeKVCmd → list byte → W → Prop;
  h2c_ok cmd dst len w :
    0 ≤ len ≤ Z.of_nat (length dst) →
    wp (h2c dma cmd dst len) (λ r _,
      length r.2 = length dst ∧
      (r.1 = 0 → ∃ d, Z.of_nat (length d) = len ∧ dma_read w cmd d ∧
                      r.2 = d ++ drop (Z.to_nat len) dst)) w;
  c2h_ok cmd src len w :
    0 ≤ len ≤ Z.of_nat (length src) →
    wp (c2h dma cmd src len) (λ rc w',
      rc = 0 → dma_write w cmd (take (Z.to_nat len) src) w') w;
}.
#[global] Hint Mode DmaOk - ! : typeclass_instances.
Arguments dma_read {W} dma {_}.
Arguments dma_write {W} dma {_}.
Arguments h2c_ok {W} dma {_}.
Arguments c2h_ok {W} dma {_}.

(** The status of a handler that ends with a transfer. *)
Definition xfer_status (rc : Z) : Z := if truthy rc then NVME_INVALID_FIELD else NVME_SUCCESS.

Section spec.
Context {W : Type} `{Heap W} (dma : kv_dma W) `{!DmaOk dma}.
Implicit Types (w : W) (ns : kv_ns) (m : kvmap).

(** The option bits of STORE. *)
Definition only_update (cmd : NvmeKVCmd) : bool :=
  truthy (Z.land (cmd_ro cmd) NVME_CMD_KV_STORE_OPT_DONT_STORE_IF_KEY_NOT_EXISTS).
Definition only_insert (cmd : NvmeKVCmd) : bool :=
  truthy (Z.land (cmd_ro cmd) NVME_CMD_KV_STORE_OPT_DONT_STORE_IF_KEY_EXISTS).

(** STORE: [store_spec max cmd m w st m' w']. *)
Inductive store_spec (max : Z) (cmd : NvmeKVCmd) (m : kvmap) (w : W) :
    Z → kvmap → W → Prop :=
| SsKeySize :
    16 < cmd_kl cmd → store_spec max cmd m w NVME_KV_INVALID_KEY_SIZE m w
| SsValSize :
    cmd_kl cmd ≤ 16 → NVME_KV_MAX_VAL_SIZE < cmd_hbs cmd →
    store_spec max cmd m w NVME_KV_INVALID_VAL_SIZE m w
| SsExists v :
    cmd_kl cmd ≤ 16 → cmd_hbs cmd ≤ NVME_KV_MAX_VAL_SIZE →
    m !! ckey cmd = Some v → only_insert cmd = true →
    store_spec max cmd m w NVME_KV_KEY_EXISTS m w
| SsOverwrite v rc v' w' :
    cmd_kl cmd ≤ 16 → cmd_hbs cmd ≤ NVME_KV_MAX_VAL_SIZE →
    m !! ckey cmd = Some v → only_insert cmd = false →
    h2c dma cmd v (cmd_hbs cmd) w = Done ((rc, v'), w') →
    store_spec max cmd m w (xfer_status rc) (<[ckey cmd := v']> m) w'
| SsNotExists :
    cmd_kl cmd ≤ 16 → cmd_hbs cmd ≤ NVME_KV_MAX_VAL_SIZE →
    m !! ckey cmd = None → only_update cmd = true →
    store_spec max cmd m w NVME_KV_KEY_NOT_EXISTS m w
| SsFull :
    cmd_kl cmd ≤ 16 → cmd_hbs cmd ≤ NVME_KV_MAX_VAL_SIZE →
    m !! ckey cmd = None → only_update cmd = false →
    max ≤ Z.of_nat (size m) →
    store_spec max cmd m w NVME_CAP_EXCEEDED m w
| SsNoMemory w' :
    cmd_kl cmd ≤ 16 → cmd_hbs cmd ≤ NVME_KV_MAX_VAL_SIZE →
    m !! ckey cmd = None → only_update cmd = false →
    Z.of_nat (size m) < max → heap_alloc w = (false, w') →
    store_spec max cmd m w NVME_CAP_EXCEEDED m w'
| SsInsert w1 rc v' w' :
    cmd_kl cmd ≤ 16 → cmd_hbs cmd ≤ NVME_KV_MAX_VAL_SIZE →
    m !! ckey cmd = None → only_update cmd = false →
    Z.of_nat (size m) < max → (w1 = w ∨ heap_alloc w = (true, w1)) →
    h2c dma cmd (zeros NVME_KV_MAX_VAL_SIZE) (cmd_hbs cmd) w1 = Done ((rc, v'), w') →
    store_spec max cmd m w (xfer_status rc) (<[ckey cmd := v']> m) w'.

(** RETRIEVE. *)
Inductive retrieve_spec (cmd : NvmeKVCmd) (m : kvmap) (w : W) : Z → W → Prop :=
| RsKeySize : 16 < cmd_kl cmd → retrieve_spec cmd m w NVME_INVALID_FIELD w
| RsMissing :
    cmd_kl cmd ≤ 16 → m !! ckey cmd = None →
    retrieve_spec cmd m w NVME_KV_KEY_NOT_EXISTS w
| RsFound v rc w' :
    cmd_kl cmd ≤ 16 → m !! ckey cmd = Some v →
    c2h dma cmd v (cmd_hbs cmd `min` NVME_KV_MAX_VAL_SIZE) w = Done (rc, w') →
    retrieve_spec cmd m w (xfer_status rc) w'.

(** DELETE and EXIST need no transfer: their outcome is a function. *)
Definition delete_spec (ednek : Z) (cmd : NvmeKVCmd) (m : kvmap) : Z * kvmap :=
  if 16 <? cmd_kl cmd then (NVME_INVALID_FIELD, m)
  else match m !! ckey cmd with
       | Some _ => (NVME_SUCCESS, delete (ckey cmd) m)
       | None => (if Z.testbit ednek 0 then NVME_KV_KEY_NOT_EXISTS else NVME_SUCCESS, m)
       end.

Definition exist_spec (cmd : NvmeKVCmd) (m : kvmap) : Z :=
  if 16 <? cmd_kl cmd then NVME_INVALID_FIELD
  else match m !! ckey cmd with
       | Some _ => NVME_SUCCESS
       | None => NVME_KV_KEY_NOT_EXISTS
       end.

(** ** Transfers under the contract *)

Lemma h2c_done cmd dst len w :
  0 ≤ len ≤ Z.of_nat (length dst) →
  ∃ rc v w', h2c dma cmd dst len w = Done ((rc, v), w') ∧ length v = length dst.
Proof.
  intros Hl. destruct (proj1 (wp_done _ _ _) (h2c_ok dma cmd dst len w Hl))
    as ([rc v] & w' & E & Hlen & _). eauto.
Qed.

Lemma c2h_done cmd src len w :
  0 ≤ len ≤ Z.of_nat (length src) → ∃ rc w', c2h dma cmd src len w = Done (rc, w').
Proof.
  intros Hl. destruct (proj1 (wp_done _ _ _) (c2h_ok dma cmd src len w Hl))
    as (rc & w' & E & _). eauto.
Qed.

Lemma truthy_bit0 z : truthy (Z.land z 1) = Z.testbit z 0.
Proof.
  unfold truthy. rewrite Z.bit0_odd. change 1 with (Z.ones 1). rewrite Z.land_ones by done.
  change (2 ^ 1) with 2. rewrite Zmod_odd. by destruct (Z.odd z).
Qed.

(** ** The read-only handlers *)

Section handlers.
Context (ns : kv_ns) (ps : list kv_pair) (id : NvmeIdNsKV) (w : W) (cmd : NvmeKVCmd).
Hypothesis (Hinv : kv_inv ns ps id) (Hcmd : well_typed cmd).

Lemma find_slot_map :
  cmd_kl cmd ≤ 16 → ns_map ns !! ckey cmd = p_val ∘ snd <$> find_slot cmd ps.
Proof.
  intros Hkl. rewrite (kv_inv_map _ _ _ Hinv).
  pose proof (cmd_fits _ Hcmd). apply find_slot_abs; [lia|apply Hinv..].
Qed.

Lemma find_slot_inv i p :
  cmd_kl cmd ≤ 16 → find_slot cmd ps = Some (i, p) →
  ps !! i = Some p ∧ pair_wf p ∧ p_used p = true ∧ pkey p = ckey cmd ∧
  kv_key_match cmd p = true ∧ pair_at (Z.of_nat i) (ns, w) = Done (p, (ns, w)).
Proof.
  intros Hkl Hf. pose proof (cmd_fits _ Hcmd).
  pose proof Hf as (Hi & Hwf & Hu & Hk & _)%find_slot_Some; [|lia|apply Hinv].
  split_and!; [done..| |].
  - apply kv_key_match_spec; [lia|done..].
  - eapply pair_at_eq; [apply Hinv|done].
Qed.

(** Enter the search loop of a handler, whose body goes on with the locals
    [acc] at a slot that does not match. *)
Ltac scan acc :=
  apply wp_bind, wp_gets, wp_bind; cbn [fst];
  apply (wp_scan acc _ cmd _ _ ps id);
  [ done
  | intros j q Hq Hm; erewrite bind_done by (eapply pair_at_eq; [apply Hinv|done]);
    rewrite Hm
  | intros Hf; pose proof (find_slot_map ltac:(done)) as Hmap; rewrite Hf in Hmap
  | intros i p Hf; pose proof (find_slot_map ltac:(done)) as Hmap; rewrite Hf in Hmap;
    apply find_slot_inv in Hf as (Hi & Hwf & Hu & Hk & Hm & Hp); [|done];
    apply wp_bind; eapply wp_run; [done|]; cbn beta; rewrite Hm ].

Lemma kv_exist_wp :
  wp (kv_exist cmd) (λ st s', s' = (ns, w) ∧ st = exist_spec cmd (ns_map ns)) (ns, w).
Proof.
  unfold kv_exist, exist_spec. destruct (Z.ltb_spec 16 (cmd_kl cmd)); [by apply wp_ret|].
  scan (λ _ : nat, tt); [done|..]; by rewrite Hmap.
Qed.

Lemma kv_retrieve_wp :
  wp (kv_retrieve dma cmd) (λ st s', s'.1 = ns ∧
    retrieve_spec cmd (ns_map ns) w st s'.2) (ns, w).
Proof.
  unfold kv_retrieve. destruct (Z.ltb_spec 16 (cmd_kl cmd)).
  { apply wp_ret. split; [done|by constructor]. }
  scan (λ _ : nat, tt); [done| |].
  { apply wp_ret. split; [done|by constructor]. }
  pose proof (cmd_fits _ Hcmd). pose proof (pw_val _ Hwf) as Hv.
  destruct (c2h_done cmd (p_val p) (cmd_hbs cmd `min` NVME_KV_MAX_VAL_SIZE) w)
    as (rc & w' & Hdma); [unfold NVME_KV_MAX_VAL_SIZE; lia|].
  apply wp_bind. eapply wp_run; [by apply in_world_eq|].
  assert (Hs : retrieve_spec cmd (ns_map ns) w (xfer_status rc) w') by (by eapply RsFound).
  unfold xfer_status in Hs. by destruct (truthy rc).
Qed.

Lemma kv_delete_wp :
  wp (kv_delete cmd) (λ st s',
    kv_ok s'.1 ∧ same_config ns s'.1 ∧ s'.2 = w ∧
    (st, ns_map s'.1) = delete_spec (ns_ednek ns) cmd (ns_map ns)) (ns, w).
Proof.
  assert (Hok : kv_ok ns) by (by exists ps, id).
  unfold kv_delete, delete_spec. destruct (Z.ltb_spec 16 (cmd_kl cmd)); [by apply wp_ret|].
  scan (λ _ : nat, tt); [done| |]; rewrite Hmap.
  { apply wp_bind, wp_gets. rewrite <-truthy_bit0. cbn.
    by destruct (truthy (Z.land (ns_ednek ns) 1)). }
  destruct (kv_inv_clear _ _ _ _ _ Hinv Hi Hu) as [Hinv' Habs].
  pose proof (lookup_lt_Some _ _ _ Hi).
  do 3 (apply wp_bind; eapply wp_run;
        [first [eapply set_pair_at_eq; [apply Hinv|done]
               |eapply get_nuse_eq; apply Hinv|eapply set_nuse_eq; apply Hinv]|]).
  apply wp_ret, wp_ret. split_and!; [by eexists _, _|done|done|].
  cbn. rewrite (kv_inv_map _ _ _ Hinv), <-Hk, <-Habs. by rewrite <-(kv_inv_map _ _ _ Hinv').
Qed.
(** ** STORE *)

Lemma xfer_wp {A} rc (f : Z → A) (Q : A → kv_ns * W → Prop) s :
  Q (f (xfer_status rc)) s →
  wp (if truthy rc then mret (f NVME_INVALID_FIELD) else mret (f NVME_SUCCESS)) Q s.
Proof. unfold xfer_status. by destruct (truthy rc). Qed.
End handlers.

(** What STORE guarantees: the invariant, the settings, the abstract step. *)
Definition store_post (ns : kv_ns) (w : W) (cmd : NvmeKVCmd) (st : Z) (s' : kv_ns * W) : Prop :=
  kv_ok s'.1 ∧ same_config ns s'.1 ∧
  store_spec (ns_max_num_keys ns) cmd (ns_map ns) w st (ns_map s'.1) s'.2.

Section store.
Context (ns : kv_ns) (ps : list kv_pair) (id : NvmeIdNsKV) (w : W) (cmd : NvmeKVCmd).
Hypothesis (Hinv : kv_inv ns ps id) (Hcmd : well_typed cmd).
Hypothesis (Hkl : cmd_kl cmd ≤ 16) (Hhbs : cmd_hbs cmd ≤ NVME_KV_MAX_VAL_SIZE).

(** Overwriting the value of the slot found by the scan. *)
Lemma overwrite_wp i p :
  find_slot cmd ps = Some (i, p) → only_insert cmd = false →
  wp (h2c_into_val dma cmd (Z.of_nat i))
    (λ rc s', store_post ns w cmd (xfer_status rc) s') (ns, w).
Proof.
  intros Hf Hopt.
  pose proof (find_slot_map _ _ _ _ Hinv Hcmd Hkl) as Hmap. rewrite Hf in Hmap.
  destruct (find_slot_inv _ _ _ w _ Hinv Hcmd _ _ Hkl Hf) as (Hi & Hwf & Hu & Hk & _ & _).
  pose proof (cmd_fits _ Hcmd). pose proof (pw_val _ Hwf) as Hv.
  destruct (h2c_done cmd (p_val p) (cmd_hbs cmd) w) as (rc & v & w' & Hdma & Hlen).
  { unfold NVME_KV_MAX_VAL_SIZE in *. lia. }
  destruct (kv_inv_overwrite _ _ _ _ _ v Hinv Hi Hu) as [Hinv' Habs]; [by rewrite Hlen|].
  eapply wp_run; [eapply h2c_into_val_eq; [apply Hinv|done..]|].
  split; [by eexists _, _|]. split; [done|]. cbn [fst snd].
  rewrite (kv_inv_map _ _ _ Hinv'), Habs, Hk, <-(kv_inv_map _ _ _ Hinv).
  by eapply SsOverwrite.
Qed.

(** Filling the unused slot [i], once there is room. *)
Lemma fill_wp ns1 ps1 w1 i z :
  z = Z.of_nat i → kv_inv ns1 ps1 id → same_config ns ns1 → kv_abs ps1 = kv_abs ps →
  ps1 !! i = Some zero_pair → (w1 = w ∨ heap_alloc w = (true, w1)) →
  ns_map ns !! ckey cmd = None → only_update cmd = false →
  Z.of_nat (size (ns_map ns)) < ns_max_num_keys ns →
  wp (p ← pair_at z;
      p' ← of_option (kv_key_store p cmd);
      set_pair_at z p';;
      nuse ← get_nuse;
      set_nuse (u64 (nuse + SLOT));;
      rc ← h2c_into_val dma cmd z;
      if truthy rc then mret NVME_INVALID_FIELD else mret NVME_SUCCESS)
    (store_post ns w cmd) (ns1, w1).
Proof.
  intros -> Hinv1 [Hmax Hed] Habs1 Hi Hw1 Hnone Hopt Hroom.
  pose proof (cmd_fits _ Hcmd). pose proof (lookup_lt_Some _ _ _ Hi) as Hlt.
  destruct (kv_key_store_spec cmd zero_pair) as (p' & Hp' & Hwf' & Hu' & Hk' & Hv');
    [lia|apply zero_pair_wf|].
  pose proof (kv_inv_map _ _ _ Hinv) as Hmap. pose proof (kv_inv_map _ _ _ Hinv1) as Hmap1.
  destruct (kv_inv_new _ _ _ _ _ p' Hinv1 Hi) as [Hinv2 Habs2]; [done|done|done| | |].
  { by rewrite Hk', Habs1, <-Hmap. }
  { rewrite <-kv_abs_size, Habs1, <-Hmap, Hmax by apply Hinv1. done. }
  do 2 (apply wp_bind; first
    [eapply wp_run; [eapply pair_at_eq; [apply Hinv1|done]|]
    |eapply wp_of_option; [done|]]).
  do 3 (apply wp_bind; eapply wp_run;
        [first [eapply set_pair_at_eq; [apply Hinv1|done]
               |eapply get_nuse_eq; apply Hinv1|eapply set_nuse_eq; apply Hinv1]|]).
  assert (Hi2 : <[i:=p']> ps1 !! i = Some p') by (by apply list_lookup_insert_eq).
  destruct (h2c_done cmd (p_val p') (cmd_hbs cmd) w1) as (rc & v & w' & Hdma & Hlen).
  { pose proof (pw_val _ Hwf'). unfold NVME_KV_MAX_VAL_SIZE in *. lia. }
  destruct (kv_inv_overwrite _ _ _ _ _ v Hinv2 Hi2 Hu') as [Hinv3 Habs3].
  { rewrite Hlen. apply Hwf'. }
  apply wp_bind. eapply wp_run; [eapply h2c_into_val_eq; [apply Hinv2|done..]|].
  apply (xfer_wp rc (λ st, st)). split; [by eexists _, _|]. split; [done|].
  cbn [fst snd]. rewrite (kv_inv_map _ _ _ Hinv3), Habs3, Habs2, Hk', insert_insert_eq.
  rewrite Habs1, <-Hmap. rewrite Hv' in Hdma. by eapply SsInsert.
Qed.
(** *** The first unused slot *)

(** The local [fst_empty] after [j] iterations of the scan. *)
Definition fst_empty (j : nat) : Z :=
  match list_find (λ p, p_used p = false) (take j ps) with
  | Some (i, _) => Z.of_nat i
  | None => -1
  end.

Lemma fst_empty_step j p :
  ps !! j = Some p →
  (if (fst_empty j <? 0) && negb (p_used p) then int32 (Z.of_nat j) else fst_empty j) =
    fst_empty (S j).
Proof.
  intros Hj. destruct (kv_inv_slot _ _ _ Hinv _ _ Hj) as [_ Hj31].
  pose proof (lookup_lt_Some _ _ _ Hj). unfold fst_empty.
  rewrite (take_S_r _ _ _ Hj).
  destruct (list_find _ (take j ps)) as [[i q]|] eqn:Hf.
  - rewrite (list_find_app_l _ _ _ _ _ Hf).
    destruct (Z.ltb_spec (Z.of_nat i) 0); [lia|done].
  - rewrite list_find_app_r by done. cbn.
    destruct (p_used p); cbn; [done|]. case_decide; [|done]. cbn.
    rewrite length_take, int32_small by lia. lia.
Qed.

Lemma fst_empty_end :
  (fst_empty (length ps) = -1 ∧ Z.of_nat (length (entries ps)) = ns_entries_allocated ns) ∨
  (∃ i, fst_empty (length ps) = Z.of_nat i ∧ ps !! i = Some zero_pair).
Proof.
  unfold fst_empty. rewrite take_ge by done.
  destruct (list_find _ ps) as [[i q]|] eqn:Hf.
  - right. apply list_find_Some in Hf as (Hi & Hu & _). exists i. split; [done|].
    destruct (kv_inv_slot _ _ _ Hinv _ _ Hi) as [Hwf _]. by rewrite Hi, (pw_zero _ Hwf).
  - left. split; [done|]. apply list_find_None in Hf.
    rewrite <-(ki_len _ _ _ Hinv). f_equal. apply entries_all_used.
    eapply Forall_impl; [apply Hf|]. intros p Hp. cbn in Hp. by destruct (p_used p).
Qed.

Lemma store_new_wp :
  ns_map ns !! ckey cmd = None →
  wp (kv_store_new dma cmd (fst_empty (length ps))) (store_post ns w cmd) (ns, w).
Proof.
  intros Hnone. assert (Hok : kv_ok ns) by (by exists ps, id).
  unfold kv_store_new. fold (only_update cmd).
  destruct (only_update cmd) eqn:Hopt.
  { apply wp_ret. split_and!; [done..|]. by constructor. }
  apply wp_bind. eapply wp_run; [eapply get_nuse_eq; apply Hinv|].
  apply wp_bind, wp_gets. cbn [fst].
  rewrite (kv_inv_nuse _ _ _ Hinv), Z.mul_comm, Z.div_mul by done.
  destruct (Z.leb_spec (ns_max_num_keys ns) (Z.of_nat (size (ns_map ns)))) as [Hfull|Hroom].
  { apply wp_ret. split_and!; [done..|]. by constructor. }
  apply wp_bind. destruct fst_empty_end as [[-> Hall]|(i & -> & Hi)].
  - rewrite (kv_inv_map _ _ _ Hinv), kv_abs_size, Hall in Hroom by apply Hinv.
    cbn [Z.ltb Z.compare]. pose proof (kv_grow_eq ns w ps id Hinv Hroom) as Hgrow.
    cbv zeta in Hgrow.
    destruct (heap_alloc w) as [[] w'] eqn:Hheap; cbn [fst snd] in Hgrow;
      (eapply wp_run; [exact Hgrow|]).
    + destruct (kv_inv_grow _ _ _ Hinv Hroom) as (Hinv' & Habs' & Hi').
      eapply (fill_wp _ _ _ (length ps)); try done; [|by right|].
      * symmetry. apply Hinv.
      * by rewrite (kv_inv_map _ _ _ Hinv), kv_abs_size, Hall by apply Hinv.
    + apply wp_ret. split_and!; [done..|]. apply SsNoMemory; try done.
      cbn [fst]. rewrite (kv_inv_map _ _ _ Hinv), kv_abs_size, Hall by apply Hinv. done.
  - destruct (Z.ltb_spec (Z.of_nat i) 0); [lia|].
    apply wp_ret. eapply (fill_wp ns ps w i); try done. by left.
Qed.
End store.

Lemma kv_store_wp ns ps id w cmd :
  kv_inv ns ps id → well_typed cmd →
  wp (kv_store dma cmd) (store_post ns w cmd) (ns, w).
Proof.
  intros Hinv Hcmd. assert (Hok : kv_ok ns) by (by exists ps, id).
  unfold kv_store. destruct (Z.ltb_spec 16 (cmd_kl cmd)) as [|Hkl].
  { apply wp_ret. split_and!; [done..|]. by constructor. }
  destruct (Z.ltb_spec NVME_KV_MAX_VAL_SIZE (cmd_hbs cmd)) as [|Hhbs].
  { apply wp_ret. split_and!; [done..|]. by constructor. }
  pose proof (find_slot_map _ _ _ _ Hinv Hcmd Hkl) as Hmap.
  apply wp_bind, wp_gets, wp_bind. cbn [fst].
  apply (wp_scan (fst_empty ps) _ cmd _ _ ps id); [done| | |].
  - intros j p Hj Hm. erewrite bind_done by (eapply pair_at_eq; [apply Hinv|done]).
    cbv zeta. erewrite fst_empty_step by done. by rewrite Hm.
  - intros Hf. rewrite Hf in Hmap. by apply (store_new_wp _ _ id).
  - intros i p Hf. rewrite Hf in Hmap.
    destruct (find_slot_inv _ _ _ w _ Hinv Hcmd _ _ Hkl Hf) as (Hi & _ & _ & _ & Hm & Hp).
    apply wp_bind. eapply wp_run; [done|]. cbv zeta. rewrite Hm.
    fold (only_insert cmd). destruct (only_insert cmd) eqn:Hopt.
    { apply wp_ret, wp_ret. split_and!; [done..|]. by eapply SsExists. }
    apply wp_bind. eapply wp_mono; [by eapply overwrite_wp|].
    cbn beta. intros rc s' Hpost. by apply (xfer_wp rc Return), wp_ret.
Qed.
End spec.
