(* ===== verification/KvList.v ===== *)
(** * The LIST handler

    The return data structure of LIST: a 16-bit count, two zero bytes, then for
    each key its length (16 bits), its bytes and [(2 + length) mod 4] zero bytes.
    [kv_list] sends the keys of the used slots in table order, from the slot that
    holds the key of the command (or from the first slot), as many as fit. *)

From S2P Require Import Prelude.
From S2P Require Import Bytes.
From S2P Require Import NvmeSpec.
From S2P Require Import Kv.
From S2P Require Import KvTable.
From S2P Require Import KvInv.
From S2P Require Import KvSpec.

(** One key data structure as [kv_list] lays it out. *)
Definition kds_bytes (k : list byte) : list byte :=
  le_bytes 2 (Z.of_nat (length k)) ++ k ++ zeros ((2 + Z.of_nat (length k)) mod 4).

Definition rds_bytes (ks : list (list byte)) : list byte :=
  le_bytes 2 (Z.of_nat (length ks)) ++ zeros 2 ++ concat (kds_bytes <$> ks).

Definition used_keys (ps : list kv_pair) : list (list byte) := (entries ps).*1.

Definition kds_size (k : list byte) : Z :=
  2 + Z.of_nat (length k) + (2 + Z.of_nat (length k)) mod 4.

Lemma length_zeros n : 0 ≤ n → Z.of_nat (length (zeros n)) = n.
Proof. intros. unfold zeros. rewrite length_replicate. lia. Qed.

Lemma length_kds k : Z.of_nat (length (kds_bytes k)) = kds_size k.
Proof.
  unfold kds_bytes, kds_size. rewrite !length_app, length_le_bytes, !Nat2Z.inj_add.
  rewrite length_zeros by (apply Z.mod_pos_bound; lia). lia.
Qed.

Lemma rds_bytes_snoc_length ks k :
  Z.of_nat (length (rds_bytes (ks ++ [k]))) = Z.of_nat (length (rds_bytes ks)) + kds_size k.
Proof.
  unfold rds_bytes. rewrite fmap_app, concat_app. cbn. rewrite app_nil_r.
  rewrite !length_app, !length_le_bytes, !Nat2Z.inj_add, length_kds. lia.
Qed.

Lemma rds_bytes_nil_length : Z.of_nat (length (rds_bytes [])) = 4.
Proof. done. Qed.

Lemma rds_bytes_ge ks : 4 ≤ Z.of_nat (length (rds_bytes ks)).
Proof.
  unfold rds_bytes. rewrite !length_app, length_le_bytes. change (length (zeros 2)) with 2%nat.
  lia.
Qed.


Lemma buf_write_hd b c bs :
  length bs = length b → buf_write (b ++ c) 0 bs = Some (bs ++ c).
Proof. intros. by apply (buf_write_mid []). Qed.

(** *** The three writes of [rds_append] *)

Lemma split_three (l : list byte) a b :
  0 ≤ a → 0 ≤ b → a + b ≤ Z.of_nat (length l) →
  ∃ l1 l2 l3, l = l1 ++ l2 ++ l3 ∧ Z.of_nat (length l1) = a ∧ Z.of_nat (length l2) = b ∧
              Z.of_nat (length l3) = Z.of_nat (length l) - a - b.
Proof.
  intros Ha Hb Hl.
  exists (take (Z.to_nat a) l), (take (Z.to_nat b) (drop (Z.to_nat a) l)),
    (drop (Z.to_nat b) (drop (Z.to_nat a) l)).
  rewrite take_drop, take_drop, !length_take, !length_drop. split_and!; [done|lia..].
Qed.

Lemma write_pad r j size pad off n :
  off = Z.of_nat (length r) → n = size + pad → 0 ≤ pad → Z.of_nat (length j) = pad →
  (if size <? n then buf_write (r ++ j) off (zeros (n - size)) else Some (r ++ j)) =
    Some (r ++ zeros pad).
Proof.
  intros -> -> Hp Hj. destruct (Z.ltb_spec size (size + pad)).
  - replace (size + pad - size) with pad by lia. pose proof (length_zeros pad Hp).
    rewrite <-(app_nil_r j), buf_write_mid, app_nil_r by lia. done.
  - destruct j; [|cbn in Hj; lia]. by replace pad with 0 by lia.
Qed.

Lemma bump_count n (r : list byte) :
  (nrk ← buf_read (le_bytes 2 n ++ r) 0 2;
   buf_write (le_bytes 2 n ++ r) 0 (le_bytes 2 (u16 (le_val nrk + 1)))) =
    Some (le_bytes 2 (n + 1) ++ r).
Proof.
  rewrite buf_read_Some by (rewrite ?length_app, ?length_le_bytes; lia).
  rewrite drop_0, take_app_length' by (by rewrite length_le_bytes).
  cbn [mbind option_bind]. rewrite buf_write_hd by (by rewrite !length_le_bytes).
  do 2 f_equal. rewrite le_val_le_bytes, <-(le_bytes_mod 2 (n + 1)).
  change (256 ^ Z.of_nat 2) with (2 ^ 16). unfold u16.
  by rewrite Zplus_mod_idemp_l.
Qed.

(** [rds_append] turns freshly reallocated space into one more key. *)
Lemma rds_append_spec ks p junk :
  pair_wf p → Z.of_nat (length junk) = kds_size (pkey p) →
  rds_append (rds_bytes ks ++ junk) (Z.of_nat (length (rds_bytes ks))) p
    (2 + p_kl p) (kds_size (pkey p)) = Some (rds_bytes (ks ++ [pkey p])).
Proof.
  intros [Hk _ Hkl _] Hj.
  assert (Hlen : Z.of_nat (length (pkey p)) = p_kl p)
    by (unfold pkey; rewrite length_take; lia).
  unfold kds_size in *. rewrite Hlen in *. set (pad := (2 + p_kl p) mod 4) in *.
  assert (Hpad : 0 ≤ pad < 4) by (by apply Z.mod_pos_bound).
  set (r := rds_bytes ks).
  destruct (split_three junk 2 (p_kl p)) as (j1 & j2 & j3 & -> & Hj1 & Hj2 & Hj3); [lia..|].
  unfold rds_append.
  replace (r ++ j1 ++ j2 ++ j3) with ((r ++ j1 ++ j2) ++ j3) by (by rewrite <-!app_assoc).
  rewrite (write_pad _ _ _ pad) by (rewrite ?length_app; lia).
  cbn [mbind option_bind]. rewrite <-!app_assoc.
  rewrite buf_write_mid by (rewrite ?length_le_bytes; lia). cbn [mbind option_bind].
  rewrite buf_read_Some by lia. rewrite drop_0. fold (pkey p). cbn [mbind option_bind].
  rewrite app_assoc, buf_write_mid by (rewrite ?length_app, ?length_le_bytes;
    unfold kls_size; lia).
  cbn [mbind option_bind]. unfold r, rds_bytes. rewrite <-!app_assoc, bump_count.
  f_equal. rewrite fmap_app, concat_app, length_app. cbn [fmap list_fmap concat length].
  rewrite app_nil_r, Nat2Z.inj_add. unfold kds_bytes.
  by rewrite Hlen, u16_small by lia.
Qed.

(** ** The handler *)

Section list_spec.
Context {W : Type} `{Heap W} (dma : kv_dma W) `{!DmaOk dma}.
Implicit Types (w : W) (ns : kv_ns).

(** The keys from which LIST sends a prefix. *)
Definition list_candidates (cmd : NvmeKVCmd) (ps : list kv_pair) : list (list byte) :=
  used_keys (drop (from_option fst 0%nat (find_slot cmd ps)) ps).

(** [ks] is the longest prefix of [all] that fits in the host buffer. *)
Definition fills_buffer (hbs : Z) (ks all : list (list byte)) : Prop :=
  (ks = [] ∨ Z.of_nat (length (rds_bytes ks)) ≤ hbs) ∧
  (ks = all ∨ ∃ k rest, all = ks ++ k :: rest ∧
                        hbs < Z.of_nat (length (rds_bytes (ks ++ [k])))).

(** [w'] is [w] after some allocation requests. *)
Definition allocs : W → W → Prop := rtc (λ w w', ∃ ok, heap_alloc w = (ok, w')).

Lemma allocs_step w w1 ok w' : allocs w w1 → heap_alloc w1 = (ok, w') → allocs w w'.
Proof. intros Hw Ha. eapply rtc_r; [done|by exists ok]. Qed.

Inductive list_spec (cmd : NvmeKVCmd) (ps : list kv_pair) (w : W) : Z → W → Prop :=
| LsKeySize w' :
    16 < cmd_kl cmd → allocs w w' → list_spec cmd ps w NVME_INVALID_FIELD w'
| LsNoMemory w1 w' :
    cmd_kl cmd ≤ 16 → allocs w w1 → heap_alloc w1 = (false, w') →
    list_spec cmd ps w NVME_CAP_EXCEEDED w'
| LsSent ks w1 src rc w' :
    cmd_kl cmd ≤ 16 → allocs w w1 → fills_buffer (cmd_hbs cmd) ks (list_candidates cmd ps) →
    take (length (rds_bytes ks)) src = rds_bytes ks →
    c2h dma cmd src (Z.of_nat (length (rds_bytes ks))) w1 = Done (rc, w') →
    list_spec cmd ps w (xfer_status rc) w'.

Lemma used_keys_snoc ps p :
  used_keys (ps ++ [p]) = used_keys ps ++ (if p_used p then [pkey p] else []).
Proof.
  unfold used_keys. rewrite entries_app, fmap_app. f_equal.
  unfold entries, entry. cbn. by destruct (p_used p).
Qed.

Lemma realloc_bytes_app buf n :
  Z.of_nat (length buf) ≤ n →
  ∃ junk, realloc_bytes buf n = buf ++ junk ∧
          Z.of_nat (length junk) = n - Z.of_nat (length buf).
Proof.
  intros Hn. unfold realloc_bytes. rewrite take_ge by lia. eexists. split; [done|].
  rewrite length_fmap, length_seqZ. lia.
Qed.

Section list.
Context (ns : kv_ns) (ps : list kv_pair) (id : NvmeIdNsKV) (cmd : NvmeKVCmd) (w0 : W).
Hypothesis (Hinv : kv_inv ns ps id) (Hcmd : well_typed cmd) (Hkl : cmd_kl cmd ≤ 16).

Let first : nat := from_option fst 0%nat (find_slot cmd ps).

(** The locals of the second loop after [j] iterations. *)
Definition list_loop_inv (j : nat) (l : list byte * Z) (s : kv_ns * W) : Prop :=
  let ks := used_keys (take j (drop first ps)) in
  s.1 = ns ∧ allocs w0 s.2 ∧ l.1 = rds_bytes ks ∧ l.2 = Z.of_nat (length (rds_bytes ks)) ∧
  l.2 ≤ 4 + 21 * Z.of_nat j ∧ (ks = [] ∨ l.2 ≤ cmd_hbs cmd).

(** What the second loop leaves. *)
Definition list_loop_post (r : list byte * Z + Z) (s : kv_ns * W) : Prop :=
  s.1 = ns ∧
  match r with
  | inr st => st = NVME_CAP_EXCEEDED ∧ ∃ w1, allocs w0 w1 ∧ heap_alloc w1 = (false, s.2)
  | inl (rds, size) =>
      allocs w0 s.2 ∧
      ∃ ks, fills_buffer (cmd_hbs cmd) ks (list_candidates cmd ps) ∧
            size = Z.of_nat (length (rds_bytes ks)) ∧
            take (length (rds_bytes ks)) rds = rds_bytes ks ∧ size ≤ Z.of_nat (length rds)
  end.

Lemma kds_size_range p : pair_wf p → 2 ≤ kds_size (pkey p) ≤ 21 ∧
  u64 (kls_size + p_kl p) = 2 + p_kl p ∧
  u64 (2 + p_kl p + (2 + p_kl p) mod 4) = kds_size (pkey p).
Proof.
  intros [Hk _ Hkl' _].
  assert (Hlen : Z.of_nat (length (pkey p)) = p_kl p)
    by (unfold pkey; rewrite length_take; lia).
  unfold kds_size, kls_size. rewrite Hlen.
  pose proof (Z.mod_pos_bound (2 + p_kl p) 4). rewrite !u64_small; lia.
Qed.
(** One iteration of the second loop. *)
Lemma list_body_wp j rds size s :
  (j < length ps - first)%nat → list_loop_inv j (rds, size) s →
  wp (list_step cmd (Z.of_nat first + Z.of_nat j) (rds, size))
    (λ f s', match f with
             | Next l => list_loop_inv (S j) l s'
             | Break l => list_loop_post (inl l) s'
             | Return r => list_loop_post (inr r) s'
             end) s.
Proof.
  intros Hj Hloop. destruct s as [ns' w]. unfold list_loop_inv in *. cbn [fst snd] in *.
  set (before := take j (drop first ps)) in *.
  destruct Hloop as (-> & Hw & -> & -> & Hsz & Hfit).
  destruct (lookup_lt_is_Some_2 (drop first ps) j) as [p Hp]; [by rewrite length_drop|].
  rewrite (take_S_r _ _ _ Hp). fold before. rewrite used_keys_snoc.
  assert (Hall : list_candidates cmd ps =
    used_keys (before ++ [p]) ++ used_keys (drop (S j) (drop first ps))).
  { unfold list_candidates, used_keys. fold first. rewrite <-fmap_app, <-entries_app.
    unfold before. by rewrite <-(take_S_r _ _ _ Hp), take_drop. }
  rewrite used_keys_snoc in Hall. pose proof Hp as Hp'. rewrite lookup_drop in Hp'.
  destruct (kv_inv_slot _ _ _ Hinv _ _ Hp') as [Hwf Hi31].
  destruct (kds_size_range _ Hwf) as (Hkds & Hu1 & Hu2).
  unfold list_step. apply wp_bind. rewrite <-Nat2Z.inj_add.
  eapply wp_run; [eapply pair_at_eq; [apply Hinv|done]|].
  destruct (p_used p) eqn:Hu; cbn [negb].
  2:{ apply wp_ret. rewrite app_nil_r. cbn [fst snd]. split_and!; [done..|lia|done]. }
  cbv zeta. rewrite Hu1, Hu2.
  pose proof (rds_bytes_snoc_length (used_keys before) (pkey p)) as Hsnoc.
  pose proof (kv_inv_entries _ _ _ Hinv). pose proof (ki_len _ _ _ Hinv).
  rewrite u64_small by lia. apply wp_bind. eapply wp_run; [apply alloc_eq|].
  destruct (heap_alloc w) as [[] w'] eqn:Hheap; cbn [negb fst snd].
  2:{ apply wp_ret. split; [done|]. split; [done|]. by exists w. }
  assert (Hw' : allocs w0 w') by (by eapply allocs_step).
  destruct (realloc_bytes_app (rds_bytes (used_keys before))
    (Z.of_nat (length (rds_bytes (used_keys before))) + kds_size (pkey p)))
    as (junk & -> & Hjunk); [lia|].
  destruct (Z.ltb_spec (cmd_hbs cmd)
    (Z.of_nat (length (rds_bytes (used_keys before))) + kds_size (pkey p))).
  - apply wp_ret. split; [done|]. split; [done|]. exists (used_keys before). split_and!; [|done| |].
    + split; [done|]. right. exists (pkey p), (used_keys (drop (S j) (drop first ps))).
      split; [by rewrite Hall, <-app_assoc|]. lia.
    + by rewrite take_app_length.
    + rewrite length_app. lia.
  - apply wp_bind. eapply wp_of_option; [apply rds_append_spec; [done|lia]|].
    apply wp_ret. cbn [fst snd]. split_and!; [done..|lia|lia|right; lia].
Qed.

Lemma first_le : (first ≤ length ps)%nat.
Proof.
  unfold first. destruct (find_slot cmd ps) as [[i p]|] eqn:Hf; cbn; [|lia].
  apply list_find_Some in Hf as (Hi & _). apply lookup_lt_Some in Hi. lia.
Qed.

Lemma list_loop_wp w :
  allocs w0 w →
  wp (for_range (Z.of_nat first) (ns_entries_allocated ns) (zeros rds_hdr, rds_hdr)
        (list_step cmd)) list_loop_post (ns, w).
Proof.
  intros Hw. unfold for_range. rewrite <-(ki_len _ _ _ Hinv). pose proof first_le.
  replace (Z.to_nat _) with (length ps - first)%nat by lia.
  apply (wp_for_loop list_loop_inv).
  - by repeat split; [..|left].
  - intros j [rds size] s Hj Hl. by apply list_body_wp.
  - intros [rds size] [ns' w'] (Hns & Hw' & Hrds & Hsz & _ & Hfit). cbn [fst snd] in *. subst.
    rewrite take_ge in * by (by rewrite length_drop). split; [done|]. split; [done|].
    eexists. split_and!; [|done| |done].
    + split; [done|by left].
    + by rewrite take_ge.
Qed.

(** The transfer at the end. *)
Lemma list_send_wp r s :
  list_loop_post r s →
  wp (match r with
      | inr status => mret status
      | inl (rds, rds_size) =>
          rc ← in_world (c2h dma cmd rds rds_size);
          if truthy rc then mret NVME_INVALID_FIELD else mret NVME_SUCCESS
      end) (λ st s', s'.1 = ns ∧ list_spec cmd ps w0 st s'.2) s.
Proof.
  destruct s as [ns' w], r as [[rds size]|st]; intros [Hns Hr]; cbn [fst snd] in *; subst.
  - destruct Hr as (Hw & ks & Hfill & -> & Htake & Hle).
    destruct (c2h_done dma cmd rds (Z.of_nat (length (rds_bytes ks))) w)
      as (rc & w' & Hdma); [lia|].
    apply wp_bind. eapply wp_run; [by apply in_world_eq|].
    apply (xfer_wp rc (λ st, st)). split; [done|]. by eapply LsSent.
  - destruct Hr as (-> & w1 & Hw & Hw1). apply wp_ret. split; [done|]. by eapply LsNoMemory.
Qed.

Lemma kv_list_wp :
  wp (kv_list dma cmd) (λ st s', s'.1 = ns ∧ list_spec cmd ps w0 st s'.2) (ns, w0).
Proof.
  unfold kv_list. apply wp_bind. eapply wp_run; [apply alloc_eq|].
  destruct (Z.ltb_spec 16 (cmd_kl cmd)); [lia|].
  destruct (heap_alloc w0) as [[] w1] eqn:Hheap; cbn [negb fst snd].
  2:{ apply wp_ret. split; [done|]. by eapply LsNoMemory. }
  assert (Hw1 : allocs w0 w1) by (by eapply allocs_step).
  apply wp_bind, wp_gets, wp_bind. cbn [fst].
  apply (wp_scan (λ _ : nat, 0) _ cmd _ _ ps id); [done| | |].
  { intros j q Hq Hm. erewrite bind_done by (eapply pair_at_eq; [apply Hinv|done]).
    by rewrite Hm. }
  - intros Hf. cbn beta iota. apply wp_bind.
    replace 0 with (Z.of_nat first) by (unfold first; by rewrite Hf).
    eapply wp_mono; [by apply list_loop_wp|]. intros r s' Hr. by apply list_send_wp.
  - intros i p Hf. assert (Hfi : Z.of_nat i = Z.of_nat first) by (unfold first; by rewrite Hf).
    destruct (find_slot_inv _ _ _ w1 _ Hinv Hcmd _ _ Hkl Hf) as (_ & _ & _ & _ & Hm & Hp).
    apply wp_bind. eapply wp_run; [done|]. rewrite Hm, Hfi. apply wp_ret, wp_bind.
    eapply wp_mono; [by apply list_loop_wp|]. intros r s' Hr. by apply list_send_wp.
Qed.
End list.

(** A key that is too long is refused, after the first allocation. *)
Lemma kv_list_key_size ns w cmd :
  16 < cmd_kl cmd →
  wp (kv_list dma cmd) (λ st s', s'.1 = ns ∧ st = NVME_INVALID_FIELD ∧ allocs w s'.2) (ns, w).
Proof.
  intros Hkl. unfold kv_list. apply wp_bind. eapply wp_run; [apply alloc_eq|].
  destruct (Z.ltb_spec 16 (cmd_kl cmd)); [|lia]. apply wp_ret. cbn [snd].
  split_and!; [done..|]. apply (allocs_step w w (heap_alloc w).1); [apply rtc_refl|apply surjective_pairing].
Qed.

Lemma kv_list_spec ns ps id w cmd :
  kv_inv ns ps id → well_typed cmd →
  wp (kv_list dma cmd) (λ st s', s'.1 = ns ∧ list_spec cmd ps w st s'.2) (ns, w).
Proof.
  intros Hinv Hcmd. destruct (Z.ltb_spec 16 (cmd_kl cmd)).
  - eapply wp_mono; [by apply kv_list_key_size|]. intros st s' (? & -> & ?).
    split; [done|by constructor].
  - eapply kv_list_wp; [done|done|lia].
Qed.
End list_spec.
