(* ===== verification/Dma.v ===== *)
(** * Guest memory and the DMA helpers

    Models the "DMA helpers" part of [src/nvme.c] ([nvme_sgl_copy],
    [nvme_gpa_xfer], [nvme_prp_xfer]) and the two callbacks [kvdma_h2c] and
    [kvdma_c2h].  The libvfio-user library is a parameter: the class [Vfu] has the
    functions the code calls.  The effects that leave the program are recorded in
    the [host] state: the guest memory mapped into the process, the outcomes of
    the allocator, and a log of library calls. *)

From S2P Require Import Prelude.
From S2P Require Import Bytes.
From S2P Require Import NvmeSpec.
From S2P Require Import Kv.

(** ** Memory *)

Abbreviation mem := (gmap Z byte).

(** Mapped memory that was never written holds zero. *)
Definition mem_get (m : mem) (a : Z) : byte := default x00 (m !! a).

(** Write bytes to addresses, in order. *)
Fixpoint write_addrs (m : mem) (addrs : list Z) (bs : list byte) : mem :=
  match addrs, bs with
  | a :: addrs', b :: bs' => write_addrs (<[a := b]> m) addrs' bs'
  | _, _ => m
  end.

Definition mem_read (m : mem) (a n : Z) : list byte := mem_get m <$> seqZ a n.
Definition mem_write (m : mem) (a : Z) (bs : list byte) : mem :=
  write_addrs m (seqZ a (Z.of_nat (length bs))) bs.

Lemma write_addrs_app m a1 a2 b1 b2 :
  length a1 = length b1 →
  write_addrs m (a1 ++ a2) (b1 ++ b2) = write_addrs (write_addrs m a1 b1) a2 b2.
Proof.
  revert m b1. induction a1 as [|a a1 IH]; intros m [|b b1] [=]; cbn; [done|]. by apply IH.
Qed.

Lemma write_addrs_other m addrs bs a :
  a ∉ addrs → mem_get (write_addrs m addrs bs) a = mem_get m a.
Proof.
  revert m bs. induction addrs as [|x addrs IH]; intros m [|b bs] Ha; cbn; [done..|].
  rewrite IH by set_solver. unfold mem_get. rewrite lookup_insert_ne by set_solver. done.
Qed.

Lemma write_addrs_read m addrs bs :
  NoDup addrs → length addrs = length bs → mem_get (write_addrs m addrs bs) <$> addrs = bs.
Proof.
  revert m bs. induction addrs as [|a addrs IH]; intros m [|b bs] Hd [=]; cbn; [done|].
  apply NoDup_cons in Hd as [Ha Hd]. rewrite IH by done. f_equal.
  rewrite write_addrs_other by done. unfold mem_get. by rewrite lookup_insert_eq.
Qed.

(** ** The library *)

Record iovec : Type := { iov_base : Z; iov_len : Z }.

Inductive prot : Type := PROT_READ | PROT_WRITE.

(** libvfio-user, as far as [nvme.c] calls it.  [vfu_addr_to_sgl ctx addr len
    max prot] gives the return value and the entries it stored;
    [vfu_sgl_get ctx sgl n] the return value and the [iovec]s it filled in. *)
Class Vfu := {
  vfu_ctx_t : Type;
  dma_sg_t : Type;
  vfu_addr_to_sgl : vfu_ctx_t → Z → Z → Z → prot → Z * list dma_sg_t;
  vfu_sgl_get : vfu_ctx_t → list dma_sg_t → Z → Z * list iovec;
}.

(** What uninitialised heap memory holds. *)
Class Uninit := uninit : Z → byte.

(** Library calls with an effect outside the program. *)
Inductive vfu_call : Type :=
| SglGet (n : Z)
| SglPut (n : Z)
| IrqTrigger (vector : Z).

(** ** The world of the controller *)

Record host : Type := {
  h_heap : list bool;      (* outcomes of the next allocations; then all succeed *)
  h_mem : mem;             (* guest memory, by address in this process *)
  h_log : list vfu_call;   (* most recent call last *)
}.

Definition h_set_heap (h : host) (o : list bool) : host :=
  {| h_heap := o; h_mem := h_mem h; h_log := h_log h |}.
Definition h_set_mem (h : host) (m : mem) : host :=
  {| h_heap := h_heap h; h_mem := m; h_log := h_log h |}.
Definition h_add_call (h : host) (c : vfu_call) : host :=
  {| h_heap := h_heap h; h_mem := h_mem h; h_log := h_log h ++ [c] |}.

#[export] Instance host_heap `{Uninit} : Heap host := {|
  heap_alloc h :=
    match h_heap h with
    | [] => (true, h)
    | b :: o => (b, h_set_heap h o)
    end;
  heap_junk := uninit;
|}.

(** ** Transfers *)

Section dma.
Context `{Vfu} `{Uninit}.

Definition NVME_MAX_SG : Z := 16.

Definition call (c : vfu_call) : M host unit := modify (λ h, h_add_call h c).

(** The body of the copy loop, with the locals [buf] and [done]. *)
Definition copy_step (iov : list iovec) (len : Z) (to_host : bool) (i : Z)
    (l : list byte * Z) : M host (flow (list byte * Z) Z) :=
  let '(buf, done) := l in
  if negb (done <? len) then mret (Break (buf, done)) else
  v ← of_option (iov !! Z.to_nat i);
  let c := if len <? u64 (done + iov_len v) then len - done else iov_len v in
  if to_host then
    bs ← of_option (buf_read buf done c);
    modify (λ h, h_set_mem h (mem_write (h_mem h) (iov_base v) bs));;
    mret (Next (buf, u64 (done + c)))
  else
    m ← gets h_mem;
    buf' ← of_option (buf_write buf done (mem_read m (iov_base v) c));
    mret (Next (buf', u64 (done + c))).

(** Gives the return code and the buffer afterwards. *)
Definition nvme_sgl_copy (vfu : vfu_ctx_t) (sgl : list dma_sg_t) (nsg : Z)
    (buf : list byte) (len : Z) (to_host : bool) : M host (Z * list byte) :=
  if (nsg <=? 0) || (NVME_MAX_SG <? nsg) then mret (-1, buf) else
  let '(rc, iov) := vfu_sgl_get vfu sgl nsg in
  if truthy rc then mret (-1, buf) else
  call (SglGet nsg);;
  r ← for_range 0 nsg (buf, 0) (copy_step iov len to_host);
  call (SglPut nsg);;
  match r with
  | inl (buf, done) => mret (if done =? len then 0 else -1, buf)
  | inr _ => undef
  end.

Definition prot_of (to_host : bool) : prot := if to_host then PROT_WRITE else PROT_READ.

Definition nvme_gpa_xfer (vfu : vfu_ctx_t) (gpa : Z) (buf : list byte) (len : Z)
    (to_host : bool) : M host (Z * list byte) :=
  let max_sg := 8 in
  if len =? 0 then mret (0, buf) else
  ok ← alloc;
  if negb ok then mret (-1, buf) else
  let '(r, sgl) := vfu_addr_to_sgl vfu gpa len max_sg (prot_of to_host) in
  if r <=? 0 then mret (-1, buf) else
  nvme_sgl_copy vfu sgl r buf len to_host.

Definition nvme_prp_xfer (vfu : vfu_ctx_t) (prp1 prp2 : Z) (buf : list byte) (len : Z)
    (to_host : bool) : M host (Z * list byte) :=
  let ps := KVSSD_PAGE_SIZE in
  let max_sg := 16 in
  if len =? 0 then mret (0, buf) else
  ok ← alloc;
  if negb ok then mret (-1, buf) else
  let off := Z.land prp1 (ps - 1) in
  let first := len `min` (ps - off) in
  let '(r, sgl) := vfu_addr_to_sgl vfu prp1 first max_sg (prot_of to_host) in
  if r <=? 0 then mret (-1, buf) else
  let nsg := r in
  let remaining := len - first in
  if truthy remaining then
    if ps <? remaining then mret (-1, buf) else
    let '(r2, sgl2) := vfu_addr_to_sgl vfu prp2 remaining (max_sg - nsg) (prot_of to_host) in
    if r2 <=? 0 then mret (-1, buf) else
    nvme_sgl_copy vfu (sgl ++ sgl2) (nsg + r2) buf len to_host
  else nvme_sgl_copy vfu sgl nsg buf len to_host.

(** The callbacks behind [struct kv_dma]; of [ctx] they use [n->vfu] only. *)
Definition kvdma_h2c (vfu : vfu_ctx_t) (cmd : NvmeKVCmd) (dst : list byte) (len : Z) :
    M host (Z * list byte) :=
  nvme_prp_xfer vfu (cmd_prp1 cmd) (cmd_prp2 cmd) dst len false.

Definition kvdma_c2h (vfu : vfu_ctx_t) (cmd : NvmeKVCmd) (src : list byte) (len : Z) :
    M host Z :=
  r ← nvme_prp_xfer vfu (cmd_prp1 cmd) (cmd_prp2 cmd) src len true;
  mret r.1.

Definition kvdma (vfu : vfu_ctx_t) : kv_dma host :=
  {| h2c := kvdma_h2c vfu; c2h := kvdma_c2h vfu |}.
End dma.
