(* ===== verification/DmaSpec.v ===== *)
(** * What a DMA transfer does

    Under the documented behaviour of libvfio-user ([VfuOk]), a transfer that
    returns 0 has moved exactly the requested bytes between the local buffer and
    the guest range, in order, and one that returns -1 has left the local buffer
    its size; neither touches memory outside its buffer. *)

From S2P Require Import Prelude.
From S2P Require Import Bytes.
From S2P Require Import NvmeSpec.
From S2P Require Import Kv.
From S2P Require Import KvSpec.
From S2P Require Import Dma.

(** [translate ctx prot gpa] is the address, in this process, of the byte at
    guest address [gpa], when the guest has mapped it for [prot].
    [sg_addrs ctx s] are the addresses that the scatter/gather entry [s] covers.
    - A positive result [r] of [vfu_addr_to_sgl] says that the range is mapped and
      that the [r <= max] entries stored cover it in order.
    - A zero result of [vfu_sgl_get] says that each [iovec] spans its entry. *)
Class VfuOk `{Vfu} := {
  translate : vfu_ctx_t → prot → Z → option Z;
  sg_addrs : vfu_ctx_t → dma_sg_t → list Z;
  addr_to_sgl_ok vfu addr len max p r l :
    vfu_addr_to_sgl vfu addr len max p = (r, l) → 0 < r →
    Z.of_nat (length l) = r ∧ r ≤ max ∧
    mapM (translate vfu p) (seqZ addr len) = Some (concat (sg_addrs vfu <$> l));
  sgl_get_ok vfu l n rc iov :
    vfu_sgl_get vfu l n = (rc, iov) → rc = 0 → Z.of_nat (length l) = n →
    Forall2 (λ s v, 0 ≤ iov_len v ∧ sg_addrs vfu s = seqZ (iov_base v) (iov_len v)) l iov;
}.

Section dma_spec.
Context `{Uninit} `{VfuOk}.

(** The addresses of the guest bytes [gpa .. gpa + len). *)
Definition gpa_addrs (vfu : vfu_ctx_t) (p : prot) (gpa len : Z) : option (list Z) :=
  mapM (translate vfu p) (seqZ gpa len).

(** The guest addresses a PRP pair describes: the rest of the first page, then
    the second page from its PRP on. *)
Definition prp_gpas (prp1 prp2 len : Z) : list Z :=
  let first := len `min` (KVSSD_PAGE_SIZE - Z.land prp1 (KVSSD_PAGE_SIZE - 1)) in
  seqZ prp1 first ++ seqZ prp2 (len - first).

Definition prp_addrs (vfu : vfu_ctx_t) (p : prot) (prp1 prp2 len : Z) : option (list Z) :=
  mapM (translate vfu p) (prp_gpas prp1 prp2 len).

(** The outcome of a transfer over the addresses [addrs]. *)
Definition moved (to_host : bool) (addrs : list Z) (buf : list byte) (h : host)
    (buf' : list byte) (h' : host) : Prop :=
  if to_host then
    buf' = buf ∧ h_mem h' = write_addrs (h_mem h) addrs (take (length addrs) buf)
  else
    buf' = (mem_get (h_mem h) <$> addrs) ++ drop (length addrs) buf ∧ h_mem h' = h_mem h.

(** A transfer of [len] bytes whose addresses are [addrs]: it finishes in
    success or in -1, keeps the size of the buffer, and on success has moved
    the bytes. *)
Definition xfer_post (to_host : bool) (addrs : option (list Z)) (buf : list byte) (len : Z)
    (h : host) (r : Z * list byte) (h' : host) : Prop :=
  (r.1 = 0 ∨ r.1 = -1) ∧ length r.2 = length buf ∧
  (to_host = true → r.2 = buf) ∧ (to_host = false → h_mem h' = h_mem h) ∧
  (h_heap h = [] → h_heap h' = []) ∧
  (r.1 = 0 → ∃ a, addrs = Some a ∧ Z.of_nat (length a) = len ∧
                  moved to_host a buf h r.2 h').

Lemma xfer_post_fail to_host addrs buf len h h' :
  h_mem h' = h_mem h → (h_heap h = [] → h_heap h' = []) →
  xfer_post to_host addrs buf len h (-1, buf) h'.
Proof. intros. unfold xfer_post. cbn. split_and!; auto; done. Qed.

Lemma alloc_frame h :
  h_mem (heap_alloc h).2 = h_mem h ∧ (h_heap h = [] → h_heap (heap_alloc h).2 = []).
Proof. cbn. by destruct (h_heap h) as [|[] o] eqn:E; cbn; rewrite ?E. Qed.

Lemma xfer_post_nil to_host (f : Z → option Z) gpas buf h :
  gpas = [] → xfer_post to_host (mapM f gpas) buf 0 h (0, buf) h.
Proof.
  intros ->. split_and!; cbn; auto. intros _. exists []. split_and!; [done..|].
  by destruct to_host.
Qed.

Lemma prp_off_range prp : 0 ≤ Z.land prp (KVSSD_PAGE_SIZE - 1) < KVSSD_PAGE_SIZE.
Proof.
  change (KVSSD_PAGE_SIZE - 1) with (Z.ones 12). rewrite Z.land_ones by done.
  by apply Z.mod_pos_bound.
Qed.

(** *** The copy loop *)

Definition iov_addrs (v : iovec) : list Z := seqZ (iov_base v) (iov_len v).

Section copy.
Context (iov : list iovec) (to_host : bool) (buf : list byte) (len : Z) (h : host).
Hypothesis (Hlens : Forall (λ v, 0 ≤ iov_len v) iov).
Hypothesis (Htotal : Z.of_nat (length (concat (iov_addrs <$> iov))) = len).
Hypothesis (Hbuf : len ≤ Z.of_nat (length buf)) (Hlen : len < 2 ^ 64).

Let seen (j : nat) : list Z := concat (iov_addrs <$> take j iov).

Definition copy_inv (j : nat) (l : list byte * Z) (h' : host) : Prop :=
  l.2 = Z.of_nat (length (seen j)) ∧ length l.1 = length buf ∧
  (h_heap h = [] → h_heap h' = []) ∧ moved to_host (seen j) buf h l.1 h'.

Lemma seen_prefix j : concat (iov_addrs <$> iov) = seen j ++ concat (iov_addrs <$> drop j iov).
Proof. unfold seen. by rewrite <-concat_app, <-fmap_app, take_drop. Qed.

Lemma seen_full j : Z.of_nat (length (seen j)) = len → seen j = concat (iov_addrs <$> iov).
Proof.
  intros Hl. rewrite (seen_prefix j) in Htotal |- *. rewrite length_app in Htotal.
  destruct (concat (iov_addrs <$> drop j iov)); [by rewrite app_nil_r|cbn in *; lia].
Qed.

(** The part of the address list that iteration [j] adds. *)
Lemma seen_step j v :
  iov !! j = Some v →
  0 ≤ iov_len v ∧ seen (S j) = seen j ++ iov_addrs v ∧
  Z.of_nat (length (iov_addrs v)) = iov_len v ∧
  Z.of_nat (length (seen j)) + iov_len v ≤ len.
Proof.
  intros Hv. pose proof (Forall_lookup_1 _ _ _ _ Hlens Hv) as Hlv. cbn in Hlv.
  assert (Hseen : seen (S j) = seen j ++ iov_addrs v).
  { unfold seen. rewrite (take_S_r _ _ _ Hv), fmap_app, concat_app. cbn. by rewrite app_nil_r. }
  pose proof (seen_prefix (S j)) as Hp. apply (f_equal length) in Hp.
  rewrite Hseen, !length_app in Hp.
  assert (Hva : Z.of_nat (length (iov_addrs v)) = iov_len v)
    by (unfold iov_addrs; rewrite length_seqZ; lia).
  split_and!; [done..|lia].
Qed.

(** Iteration [j] towards the guest, and from the guest. *)
Lemma moved_write j v h' :
  iov !! j = Some v → moved true (seen j) buf h buf h' →
  moved true (seen (S j)) buf h buf
    (h_set_mem h' (mem_write (h_mem h') (iov_base v)
       (take (Z.to_nat (iov_len v)) (drop (Z.to_nat (Z.of_nat (length (seen j)))) buf)))).
Proof.
  intros Hv [_ Hm]. destruct (seen_step _ _ Hv) as (Hlv & Hseen & Hva & Hle).
  split; [done|]. cbn [h_mem h_set_mem]. rewrite Hseen, Hm, length_app.
  rewrite <-take_take_drop, write_addrs_app by (rewrite length_take; lia).
  unfold mem_write. rewrite Nat2Z.id, length_take, length_drop.
  replace (Z.to_nat (iov_len v)) with (length (iov_addrs v)) by lia.
  replace (Z.of_nat (length (iov_addrs v) `min` _)) with (iov_len v) by lia. done.
Qed.

Lemma moved_read j v b h' b' :
  iov !! j = Some v → moved false (seen j) buf h b h' →
  buf_write b (Z.of_nat (length (seen j))) (mem_read (h_mem h') (iov_base v) (iov_len v))
    = Some b' →
  moved false (seen (S j)) buf h b' h'.
Proof.
  intros Hv [Hb Hm]. destruct (seen_step _ _ Hv) as (Hlv & Hseen & Hva & Hle).
  assert (Hr : length (mem_read (h_mem h') (iov_base v) (iov_len v)) = length (iov_addrs v))
    by (unfold mem_read; by rewrite length_fmap).
  assert (Hlb : length b = length buf)
    by (rewrite Hb, length_app, length_fmap, length_drop; lia).
  rewrite buf_write_Some by lia. intros [= <-]. split; [|done].
  rewrite Hseen, Hr, Nat2Z.id, Hb, Hm, length_app, fmap_app, <-app_assoc.
  rewrite take_app_length' by (by rewrite length_fmap).
  rewrite drop_app_ge by (rewrite length_fmap; lia).
  rewrite length_fmap, drop_drop. do 3 f_equal. lia.
Qed.

Lemma copy_step_wp j l h' :
  (j < length iov)%nat → copy_inv j l h' →
  wp (copy_step iov len to_host (0 + Z.of_nat j) l) (λ f h'',
    match f with
    | Next l' => copy_inv (S j) l' h''
    | Break l' => copy_inv (length iov) l' h''
    | Return _ => False
    end) h'.
Proof.
  destruct l as [b d]. intros Hj (Hd & Hlb & Hh & Hm). cbn [fst snd] in *. subst d.
  unfold copy_step.
  destruct (Z.ltb_spec (Z.of_nat (length (seen j))) len) as [Hlt|Hge]; cbn [negb].
  2:{ pose proof (seen_prefix j) as Hp. apply (f_equal length) in Hp.
      rewrite length_app in Hp.
      assert (Hfull : seen (length iov) = seen j).
      { unfold seen at 1. rewrite firstn_all. symmetry. apply seen_full. lia. }
      apply wp_ret. unfold copy_inv. by rewrite Hfull. }
  destruct (lookup_lt_is_Some_2 iov j Hj) as [v Hv].
  destruct (seen_step _ _ Hv) as (Hlv & Hseen & Hva & Hle).
  assert (Hu : u64 (Z.of_nat (length (seen j)) + iov_len v) =
    Z.of_nat (length (seen (S j)))) by (rewrite Hseen, length_app, u64_small; lia).
  assert (Hn : Z.of_nat (length (seen (S j))) ≤ len)
    by (rewrite Hseen, length_app; lia).
  apply wp_bind. eapply wp_of_option; [by rewrite Z.add_0_l, Nat2Z.id|].
  cbv zeta. rewrite Hu. destruct (Z.ltb_spec len (Z.of_nat (length (seen (S j))))); [lia|].
  rewrite Hu. unfold copy_inv. destruct to_host.
  - assert (b = buf) as -> by apply Hm.
    apply wp_bind. eapply wp_of_option; [apply buf_read_Some; lia|].
    apply wp_bind, wp_modify, wp_ret. split; [done|]. split; [done|]. split; [done|].
    by apply moved_write.
  - apply wp_bind, wp_gets, wp_bind.
    assert (Hw : ∃ b', buf_write b (Z.of_nat (length (seen j)))
      (mem_read (h_mem h') (iov_base v) (iov_len v)) = Some b').
    { eexists. apply buf_write_Some; [lia|]. unfold mem_read.
      rewrite length_fmap, length_seqZ. lia. }
    destruct Hw as [b' Hw]. eapply wp_of_option; [done|]. apply wp_ret.
    split; [done|]. split; [|split; [done|by eapply moved_read]].
    cbn [fst]. by rewrite (buf_write_length _ _ _ _ Hw).
Qed.
(** What is left after the loop. *)
Lemma copy_end nsg l h' :
  copy_inv (length iov) l h' →
  wp (call (SglPut nsg);; mret (if l.2 =? len then 0 else -1, l.1))
    (λ r h'', r.1 = 0 ∧
       xfer_post to_host (Some (concat (iov_addrs <$> iov))) buf len h r h'') h'.
Proof.
  intros (Hd & Hlb & Hh & Hm). apply wp_bind, wp_modify, wp_ret.
  unfold seen in Hd, Hm. rewrite firstn_all in Hd, Hm.
  rewrite Hd, Htotal, Z.eqb_refl. unfold xfer_post. cbn [fst snd].
  split_and!; [done|by left|done| | |done|].
  - intros ->. apply Hm.
  - intros ->. cbn. apply Hm.
  - intros _. eexists. split_and!; [done..|]. unfold moved in *. by destruct to_host.
Qed.
End copy.

(** ** [nvme_sgl_copy], [nvme_gpa_xfer], [nvme_prp_xfer] *)

Section sgl_copy.
Context (vfu : vfu_ctx_t) (sgl : list dma_sg_t) (nsg : Z) (buf : list byte) (len : Z).
Context (to_host : bool) (h h0 : host) (addrs gpas : list Z).
Hypothesis (Hmem : h_mem h0 = h_mem h) (Hheap : h_heap h = [] → h_heap h0 = []).
Hypothesis (Hnsg : Z.of_nat (length sgl) = nsg).
Hypothesis (Htr : mapM (translate vfu (prot_of to_host)) gpas = Some addrs).
Hypothesis (Haddrs : addrs = concat (sg_addrs vfu <$> sgl)).
Hypothesis (Hgpas : Z.of_nat (length gpas) = len).
Hypothesis (Hlen : 0 ≤ len ≤ Z.of_nat (length buf)) (H64 : len < 2 ^ 64).

(** When the library maps the entries, the copy succeeds. *)
Lemma nvme_sgl_copy_success iov :
  0 < nsg ≤ NVME_MAX_SG → vfu_sgl_get vfu sgl nsg = (0, iov) →
  wp (nvme_sgl_copy vfu sgl nsg buf len to_host)
    (λ r h', r.1 = 0 ∧ xfer_post to_host (Some addrs) buf len h r h') h0.
Proof.
  intros Hrange Hget. unfold nvme_sgl_copy.
  destruct (Z.leb_spec nsg 0); [lia|].
  destruct (Z.ltb_spec NVME_MAX_SG nsg); [lia|]. cbn [orb]. rewrite Hget.
  pose proof (sgl_get_ok _ _ _ _ _ Hget eq_refl Hnsg) as Hiov.
  pose proof (Forall2_length _ _ _ Hiov) as Hl.
  assert (Haddrs' : addrs = concat (iov_addrs <$> iov)).
  { rewrite Haddrs. clear -Hiov. induction Hiov as [|s v sgl iov [_ Hs] _ IH]; cbn; [done|].
    by rewrite Hs, IH. }
  assert (Hlens : Forall (λ v, 0 ≤ iov_len v) iov).
  { clear -Hiov. induction Hiov as [|s v sgl iov [? _] _ IH]; by constructor. }
  assert (Htot : Z.of_nat (length (concat (iov_addrs <$> iov))) = len).
  { rewrite <-Haddrs', <-Hgpas. f_equal. symmetry. by apply length_mapM in Htr. }
  rewrite Haddrs'. apply wp_bind, wp_modify, wp_bind. unfold for_range.
  replace (Z.to_nat (nsg - 0)) with (length iov) by lia.
  apply (wp_for_loop (copy_inv iov to_host buf h)).
  - split_and!; [done..|]. unfold moved. by destruct to_host.
  - intros j l h' Hj Hinv.
    eapply wp_mono; [apply (copy_step_wp iov to_host buf len h); done || lia|].
    intros [l'|l'|r] h'' Hf; [done| |done].
    destruct l' as [b d]. by apply (copy_end iov to_host buf len h Htot nsg (b, d)).
  - intros [b d] h' Hinv. by apply (copy_end iov to_host buf len h Htot nsg (b, d)).
Qed.

Lemma nvme_sgl_copy_wp :
  wp (nvme_sgl_copy vfu sgl nsg buf len to_host)
    (xfer_post to_host (Some addrs) buf len h) h0.
Proof.
  destruct ((nsg <=? 0) || (NVME_MAX_SG <? nsg)) eqn:Hg.
  { unfold nvme_sgl_copy. rewrite Hg. by apply wp_ret, xfer_post_fail. }
  destruct (vfu_sgl_get vfu sgl nsg) as [rc iov] eqn:Hget.
  destruct (Z.eqb_spec rc 0) as [->|Hrc].
  - eapply wp_mono; [by eapply nvme_sgl_copy_success; [lia|]|]. by intros r h' [_ Hr].
  - unfold nvme_sgl_copy, truthy. rewrite Hg, Hget, (proj2 (Z.eqb_neq _ _) Hrc).
    by apply wp_ret, xfer_post_fail.
Qed.
End sgl_copy.

Lemma mapM_app_Some {A B} (f : A → option B) l1 l2 k1 k2 :
  mapM f l1 = Some k1 → mapM f l2 = Some k2 → mapM f (l1 ++ l2) = Some (k1 ++ k2).
Proof. rewrite !mapM_Some. apply Forall2_app. Qed.

Lemma nvme_gpa_xfer_wp vfu gpa buf len to_host h :
  0 ≤ len ≤ Z.of_nat (length buf) → len < 2 ^ 64 →
  wp (nvme_gpa_xfer vfu gpa buf len to_host)
    (xfer_post to_host (gpa_addrs vfu (prot_of to_host) gpa len) buf len h) h.
Proof.
  intros Hlen H64. unfold nvme_gpa_xfer, gpa_addrs.
  destruct (Z.eqb_spec len 0) as [->|Hn0]; [by apply wp_ret, xfer_post_nil|].
  apply wp_bind. unfold wp at 1, alloc. destruct (alloc_frame h) as [Hmem Hheap].
  destruct (heap_alloc h) as [[] h1]; cbn [negb snd] in *; [|by apply wp_ret, xfer_post_fail].
  destruct (vfu_addr_to_sgl _ _ _ _ _) as [r sgl] eqn:Hsgl.
  destruct (Z.leb_spec r 0); [by apply wp_ret, xfer_post_fail|].
  destruct (addr_to_sgl_ok _ _ _ _ _ _ _ Hsgl) as (Hr & _ & Htr); [done|].
  rewrite Htr. eapply nvme_sgl_copy_wp; try done. rewrite length_seqZ. lia.
Qed.

Lemma nvme_prp_xfer_wp vfu prp1 prp2 buf len to_host h :
  0 ≤ len ≤ Z.of_nat (length buf) →
  wp (nvme_prp_xfer vfu prp1 prp2 buf len to_host)
    (xfer_post to_host (prp_addrs vfu (prot_of to_host) prp1 prp2 len) buf len h) h.
Proof.
  intros Hlen. unfold nvme_prp_xfer, prp_addrs, prp_gpas.
  destruct (Z.eqb_spec len 0) as [->|Hn0]; [apply wp_ret, xfer_post_nil; by rewrite Z.min_l by
    (pose proof (prp_off_range prp1); lia)|].
  apply wp_bind. unfold wp at 1, alloc. destruct (alloc_frame h) as [Hmem Hheap].
  destruct (heap_alloc h) as [[] h1]; cbn [negb snd] in *; [|by apply wp_ret, xfer_post_fail].
  pose proof (prp_off_range prp1) as Hoff.
  set (off := Z.land prp1 (KVSSD_PAGE_SIZE - 1)) in *.
  set (first := len `min` (KVSSD_PAGE_SIZE - off)) in *.
  assert (Hfirst : 0 < first ≤ len) by lia.
  destruct (vfu_addr_to_sgl _ _ first _ _) as [r sgl] eqn:Hsgl.
  destruct (Z.leb_spec r 0); [by apply wp_ret, xfer_post_fail|].
  destruct (addr_to_sgl_ok _ _ _ _ _ _ _ Hsgl) as (Hr & _ & Htr); [done|].
  unfold truthy. destruct (Z.eqb_spec (len - first) 0) as [Hz|Hrem]; cbn [negb].
  - rewrite Hz, app_nil_r, Htr. eapply nvme_sgl_copy_wp; try done; [rewrite length_seqZ; lia|].
    unfold KVSSD_PAGE_SIZE in *. lia.
  - destruct (Z.ltb_spec KVSSD_PAGE_SIZE (len - first)); [by apply wp_ret, xfer_post_fail|].
    destruct (vfu_addr_to_sgl _ prp2 _ _ _) as [r2 sgl2] eqn:Hsgl2.
    destruct (Z.leb_spec r2 0); [by apply wp_ret, xfer_post_fail|].
    destruct (addr_to_sgl_ok _ _ _ _ _ _ _ Hsgl2) as (Hr2 & _ & Htr2); [done|].
    rewrite (mapM_app_Some _ _ _ _ _ Htr Htr2), <-concat_app, <-fmap_app.
    eapply nvme_sgl_copy_wp; try done.
    + rewrite length_app. lia.
    + rewrite fmap_app, concat_app. by apply mapM_app_Some.
    + rewrite length_app, !length_seqZ. lia.
    + unfold KVSSD_PAGE_SIZE in *. lia.
Qed.

(** ** The callbacks satisfy the contract of the handlers *)

Definition cmd_addrs (vfu : vfu_ctx_t) (p : prot) (cmd : NvmeKVCmd) (len : Z) :=
  prp_addrs vfu p (cmd_prp1 cmd) (cmd_prp2 cmd) len.

#[export, refine] Instance kvdma_ok (vfu : vfu_ctx_t) : DmaOk (kvdma vfu) := {|
  dma_read h cmd d :=
    ∃ addrs, cmd_addrs vfu PROT_READ cmd (Z.of_nat (length d)) = Some addrs ∧
             d = mem_get (h_mem h) <$> addrs;
  dma_write h cmd d h' :=
    ∃ addrs, cmd_addrs vfu PROT_WRITE cmd (Z.of_nat (length d)) = Some addrs ∧
             h_mem h' = write_addrs (h_mem h) addrs d;
|}.
Proof.
  - intros cmd dst len h Hlen. cbn. unfold kvdma_h2c.
    eapply wp_mono; [by apply nvme_prp_xfer_wp|].
    intros [rc dst'] h' (_ & Hl & _ & _ & _ & Hok). cbn [fst snd] in *. split; [done|].
    intros Hrc. destruct (Hok Hrc) as (addrs & Ha & Hla & Hm & _).
    exists (mem_get (h_mem h) <$> addrs). rewrite length_fmap, Hla.
    split_and!; [done|by exists addrs|]. rewrite Hm. do 2 f_equal. lia.
  - intros cmd src len h Hlen. cbn. unfold kvdma_c2h. apply wp_bind.
    eapply wp_mono; [by apply nvme_prp_xfer_wp|].
    intros [rc src'] h' (_ & _ & _ & _ & _ & Hok). apply wp_ret. cbn [fst snd] in *.
    intros Hrc. destruct (Hok Hrc) as (addrs & Ha & Hla & _ & Hm).
    exists addrs. rewrite length_take. split.
    + by replace (Z.of_nat _) with len by lia.
    + rewrite Hm. do 2 f_equal. lia.
Defined.
End dma_spec.

(** ** A concrete library: one flat region

    Guest addresses [0 .. size) are mapped at [vaddr]; every range inside the
    region is one entry.  It shows that [VfuOk] can hold, and the executable
    examples run on it. *)

Record flat_ctx : Type := { flat_vaddr : Z; flat_size : Z }.

Definition flat_addr_to_sgl (c : flat_ctx) (addr len max : Z) (_ : prot) : Z * list (Z * nat) :=
  if (0 <=? addr) && (addr + len <=? flat_size c) && (1 <=? max) && (0 <=? len)
  then (1, [(addr, Z.to_nat len)]) else (-1, []).

Definition flat_sgl_get (c : flat_ctx) (l : list (Z * nat)) (_ : Z) : Z * list iovec :=
  (0, (λ e, {| iov_base := flat_vaddr c + e.1; iov_len := Z.of_nat e.2 |}) <$> l).

#[export] Instance flat_vfu : Vfu := {|
  vfu_ctx_t := flat_ctx; dma_sg_t := Z * nat;
  vfu_addr_to_sgl := flat_addr_to_sgl; vfu_sgl_get := flat_sgl_get;
|}.

Definition flat_translate (c : flat_ctx) (_ : prot) (gpa : Z) : option Z :=
  if (0 <=? gpa) && (gpa <? flat_size c) then Some (flat_vaddr c + gpa) else None.

Lemma flat_translate_range c p addr len :
  0 ≤ addr → addr + len ≤ flat_size c →
  mapM (flat_translate c p) (seqZ addr len) = Some (seqZ (flat_vaddr c + addr) len).
Proof.
  intros Ha Hl. apply mapM_Some, Forall2_same_length_lookup_2.
  { by rewrite !length_seqZ. }
  intros i x y [Hx Hi]%lookup_seqZ [Hy _]%lookup_seqZ. subst. unfold flat_translate.
  destruct (Z.leb_spec 0 (addr + Z.of_nat i)); [|lia].
  destruct (Z.ltb_spec (addr + Z.of_nat i) (flat_size c)); [|lia]. cbn. f_equal. lia.
Qed.

#[export, refine] Instance flat_vfu_ok : VfuOk := {|
  translate := flat_translate;
  sg_addrs c e := seqZ (flat_vaddr c + e.1) (Z.of_nat e.2);
|}.
Proof.
  - intros c addr len max p r l. cbn. unfold flat_addr_to_sgl.
    destruct (_ && _) eqn:E; intros [= <- <-]; [|lia]. intros _.
    rewrite !andb_true_iff, !Z.leb_le in E. cbn. split_and!; [done|lia|].
    rewrite app_nil_r, Z2Nat.id by lia. apply flat_translate_range; lia.
  - intros c l n rc iov [= <- <-] _ _. apply Forall2_fmap_r, Forall_Forall2_diag, Forall_true.
    intros [a k]. cbn. split; [lia|done].
Defined.
