(* ===== verification/Ctrl.v ===== *)
(** * The controller's state

    Models the data of [src/nvme.h] and the constants of [src/nvme.c].  The
    functions of the controller run on a [machine]: the [struct nvme_ctrl] and the
    world of {!Dma}. *)

From S2P Require Import Prelude.
From S2P Require Import Bytes.
From S2P Require Import NvmeSpec.
From S2P Require Import Kv.
From S2P Require Import Dma.

(** ** Constants *)

Definition NVME_MAX_QUEUES : Z := 64.
Definition NVME_BAR0_SIZE : Z := 0x4000.
Definition NVME_NUM_IRQS : Z := NVME_MAX_QUEUES.
Definition NVME_MSIX_BAR : Z := 4.
Definition NVME_MSIX_TABLE_OFFSET : Z := 0.
Definition NVME_MSIX_PBA_OFFSET : Z := 1024.
Definition NVME_MSIX_BAR_SIZE : Z := 4096.

(** Controller register offsets. *)
Definition NVME_REG_CAP : Z := 0x00.
Definition NVME_REG_VS : Z := 0x08.
Definition NVME_REG_INTMS : Z := 0x0c.
Definition NVME_REG_INTMC : Z := 0x10.
Definition NVME_REG_CC : Z := 0x14.
Definition NVME_REG_CSTS : Z := 0x1c.
Definition NVME_REG_AQA : Z := 0x24.
Definition NVME_REG_ASQ : Z := 0x28.
Definition NVME_REG_ACQ : Z := 0x30.
Definition NVME_REG_DOORBELL : Z := 0x1000.

Definition NVME_CC_EN : Z := 0x1.
Definition NVME_CC_SHN_SHIFT : Z := 14.
Definition NVME_CC_SHN_MASK : Z := Z.shiftl 0x3 NVME_CC_SHN_SHIFT.
Definition NVME_CSTS_RDY : Z := 0x1.
Definition NVME_CSTS_SHST_MASK : Z := Z.shiftl 0x3 2.
Definition NVME_CSTS_SHST_COMPLETE : Z := Z.shiftl 0x2 2.

(** Admin command opcodes. *)
Definition NVME_ADM_DELETE_SQ : Z := 0x00.
Definition NVME_ADM_CREATE_SQ : Z := 0x01.
Definition NVME_ADM_GET_LOG_PAGE : Z := 0x02.
Definition NVME_ADM_DELETE_CQ : Z := 0x04.
Definition NVME_ADM_CREATE_CQ : Z := 0x05.
Definition NVME_ADM_IDENTIFY : Z := 0x06.
Definition NVME_ADM_SET_FEATURES : Z := 0x09.
Definition NVME_ADM_GET_FEATURES : Z := 0x0a.
Definition NVME_ADM_ASYNC_EVENT : Z := 0x0c.

(** Feature identifiers. *)
Definition NVME_FEAT_NUM_QUEUES : Z := 0x07.
Definition NVME_FEAT_KV_EDNEK : Z := 0x20.

(** Identify CNS values. *)
Definition NVME_ID_CNS_NS : Z := 0x00.
Definition NVME_ID_CNS_CTRL : Z := 0x01.
Definition NVME_ID_CNS_NS_ACTIVE_LIST : Z := 0x02.
Definition NVME_ID_CNS_NS_DESC_LIST : Z := 0x03.
Definition NVME_ID_CNS_CS_NS : Z := 0x05.
Definition NVME_ID_CNS_CS_CTRL : Z := 0x06.
Definition NVME_ID_CNS_NS_INDEPENDENT : Z := 0x08.
Definition NVME_ID_CNS_IO_CMD_SET : Z := 0x1c.

Definition NVME_NO_COMPLETE : Z := 0xffff.
Definition NVME_STATUS_INVALID_QID : Z := 0x0101.

(** ** Data *)

Record nvme_cq : Type := {
  cq_dma : Z; cq_size : Z; cq_qid : Z; cq_head : Z; cq_tail : Z;
  cq_phase : Z; cq_irq : Z; cq_enabled : bool;
}.

Record nvme_sq : Type := {
  sq_dma : Z; sq_size : Z; sq_qid : Z; sq_cqid : Z;
  sq_head : Z; sq_tail : Z; sq_enabled : bool;
}.

Definition cq_zero : nvme_cq := Build_nvme_cq 0 0 0 0 0 0 0 false.
Definition sq_zero : nvme_sq := Build_nvme_sq 0 0 0 0 0 0 false.

Definition cq_set_enabled (q : nvme_cq) (b : bool) : nvme_cq :=
  {| cq_dma := cq_dma q; cq_size := cq_size q; cq_qid := cq_qid q; cq_head := cq_head q;
     cq_tail := cq_tail q; cq_phase := cq_phase q; cq_irq := cq_irq q; cq_enabled := b |}.
Definition cq_set_head (q : nvme_cq) (v : Z) : nvme_cq :=
  {| cq_dma := cq_dma q; cq_size := cq_size q; cq_qid := cq_qid q; cq_head := v;
     cq_tail := cq_tail q; cq_phase := cq_phase q; cq_irq := cq_irq q;
     cq_enabled := cq_enabled q |}.
Definition cq_set_tail_phase (q : nvme_cq) (tail phase : Z) : nvme_cq :=
  {| cq_dma := cq_dma q; cq_size := cq_size q; cq_qid := cq_qid q; cq_head := cq_head q;
     cq_tail := tail; cq_phase := phase; cq_irq := cq_irq q; cq_enabled := cq_enabled q |}.
Definition sq_set_enabled (q : nvme_sq) (b : bool) : nvme_sq :=
  {| sq_dma := sq_dma q; sq_size := sq_size q; sq_qid := sq_qid q; sq_cqid := sq_cqid q;
     sq_head := sq_head q; sq_tail := sq_tail q; sq_enabled := b |}.
Definition sq_set_head (q : nvme_sq) (v : Z) : nvme_sq :=
  {| sq_dma := sq_dma q; sq_size := sq_size q; sq_qid := sq_qid q; sq_cqid := sq_cqid q;
     sq_head := v; sq_tail := sq_tail q; sq_enabled := sq_enabled q |}.
Definition sq_set_tail (q : nvme_sq) (v : Z) : nvme_sq :=
  {| sq_dma := sq_dma q; sq_size := sq_size q; sq_qid := sq_qid q; sq_cqid := sq_cqid q;
     sq_head := sq_head q; sq_tail := v; sq_enabled := sq_enabled q |}.

(** The register block. *)
Record nvme_regs : Type := {
  r_cap : Z; r_vs : Z; r_intms : Z; r_intmc : Z; r_cc : Z; r_csts : Z;
  r_aqa : Z; r_asq : Z; r_acq : Z;
}.

Definition regs_zero : nvme_regs := Build_nvme_regs 0 0 0 0 0 0 0 0 0.

Definition set_intms (r : nvme_regs) (v : Z) : nvme_regs :=
  Build_nvme_regs (r_cap r) (r_vs r) v (r_intmc r) (r_cc r) (r_csts r) (r_aqa r) (r_asq r) (r_acq r).
Definition set_intmc (r : nvme_regs) (v : Z) : nvme_regs :=
  Build_nvme_regs (r_cap r) (r_vs r) (r_intms r) v (r_cc r) (r_csts r) (r_aqa r) (r_asq r) (r_acq r).
Definition set_cc (r : nvme_regs) (v : Z) : nvme_regs :=
  Build_nvme_regs (r_cap r) (r_vs r) (r_intms r) (r_intmc r) v (r_csts r) (r_aqa r) (r_asq r) (r_acq r).
Definition set_csts (r : nvme_regs) (v : Z) : nvme_regs :=
  Build_nvme_regs (r_cap r) (r_vs r) (r_intms r) (r_intmc r) (r_cc r) v (r_aqa r) (r_asq r) (r_acq r).
Definition set_aqa (r : nvme_regs) (v : Z) : nvme_regs :=
  Build_nvme_regs (r_cap r) (r_vs r) (r_intms r) (r_intmc r) (r_cc r) (r_csts r) v (r_asq r) (r_acq r).
Definition set_asq (r : nvme_regs) (v : Z) : nvme_regs :=
  Build_nvme_regs (r_cap r) (r_vs r) (r_intms r) (r_intmc r) (r_cc r) (r_csts r) (r_aqa r) v (r_acq r).
Definition set_acq (r : nvme_regs) (v : Z) : nvme_regs :=
  Build_nvme_regs (r_cap r) (r_vs r) (r_intms r) (r_intmc r) (r_cc r) (r_csts r) (r_aqa r) (r_asq r) v.

Section ctrl.
Context `{Vfu} `{Uninit}.

Record nvme_ctrl : Type := {
  n_vfu : vfu_ctx_t;
  n_regs : nvme_regs;
  n_sq : list nvme_sq;
  n_cq : list nvme_cq;
  n_msix_region : list byte;
  n_ns : kv_ns;
}.

Definition n_set_regs (n : nvme_ctrl) (r : nvme_regs) : nvme_ctrl :=
  {| n_vfu := n_vfu n; n_regs := r; n_sq := n_sq n; n_cq := n_cq n;
     n_msix_region := n_msix_region n; n_ns := n_ns n |}.
Definition n_set_sq (n : nvme_ctrl) (q : list nvme_sq) : nvme_ctrl :=
  {| n_vfu := n_vfu n; n_regs := n_regs n; n_sq := q; n_cq := n_cq n;
     n_msix_region := n_msix_region n; n_ns := n_ns n |}.
Definition n_set_cq (n : nvme_ctrl) (q : list nvme_cq) : nvme_ctrl :=
  {| n_vfu := n_vfu n; n_regs := n_regs n; n_sq := n_sq n; n_cq := q;
     n_msix_region := n_msix_region n; n_ns := n_ns n |}.
Definition n_set_msix (n : nvme_ctrl) (m : list byte) : nvme_ctrl :=
  {| n_vfu := n_vfu n; n_regs := n_regs n; n_sq := n_sq n; n_cq := n_cq n;
     n_msix_region := m; n_ns := n_ns n |}.
Definition n_set_ns (n : nvme_ctrl) (ns : kv_ns) : nvme_ctrl :=
  {| n_vfu := n_vfu n; n_regs := n_regs n; n_sq := n_sq n; n_cq := n_cq n;
     n_msix_region := n_msix_region n; n_ns := ns |}.

Definition machine : Type := nvme_ctrl * host.
Abbreviation CT := (M machine).

(** ** Access to the state *)

Definition get_n : CT nvme_ctrl := gets fst.
Definition put_n (n : nvme_ctrl) : CT unit := modify (λ s, (n, s.2)).
Definition on_host {A} (m : M host A) : CT A := zoom snd (λ h s, (s.1, h)) m.
Definition on_ns {A} (m : M (kv_ns * host) A) : CT A :=
  zoom (λ s, (n_ns s.1, s.2)) (λ t s, (n_set_ns s.1 t.1, t.2)) m.

Definition get_regs : CT nvme_regs := gets (λ s, n_regs s.1).
Definition mod_regs (f : nvme_regs → nvme_regs) : CT unit :=
  modify (λ s, (n_set_regs s.1 (f (n_regs s.1)), s.2)).

(** [n->sq[i]] and [n->cq[i]], as values and as targets of an assignment. *)
Definition get_sq (i : Z) : CT nvme_sq :=
  n ← get_n; if i <? 0 then undef else of_option (n_sq n !! Z.to_nat i).
Definition get_cq (i : Z) : CT nvme_cq :=
  n ← get_n; if i <? 0 then undef else of_option (n_cq n !! Z.to_nat i).
Definition put_sq (i : Z) (q : nvme_sq) : CT unit :=
  n ← get_n;
  if (i <? 0) || (Z.of_nat (length (n_sq n)) <=? i) then undef
  else put_n (n_set_sq n (<[Z.to_nat i := q]> (n_sq n))).
Definition put_cq (i : Z) (q : nvme_cq) : CT unit :=
  n ← get_n;
  if (i <? 0) || (Z.of_nat (length (n_cq n)) <=? i) then undef
  else put_n (n_set_cq n (<[Z.to_nat i := q]> (n_cq n))).

(** ** [nvme_ctrl_init], [nvme_ctrl_teardown] *)

Definition ns_zero : kv_ns :=
  {| ns_pairs := None; ns_entries_allocated := 0; ns_max_num_keys := 0;
     ns_id_ns_kv := None; ns_ednek := 0 |}.

(** [memset (n, 0, sizeof *n); n->vfu = vfu]. *)
Definition ctrl_zero (vfu : vfu_ctx_t) : nvme_ctrl :=
  {| n_vfu := vfu; n_regs := regs_zero;
     n_sq := replicate (Z.to_nat NVME_MAX_QUEUES) sq_zero;
     n_cq := replicate (Z.to_nat NVME_MAX_QUEUES) cq_zero;
     n_msix_region := zeros NVME_MSIX_BAR_SIZE; n_ns := ns_zero |}.

Definition CAP_VALUE : Z :=
  Z.lor (Z.lor (Z.lor (Z.lor 0x3ff (Z.shiftl 1 16)) (Z.shiftl 0xf 24)) (Z.shiftl 1 37))
        (Z.shiftl 1 43).

Definition nvme_ctrl_init (vfu : vfu_ctx_t) (max_num_keys : Z) : CT Z :=
  put_n (ctrl_zero vfu);;
  mod_regs (λ r, Build_nvme_regs CAP_VALUE 0x00020000 (r_intms r) (r_intmc r) (r_cc r)
                   (r_csts r) (r_aqa r) (r_asq r) (r_acq r));;
  on_ns (kv_ns_init max_num_keys).

Definition nvme_ctrl_teardown : CT unit := on_ns kv_ns_teardown.
End ctrl.
