(* ===== verification/Admin.v ===== *)
(** * Admin commands and the KV dispatch

    Models the "Admin commands" and "KV I/O dispatch" parts of [src/nvme.c].  The
    out-parameter [cdw0] is threaded through the functions that have it.  The
    [NVME_TRACE] lines print only and are left out. *)

From Stdlib Require Import Strings.String.
From S2P Require Import Prelude.
From S2P Require Import Bytes.
From S2P Require Import NvmeSpec.
From S2P Require Import Kv.
From S2P Require Import Dma.
From S2P Require Import Ctrl.

(** ** Filling the Identify Controller page *)

(** A C string literal, with its terminator. *)
Definition c_str (s : string) : list byte := list_byte_of_string s ++ [x00].

Abbreviation BUF := (M (list byte)).

(** [buf[off] = v]. *)
Definition poke (off : Z) (v : byte) : BUF unit :=
  λ buf, match buf_write buf off [v] with
         | Some buf' => Done (tt, buf')
         | None => Undef
         end.

(** [memcpy (buf + off, bs, length bs)]. *)
Definition copy_in (off : Z) (bs : list byte) : BUF unit :=
  λ buf, match buf_write buf off bs with
         | Some buf' => Done (tt, buf')
         | None => Undef
         end.

(** [dst] is [buf + off]. *)
Definition nvme_fill_ascii (off : Z) (s : list byte) (width : Z) : BUF unit :=
  r ← for_range 0 width 0 (λ _ n,
    c ← of_option (s !! Z.to_nat n);
    if decide (c = x00) then mret (@Break Z Z n)
    else poke (off + n) c;; mret (Next (n + 1)));
  let n := match r with inl n => n | inr n => n end in
  for_range n width tt (λ i _, poke (off + i) x20;; mret (@Next unit unit tt));;
  mret tt.

Definition nvme_fill_id_ctrl : BUF unit :=
  modify (λ _, zeros KVSSD_PAGE_SIZE);;
  poke 0x00 x36;; poke 0x01 x1b;;
  poke 0x02 x36;; poke 0x03 x1b;;
  nvme_fill_ascii 0x04 (c_str "VFUKVSSD0000000000000001") 20;;
  nvme_fill_ascii 0x18 (c_str "vfio-user-kvssd") 40;;
  nvme_fill_ascii 0x40 (c_str "0.1.3") 8;;
  poke 0x48 x00;;
  poke 0x4c x00;; poke 0x4d x01;; poke 0x4e x01;; poke 0x4f x00;;
  poke 0x50 x00;; poke 0x51 x00;; poke 0x52 x02;; poke 0x53 x00;;
  poke 0x6f x01;;
  poke 0x100 x00;; poke 0x101 x00;; poke 0x102 x03;; poke 0x103 x03;;
  poke 0x104 x00;; poke 0x105 x00;; poke 0x106 x00;; poke 0x107 x00;;
  poke 0x108 x00;; poke 0x109 x00;;
  poke 0x200 x66;; poke 0x201 x44;;
  poke 0x204 x01;; poke 0x205 x00;; poke 0x206 x00;; poke 0x207 x00;;
  let nqn := c_str "nqn.2025-11.dk.safl:vfu_kvssd" in
  for_range 0 256 tt (λ i _,
    c ← of_option (nqn !! Z.to_nat i);
    if decide (c = x00) then mret (@Break unit unit tt)
    else poke (0x300 + i) c;; mret (Next tt));;
  mret tt.

Section admin.
Context `{Vfu} `{Uninit}.
Abbreviation CT := (M machine).

(** Run a buffer program on a local array whose contents are [init]. *)
Definition on_buf (init : list byte) (m : BUF unit) : CT (list byte) := λ s,
  match m init with
  | Done (_, buf) => Done (buf, s)
  | Undef => Undef
  | OutOfFuel => OutOfFuel
  end.

(** The [switch] on CNS: how the zeroed page is filled, or nothing for an
    unknown CNS; [id] is [n->ns.id_ns_kv]. *)
Definition identify_fill (id : option NvmeIdNsKV) (cns csi : Z) : option (BUF unit) :=
  if cns =? NVME_ID_CNS_CTRL then Some nvme_fill_id_ctrl
  else if cns =? NVME_ID_CNS_NS then
    let nsze := match id with Some d => id_nsze d | None => 0 end in
    let nuse := match id with Some d => id_nuse d | None => 0 end in
    Some (copy_in 0x00 (le_bytes 8 nsze);; copy_in 0x08 (le_bytes 8 nsze);;
          copy_in 0x10 (le_bytes 8 nuse);; copy_in 0x30 (le_bytes 8 nsze))
  else if cns =? NVME_ID_CNS_NS_ACTIVE_LIST then Some (copy_in 0 (le_bytes 4 1))
  else if cns =? NVME_ID_CNS_NS_DESC_LIST then
    Some (poke 0 x04;; poke 1 x01;; poke 4 (byte_of_Z NVME_CSI_KV))
  else if cns =? NVME_ID_CNS_CS_NS then
    if csi =? NVME_CSI_KV then
      Some (match id with Some d => copy_in 0 (id_ns_bytes d) | None => undef end)
    else Some (mret tt)
  else if cns =? NVME_ID_CNS_CS_CTRL then Some (mret tt)
  else if cns =? NVME_ID_CNS_NS_INDEPENDENT then Some (poke 14 x01)
  else if cns =? NVME_ID_CNS_IO_CMD_SET then
    Some (poke 0 (byte_of_Z (Z.shiftl 1 NVME_CSI_NVM)))
  else None.

Definition nvme_admin_identify (sqe : NvmeSqe) : CT Z :=
  let cns := Z.land (sqe_cdw10 sqe) 0xff in
  let csi := Z.land (Z.shiftr (sqe_cdw11 sqe) 24) 0xff in
  n ← get_n;
  match identify_fill (ns_id_ns_kv (n_ns n)) cns csi with
  | None => mret (Z.lor NVME_INVALID_FIELD NVME_DNR)
  | Some fill =>
      buf ← on_buf (zeros KVSSD_PAGE_SIZE) fill;
      r ← on_host (nvme_prp_xfer (n_vfu n) (sqe_prp1 sqe) (sqe_prp2 sqe) buf
                     KVSSD_PAGE_SIZE true);
      if truthy r.1 then mret (Z.lor NVME_INVALID_FIELD NVME_DNR) else mret NVME_SUCCESS
  end.

(** ** Features: status and [*cdw0] *)

Definition nvme_admin_set_features (sqe : NvmeSqe) (cdw0 : Z) : CT (Z * Z) :=
  let fid := Z.land (sqe_cdw10 sqe) 0xff in
  if fid =? NVME_FEAT_NUM_QUEUES then
    let nsqr := Z.land (sqe_cdw11 sqe) 0xffff in
    let ncqr := Z.land (Z.shiftr (sqe_cdw11 sqe) 16) 0xffff in
    let max0 := NVME_MAX_QUEUES - 2 in
    let gs := nsqr `min` max0 in
    let gc := ncqr `min` max0 in
    mret (NVME_SUCCESS, Z.lor (u32 (Z.shiftl gc 16)) gs)
  else if fid =? NVME_FEAT_KV_EDNEK then
    n ← get_n;
    put_n (n_set_ns n (ns_set_ednek (n_ns n) (sqe_cdw11 sqe)));;
    mret (NVME_SUCCESS, cdw0)
  else mret (NVME_SUCCESS, cdw0).

Definition nvme_admin_get_features (sqe : NvmeSqe) (cdw0 : Z) : CT (Z * Z) :=
  let fid := Z.land (sqe_cdw10 sqe) 0xff in
  if fid =? NVME_FEAT_NUM_QUEUES then
    let max0 := NVME_MAX_QUEUES - 2 in
    mret (NVME_SUCCESS, Z.lor (u32 (Z.shiftl max0 16)) max0)
  else if fid =? NVME_FEAT_KV_EDNEK then
    n ← get_n; mret (NVME_SUCCESS, ns_ednek (n_ns n))
  else mret (NVME_SUCCESS, 0).

(** ** Queue creation and deletion *)

Definition bad_qid (qid : Z) : bool := (qid =? 0) || (NVME_MAX_QUEUES <=? qid).
Definition INVALID_QID : Z := Z.lor NVME_STATUS_INVALID_QID NVME_DNR.

Definition nvme_admin_create_cq (sqe : NvmeSqe) : CT Z :=
  let qid := Z.land (sqe_cdw10 sqe) 0xffff in
  let qsize := Z.land (Z.shiftr (sqe_cdw10 sqe) 16) 0xffff in
  let iv := Z.land (Z.shiftr (sqe_cdw11 sqe) 16) 0xffff in
  if bad_qid qid then mret INVALID_QID else
  put_cq qid {| cq_dma := sqe_prp1 sqe; cq_size := qsize + 1; cq_qid := qid; cq_head := 0;
                cq_tail := 0; cq_phase := 1; cq_irq := iv; cq_enabled := true |};;
  mret NVME_SUCCESS.

Definition nvme_admin_create_sq (sqe : NvmeSqe) : CT Z :=
  let qid := Z.land (sqe_cdw10 sqe) 0xffff in
  let qsize := Z.land (Z.shiftr (sqe_cdw10 sqe) 16) 0xffff in
  let cqid := Z.land (Z.shiftr (sqe_cdw11 sqe) 16) 0xffff in
  if bad_qid qid || (NVME_MAX_QUEUES <=? cqid) then mret INVALID_QID else
  cq ← get_cq cqid;
  if negb (cq_enabled cq) then mret INVALID_QID else
  put_sq qid {| sq_dma := sqe_prp1 sqe; sq_size := qsize + 1; sq_qid := qid;
                sq_cqid := cqid; sq_head := 0; sq_tail := 0; sq_enabled := true |};;
  mret NVME_SUCCESS.

Definition nvme_admin_delete_cq (sqe : NvmeSqe) : CT Z :=
  let qid := Z.land (sqe_cdw10 sqe) 0xffff in
  if bad_qid qid then mret INVALID_QID else
  cq ← get_cq qid;
  put_cq qid (cq_set_enabled cq false);;
  mret NVME_SUCCESS.

Definition nvme_admin_delete_sq (sqe : NvmeSqe) : CT Z :=
  let qid := Z.land (sqe_cdw10 sqe) 0xffff in
  if bad_qid qid then mret INVALID_QID else
  sq ← get_sq qid;
  put_sq qid (sq_set_enabled sq false);;
  mret NVME_SUCCESS.

(** ** Dispatch *)

(** Pair a status with an untouched [*cdw0]. *)
Definition with_cdw0 (cdw0 : Z) (m : CT Z) : CT (Z * Z) := st ← m; mret (st, cdw0).

Definition nvme_admin_cmd (sqe : NvmeSqe) : CT (Z * Z) :=
  let cdw0 := 0 in
  let op := sqe_opcode sqe in
  if op =? NVME_ADM_IDENTIFY then with_cdw0 cdw0 (nvme_admin_identify sqe)
  else if op =? NVME_ADM_SET_FEATURES then nvme_admin_set_features sqe cdw0
  else if op =? NVME_ADM_GET_FEATURES then nvme_admin_get_features sqe cdw0
  else if op =? NVME_ADM_CREATE_CQ then with_cdw0 cdw0 (nvme_admin_create_cq sqe)
  else if op =? NVME_ADM_CREATE_SQ then with_cdw0 cdw0 (nvme_admin_create_sq sqe)
  else if op =? NVME_ADM_DELETE_CQ then with_cdw0 cdw0 (nvme_admin_delete_cq sqe)
  else if op =? NVME_ADM_DELETE_SQ then with_cdw0 cdw0 (nvme_admin_delete_sq sqe)
  else if op =? NVME_ADM_GET_LOG_PAGE then mret (NVME_SUCCESS, cdw0)
  else if op =? NVME_ADM_ASYNC_EVENT then mret (NVME_NO_COMPLETE, cdw0)
  else mret (Z.lor NVME_INVALID_OPCODE NVME_DNR, cdw0).

Definition nvme_io_kv (sqe : NvmeSqe) : CT Z :=
  let cmd : NvmeKVCmd := cast sqe in
  n ← get_n;
  let dma := kvdma (n_vfu n) in
  let op := cmd_opcode cmd in
  if op =? NVME_CMD_KV_STORE then on_ns (kv_store dma cmd)
  else if op =? NVME_CMD_KV_RETRIEVE then on_ns (kv_retrieve dma cmd)
  else if op =? NVME_CMD_KV_DELETE then on_ns (kv_delete cmd)
  else if op =? NVME_CMD_KV_EXIST then on_ns (kv_exist cmd)
  else if op =? NVME_CMD_KV_LIST then on_ns (kv_list dma cmd)
  else mret (Z.lor NVME_INVALID_OPCODE NVME_DNR).
End admin.
