(* ===== verification/Regs.v ===== *)
(** * The queue engine and register access

    Models the "Completion posting", "Queue engine" and "Register access" parts of
    [src/nvme.c].  The only unbounded loop is that of [nvme_process_sq]; it takes
    fuel, one unit per submission queue entry. *)

From S2P Require Import Prelude.
From S2P Require Import Bytes.
From S2P Require Import NvmeSpec.
From S2P Require Import Kv.
From S2P Require Import Dma.
From S2P Require Import Ctrl.
From S2P Require Import Admin.

(** ** [rd_le], [wr_le] *)

(** A shift of a [uint64_t] by 64 or more is undefined. *)
Definition rd_le {St : Type} (b : list byte) (n : Z) : M St Z :=
  r ← for_range 0 n 0 (λ i v,
    x ← of_option (b !! Z.to_nat i);
    if 64 <=? 8 * i then undef
    else mret (@Next Z Z (Z.lor v (u64 (Z.shiftl (Z_of_byte x) (8 * i))))));
  match r with inl v => mret v | inr v => mret v end.

(** [b] is [buf + off]. *)
Definition wr_le (off : Z) (n : Z) (v : Z) : BUF unit :=
  for_range 0 n tt (λ i _,
    if 64 <=? 8 * i then undef
    else poke (off + i) (byte_of_Z (Z.land (Z.shiftr v (8 * i)) 0xff));;
         mret (@Next unit unit tt));;
  mret tt.

Section regs.
Context `{Vfu} `{Uninit}.
Abbreviation CT := (M machine).

(** ** Completion posting *)

Definition nvme_post_cqe (cqid sqid sq_head cid cdw0 status : Z) : CT unit :=
  cq ← get_cq cqid;
  if negb (cq_enabled cq) then mret tt else
  let cqe := {| cqe_cdw0 := cdw0; cqe_cdw1 := 0; cqe_sq_head := sq_head; cqe_sq_id := sqid;
                cqe_cid := cid;
                cqe_status := u16 (Z.lor (Z.shiftl status 1) (Z.land (cq_phase cq) 1)) |} in
  n ← get_n;
  on_host (nvme_gpa_xfer (n_vfu n)
             (u64 (cq_dma cq + cq_tail cq * Z.of_nat (sizeof NvmeCqe)))
             (encode cqe) (Z.of_nat (sizeof NvmeCqe)) true);;
  let tail := u16 (cq_tail cq + 1) in
  put_cq cqid (if tail =? cq_size cq
               then cq_set_tail_phase cq 0 (Z.lxor (cq_phase cq) 1)
               else cq_set_tail_phase cq tail (cq_phase cq));;
  if 0 <=? cq_irq cq then on_host (call (IrqTrigger (u32 (cq_irq cq)))) else mret tt.

(** ** Queue engine *)

(** One iteration of the loop of [nvme_process_sq]: [true] to go on, [false]
    when the function returns. *)
Definition sq_step (qid : Z) : CT bool :=
  sq ← get_sq qid;
  n ← get_n;
  r ← on_host (nvme_gpa_xfer (n_vfu n)
                 (u64 (sq_dma sq + sq_head sq * Z.of_nat (sizeof NvmeSqe)))
                 (uninit <$> seqZ 0 64) (Z.of_nat (sizeof NvmeSqe)) false);
  if truthy r.1 then mret false else
  let sqe : NvmeSqe := decode r.2 in
  if sq_size sq =? 0 then undef else
  put_sq qid (sq_set_head sq (u16 ((sq_head sq + 1) mod sq_size sq)));;
  st ← (if qid =? 0 then nvme_admin_cmd sqe
        else st ← nvme_io_kv sqe; mret (st, 0));
  if st.1 =? NVME_NO_COMPLETE then mret true else
  sq ← get_sq qid;
  nvme_post_cqe (sq_cqid sq) qid (sq_head sq) (sqe_cid sqe) st.2 st.1;;
  mret true.

Fixpoint sq_loop (fuel : nat) (qid : Z) : CT unit :=
  sq ← get_sq qid;
  if sq_head sq =? sq_tail sq then mret tt else
  match fuel with
  | O => out_of_fuel
  | S fuel' =>
      more ← sq_step qid;
      if more : bool then sq_loop fuel' qid else mret tt
  end.

Definition nvme_process_sq (fuel : nat) (qid : Z) : CT unit :=
  sq ← get_sq qid;
  if negb (sq_enabled sq) then mret tt else sq_loop fuel qid.

Definition nvme_enable : CT unit :=
  r ← get_regs;
  put_sq 0 {| sq_dma := r_asq r; sq_size := Z.land (r_aqa r) 0xfff + 1; sq_qid := 0;
              sq_cqid := 0; sq_head := 0; sq_tail := 0; sq_enabled := true |};;
  put_cq 0 {| cq_dma := r_acq r; cq_size := Z.land (Z.shiftr (r_aqa r) 16) 0xfff + 1;
              cq_qid := 0; cq_head := 0; cq_tail := 0; cq_phase := 1; cq_irq := 0;
              cq_enabled := true |};;
  mod_regs (λ r, set_csts r NVME_CSTS_RDY).

Definition nvme_queues_down : CT unit :=
  for_range 0 NVME_MAX_QUEUES tt (λ i _,
    sq ← get_sq i; put_sq i (sq_set_enabled sq false);;
    cq ← get_cq i; put_cq i (cq_set_enabled cq false);;
    mret (@Next unit unit tt));;
  mret tt.

Definition nvme_disable : CT unit :=
  nvme_queues_down;;
  mod_regs (λ r, set_csts r
    (Z.land (r_csts r) (not32 (Z.lor NVME_CSTS_RDY NVME_CSTS_SHST_MASK)))).

Definition nvme_ctrl_reset : CT unit :=
  nvme_disable;;
  mod_regs (λ r, Build_nvme_regs (r_cap r) (r_vs r) 0 0 0 0 0 0 0).

(** ** Register access *)

Definition fill_regs (r : nvme_regs) : BUF unit :=
  wr_le NVME_REG_CAP 8 (r_cap r);;
  wr_le NVME_REG_VS 4 (r_vs r);;
  wr_le NVME_REG_INTMS 4 (r_intms r);;
  wr_le NVME_REG_INTMC 4 (r_intmc r);;
  wr_le NVME_REG_CC 4 (r_cc r);;
  wr_le NVME_REG_CSTS 4 (r_csts r);;
  wr_le NVME_REG_AQA 4 (r_aqa r);;
  wr_le NVME_REG_ASQ 8 (r_asq r);;
  wr_le NVME_REG_ACQ 8 (r_acq r).

(** Gives the contents of [buf] after the read. *)
Definition nvme_reg_read (offset count : Z) : CT (list byte) :=
  r ← get_regs;
  regs ← on_buf (zeros 0x40) (fill_regs r);
  if u64 (offset + count) <=? 0x40 then of_option (buf_read regs offset count)
  else mret (zeros count).

(** [CC] is written: [old] and [v] are the register before and after. *)
Definition cc_write (v : Z) : CT unit :=
  r ← get_regs;
  let old := r_cc r in
  let cc := u32 v in
  let shn := Z.land (u32 v) NVME_CC_SHN_MASK in
  let old_shn := Z.land old NVME_CC_SHN_MASK in
  mod_regs (λ r, set_cc r cc);;
  (if truthy (Z.land cc NVME_CC_EN) && negb (truthy (Z.land old NVME_CC_EN)) then nvme_enable
   else if negb (truthy (Z.land cc NVME_CC_EN)) && truthy (Z.land old NVME_CC_EN)
   then nvme_disable else mret tt);;
  (if truthy shn && negb (truthy old_shn) then
     nvme_queues_down;;
     mod_regs (λ r, set_csts r
       (Z.lor (Z.land (r_csts r) (not32 NVME_CSTS_SHST_MASK)) NVME_CSTS_SHST_COMPLETE))
   else if negb (truthy shn) && truthy old_shn then
     mod_regs (λ r, set_csts r (Z.land (r_csts r) (not32 NVME_CSTS_SHST_MASK)))
   else mret tt).

Definition lo32 (v : Z) : Z := Z.land v 0xffffffff.
Definition hi32 (v : Z) : Z := Z.land v (2 ^ 64 - 1 - 0xffffffff).

Definition nvme_reg_write (offset : Z) (buf : list byte) (count : Z) : CT unit :=
  v ← rd_le buf count;
  if offset =? NVME_REG_INTMS then mod_regs (λ r, set_intms r (u32 v))
  else if offset =? NVME_REG_INTMC then mod_regs (λ r, set_intmc r (u32 v))
  else if offset =? NVME_REG_CC then cc_write v
  else if offset =? NVME_REG_AQA then mod_regs (λ r, set_aqa r (u32 v))
  else if offset =? NVME_REG_ASQ then
    mod_regs (λ r, set_asq r (if count =? 8 then v else Z.lor (hi32 (r_asq r)) (lo32 v)))
  else if offset =? NVME_REG_ASQ + 4 then
    mod_regs (λ r, set_asq r (Z.lor (lo32 (r_asq r)) (u64 (Z.shiftl (lo32 v) 32))))
  else if offset =? NVME_REG_ACQ then
    mod_regs (λ r, set_acq r (if count =? 8 then v else Z.lor (hi32 (r_acq r)) (lo32 v)))
  else if offset =? NVME_REG_ACQ + 4 then
    mod_regs (λ r, set_acq r (Z.lor (lo32 (r_acq r)) (u64 (Z.shiftl (lo32 v) 32))))
  else mret tt.

(** ** The two region callbacks: return value and [buf] afterwards *)

Definition nvme_bar0_access (fuel : nat) (buf : list byte) (count offset : Z)
    (is_write : bool) : CT (Z * list byte) :=
  if NVME_REG_DOORBELL <=? offset then
    if is_write then
      v ← rd_le buf count;
      let val := u32 v in
      let idx := (offset - NVME_REG_DOORBELL) / 4 in
      let qid := u16 (idx / 2) in
      let is_cq := truthy (Z.land idx 1) in
      (if qid <? NVME_MAX_QUEUES then
         if is_cq then
           cq ← get_cq qid; put_cq qid (cq_set_head cq (u16 val))
         else
           sq ← get_sq qid; put_sq qid (sq_set_tail sq (u16 val));;
           nvme_process_sq fuel qid
       else mret tt);;
      mret (count, buf)
    else mret (count, zeros count)
  else if is_write then
    nvme_reg_write (u64 offset) buf count;; mret (count, buf)
  else
    buf' ← nvme_reg_read (u64 offset) count; mret (count, buf').

Definition nvme_msix_access (buf : list byte) (count offset : Z) (is_write : bool) :
    CT (Z * list byte) :=
  n ← get_n;
  if NVME_MSIX_BAR_SIZE <? u64 (u64 offset + count) then mret (-1, buf) else
  if is_write then
    src ← of_option (buf_read buf 0 count);
    region ← of_option (buf_write (n_msix_region n) offset src);
    put_n (n_set_msix n region);;
    mret (count, buf)
  else
    bs ← of_option (buf_read (n_msix_region n) offset count);
    buf' ← of_option (buf_write buf 0 bs);
    mret (count, buf').
End regs.
