(* ===== verification/Keeps.v ===== *)
(** * What computations keep

    [keeps P m]: if [m], run from a state with [P], finishes, [P] still holds.  The
    rules are structural, so that a property of the world that allocation and
    transfers keep is kept by every handler, by a walk over its code. *)

From S2P Require Import Prelude.
From S2P Require Import Bytes.
From S2P Require Import NvmeSpec.
From S2P Require Import Kv.
From S2P Require Import Dma.
From S2P Require Import Ctrl.
From S2P Require Import Admin.
From S2P Require Import Regs.

Definition keeps {St A : Type} (P : St → Prop) (m : M St A) : Prop :=
  ∀ s, P s → match m s with Done (_, s') => P s' | _ => True end.

Create HintDb keeps.

Section rules.
Context {St : Type} (P : St → Prop).

Lemma keeps_ret {A} (a : A) : keeps P (mret a).
Proof. by intros s Hs. Qed.

Lemma keeps_bind {A B} (m : M St A) (k : A → M St B) :
  keeps P m → (∀ a, keeps P (k a)) → keeps P (m ≫= k).
Proof.
  intros Hm Hk s Hs. specialize (Hm s Hs). unfold mbind, M_bind.
  destruct (m s) as [[a s']| |]; [by apply Hk|done..].
Qed.

Lemma keeps_undef {A} : keeps P (undef : M St A).
Proof. by intros s Hs. Qed.

Lemma keeps_gets {A} (f : St → A) : keeps P (gets f).
Proof. by intros s Hs. Qed.

Lemma keeps_of_option {A} (o : option A) : keeps P (of_option o).
Proof. destruct o; [apply keeps_ret|apply keeps_undef]. Qed.

Lemma keeps_modify (f : St → St) : (∀ s, P s → P (f s)) → keeps P (modify f).
Proof. intros Hf s Hs. by apply Hf. Qed.

Lemma keeps_for_loop {L R} n i (l : L) (body : Z → L → M St (flow L R)) :
  (∀ i l, keeps P (body i l)) → keeps P (for_loop n i l body).
Proof.
  intros Hb. revert i l. induction n as [|n IH]; intros i l; cbn; [apply keeps_ret|].
  apply keeps_bind; [done|]. intros [l'|l'|r]; [apply IH|apply keeps_ret..].
Qed.

Lemma keeps_for_range {L R} lo hi (l : L) (body : Z → L → M St (flow L R)) :
  (∀ i l, keeps P (body i l)) → keeps P (for_range lo hi l body).
Proof. apply keeps_for_loop. Qed.

(** The component that [m] runs on is all that [P] looks at. *)
Lemma keeps_zoom {T A} (Q : T → Prop) (get : St → T) (put : T → St → St) (m : M T A) :
  (∀ s, P s → Q (get s)) → (∀ s t, P s → Q t → P (put t s)) → keeps Q m →
  keeps P (zoom get put m).
Proof.
  intros Hget Hput Hm s Hs. specialize (Hm _ (Hget _ Hs)). unfold zoom.
  destruct (m (get s)) as [[a t]| |]; [by apply Hput|done..].
Qed.
End rules.

#[export] Hint Resolve keeps_ret keeps_undef keeps_gets keeps_of_option : keeps.

(** Walk through the code. *)
Ltac keeps_step :=
  first
    [ solve [auto with keeps]
    | apply keeps_bind; [|intros ?]
    | apply keeps_for_range; intros ? ?
    | progress cbv zeta
    | case_match ].
Ltac solve_keeps := repeat keeps_step.

(** ** The handlers *)

Section handlers.
Context {W : Type} `{Heap W} (dma : kv_dma W) (Q : W → Prop).
Hypothesis Halloc : keeps Q alloc.
Hypothesis Hh2c : ∀ cmd dst len, keeps Q (h2c dma cmd dst len).
Hypothesis Hc2h : ∀ cmd src len, keeps Q (c2h dma cmd src len).

Definition on_world (s : kv_ns * W) : Prop := Q s.2.

Lemma keeps_in_world {A} (m : M W A) : keeps Q m → keeps on_world (in_world m).
Proof. by apply keeps_zoom. Qed.

Lemma keeps_put_ns ns : keeps on_world (put_ns ns).
Proof. by apply keeps_modify. Qed.

Hint Resolve keeps_in_world keeps_put_ns : keeps.

Lemma keeps_get_ns : keeps on_world get_ns.
Proof. unfold get_ns. solve_keeps. Qed.
Hint Resolve keeps_get_ns : keeps.
Lemma keeps_pair_at i : keeps on_world (pair_at i).
Proof. unfold pair_at. solve_keeps. Qed.
Lemma keeps_set_pair_at i p : keeps on_world (set_pair_at i p).
Proof. unfold set_pair_at. solve_keeps. Qed.
Lemma keeps_get_nuse : keeps on_world get_nuse.
Proof. unfold get_nuse. solve_keeps. Qed.
Lemma keeps_set_nuse v : keeps on_world (set_nuse v).
Proof. unfold set_nuse. solve_keeps. Qed.
Hint Resolve keeps_pair_at keeps_set_pair_at keeps_get_nuse keeps_set_nuse : keeps.

Lemma keeps_h2c_into_val cmd i : keeps on_world (h2c_into_val dma cmd i).
Proof. unfold h2c_into_val. solve_keeps. Qed.
Lemma keeps_kv_grow : keeps on_world kv_grow.
Proof. unfold kv_grow. solve_keeps. Qed.
Hint Resolve keeps_h2c_into_val keeps_kv_grow : keeps.
Lemma keeps_kv_store_new cmd z : keeps on_world (kv_store_new dma cmd z).
Proof. unfold kv_store_new. solve_keeps. Qed.
Hint Resolve keeps_kv_store_new : keeps.
Lemma keeps_kv_store cmd : keeps on_world (kv_store dma cmd).
Proof. unfold kv_store. solve_keeps. Qed.
Lemma keeps_kv_retrieve cmd : keeps on_world (kv_retrieve dma cmd).
Proof. unfold kv_retrieve. solve_keeps. Qed.
Lemma keeps_kv_delete cmd : keeps on_world (kv_delete cmd).
Proof. unfold kv_delete. solve_keeps. Qed.
Lemma keeps_kv_exist cmd : keeps on_world (kv_exist cmd).
Proof. unfold kv_exist. solve_keeps. Qed.
Lemma keeps_list_step cmd i l : keeps on_world (list_step cmd i l).
Proof. unfold list_step. destruct l. solve_keeps. Qed.
Hint Resolve keeps_list_step : keeps.
Lemma keeps_kv_list cmd : keeps on_world (kv_list dma cmd).
Proof. unfold kv_list. solve_keeps. Qed.
End handlers.

(** ** Allocations that all succeed go on succeeding *)

Definition heap_full (h : host) : Prop := h_heap h = [].

Section transfers.
Context `{Vfu} `{Uninit}.

Lemma keeps_alloc_full : keeps heap_full alloc.
Proof. intros h Hh. unfold alloc. cbn. by rewrite Hh. Qed.
Lemma keeps_call_full c : keeps heap_full (call c).
Proof. by apply keeps_modify. Qed.
Lemma keeps_set_mem_full f : keeps heap_full (modify (λ h, h_set_mem h (f h))).
Proof. by apply keeps_modify. Qed.
Hint Resolve keeps_alloc_full keeps_call_full : keeps.

Lemma keeps_copy_step iov len to_host i l : keeps heap_full (copy_step iov len to_host i l).
Proof.
  unfold copy_step. destruct l. solve_keeps.
  apply (keeps_set_mem_full (λ h, mem_write (h_mem h) _ _)).
Qed.
Hint Resolve keeps_copy_step : keeps.

Lemma keeps_sgl_copy vfu sgl nsg buf len to_host :
  keeps heap_full (nvme_sgl_copy vfu sgl nsg buf len to_host).
Proof. unfold nvme_sgl_copy. solve_keeps. Qed.
Hint Resolve keeps_sgl_copy : keeps.

Lemma keeps_gpa_xfer vfu gpa buf len to_host :
  keeps heap_full (nvme_gpa_xfer vfu gpa buf len to_host).
Proof. unfold nvme_gpa_xfer. solve_keeps. Qed.
Lemma keeps_prp_xfer vfu prp1 prp2 buf len to_host :
  keeps heap_full (nvme_prp_xfer vfu prp1 prp2 buf len to_host).
Proof. unfold nvme_prp_xfer. solve_keeps. Qed.
Hint Resolve keeps_prp_xfer keeps_gpa_xfer : keeps.

(** The same of a machine. *)
Definition full (s : machine) : Prop := heap_full s.2.

Lemma keeps_on_host {A} (m : M host A) : keeps heap_full m → keeps full (on_host m).
Proof. by apply keeps_zoom. Qed.
Lemma keeps_on_ns {A} (m : M (kv_ns * host) A) :
  keeps (on_world heap_full) m → keeps full (on_ns m).
Proof. by apply keeps_zoom. Qed.
Lemma keeps_put_n n : keeps full (put_n n).
Proof. by apply keeps_modify. Qed.
Hint Resolve keeps_on_host keeps_on_ns keeps_put_n : keeps.

Lemma keeps_get_n : keeps full get_n.
Proof. unfold get_n. solve_keeps. Qed.
Hint Resolve keeps_get_n : keeps.
Lemma keeps_get_sq i : keeps full (get_sq i).
Proof. unfold get_sq. solve_keeps. Qed.
Lemma keeps_get_cq i : keeps full (get_cq i).
Proof. unfold get_cq. solve_keeps. Qed.
Lemma keeps_put_sq i q : keeps full (put_sq i q).
Proof. unfold put_sq. solve_keeps. Qed.
Lemma keeps_put_cq i q : keeps full (put_cq i q).
Proof. unfold put_cq. solve_keeps. Qed.
Hint Resolve keeps_get_sq keeps_get_cq keeps_put_sq keeps_put_cq : keeps.

Lemma keeps_kvdma_c2h vfu cmd src len : keeps heap_full (kvdma_c2h vfu cmd src len).
Proof. unfold kvdma_c2h. solve_keeps. Qed.
Hint Resolve keeps_kvdma_c2h : keeps.

Lemma keeps_io_kv sqe : keeps full (nvme_io_kv sqe).
Proof.
  unfold nvme_io_kv. apply keeps_bind; [auto with keeps|]. intros n. cbv zeta.
  assert (Hh2c : ∀ cmd dst len, keeps heap_full (h2c (kvdma (n_vfu n)) cmd dst len))
    by (intros; apply keeps_prp_xfer).
  assert (Hc2h : ∀ cmd src len, keeps heap_full (c2h (kvdma (n_vfu n)) cmd src len))
    by (intros; apply keeps_kvdma_c2h).
  repeat (case_match; [apply keeps_on_ns;
    auto using keeps_kv_store, keeps_kv_retrieve, keeps_kv_delete, keeps_kv_exist, keeps_kv_list
      with keeps|]).
  auto with keeps.
Qed.

Lemma keeps_post_cqe cqid sqid sq_head cid cdw0 status :
  keeps full (nvme_post_cqe cqid sqid sq_head cid cdw0 status).
Proof. unfold nvme_post_cqe. solve_keeps. Qed.
Hint Resolve keeps_io_kv keeps_post_cqe : keeps.

Lemma keeps_sq_step qid : qid ≠ 0 → keeps full (sq_step qid).
Proof. intros Hq. unfold sq_step. rewrite (proj2 (Z.eqb_neq _ _) Hq). solve_keeps. Qed.
End transfers.
