(* ===== verification/CtrlInv.v ===== *)
(** * The controller invariant

    [ctrl_inv n]: the arrays have their sizes, every queue is usable, the register
    block is consistent with the queues, and the namespace is well formed.  The
    lemmas say what each primitive access of {!Ctrl} does under it. *)

From S2P Require Import Prelude.
From S2P Require Import Bytes.
From S2P Require Import NvmeSpec.
From S2P Require Import Kv.
From S2P Require Import KvTable.
From S2P Require Import KvInv.
From S2P Require Import KvSpec.
From S2P Require Import KvList.
From S2P Require Import Dma.
From S2P Require Import DmaSpec.
From S2P Require Import Ctrl.
From S2P Require Import Admin.
From S2P Require Import Regs.

(** A submission queue: its fields are in the range of their C types, an enabled one
    has at least one entry and its head is an entry of it. *)
Record sq_wf (q : nvme_sq) : Prop := {
  sw_dma : 0 ≤ sq_dma q < 2 ^ 64;
  sw_qid : 0 ≤ sq_qid q < 2 ^ 16;
  sw_cqid : 0 ≤ sq_cqid q < 64;
  sw_size : 0 ≤ sq_size q ≤ 2 ^ 16;
  sw_head : 0 ≤ sq_head q < 2 ^ 16;
  sw_tail : 0 ≤ sq_tail q < 2 ^ 16;
  sw_enabled : sq_enabled q = true → sq_head q < sq_size q;
}.

Record cq_wf (q : nvme_cq) : Prop := {
  cw_dma : 0 ≤ cq_dma q < 2 ^ 64;
  cw_qid : 0 ≤ cq_qid q < 2 ^ 16;
  cw_head : 0 ≤ cq_head q < 2 ^ 16;
  cw_size : 0 ≤ cq_size q ≤ 2 ^ 16;
  cw_tail : 0 ≤ cq_tail q < 2 ^ 16;
  cw_phase : 0 ≤ cq_phase q ≤ 1;
  cw_irq : 0 ≤ cq_irq q < 2 ^ 16;
  cw_enabled : cq_enabled q = true → cq_tail q < cq_size q;
}.

Definition cc_en (cc : Z) : bool := truthy (Z.land cc NVME_CC_EN).
Definition cc_shn (cc : Z) : bool := truthy (Z.land cc NVME_CC_SHN_MASK).
Definition b2z (b : bool) : Z := if b then 1 else 0.

(** CSTS is RDY exactly when CC.EN is set, plus "shutdown complete" at most while
    a shutdown notification stands. *)
Definition csts_ok (r : nvme_regs) : Prop :=
  r_csts r = b2z (cc_en (r_cc r)) ∨
  (cc_shn (r_cc r) = true ∧ r_csts r = b2z (cc_en (r_cc r)) + NVME_CSTS_SHST_COMPLETE).

Record regs_wf (r : nvme_regs) : Prop := {
  rw_csts : csts_ok r;
  rw_cap : r_cap r = CAP_VALUE;
  rw_vs : r_vs r = 0x00020000;
  rw_intms : 0 ≤ r_intms r < 2 ^ 32;
  rw_intmc : 0 ≤ r_intmc r < 2 ^ 32;
  rw_cc : 0 ≤ r_cc r < 2 ^ 32;
  rw_aqa : 0 ≤ r_aqa r < 2 ^ 32;
  rw_asq : 0 ≤ r_asq r < 2 ^ 64;
  rw_acq : 0 ≤ r_acq r < 2 ^ 64;
}.

Section inv.
Context `{Uninit} `{VfuOk}.
Implicit Types (n : nvme_ctrl) (h : host).
Abbreviation CT := (M machine).

(** No queue is enabled. *)
Definition all_down n : Prop :=
  Forall (λ q, sq_enabled q = false) (n_sq n) ∧ Forall (λ q, cq_enabled q = false) (n_cq n).

Record queues_wf n : Prop := {
  qw_sqs : length (n_sq n) = 64%nat;
  qw_cqs : length (n_cq n) = 64%nat;
  qw_sq : Forall sq_wf (n_sq n);
  qw_cq : Forall cq_wf (n_cq n);
}.

Record ctrl_inv n : Prop := {
  ci_queues : queues_wf n;
  ci_regs : regs_wf (n_regs n);
  ci_msix : Z.of_nat (length (n_msix_region n)) = 4096;
  ci_ns : kv_ok (n_ns n);
  (** queues are enabled only while the controller is ready and not shut down *)
  ci_down : r_csts (n_regs n) ≠ NVME_CSTS_RDY → all_down n;
}.

(** What the loops of this file and the commands never change. *)
Definition same_identity n n' : Prop :=
  n_vfu n' = n_vfu n ∧ ns_max_num_keys (n_ns n') = ns_max_num_keys (n_ns n).

Lemma sq_zero_wf : sq_wf sq_zero.
Proof. by split. Qed.
Lemma cq_zero_wf : cq_wf cq_zero.
Proof. by split. Qed.

(** ** Accesses *)

Lemma get_sq_eq n h i q :
  n_sq n !! i = Some q → get_sq (Z.of_nat i) (n, h) = Done (q, (n, h)).
Proof.
  intros Hi. unfold get_sq, get_n, gets, mbind, M_bind. cbn.
  destruct (Z.ltb_spec (Z.of_nat i) 0); [lia|]. by rewrite Nat2Z.id, Hi.
Qed.

Lemma get_cq_eq n h i q :
  n_cq n !! i = Some q → get_cq (Z.of_nat i) (n, h) = Done (q, (n, h)).
Proof.
  intros Hi. unfold get_cq, get_n, gets, mbind, M_bind. cbn.
  destruct (Z.ltb_spec (Z.of_nat i) 0); [lia|]. by rewrite Nat2Z.id, Hi.
Qed.

Lemma put_sq_eq n h i q :
  (i < length (n_sq n))%nat →
  put_sq (Z.of_nat i) q (n, h) = Done (tt, (n_set_sq n (<[i:=q]> (n_sq n)), h)).
Proof.
  intros Hi. unfold put_sq, get_n, gets, mbind, M_bind. cbn.
  destruct (Z.ltb_spec (Z.of_nat i) 0); [lia|].
  destruct (Z.leb_spec (Z.of_nat (length (n_sq n))) (Z.of_nat i)); [lia|].
  by rewrite Nat2Z.id.
Qed.

Lemma put_cq_eq n h i q :
  (i < length (n_cq n))%nat →
  put_cq (Z.of_nat i) q (n, h) = Done (tt, (n_set_cq n (<[i:=q]> (n_cq n)), h)).
Proof.
  intros Hi. unfold put_cq, get_n, gets, mbind, M_bind. cbn.
  destruct (Z.ltb_spec (Z.of_nat i) 0); [lia|].
  destruct (Z.leb_spec (Z.of_nat (length (n_cq n))) (Z.of_nat i)); [lia|].
  by rewrite Nat2Z.id.
Qed.

(** A queue index in range, as a [nat]. *)
Lemma qid_nat (z : Z) : 0 ≤ z < 64 → ∃ i : nat, z = Z.of_nat i ∧ (i < 64)%nat.
Proof. intros. exists (Z.to_nat z). lia. Qed.

Lemma get_sq_wp n h z (Q : nvme_sq → machine → Prop) :
  queues_wf n → 0 ≤ z < 64 →
  (∀ q, n_sq n !! Z.to_nat z = Some q → sq_wf q → Q q (n, h)) → wp (get_sq z) Q (n, h).
Proof.
  intros Hq Hz HQ. destruct (qid_nat z Hz) as (i & -> & Hi).
  destruct (lookup_lt_is_Some_2 (n_sq n) i) as [q Hlk]; [by rewrite (qw_sqs _ Hq)|].
  eapply wp_run; [by apply get_sq_eq|]. rewrite Nat2Z.id in HQ. apply HQ; [done|].
  eapply Forall_lookup_1; [apply Hq|done].
Qed.

Lemma get_cq_wp n h z (Q : nvme_cq → machine → Prop) :
  queues_wf n → 0 ≤ z < 64 →
  (∀ q, n_cq n !! Z.to_nat z = Some q → cq_wf q → Q q (n, h)) → wp (get_cq z) Q (n, h).
Proof.
  intros Hq Hz HQ. destruct (qid_nat z Hz) as (i & -> & Hi).
  destruct (lookup_lt_is_Some_2 (n_cq n) i) as [q Hlk]; [by rewrite (qw_cqs _ Hq)|].
  eapply wp_run; [by apply get_cq_eq|]. rewrite Nat2Z.id in HQ. apply HQ; [done|].
  eapply Forall_lookup_1; [apply Hq|done].
Qed.

Lemma put_sq_wp n h z q (Q : unit → machine → Prop) :
  queues_wf n → 0 ≤ z < 64 →
  Q tt (n_set_sq n (<[Z.to_nat z := q]> (n_sq n)), h) → wp (put_sq z q) Q (n, h).
Proof.
  intros Hq Hz HQ. destruct (qid_nat z Hz) as (i & -> & Hi). rewrite Nat2Z.id in HQ.
  eapply wp_run; [|done]. apply put_sq_eq. by rewrite (qw_sqs _ Hq).
Qed.

Lemma put_cq_wp n h z q (Q : unit → machine → Prop) :
  queues_wf n → 0 ≤ z < 64 →
  Q tt (n_set_cq n (<[Z.to_nat z := q]> (n_cq n)), h) → wp (put_cq z q) Q (n, h).
Proof.
  intros Hq Hz HQ. destruct (qid_nat z Hz) as (i & -> & Hi). rewrite Nat2Z.id in HQ.
  eapply wp_run; [|done]. apply put_cq_eq. by rewrite (qw_cqs _ Hq).
Qed.

(** ** Preservation by the primitive updates *)

Lemma queues_wf_set_sq n i q :
  queues_wf n → sq_wf q → queues_wf (n_set_sq n (<[i:=q]> (n_sq n))).
Proof.
  intros [] Hq. split; cbn; rewrite ?length_insert; try done. by apply Forall_insert.
Qed.

Lemma queues_wf_set_cq n i q :
  queues_wf n → cq_wf q → queues_wf (n_set_cq n (<[i:=q]> (n_cq n))).
Proof.
  intros [] Hq. split; cbn; rewrite ?length_insert; try done. by apply Forall_insert.
Qed.

(** Replacing a queue by one that is enabled only if it was, or while the
    controller is ready. *)
Lemma ctrl_inv_set_sq n i q0 q :
  ctrl_inv n → n_sq n !! i = Some q0 → sq_wf q →
  (sq_enabled q = true → sq_enabled q0 = true ∨ r_csts (n_regs n) = NVME_CSTS_RDY) →
  ctrl_inv (n_set_sq n (<[i:=q]> (n_sq n))).
Proof.
  intros [] Hi Hq Hen. split; cbn; try done; [by apply queues_wf_set_sq|].
  intros Hc. destruct (ci_down0 Hc) as [Hs Hcq]. split; cbn; [|done].
  apply Forall_insert; [done|]. pose proof (Forall_lookup_1 _ _ _ _ Hs Hi) as H0'. cbn in H0'.
  destruct (sq_enabled q); [|done]. destruct (Hen eq_refl); congruence.
Qed.

Lemma ctrl_inv_set_cq n i q0 q :
  ctrl_inv n → n_cq n !! i = Some q0 → cq_wf q →
  (cq_enabled q = true → cq_enabled q0 = true ∨ r_csts (n_regs n) = NVME_CSTS_RDY) →
  ctrl_inv (n_set_cq n (<[i:=q]> (n_cq n))).
Proof.
  intros [] Hi Hq Hen. split; cbn; try done; [by apply queues_wf_set_cq|].
  intros Hc. destruct (ci_down0 Hc) as [Hs Hcq]. split; cbn; [done|].
  apply Forall_insert; [done|]. pose proof (Forall_lookup_1 _ _ _ _ Hcq Hi) as H0'. cbn in H0'.
  destruct (cq_enabled q); [|done]. destruct (Hen eq_refl); congruence.
Qed.

Lemma ctrl_inv_set_ns n ns :
  ctrl_inv n → kv_ok ns → ctrl_inv (n_set_ns n ns).
Proof. intros [[] ] Hns. by split; [split|..]. Qed.

Lemma ctrl_inv_ready n i q :
  ctrl_inv n → n_sq n !! i = Some q → sq_enabled q = true →
  r_csts (n_regs n) = NVME_CSTS_RDY.
Proof.
  intros Hinv Hi Hq. destruct (decide (r_csts (n_regs n) = NVME_CSTS_RDY)) as [|Hne]; [done|].
  destruct (ci_down _ Hinv Hne) as [Hs _].
  pose proof (Forall_lookup_1 _ _ _ _ Hs Hi) as Hf. cbn in Hf. congruence.
Qed.

(** [sq_wf] of a queue whose head, tail or enable bit is assigned. *)
Lemma sq_wf_disable q : sq_wf q → sq_wf (sq_set_enabled q false).
Proof. intros []. by split. Qed.
Lemma cq_wf_disable q : cq_wf q → cq_wf (cq_set_enabled q false).
Proof. intros []. by split. Qed.
Lemma sq_wf_set_tail q v : sq_wf q → sq_wf (sq_set_tail q (u16 v)).
Proof. intros []. split; cbn; try done. apply u16_range. Qed.
Lemma cq_wf_set_head q v : cq_wf q → cq_wf (cq_set_head q (u16 v)).
Proof. intros []. split; cbn; try done. apply u16_range. Qed.
Lemma sq_wf_advance q :
  sq_wf q → 0 < sq_size q →
  sq_wf (sq_set_head q (u16 ((sq_head q + 1) mod sq_size q))).
Proof.
  intros [] Hpos. pose proof (Z.mod_pos_bound (sq_head q + 1) (sq_size q) Hpos).
  split; cbn; rewrite ?u16_small by lia; try done; lia.
Qed.
End inv.

#[export] Hint Resolve sq_zero_wf cq_zero_wf queues_wf_set_sq queues_wf_set_cq
  ctrl_inv_set_ns sq_wf_disable cq_wf_disable sq_wf_set_tail cq_wf_set_head
  sq_wf_advance : kvssd.
