(* ===== verification/RegsSpec.v ===== *)
(** * The register file and the enable/shutdown state machine

    [rd_le] and [wr_le] are the little-endian codec of {!Bytes}; a register read
    returns bytes of the register image; a write to CC moves the controller
    between disabled, ready and shut down, and keeps the invariant. *)

From S2P Require Import Prelude.
From S2P Require Import Bytes.
From S2P Require Import NvmeSpec.
From S2P Require Import Kv.
From S2P Require Import KvInv.
From S2P Require Import Dma.
From S2P Require Import DmaSpec.
From S2P Require Import Ctrl.
From S2P Require Import Admin.
From S2P Require Import Regs.
From S2P Require Import CtrlInv.

(** ** [rd_le] *)

Lemma lor_shiftl_add a x k : 0 ≤ k → 0 ≤ a < 2 ^ k → Z.lor a (Z.shiftl x k) = a + x * 2 ^ k.
Proof.
  intros Hk Ha. rewrite <-Z.add_nocarry_lor, Z.shiftl_mul_pow2; [done..|].
  apply Z.bits_inj'. intros i Hi. rewrite Z.land_spec, Z.bits_0.
  destruct (Z.ltb_spec i k).
  - rewrite Z.shiftl_spec_low by lia. apply andb_false_r.
  - rewrite <-(Z.mod_small a (2 ^ k)) by lia. by rewrite Z.mod_pow2_bits_high by lia.
Qed.

Lemma pow256 n : 256 ^ Z.of_nat n = 2 ^ (8 * Z.of_nat n).
Proof. rewrite Z.pow_mul_r by lia. done. Qed.

Lemma le_val_snoc bs b :
  le_val (bs ++ [b]) = le_val bs + 256 ^ Z.of_nat (length bs) * Z_of_byte b.
Proof. rewrite le_val_app. unfold le_val at 2. lia. Qed.

Section rd_le.
Context {St : Type}.

Lemma rd_le_step (b : list byte) j (s : St) :
  (j < length b)%nat → (j < 8)%nat →
  (x ← of_option (b !! Z.to_nat (0 + Z.of_nat j));
   if 64 <=? 8 * (0 + Z.of_nat j) then undef
   else mret (@Next Z Z (Z.lor (le_val (take j b))
                (u64 (Z.shiftl (Z_of_byte x) (8 * (0 + Z.of_nat j))))))) s =
  Done (Next (le_val (take (S j) b)), s).
Proof.
  intros Hj H8. destruct (lookup_lt_is_Some_2 b j Hj) as [x Hx].
  rewrite Z.add_0_l, Nat2Z.id, Hx. cbn [of_option]. rewrite bind_ret_l.
  destruct (Z.leb_spec 64 (8 * Z.of_nat j)); [lia|].
  rewrite (take_S_r _ _ _ Hx), le_val_snoc, length_take, Nat.min_l, pow256 by lia.
  pose proof (Z_of_byte_range x). pose proof (le_val_range (take j b)) as Hv.
  rewrite length_take, Nat.min_l, pow256 in Hv by lia.
  assert (Hp : 2 ^ (8 * Z.of_nat j) ≤ 2 ^ 56) by (apply Z.pow_le_mono_r; lia).
  assert (Hp0 : 0 < 2 ^ (8 * Z.of_nat j)) by (apply Z.pow_pos_nonneg; lia).
  assert (Hx64 : 0 ≤ Z_of_byte x * 2 ^ (8 * Z.of_nat j) < 2 ^ 64).
  { split; [apply Z.mul_nonneg_nonneg; lia|].
    apply (Z.le_lt_trans _ (255 * 2 ^ 56)); [apply Z.mul_le_mono_nonneg; lia|done]. }
  rewrite u64_small by (rewrite Z.shiftl_mul_pow2 by lia; done).
  by rewrite lor_shiftl_add, (Z.mul_comm (Z_of_byte x)) by lia.
Qed.

(** Up to eight bytes: the little-endian value. *)
Lemma rd_le_eq (b : list byte) n (s : St) :
  0 ≤ n ≤ 8 → n ≤ Z.of_nat (length b) →
  rd_le b n s = Done (le_val (take (Z.to_nat n) b), s).
Proof.
  intros Hn Hl. unfold rd_le, for_range. rewrite bind_run.
  replace (Z.to_nat (n - 0)) with (Z.to_nat n + 0)%nat by lia.
  change 0 with (le_val (take 0 b)) at 2.
  rewrite (for_loop_skip _ _ _ (λ j, le_val (take j b))); [done|].
  intros j Hj. apply rd_le_step; lia.
Qed.

(** A ninth byte makes the shift undefined. *)
Lemma rd_le_long (b : list byte) n (s : St) :
  8 < n ≤ Z.of_nat (length b) → rd_le b n s = Undef.
Proof.
  intros Hn. unfold rd_le, for_range. rewrite bind_run.
  replace (Z.to_nat (n - 0)) with (8 + S (Z.to_nat n - 9))%nat by lia.
  change 0 with (le_val (take 0 b)) at 2.
  rewrite (for_loop_skip 8 _ _ (λ j, le_val (take j b))).
  - destruct (lookup_lt_is_Some_2 b 8) as [x Hx]; [lia|].
    cbn [for_loop]. rewrite bind_run. change (Z.to_nat (0 + Z.of_nat 8)) with 8%nat.
    by rewrite Hx.
  - intros j Hj. apply rd_le_step; lia.
Qed.
End rd_le.

(** ** Buffer programs *)

Lemma copy_in_wp off bs buf (Q : unit → list byte → Prop) :
  0 ≤ off → off + Z.of_nat (length bs) ≤ Z.of_nat (length buf) →
  Q tt (take (Z.to_nat off) buf ++ bs ++ drop (Z.to_nat off + length bs) buf) →
  wp (copy_in off bs) Q buf.
Proof. intros. unfold wp, copy_in. by rewrite buf_write_Some. Qed.

Lemma poke_wp off b buf (Q : unit → list byte → Prop) :
  0 ≤ off → off + 1 ≤ Z.of_nat (length buf) →
  Q tt (take (Z.to_nat off) buf ++ [b] ++ drop (Z.to_nat off + 1) buf) →
  wp (poke off b) Q buf.
Proof. apply (copy_in_wp off [b]). Qed.

Lemma le_bytes_snoc j v :
  le_bytes (S j) v = le_bytes j v ++ [byte_of_Z (v / 256 ^ Z.of_nat j)].
Proof. rewrite <-Nat.add_1_r, le_bytes_app. done. Qed.

(** [wr_le] is [memcpy] of the little-endian bytes. *)
Lemma wr_le_wp off n v buf (Q : unit → list byte → Prop) :
  0 ≤ off → 0 ≤ n ≤ 8 → off + n ≤ Z.of_nat (length buf) →
  wp (copy_in off (le_bytes (Z.to_nat n) v)) Q buf → wp (wr_le off n v) Q buf.
Proof.
  intros Hoff Hn Hl HQ. unfold wr_le, for_range. rewrite Z.sub_0_r. apply wp_bind.
  apply (wp_for_loop (λ j _ s,
    s = take (Z.to_nat off) buf ++ le_bytes j v ++ drop (Z.to_nat off + j) buf)).
  - change (le_bytes 0 v) with (@nil byte). cbn [app]. by rewrite Nat.add_0_r, take_drop.
  - intros j _ s Hj ->. rewrite Z.add_0_l.
    destruct (Z.leb_spec 64 (8 * Z.of_nat j)); [lia|].
    apply wp_bind. unfold wp at 1, poke.
    destruct (lookup_lt_is_Some_2 buf (Z.to_nat off + j)) as [c Hc]; [lia|].
    rewrite (drop_S _ _ _ Hc), app_assoc.
    change (c :: ?l) with ([c] ++ l).
    rewrite buf_write_mid by (done || rewrite length_app, length_take, length_le_bytes; lia).
    apply wp_ret. rewrite le_bytes_snoc, <-!app_assoc. cbn [app].
    do 3 f_equal; [|f_equal; lia].
    apply byte_of_Z_mod. change 0xff with (Z.ones 8). rewrite Z.land_ones by done.
    unfold u8. rewrite Z.mod_mod by done. rewrite Z.shiftr_div_pow2 by lia. by rewrite pow256.
  - intros _ s ->. apply wp_ret. revert HQ. unfold wp, copy_in.
    rewrite buf_write_Some by (rewrite ?length_le_bytes; lia). by rewrite length_le_bytes.
Qed.

(** ** Reading registers *)

(** The register block as the host sees it: [0x40] bytes. *)
Definition regs_image (r : nvme_regs) : list byte :=
  le_bytes 8 (r_cap r) ++ le_bytes 4 (r_vs r) ++ le_bytes 4 (r_intms r) ++
  le_bytes 4 (r_intmc r) ++ le_bytes 4 (r_cc r) ++ zeros 4 ++ le_bytes 4 (r_csts r) ++
  zeros 4 ++ le_bytes 4 (r_aqa r) ++ le_bytes 8 (r_asq r) ++ le_bytes 8 (r_acq r) ++ zeros 8.

Lemma length_regs_image r : length (regs_image r) = 64%nat.
Proof. unfold regs_image. by rewrite !length_app, !length_le_bytes. Qed.

(** Evaluate list operations on arrays of a known size whose bytes are symbolic. *)
Ltac eval_bytes := cbv -[byte_of_Z Z.div].

Lemma fill_regs_eq r : wp (fill_regs r) (λ _ s, s = regs_image r) (zeros 0x40).
Proof.
  unfold fill_regs.
  repeat (apply wp_bind; apply wr_le_wp; [by eval_bytes..|]; apply copy_in_wp; [by eval_bytes..|]).
  apply wr_le_wp; [by eval_bytes..|]. apply copy_in_wp; [by eval_bytes..|].
  eval_bytes. reflexivity.
Qed.

(** The writable registers in the image, by offset and width. *)
Lemma regs_image_fields r :
  let at_ off n := take n (drop off (regs_image r)) in
  at_ 0x0c%nat 4%nat = le_bytes 4 (r_intms r) ∧ at_ 0x10%nat 4%nat = le_bytes 4 (r_intmc r) ∧
  at_ 0x14%nat 4%nat = le_bytes 4 (r_cc r) ∧ at_ 0x1c%nat 4%nat = le_bytes 4 (r_csts r) ∧
  at_ 0x24%nat 4%nat = le_bytes 4 (r_aqa r) ∧
  at_ 0x28%nat 8%nat = le_bytes 8 (r_asq r) ∧ at_ 0x30%nat 8%nat = le_bytes 8 (r_acq r) ∧
  at_ 0x28%nat 4%nat = le_bytes 4 (r_asq r) ∧ at_ 0x30%nat 4%nat = le_bytes 4 (r_acq r).
Proof. split_and!; eval_bytes; reflexivity. Qed.

(** The upper halves of ASQ and ACQ. *)
Lemma regs_image_high r :
  take 4 (drop 0x2c (regs_image r)) = le_bytes 4 (r_asq r / 2 ^ 32) ∧
  take 4 (drop 0x34 (regs_image r)) = le_bytes 4 (r_acq r / 2 ^ 32).
Proof.
  assert (Hhi : ∀ v, le_bytes 4 (v / 2 ^ 32) = drop 4 (le_bytes 8 v)).
  { intros v. change 8%nat with (4 + 4)%nat. rewrite le_bytes_app.
    by rewrite drop_app_length' by (by rewrite length_le_bytes). }
  rewrite !Hhi. split; eval_bytes; reflexivity.
Qed.

#[global] Opaque fill_regs regs_image.

Section regs_spec.
Context `{Uninit} `{VfuOk}.
Implicit Types (n : nvme_ctrl) (h : host).

(** A read inside the block gives bytes of the image, any other one zeros. *)
Definition reg_read_result (r : nvme_regs) (offset count : Z) : list byte :=
  if offset + count <=? 0x40
  then take (Z.to_nat count) (drop (Z.to_nat offset) (regs_image r))
  else zeros count.

Lemma nvme_reg_read_eq n h offset count :
  0 ≤ offset → 0 ≤ count → offset + count < 2 ^ 64 →
  nvme_reg_read offset count (n, h) =
    Done (reg_read_result (n_regs n) offset count, (n, h)).
Proof.
  intros Ho Hc H64. unfold nvme_reg_read, reg_read_result.
  erewrite bind_done by done. cbn [fst].
  destruct (proj1 (wp_done _ _ _) (fill_regs_eq (n_regs n))) as (u & b & Hb & ->).
  erewrite bind_done; [|unfold on_buf; by rewrite Hb].
  rewrite u64_small by lia. destruct (Z.leb_spec (offset + count) 0x40); [|done].
  rewrite buf_read_Some by (rewrite ?length_regs_image; lia). done.
Qed.

(** ** Tearing the queues down *)

Definition ctrl_down n : nvme_ctrl :=
  n_set_cq (n_set_sq n ((λ q, sq_set_enabled q false) <$> n_sq n))
    ((λ q, cq_set_enabled q false) <$> n_cq n).

(** The first [j] elements updated. *)
Definition upto {A} (f : A → A) (j : nat) (l : list A) : list A :=
  (f <$> take j l) ++ drop j l.

Lemma upto_lookup {A} (f : A → A) j l : (j < length l)%nat → upto f j l !! j = l !! j.
Proof.
  intros Hj. unfold upto.
  rewrite lookup_app_r, length_fmap, length_take, lookup_drop
    by (rewrite length_fmap, length_take; lia).
  f_equal. lia.
Qed.

Lemma upto_insert {A} (f : A → A) j l x :
  l !! j = Some x → <[j:=f x]> (upto f j l) = upto f (S j) l.
Proof.
  intros Hj. pose proof (lookup_lt_Some _ _ _ Hj). unfold upto.
  rewrite insert_app_r_alt by (rewrite length_fmap, length_take; lia).
  rewrite length_fmap, length_take, Nat.min_l, Nat.sub_diag by lia.
  rewrite (take_S_r _ _ _ Hj), fmap_app, <-app_assoc. f_equal.
  by rewrite (drop_S _ _ _ Hj).
Qed.

Lemma upto_full {A} (f : A → A) j l : (length l ≤ j)%nat → upto f j l = f <$> l.
Proof. intros. unfold upto. by rewrite take_ge, drop_ge, app_nil_r by lia. Qed.

Lemma nvme_queues_down_eq n h :
  length (n_sq n) = 64%nat → length (n_cq n) = 64%nat →
  nvme_queues_down (n, h) = Done (tt, (ctrl_down n, h)).
Proof.
  intros Hs Hc.
  enough (wp nvme_queues_down (λ _ s, s = (ctrl_down n, h)) (n, h)) as
    ([] & s & -> & ->)%wp_done by done.
  unfold nvme_queues_down, for_range. apply wp_bind.
  set (fs := λ q, sq_set_enabled q false). set (fc := λ q, cq_set_enabled q false).
  apply (wp_for_loop (λ j _ s, s =
    (n_set_cq (n_set_sq n (upto fs j (n_sq n))) (upto fc j (n_cq n)), h))).
  - by destruct n.
  - intros j _ s Hj ->. rewrite Z.add_0_l. change (Z.to_nat _) with 64%nat in Hj.
    destruct (lookup_lt_is_Some_2 (n_sq n) j) as [sq Hsq]; [lia|].
    destruct (lookup_lt_is_Some_2 (n_cq n) j) as [cq Hcq]; [lia|].
    assert (Hls : length (upto fs j (n_sq n)) = 64%nat).
    { unfold upto. rewrite length_app, length_fmap, length_take, length_drop. lia. }
    assert (Hlc : length (upto fc j (n_cq n)) = 64%nat).
    { unfold upto. rewrite length_app, length_fmap, length_take, length_drop. lia. }
    do 4 (apply wp_bind; eapply wp_run;
      [first [apply get_sq_eq; cbn; by rewrite upto_lookup by lia
             |apply put_sq_eq; cbn; lia
             |apply get_cq_eq; cbn; by rewrite upto_lookup by lia
             |apply put_cq_eq; cbn; lia]|]).
    apply wp_ret. cbn. fold (fs sq) (fc cq). by rewrite !upto_insert.
  - intros _ s ->. apply wp_ret. unfold ctrl_down. change (Z.to_nat _) with 64%nat.
    rewrite !upto_full by lia. done.
Qed.

Lemma queues_wf_down n : queues_wf n → queues_wf (ctrl_down n).
Proof.
  intros []. split; cbn; rewrite ?length_fmap; try done;
    (apply Forall_fmap; eapply Forall_impl; [done|]; intros; by eauto with kvssd).
Qed.

Lemma ctrl_down_all n : all_down (ctrl_down n).
Proof. split; cbn; apply Forall_fmap, Forall_true; done. Qed.

(** ** Assembling the invariant *)

Lemma ctrl_inv_regs n r :
  queues_wf n → Z.of_nat (length (n_msix_region n)) = 4096 → kv_ok (n_ns n) →
  regs_wf r → (r_csts r = NVME_CSTS_RDY ∨ all_down n) → ctrl_inv (n_set_regs n r).
Proof.
  intros [] Hm Hns Hr Hd. split; cbn; try done. intros Hne. by destruct Hd.
Qed.
End regs_spec.
