(* ===== verification/StateSpec.v ===== *)
(** * The enable, disable and shutdown state machine

    A write to CC, a reset and the register writes, as functions on the
    controller: [cc_next] gives the state after a CC write, [nvme_reg_write_wp]
    says that every register write keeps the invariant. *)

From S2P Require Import Prelude.
From S2P Require Import Bytes.
From S2P Require Import NvmeSpec.
From S2P Require Import Kv.
From S2P Require Import KvInv.
From S2P Require Import Dma.
From S2P Require Import DmaSpec.
From S2P Require Import Ctrl.
From S2P Require Import Admin.
From S2P Require Import Regs.
From S2P Require Import CtrlInv.
From S2P Require Import RegsSpec.

Section state_spec.
Context `{Uninit} `{VfuOk}.
Implicit Types (n : nvme_ctrl) (h : host).

(** ** Enable *)

(** The admin queue pair that AQA, ASQ and ACQ describe. *)
Definition admin_sq (r : nvme_regs) : nvme_sq :=
  {| sq_dma := r_asq r; sq_size := Z.land (r_aqa r) 0xfff + 1; sq_qid := 0;
     sq_cqid := 0; sq_head := 0; sq_tail := 0; sq_enabled := true |}.
Definition admin_cq (r : nvme_regs) : nvme_cq :=
  {| cq_dma := r_acq r; cq_size := Z.land (Z.shiftr (r_aqa r) 16) 0xfff + 1;
     cq_qid := 0; cq_head := 0; cq_tail := 0; cq_phase := 1; cq_irq := 0;
     cq_enabled := true |}.

Definition ctrl_up n : nvme_ctrl :=
  n_set_cq (n_set_sq n (<[0%nat := admin_sq (n_regs n)]> (n_sq n)))
    (<[0%nat := admin_cq (n_regs n)]> (n_cq n)).

Definition with_csts n (v : Z) : nvme_ctrl := n_set_regs n (set_csts (n_regs n) v).

Lemma nvme_enable_eq n h :
  queues_wf n → nvme_enable (n, h) = Done (tt, (with_csts (ctrl_up n) NVME_CSTS_RDY, h)).
Proof.
  intros [Hs Hc _ _]. unfold nvme_enable. erewrite bind_done by done.
  erewrite bind_done by (apply (put_sq_eq n h 0); lia).
  erewrite bind_done by (apply (put_cq_eq _ h 0); cbn; lia). done.
Qed.

Lemma aqa_size_range v : 0 ≤ v < 2 ^ 32 → 1 ≤ Z.land v 0xfff + 1 ≤ 2 ^ 12.
Proof.
  intros. change 0xfff with (Z.ones 12). rewrite Z.land_ones by done.
  pose proof (Z.mod_pos_bound v (2 ^ 12)). lia.
Qed.

Lemma queues_wf_up n : regs_wf (n_regs n) → queues_wf n → queues_wf (ctrl_up n).
Proof.
  intros [] Hq. pose proof (aqa_size_range (r_aqa (n_regs n))) as Hsq.
  assert (Hcq : 1 ≤ Z.land (Z.shiftr (r_aqa (n_regs n)) 16) 0xfff + 1 ≤ 2 ^ 12).
  { apply aqa_size_range. rewrite Z.shiftr_div_pow2 by done.
    split; [apply Z.div_pos; lia|]. apply Z.div_lt_upper_bound; lia. }
  specialize (Hsq ltac:(done)).
  apply (queues_wf_set_cq (n_set_sq n _)); [apply queues_wf_set_sq; [done|]|];
    split; cbn; lia || done.
Qed.

(** ** A write to CC *)

(** [CC.EN] and [CC.SHN] go up, or down. *)
Definition rises (b b' : bool) : bool := b' && negb b.

(** CSTS after CC goes from [old] to [cc]: RDY follows EN; "shutdown complete" is
    set when SHN goes up, and stays while SHN stands and EN does not change. *)
Definition csts_next (csts old cc : Z) : Z :=
  b2z (cc_en cc) +
  (if cc_shn cc && (negb (cc_shn old) ||
                    (eqb (cc_en old) (cc_en cc) && (NVME_CSTS_SHST_COMPLETE <=? csts)))
   then NVME_CSTS_SHST_COMPLETE else 0).

Definition cc_next n (cc : Z) : nvme_ctrl :=
  let old := r_cc (n_regs n) in
  let n1 :=
    if rises (cc_en old) (cc_en cc) then ctrl_up n
    else if rises (cc_en cc) (cc_en old) then ctrl_down n else n in
  let n2 := if rises (cc_shn old) (cc_shn cc) then ctrl_down n1 else n1 in
  n_set_regs n2 (set_csts (set_cc (n_regs n) cc) (csts_next (r_csts (n_regs n)) old cc)).

Lemma nvme_disable_eq n h :
  queues_wf n →
  nvme_disable (n, h) =
    Done (tt, (with_csts (ctrl_down n) (Z.land (r_csts (n_regs n))
                (not32 (Z.lor NVME_CSTS_RDY NVME_CSTS_SHST_MASK))), h)).
Proof.
  intros []. unfold nvme_disable. by erewrite bind_done by (by apply nvme_queues_down_eq).
Qed.

Lemma csts_cases r :
  csts_ok r →
  r_csts r = b2z (cc_en (r_cc r)) ∨
  (cc_shn (r_cc r) = true ∧ r_csts r = b2z (cc_en (r_cc r)) + 8).
Proof. done. Qed.

Lemma queues_down_step n h :
  queues_wf n → nvme_queues_down (n, h) = Done (tt, (ctrl_down n, h)).
Proof. intros []. by apply nvme_queues_down_eq. Qed.

Lemma cc_write_eq n h v :
  queues_wf n → regs_wf (n_regs n) → cc_write v (n, h) = Done (tt, (cc_next n (u32 v), h)).
Proof.
  intros Hq Hr. pose proof (rw_csts _ Hr) as Hcsts.
  unfold cc_write, cc_next, rises, csts_next. erewrite bind_done by done. cbv zeta.
  cbn [fst]. change (truthy (Z.land ?x NVME_CC_EN)) with (cc_en x).
  change (truthy (Z.land ?x NVME_CC_SHN_MASK)) with (cc_shn x).
  set (cc := u32 v). set (old := r_cc (n_regs n)) in *.
  erewrite bind_done by done. cbn [fst snd].
  set (n0 := n_set_regs n (set_cc (n_regs n) cc)).
  assert (Hq0 : queues_wf n0) by (by destruct Hq).
  assert (Hup : queues_wf (with_csts (ctrl_up n0) NVME_CSTS_RDY)).
  { destruct (queues_wf_up n) ; [done..|]. by split. }
  assert (Hdn : ∀ c, queues_wf (with_csts (ctrl_down n0) c)).
  { intros c. by destruct (queues_wf_down n0). }
  unfold csts_ok in Hcsts. fold old in Hcsts.
  destruct (cc_en cc) eqn:Een, (cc_en old) eqn:Eold; cbn [andb negb eqb];
    (erewrite bind_done by first [by apply nvme_enable_eq|by apply nvme_disable_eq|done]).
  all: destruct (cc_shn cc) eqn:Eshn, (cc_shn old) eqn:Eos; cbn [andb orb negb].
  all: try (erewrite bind_done by (apply queues_down_step; done)).
  all: clear Hq Hr Hq0 Hup Hdn; subst n0 old; clearbody cc.
  all: destruct n as [vfu [cap vs intms intmc oldcc csts aqa asq acq] sq cq msix ns].
  all: cbn in Hcsts; destruct Hcsts as [-> | [? ->]]; try discriminate; reflexivity.
Qed.

(** ** What a CC write leaves in CSTS, and the invariant *)

Lemma csts_next_ok r cc : csts_ok (set_csts (set_cc r cc) (csts_next (r_csts r) (r_cc r) cc)).
Proof.
  unfold csts_ok, csts_next. cbn [r_csts r_cc set_csts set_cc].
  destruct (cc_shn cc); cbn [andb]; [|left; lia].
  destruct (_ || _); [by right|left; lia].
Qed.

Lemma ctrl_inv_cc_next n cc : ctrl_inv n → 0 ≤ cc < 2 ^ 32 → ctrl_inv (cc_next n cc).
Proof.
  intros [Hq Hr Hm Hns Hd] Hcc. unfold cc_next. cbv zeta.
  set (n1 := if rises _ _ then ctrl_up n else _).
  set (n2 := if rises _ _ then ctrl_down n1 else n1).
  assert (Hup : queues_wf (ctrl_up n)) by (by apply queues_wf_up).
  pose proof (queues_wf_down n Hq) as Hdn.
  assert (Hq1 : queues_wf n1) by (unfold n1; by repeat case_match).
  assert (Hq2 : queues_wf n2) by (unfold n2; case_match; [by apply queues_wf_down|done]).
  apply ctrl_inv_regs; [done|unfold n2, n1; by repeat case_match..| |].
  - destruct Hr. split; cbn; try done. apply csts_next_ok.
  - assert (Hor : r_csts (n_regs n) = NVME_CSTS_RDY ∨ all_down n).
    { destruct (decide (r_csts (n_regs n) = NVME_CSTS_RDY)); [by left|right; by apply Hd]. }
    pose proof (rw_csts _ Hr) as Hc. unfold csts_ok in Hc. unfold n2, n1, rises, csts_next.
    cbn [r_csts set_csts].
    destruct (cc_shn cc), (cc_shn (r_cc (n_regs n))), (cc_en cc), (cc_en (r_cc (n_regs n)));
      cbn [andb orb negb eqb]; try (by right; apply ctrl_down_all); try (by left);
      (destruct Hor as [Hrdy|]; [|by right]); rewrite Hrdy in *; left;
      destruct Hc as [Hc|[? Hc]]; try discriminate; reflexivity.
Qed.

(** The controller is ready exactly while CC.EN stands, whatever was written. *)
Lemma cc_next_ready n cc :
  Z.testbit (r_csts (n_regs (cc_next n cc))) 0 = cc_en cc.
Proof.
  unfold cc_next, csts_next. cbn [n_regs n_set_regs r_csts set_csts].
  destruct (cc_en cc); by case_match.
Qed.

Lemma cc_write_wp n h v (Q : unit → machine → Prop) :
  ctrl_inv n → Q tt (cc_next n (u32 v), h) → wp (cc_write v) Q (n, h).
Proof.
  intros Hinv HQ. eapply wp_run; [apply cc_write_eq; apply Hinv|done].
Qed.

(** ** Reset *)

Definition ctrl_reset_next n : nvme_ctrl :=
  n_set_regs (ctrl_down n)
    (Build_nvme_regs (r_cap (n_regs n)) (r_vs (n_regs n)) 0 0 0 0 0 0 0).

Lemma nvme_ctrl_reset_eq n h :
  queues_wf n → nvme_ctrl_reset (n, h) = Done (tt, (ctrl_reset_next n, h)).
Proof.
  intros Hq. unfold nvme_ctrl_reset. by erewrite bind_done by (by apply nvme_disable_eq).
Qed.

Lemma ctrl_inv_reset n : ctrl_inv n → ctrl_inv (ctrl_reset_next n).
Proof.
  intros [Hq [] Hm Hns _]. unfold ctrl_reset_next.
  apply ctrl_inv_regs; [by apply queues_wf_down|done..| |right; apply ctrl_down_all].
  split; cbn; try done. by left.
Qed.

(** ** Register writes *)

(** The low, or the high, half of a 64-bit register replaced. *)
Definition with_lo (a v : Z) : Z := a / 2 ^ 32 * 2 ^ 32 + v mod 2 ^ 32.
Definition with_hi (a v : Z) : Z := v mod 2 ^ 32 * 2 ^ 32 + a mod 2 ^ 32.

Definition regs_next (r : nvme_regs) (offset v count : Z) : nvme_regs :=
  if offset =? NVME_REG_INTMS then set_intms r (u32 v)
  else if offset =? NVME_REG_INTMC then set_intmc r (u32 v)
  else if offset =? NVME_REG_AQA then set_aqa r (u32 v)
  else if offset =? NVME_REG_ASQ then
    set_asq r (if count =? 8 then v else with_lo (r_asq r) v)
  else if offset =? NVME_REG_ASQ + 4 then set_asq r (with_hi (r_asq r) v)
  else if offset =? NVME_REG_ACQ then
    set_acq r (if count =? 8 then v else with_lo (r_acq r) v)
  else if offset =? NVME_REG_ACQ + 4 then set_acq r (with_hi (r_acq r) v)
  else r.

Definition reg_write_next n (offset v count : Z) : nvme_ctrl :=
  if offset =? NVME_REG_CC then cc_next n (u32 v)
  else n_set_regs n (regs_next (n_regs n) offset v count).

Lemma lo32_eq v : lo32 v = v mod 2 ^ 32.
Proof. unfold lo32. change 0xffffffff with (Z.ones 32). by rewrite Z.land_ones. Qed.

Lemma hi32_eq v : 0 ≤ v < 2 ^ 64 → hi32 v = v / 2 ^ 32 * 2 ^ 32.
Proof.
  intros Hv. unfold hi32. change (2 ^ 64 - 1 - 0xffffffff) with (Z.shiftl (Z.ones 32) 32).
  rewrite <-Z.shiftr_div_pow2, <-Z.shiftl_mul_pow2 by done. apply Z.bits_inj'. intros i Hi.
  rewrite Z.land_spec, !Z.shiftl_spec by done.
  destruct (Z.ltb_spec i 32).
  - rewrite !(Z.testbit_neg_r _ (i - 32)) by lia. by rewrite andb_false_r.
  - rewrite Z.shiftr_spec, Z.testbit_ones_nonneg by lia.
    replace (i - 32 + 32) with i by lia.
    destruct (Z.ltb_spec (i - 32) 32); [by rewrite andb_true_r|].
    rewrite <-(Z.mod_small v (2 ^ 64)), Z.mod_pow2_bits_high by lia. done.
Qed.

Lemma lor_halves a b : 0 ≤ a → 0 ≤ b < 2 ^ 32 → Z.lor b (a * 2 ^ 32) = a * 2 ^ 32 + b.
Proof.
  intros. rewrite <-Z.shiftl_mul_pow2, lor_shiftl_add, Z.shiftl_mul_pow2 by lia. lia.
Qed.

Lemma lor_with_lo a v : 0 ≤ a < 2 ^ 64 → Z.lor (hi32 a) (lo32 v) = with_lo a v.
Proof.
  intros. pose proof (Z.mod_pos_bound v (2 ^ 32)).
  rewrite hi32_eq, lo32_eq, Z.lor_comm by done. apply lor_halves; [|lia].
  apply Z.div_pos; lia.
Qed.

Lemma lor_with_hi a v : Z.lor (lo32 a) (u64 (Z.shiftl (lo32 v) 32)) = with_hi a v.
Proof.
  pose proof (Z.mod_pos_bound v (2 ^ 32)). pose proof (Z.mod_pos_bound a (2 ^ 32)).
  rewrite !lo32_eq, Z.shiftl_mul_pow2, u64_small by lia. apply lor_halves; lia.
Qed.

Lemma with_lo_range a v : 0 ≤ a < 2 ^ 64 → 0 ≤ with_lo a v < 2 ^ 64.
Proof.
  intros. unfold with_lo. pose proof (Z.mod_pos_bound v (2 ^ 32)).
  pose proof (Z.div_pos a (2 ^ 32)). pose proof (Z.div_lt_upper_bound a (2 ^ 32) (2 ^ 32)). lia.
Qed.

Lemma with_hi_range a v : 0 ≤ with_hi a v < 2 ^ 64.
Proof.
  unfold with_hi. pose proof (Z.mod_pos_bound v (2 ^ 32)).
  pose proof (Z.mod_pos_bound a (2 ^ 32)). lia.
Qed.

Lemma regs_next_wf r offset v count :
  regs_wf r → 0 ≤ v < 2 ^ 64 → regs_wf (regs_next r offset v count).
Proof.
  intros Hr Hv. unfold regs_next.
  pose proof (u32_range v). pose proof (with_lo_range (r_asq r) v (rw_asq _ Hr)).
  pose proof (with_lo_range (r_acq r) v (rw_acq _ Hr)).
  pose proof (with_hi_range (r_asq r) v). pose proof (with_hi_range (r_acq r) v).
  destruct Hr. repeat case_match; (split; cbn; done).
Qed.

Lemma nvme_reg_write_eq n h offset buf count :
  ctrl_inv n → 0 ≤ count ≤ 8 → count ≤ Z.of_nat (length buf) →
  nvme_reg_write offset buf count (n, h) =
    Done (tt, (reg_write_next n offset (le_val (take (Z.to_nat count) buf)) count, h)).
Proof.
  intros Hinv Hc Hl. destruct (rw_asq _ (ci_regs _ Hinv)), (rw_acq _ (ci_regs _ Hinv)).
  unfold nvme_reg_write. erewrite bind_done by (by apply rd_le_eq).
  set (v := le_val _). unfold reg_write_next, regs_next.
  destruct (Z.eqb_spec offset NVME_REG_CC) as [->|_];
    [by apply cc_write_eq; apply Hinv|].
  unfold mod_regs, modify. repeat case_match; cbn [fst snd];
    rewrite ?lor_with_lo, ?lor_with_hi by done; try done. by destruct n.
Qed.

Lemma le_val_64 (buf : list byte) count :
  0 ≤ count ≤ 8 → 0 ≤ le_val (take (Z.to_nat count) buf) < 2 ^ 64.
Proof.
  intros. pose proof (le_val_range (take (Z.to_nat count) buf)) as Hv.
  rewrite length_take, pow256 in Hv. split; [lia|].
  eapply Z.lt_le_trans; [apply Hv|]. apply Z.pow_le_mono_r; lia.
Qed.

Lemma ctrl_inv_reg_write n offset v count :
  ctrl_inv n → 0 ≤ v < 2 ^ 64 → ctrl_inv (reg_write_next n offset v count).
Proof.
  intros Hinv Hv. unfold reg_write_next. case_match.
  { apply ctrl_inv_cc_next; [done|]. apply u32_range. }
  pose proof (regs_next_wf _ offset v count (ci_regs _ Hinv) Hv) as Hr.
  destruct Hinv as [Hq _ Hm Hns Hd]. apply ctrl_inv_regs; try done.
  assert (r_csts (regs_next (n_regs n) offset v count) = r_csts (n_regs n)) as ->.
  { unfold regs_next. by repeat case_match. }
  destruct (decide (r_csts (n_regs n) = NVME_CSTS_RDY)); [by left|right; by apply Hd].
Qed.

(** What a register write leaves alone. *)
Lemma cc_next_frame n cc :
  n_ns (cc_next n cc) = n_ns n ∧ n_vfu (cc_next n cc) = n_vfu n ∧
  n_msix_region (cc_next n cc) = n_msix_region n.
Proof. unfold cc_next. by repeat case_match. Qed.

Lemma reg_write_frame n offset v count :
  let n' := reg_write_next n offset v count in
  n_ns n' = n_ns n ∧ n_vfu n' = n_vfu n ∧ n_msix_region n' = n_msix_region n.
Proof. unfold reg_write_next. case_match; [apply cc_next_frame|done]. Qed.
End state_spec.

#[export] Hint Resolve ctrl_inv_cc_next ctrl_inv_reset : kvssd.
