(* ===== verification/AdminSpec.v ===== *)
(** * The admin commands

    Every admin command finishes without undefined behaviour and preserves the
    controller invariant; the pages Identify sends to the host, as a table of their
    fields ([identify_fields]), and what queue creation and deletion do to the
    queues. *)

From Stdlib Require Import Strings.String.
From S2P Require Import Prelude.
From S2P Require Import Bytes.
From S2P Require Import NvmeSpec.
From S2P Require Import Kv.
From S2P Require Import KvTable.
From S2P Require Import KvInv.
From S2P Require Import KvSpec.
From S2P Require Import KvList.
From S2P Require Import Dma.
From S2P Require Import DmaSpec.
From S2P Require Import Ctrl.
From S2P Require Import Admin.
From S2P Require Import Regs.
From S2P Require Import CtrlInv.
From S2P Require Import RegsSpec.

(** ** Buffer programs by length *)

Lemma copy_in_len off bs buf (Q : unit → list byte → Prop) :
  0 ≤ off → off + Z.of_nat (length bs) ≤ Z.of_nat (length buf) →
  (∀ buf', length buf' = length buf → Q tt buf') → wp (copy_in off bs) Q buf.
Proof.
  intros Ho Hl HQ. unfold wp, copy_in. destruct (buf_write buf off bs) eqn:E.
  - apply HQ. by eapply buf_write_length.
  - by rewrite buf_write_Some in E.
Qed.

Lemma poke_len off b buf (Q : unit → list byte → Prop) :
  0 ≤ off → off + 1 ≤ Z.of_nat (length buf) →
  (∀ buf', length buf' = length buf → Q tt buf') → wp (poke off b) Q buf.
Proof. apply (copy_in_len off [b]). Qed.

(** ** [nvme_fill_ascii]: the string cut or padded with spaces to the width *)

Definition ascii_field (s : list byte) (width : nat) : list byte :=
  take width (s ++ replicate width x20).

Lemma length_ascii_field s width : length (ascii_field s width) = width.
Proof. unfold ascii_field. rewrite length_take, length_app, length_replicate. lia. Qed.

(** One more byte of a field being written at [off]. *)
Lemma poke_field off f j b buf (Q : unit → list byte → Prop) :
  f !! j = Some b → 0 ≤ off → off + Z.of_nat (length f) ≤ Z.of_nat (length buf) →
  Q tt (take (Z.to_nat off) buf ++ take (S j) f ++ drop (Z.to_nat off + S j) buf) →
  wp (poke (off + Z.of_nat j) b) Q
    (take (Z.to_nat off) buf ++ take j f ++ drop (Z.to_nat off + j) buf).
Proof.
  intros Hf Ho Hl HQ. pose proof (lookup_lt_Some _ _ _ Hf).
  destruct (lookup_lt_is_Some_2 buf (Z.to_nat off + j)) as [c Hc]; [lia|].
  unfold wp, poke. rewrite (drop_S _ _ _ Hc), app_assoc. change (c :: ?l) with ([c] ++ l).
  rewrite buf_write_mid by (done || rewrite length_app, !length_take; lia).
  revert HQ. rewrite (take_S_r _ _ _ Hf), <-!app_assoc.
  by replace (Z.to_nat off + S j)%nat with (S (Z.to_nat off + j)) by lia.
Qed.

Section fill_ascii.
Context (off : Z) (s : list byte) (width : nat) (buf : list byte).
Hypothesis (Hs : Forall (λ b, b ≠ x00) s) (Hoff : 0 ≤ off).
Hypothesis (Hl : off + Z.of_nat width ≤ Z.of_nat (length buf)).

Let field (j : nat) : list byte :=
  take (Z.to_nat off) buf ++ take j (ascii_field s width) ++ drop (Z.to_nat off + j) buf.

Lemma ascii_field_str j b : s !! j = Some b → (j < width)%nat → ascii_field s width !! j = Some b.
Proof.
  intros Hj Hw. unfold ascii_field. rewrite lookup_take_lt by done.
  by rewrite lookup_app_l by (by eapply lookup_lt_Some).
Qed.

Lemma ascii_field_pad j :
  (length s ≤ j)%nat → (j < width)%nat → ascii_field s width !! j = Some x20.
Proof.
  intros Hj Hw. unfold ascii_field. rewrite lookup_take_lt, lookup_app_r by done.
  apply lookup_replicate_2. lia.
Qed.

Lemma nvme_fill_ascii_wp :
  wp (nvme_fill_ascii off (s ++ [x00]) (Z.of_nat width)) (λ _ b, b = field width) buf.
Proof.
  assert (Hf : Z.of_nat (length (ascii_field s width)) = Z.of_nat width)
    by (by rewrite length_ascii_field).
  unfold nvme_fill_ascii, for_range. apply wp_bind. rewrite Z.sub_0_r, Nat2Z.id.
  (* the padding loop, from the end of the copied part *)
  assert (Hpad : ∀ k, (k ≤ width)%nat → (length s ≤ k ∨ k = width)%nat →
    wp (for_loop (Z.to_nat (Z.of_nat width - Z.of_nat k)) (Z.of_nat k) tt (λ i _,
          poke (off + i) x20;; mret (@Next unit unit tt));; mret tt)
      (λ _ b, b = field width) (field k)).
  { intros k Hk Hs'. apply wp_bind.
    apply (wp_for_loop (λ j _ b, b = field (k + j))).
    - by rewrite Nat.add_0_r.
    - intros j _ b Hj ->. apply wp_bind. rewrite <-Nat2Z.inj_add.
      apply poke_field; [apply ascii_field_pad; lia|lia..|]. apply wp_ret.
      by replace (k + S j)%nat with (S (k + j)) by lia.
    - intros _ b ->. apply wp_ret. by replace (k + _)%nat with width by lia. }
  apply (wp_for_loop (λ j n b, n = Z.of_nat j ∧ (j ≤ length s)%nat ∧ b = field j)).
  - split_and!; [done|lia|]. unfold field. rewrite Nat.add_0_r.
    symmetry. apply take_drop.
  - intros j n b Hj (-> & Hjs & ->). apply wp_bind.
    destruct (lookup_lt_is_Some_2 (s ++ [x00]) j) as [c Hc]; [rewrite length_app; cbn; lia|].
    eapply wp_of_option; [by rewrite Nat2Z.id|].
    destruct (decide (j = length s)) as [->|Hne].
    + rewrite lookup_app_r, Nat.sub_diag in Hc by lia. injection Hc as <-.
      rewrite decide_True by done. apply wp_ret. apply Hpad; [lia|by left].
    + rewrite lookup_app_l in Hc by lia.
      rewrite decide_False by (by eapply (Forall_lookup_1 _ _ _ _ Hs)).
      apply wp_bind, poke_field; [by apply ascii_field_str|lia..|].
      apply wp_ret. split_and!; [lia..|done].
  - intros n b (-> & Hjs & ->). apply Hpad; lia.
Qed.
End fill_ascii.

(** ** The Identify pages

    A page of 4096 bytes given by its fields, as offset and bytes: the bytes outside
    the fields are zero. *)

Definition field_byte (i : Z) (f : Z * list byte) : option byte :=
  if f.1 <=? i then f.2 !! Z.to_nat (i - f.1) else None.
Definition page_byte (fs : list (Z * list byte)) (i : Z) : byte :=
  default x00 (head (omap (field_byte i) fs)).
Definition page_of (fs : list (Z * list byte)) : list byte := page_byte fs <$> seqZ 0 4096.

Lemma length_page_of fs : Z.of_nat (length (page_of fs)) = 4096.
Proof. unfold page_of. by rewrite length_fmap, length_seqZ. Qed.

(** [s] padded with spaces to a field of [width] bytes. *)
Definition padded (s : string) (width : nat) : list byte :=
  let l := list_byte_of_string s in l ++ replicate (width - length l) x20.

(** What the standard puts where, with the values this device reports, for each CNS
    it knows, with a capacity of [max] keys of which [keys] are stored. *)
Definition identify_fields (max keys cns csi : Z) : option (list (Z * list byte)) :=
  let nsze := le_bytes 8 (4112 * max) in
  let nuse := le_bytes 8 (4112 * keys) in
  if cns =? 0x00 then (* NSZE, NCAP, NUSE, NVMCAP *)
    Some [(0, nsze); (8, nsze); (16, nuse); (48, nsze)]
  else if cns =? 0x01 then
    Some [(0, [x36; x1b]); (2, [x36; x1b]);              (* VID, SSVID *)
          (4, padded "VFUKVSSD000000000000" 20);         (* SN *)
          (24, padded "vfio-user-kvssd" 40);             (* MN *)
          (64, padded "0.1.3" 8);                        (* FR *)
          (77, [x01]); (78, le_bytes 2 1);               (* MDTS, CNTLID *)
          (80, le_bytes 4 0x20000); (111, [x01]);        (* VER, CNTRLTYPE *)
          (258, [x03]); (259, [x03]);                    (* ACL, AERL *)
          (512, [x66]); (513, [x44]); (516, le_bytes 4 1); (* SQES, CQES, NN *)
          (768, list_byte_of_string "nqn.2025-11.dk.safl:vfu_kvssd")] (* SUBNQN *)
  else if cns =? 0x02 then Some [(0, le_bytes 4 1)]      (* namespace 1 *)
  else if cns =? 0x03 then Some [(0, [x04]); (1, [x01]); (4, [x01])] (* NIDT, NIDL, CSI *)
  else if cns =? 0x05 then
    if csi =? 1 then (* NSZE, NUSE, NKVF, then KML, VML and MNK of format 0 *)
      Some [(0, nsze); (16, nuse); (25, [x01]);
            (72, le_bytes 2 16); (76, le_bytes 4 4096); (80, le_bytes 4 max)]
    else Some []
  else if cns =? 0x06 then Some []
  else if cns =? 0x08 then Some [(14, [x01])]            (* NSTAT *)
  else if cns =? 0x1c then Some [(0, [x01])]             (* the NVM command set *)
  else None.

Lemma nvme_fill_id_ctrl_eq max keys csi buf :
  ∃ fs, identify_fields max keys 0x01 csi = Some fs ∧
        nvme_fill_id_ctrl buf = Done (tt, page_of fs).
Proof.
  assert (Hmemset : ∀ k : unit → M (list byte) unit,
    (modify (λ _, zeros KVSSD_PAGE_SIZE) ≫= k) buf =
    (modify (λ _, zeros KVSSD_PAGE_SIZE) ≫= k) []) by done.
  eexists. split; [reflexivity|].
  transitivity (nvme_fill_id_ctrl []); [apply Hmemset|vm_compute; reflexivity].
Qed.

#[global] Opaque nvme_fill_id_ctrl.

(** The two pages with values of the namespace. *)
Lemma id_ns_page (a b : list byte) :
  length a = 8%nat → length b = 8%nat →
  (copy_in 0x00 a;; copy_in 0x08 a;; copy_in 0x10 b;; copy_in 0x30 a) (zeros KVSSD_PAGE_SIZE) =
    Done (tt, page_of [(0, a); (8, a); (16, b); (48, a)]).
Proof. intros Ha Hb. explode_list a. explode_list b. by vm_compute. Qed.

Lemma kv_ns_page (a b c : list byte) :
  length a = 8%nat → length b = 8%nat → length c = 4%nat →
  a ++ zeros 8 ++ b ++ [x00; x01; x00; x00; x00] ++ zeros 43 ++
    le_bytes 2 16 ++ zeros 2 ++ le_bytes 4 4096 ++ c ++ zeros 4 ++ zeros 240 ++
    zeros 3512 ++ zeros 256 =
  page_of [(0, a); (16, b); (25, [x01]); (72, le_bytes 2 16); (76, le_bytes 4 4096); (80, c)].
Proof. intros Ha Hb Hc. explode_list a. explode_list b. explode_list c. by vm_compute. Qed.

Lemma kv_ns_bytes max nuse :
  id_ns_bytes (set_id_nuse (id_ns_init max) nuse) =
    le_bytes 8 (u64 (max * SLOT)) ++ zeros 8 ++ le_bytes 8 nuse ++
    [x00; x01; x00; x00; x00] ++ zeros 43 ++
    le_bytes 2 16 ++ zeros 2 ++ le_bytes 4 4096 ++ le_bytes 4 max ++ zeros 4 ++ zeros 240 ++
    zeros 3512 ++ zeros 256.
Proof. reflexivity. Qed.

Lemma copy_in_page fs : copy_in 0 (page_of fs) (zeros KVSSD_PAGE_SIZE) = Done (tt, page_of fs).
Proof.
  pose proof (length_page_of fs) as Hl.
  assert (Hz : Z.of_nat (length (zeros KVSSD_PAGE_SIZE)) = 4096) by done.
  unfold copy_in. rewrite buf_write_0, drop_ge, app_nil_r by lia. done.
Qed.

(** The code fills the page with these fields, and refuses the same CNS values. *)
Lemma identify_fill_eq max keys cns csi :
  0 ≤ max ≤ 2 ^ 31 →
  match identify_fields max keys cns csi with
  | Some fs => ∃ fill,
      identify_fill (Some (set_id_nuse (id_ns_init max) (4112 * keys))) cns csi = Some fill ∧
      fill (zeros KVSSD_PAGE_SIZE) = Done (tt, page_of fs)
  | None => identify_fill (Some (set_id_nuse (id_ns_init max) (4112 * keys))) cns csi = None
  end.
Proof.
  intros Hmax. assert (Hu : u64 (max * SLOT) = 4112 * max).
  { change SLOT with 4112. rewrite u64_small; lia. }
  set (d := set_id_nuse _ _).
  assert (Hz : id_nsze d = 4112 * max) by exact Hu.
  unfold identify_fill, identify_fields. rewrite Hz. change (id_nuse d) with (4112 * keys).
  unfold NVME_ID_CNS_NS, NVME_ID_CNS_CTRL, NVME_ID_CNS_NS_ACTIVE_LIST,
    NVME_ID_CNS_NS_DESC_LIST, NVME_ID_CNS_CS_NS, NVME_ID_CNS_CS_CTRL,
    NVME_ID_CNS_NS_INDEPENDENT, NVME_ID_CNS_IO_CMD_SET, NVME_CSI_KV in *.
  destruct (Z.eqb_spec cns 0x01) as [->|].
  { eexists. split; [reflexivity|].
    destruct (nvme_fill_id_ctrl_eq max keys csi (zeros KVSSD_PAGE_SIZE)) as (fs & [= <-] & E).
    exact E. }
  destruct (cns =? 0x00).
  { eexists. split; [reflexivity|]. apply id_ns_page; apply length_le_bytes. }
  destruct (cns =? 0x02); [eexists; split; [reflexivity|by vm_compute]|].
  destruct (cns =? 0x03); [eexists; split; [reflexivity|by vm_compute]|].
  destruct (cns =? 0x05).
  { destruct (csi =? 1); [|eexists; split; [reflexivity|by vm_compute]].
    eexists. split; [reflexivity|]. unfold d.
    rewrite kv_ns_bytes, Hu, kv_ns_page by apply length_le_bytes. apply copy_in_page. }
  destruct (cns =? 0x06); [eexists; split; [reflexivity|by vm_compute]|].
  destruct (cns =? 0x08); [eexists; split; [reflexivity|by vm_compute]|].
  destruct (cns =? 0x1c); [eexists; split; [reflexivity|by vm_compute]|done].
Qed.

Section admin_spec.
Context `{Uninit} `{VfuOk}.
Implicit Types (n : nvme_ctrl) (h : host).

Definition NVME_BAD_FIELD : Z := Z.lor NVME_INVALID_FIELD NVME_DNR.

(** Identify: an unknown CNS is refused, without a transfer; otherwise the page of
    the announced fields is sent to the PRP pair, and the status is that of the
    transfer. *)
Definition identify_post n h (sqe : NvmeSqe) (st : Z) (h' : host) : Prop :=
  match identify_fields (ns_max_num_keys (n_ns n)) (Z.of_nat (size (ns_map (n_ns n))))
          (Z.land (sqe_cdw10 sqe) 0xff) (Z.land (Z.shiftr (sqe_cdw11 sqe) 24) 0xff) with
  | None => st = NVME_BAD_FIELD ∧ h' = h
  | Some fs => ∃ rc,
      nvme_prp_xfer (n_vfu n) (sqe_prp1 sqe) (sqe_prp2 sqe) (page_of fs) 4096 true h =
        Done ((rc, page_of fs), h') ∧
      st = (if rc =? 0 then NVME_SUCCESS else NVME_BAD_FIELD) ∧
      (rc = 0 → ∃ addrs,
        prp_addrs (n_vfu n) PROT_WRITE (sqe_prp1 sqe) (sqe_prp2 sqe) 4096 = Some addrs ∧
        h_mem h' = write_addrs (h_mem h) addrs (page_of fs))
  end.

(** What every command guarantees of the host state. *)
Definition host_frame h h' : Prop := h_heap h = [] → h_heap h' = [].

#[export] Instance host_frame_preorder : PreOrder host_frame.
Proof. unfold host_frame. split; red; auto. Qed.

Lemma nvme_admin_identify_wp n h sqe :
  kv_ok (n_ns n) →
  wp (nvme_admin_identify sqe) (λ st s',
    s'.1 = n ∧ host_frame h s'.2 ∧ identify_post n h sqe st s'.2) (n, h).
Proof.
  intros (ps & d & Hinv). pose proof (ki_id _ _ _ Hinv) as Hid.
  assert (Hd : d = set_id_nuse (id_ns_init (ns_max_num_keys (n_ns n)))
    (4112 * Z.of_nat (size (ns_map (n_ns n))))).
  { rewrite (kv_inv_map _ _ _ Hinv), kv_abs_size by apply Hinv. apply Hinv. }
  pose proof (identify_fill_eq (ns_max_num_keys (n_ns n)) (Z.of_nat (size (ns_map (n_ns n))))
    (Z.land (sqe_cdw10 sqe) 0xff) (Z.land (Z.shiftr (sqe_cdw11 sqe) 24) 0xff)
    (ki_max _ _ _ Hinv)) as Hfill. rewrite <-Hd in Hfill.
  unfold identify_post, nvme_admin_identify. apply wp_bind, wp_gets. cbn [fst]. rewrite Hid.
  destruct (identify_fields _ _ _ _) as [fs|]; [destruct Hfill as (fill & -> & Hpage)|rewrite Hfill].
  2:{ by apply wp_ret. }
  apply wp_bind. eapply wp_run; [unfold on_buf; by rewrite Hpage|].
  apply wp_bind, wp_zoom. cbn [snd fst]. pose proof (length_page_of fs) as Hlen.
  destruct (proj1 (wp_done _ _ _) (nvme_prp_xfer_wp (n_vfu n) (sqe_prp1 sqe) (sqe_prp2 sqe)
    (page_of fs) 4096 true h ltac:(lia)))
    as ([rc b] & h' & Hx & _ & _ & Hb & _ & Hheap & Hok).
  cbn [fst snd] in *. specialize (Hb eq_refl). subst b.
  eapply wp_run; [exact Hx|]. cbn [fst snd].
  assert (Hpost : ∀ st, st = (if rc =? 0 then NVME_SUCCESS else NVME_BAD_FIELD) →
    (n, h').1 = n ∧ host_frame h h' ∧ ∃ rc',
      nvme_prp_xfer (n_vfu n) (sqe_prp1 sqe) (sqe_prp2 sqe) (page_of fs) 4096 true h =
        Done ((rc', page_of fs), h') ∧
      st = (if rc' =? 0 then NVME_SUCCESS else NVME_BAD_FIELD) ∧
      (rc' = 0 → ∃ addrs,
        prp_addrs (n_vfu n) PROT_WRITE (sqe_prp1 sqe) (sqe_prp2 sqe) 4096 = Some addrs ∧
        h_mem h' = write_addrs (h_mem h) addrs (page_of fs))).
  { intros st Hst. split_and!; [done..|]. exists rc. split_and!; [done..|].
    intros Hrc. destruct (Hok Hrc) as (addrs & Ha & Hla & _ & Hm). exists addrs.
    split; [done|]. rewrite Hm. f_equal. apply take_ge. lia. }
  unfold truthy. destruct (rc =? 0); cbn [negb]; apply wp_ret; by apply Hpost.
Qed.

(** ** Queue creation and deletion *)

(** The fields of the four commands, and the queues they describe. *)
Definition sqe_qid (sqe : NvmeSqe) : Z := Z.land (sqe_cdw10 sqe) 0xffff.
Definition sqe_qsize (sqe : NvmeSqe) : Z := Z.land (Z.shiftr (sqe_cdw10 sqe) 16) 0xffff.
Definition sqe_hi11 (sqe : NvmeSqe) : Z := Z.land (Z.shiftr (sqe_cdw11 sqe) 16) 0xffff.

Definition new_cq (sqe : NvmeSqe) : nvme_cq :=
  {| cq_dma := sqe_prp1 sqe; cq_size := sqe_qsize sqe + 1; cq_qid := sqe_qid sqe;
     cq_head := 0; cq_tail := 0; cq_phase := 1; cq_irq := sqe_hi11 sqe;
     cq_enabled := true |}.
Definition new_sq (sqe : NvmeSqe) : nvme_sq :=
  {| sq_dma := sqe_prp1 sqe; sq_size := sqe_qsize sqe + 1; sq_qid := sqe_qid sqe;
     sq_cqid := sqe_hi11 sqe; sq_head := 0; sq_tail := 0; sq_enabled := true |}.

Lemma land16_range v : 0 ≤ Z.land v 0xffff < 2 ^ 16.
Proof. change 0xffff with (Z.ones 16). rewrite Z.land_ones by done. by apply Z.mod_pos_bound. Qed.

(** The fields of a decoded entry are in the range of their C types. *)
Lemma sqe_ranges (sqe : NvmeSqe) :
  well_typed sqe → 0 ≤ sqe_prp1 sqe < 2 ^ 64 ∧ 0 ≤ sqe_cdw11 sqe < 2 ^ 32.
Proof.
  unfold well_typed. cbn -[Z.pow]. rewrite !Forall2_cons. unfold fits.
  change (256 ^ Z.of_nat 4) with (2 ^ 32). change (256 ^ Z.of_nat 8) with (2 ^ 64).
  intros. by destruct_and!.
Qed.

Lemma new_cq_wf sqe : well_typed sqe → cq_wf (new_cq sqe).
Proof.
  intros [Hprp _]%sqe_ranges.
  pose proof (land16_range (sqe_cdw10 sqe)).
  pose proof (land16_range (Z.shiftr (sqe_cdw10 sqe) 16)).
  pose proof (land16_range (Z.shiftr (sqe_cdw11 sqe) 16)).
  unfold new_cq, sqe_qid, sqe_qsize, sqe_hi11. split; cbn -[Z.land Z.shiftr]; lia.
Qed.

Lemma new_sq_wf sqe : well_typed sqe → sqe_hi11 sqe < 64 → sq_wf (new_sq sqe).
Proof.
  intros [Hprp _]%sqe_ranges.
  pose proof (land16_range (sqe_cdw10 sqe)).
  pose proof (land16_range (Z.shiftr (sqe_cdw10 sqe) 16)).
  pose proof (land16_range (Z.shiftr (sqe_cdw11 sqe) 16)).
  unfold new_sq, sqe_qid, sqe_qsize, sqe_hi11. intros. split; cbn -[Z.land Z.shiftr]; lia.
Qed.

Lemma bad_qid_false qid : 0 ≤ qid → bad_qid qid = false → 0 < qid < 64.
Proof. unfold bad_qid, NVME_MAX_QUEUES. lia. Qed.

(** An admin command changes no queue but the one it names, which is never the
    admin queue, and of the namespace only the EDNEK setting. *)
Record admin_frame n n' : Prop := {
  af_vfu : n_vfu n' = n_vfu n;
  af_regs : n_regs n' = n_regs n;
  af_msix : n_msix_region n' = n_msix_region n;
  af_sq0 : n_sq n' !! 0%nat = n_sq n !! 0%nat;
  af_cq0 : n_cq n' !! 0%nat = n_cq n !! 0%nat;
  af_pairs : ns_pairs (n_ns n') = ns_pairs (n_ns n);
  af_max : ns_max_num_keys (n_ns n') = ns_max_num_keys (n_ns n);
}.

#[export] Instance admin_frame_refl : Reflexive admin_frame.
Proof. by split. Qed.

Definition admin_post n h (s' : machine) : Prop :=
  ctrl_inv s'.1 ∧ admin_frame n s'.1 ∧ host_frame h s'.2.

Section commands.
Context (n : nvme_ctrl) (h : host) (sqe : NvmeSqe).
Hypothesis (Hinv : ctrl_inv n) (Hready : r_csts (n_regs n) = NVME_CSTS_RDY).

Let qid := Z.to_nat (sqe_qid sqe).

Lemma qid_ok : bad_qid (sqe_qid sqe) = false → 0 < sqe_qid sqe < 64.
Proof. apply bad_qid_false. unfold sqe_qid. pose proof (land16_range (sqe_cdw10 sqe)). lia. Qed.

Lemma post_same : admin_post n h (n, h).
Proof. by split_and!. Qed.

(** Assigning an I/O queue. *)
Lemma post_set_sq i q :
  (0 < i < 64)%nat → sq_wf q → admin_post n h (n_set_sq n (<[i:=q]> (n_sq n)), h).
Proof.
  intros Hi Hq. destruct (lookup_lt_is_Some_2 (n_sq n) i) as [q0 Hq0].
  { rewrite (qw_sqs _ (ci_queues _ Hinv)). lia. }
  split_and!; [|split; cbn; try done|done].
  - eapply ctrl_inv_set_sq; try done. by right.
  - by rewrite list_lookup_insert_ne by lia.
Qed.

Lemma post_set_cq i q :
  (0 < i < 64)%nat → cq_wf q → admin_post n h (n_set_cq n (<[i:=q]> (n_cq n)), h).
Proof.
  intros Hi Hq. destruct (lookup_lt_is_Some_2 (n_cq n) i) as [q0 Hq0].
  { rewrite (qw_cqs _ (ci_queues _ Hinv)). lia. }
  split_and!; [|split; cbn; try done|done].
  - eapply ctrl_inv_set_cq; try done. by right.
  - by rewrite list_lookup_insert_ne by lia.
Qed.

Lemma nvme_admin_create_cq_wp :
  well_typed sqe →
  wp (nvme_admin_create_cq sqe) (λ st s', admin_post n h s' ∧
    (st, s') = if bad_qid (sqe_qid sqe) then (INVALID_QID, (n, h))
               else (NVME_SUCCESS, (n_set_cq n (<[qid := new_cq sqe]> (n_cq n)), h))) (n, h).
Proof.
  intros Hsqe. unfold nvme_admin_create_cq. fold (sqe_qid sqe) (sqe_qsize sqe) (sqe_hi11 sqe).
  fold (new_cq sqe). destruct (bad_qid (sqe_qid sqe)) eqn:Hb.
  { apply wp_ret. split; [apply post_same|done]. }
  apply qid_ok in Hb. apply wp_bind, put_cq_wp; [apply Hinv|lia|]. apply wp_ret.
  split; [|done]. apply post_set_cq; [unfold qid; lia|by apply new_cq_wf].
Qed.

(** A submission queue needs a valid identifier and an enabled completion queue. *)
Definition cq_is_enabled (i : Z) : bool :=
  match n_cq n !! Z.to_nat i with Some q => cq_enabled q | None => false end.

Lemma nvme_admin_create_sq_wp :
  well_typed sqe →
  wp (nvme_admin_create_sq sqe) (λ st s', admin_post n h s' ∧
    (st, s') = if bad_qid (sqe_qid sqe) || (NVME_MAX_QUEUES <=? sqe_hi11 sqe) ||
                  negb (cq_is_enabled (sqe_hi11 sqe)) then (INVALID_QID, (n, h))
               else (NVME_SUCCESS, (n_set_sq n (<[qid := new_sq sqe]> (n_sq n)), h))) (n, h).
Proof.
  intros Hsqe. unfold nvme_admin_create_sq, cq_is_enabled.
  fold (sqe_qid sqe) (sqe_qsize sqe) (sqe_hi11 sqe). fold (new_sq sqe).
  destruct (bad_qid (sqe_qid sqe)) eqn:Hb; cbn [orb].
  { apply wp_ret. split; [apply post_same|done]. }
  apply qid_ok in Hb. destruct (Z.leb_spec NVME_MAX_QUEUES (sqe_hi11 sqe)) as [|Hc]; cbn [orb].
  { apply wp_ret. split; [apply post_same|done]. }
  assert (0 ≤ sqe_hi11 sqe < 64).
  { pose proof (land16_range (Z.shiftr (sqe_cdw11 sqe) 16)).
    unfold sqe_hi11, NVME_MAX_QUEUES in *. lia. }
  apply wp_bind, get_cq_wp; [apply Hinv|done|]. intros cq -> _.
  destruct (cq_enabled cq); cbn [negb].
  - apply wp_bind, put_sq_wp; [apply Hinv|lia|]. apply wp_ret.
    split; [|done]. apply post_set_sq; [unfold qid; lia|by apply new_sq_wf].
  - apply wp_ret. split; [apply post_same|done].
Qed.

(** Deletion disables the queue; a queue that was never created is no error. *)
Lemma nvme_admin_delete_cq_wp :
  wp (nvme_admin_delete_cq sqe) (λ st s', admin_post n h s' ∧
    (st, s') = if bad_qid (sqe_qid sqe) then (INVALID_QID, (n, h))
               else (NVME_SUCCESS,
                     (n_set_cq n (alter (λ q, cq_set_enabled q false) qid (n_cq n)), h)))
    (n, h).
Proof.
  unfold nvme_admin_delete_cq. fold (sqe_qid sqe). destruct (bad_qid (sqe_qid sqe)) eqn:Hb.
  { apply wp_ret. split; [apply post_same|done]. }
  apply qid_ok in Hb. apply wp_bind, get_cq_wp; [apply Hinv|lia|]. intros cq Hcq Hwf.
  apply wp_bind, put_cq_wp; [apply Hinv|lia|]. apply wp_ret. unfold qid.
  split; [apply post_set_cq; [lia|by apply cq_wf_disable]|].
  by rewrite (list_insert_as_alter (λ q, cq_set_enabled q false) _ _ _ Hcq).
Qed.

Lemma nvme_admin_delete_sq_wp :
  wp (nvme_admin_delete_sq sqe) (λ st s', admin_post n h s' ∧
    (st, s') = if bad_qid (sqe_qid sqe) then (INVALID_QID, (n, h))
               else (NVME_SUCCESS,
                     (n_set_sq n (alter (λ q, sq_set_enabled q false) qid (n_sq n)), h)))
    (n, h).
Proof.
  unfold nvme_admin_delete_sq. fold (sqe_qid sqe). destruct (bad_qid (sqe_qid sqe)) eqn:Hb.
  { apply wp_ret. split; [apply post_same|done]. }
  apply qid_ok in Hb. apply wp_bind, get_sq_wp; [apply Hinv|lia|]. intros sq Hsq Hwf.
  apply wp_bind, put_sq_wp; [apply Hinv|lia|]. apply wp_ret. unfold qid.
  split; [apply post_set_sq; [lia|by apply sq_wf_disable]|].
  by rewrite (list_insert_as_alter (λ q, sq_set_enabled q false) _ _ _ Hsq).
Qed.

(** ** Features *)

Lemma nvme_admin_get_features_wp cdw0 :
  wp (nvme_admin_get_features sqe cdw0) (λ _ s', admin_post n h s') (n, h).
Proof.
  unfold nvme_admin_get_features. repeat case_match; wp_steps; apply post_same.
Qed.

Lemma nvme_admin_set_features_wp cdw0 :
  0 ≤ sqe_cdw11 sqe < 2 ^ 32 →
  wp (nvme_admin_set_features sqe cdw0) (λ _ s', admin_post n h s') (n, h).
Proof.
  intros H11. unfold nvme_admin_set_features.
  case_match; [wp_steps; apply post_same|].
  case_match; [|wp_steps; apply post_same].
  wp_steps. split_and!; [|by split|done].
  apply ctrl_inv_set_ns; [done|]. destruct (ci_ns _ Hinv) as (ps & id & []).
  by exists ps, id.
Qed.

(** ** Every admin command *)

Lemma with_cdw0_wp cdw0 (m : M machine Z) (P : Z → machine → Prop) Q s :
  wp m P s → (∀ st s', P st s' → Q s') → wp (with_cdw0 cdw0 m) (λ _ s', Q s') s.
Proof. intros Hm HQ. apply wp_bind. eapply wp_mono; [done|]. intros. apply wp_ret. eauto. Qed.

Lemma nvme_admin_cmd_wp :
  well_typed sqe →
  wp (nvme_admin_cmd sqe) (λ _ s', admin_post n h s') (n, h).
Proof.
  intros Hsqe. pose proof (sqe_ranges _ Hsqe) as [_ H11].
  unfold nvme_admin_cmd. cbv zeta. repeat case_match;
    first
      [ apply nvme_admin_get_features_wp
      | by apply nvme_admin_set_features_wp
      | eapply with_cdw0_wp;
        [ first [ by apply nvme_admin_create_cq_wp | by apply nvme_admin_create_sq_wp
                | apply nvme_admin_delete_cq_wp | apply nvme_admin_delete_sq_wp ]
        | by intros st s' [Hp _] ]
      | apply wp_ret, post_same
      | idtac ].
  eapply with_cdw0_wp; [apply nvme_admin_identify_wp, Hinv|].
  intros st [n' h'] (Hn & Hh & _). cbn [fst snd] in *. subst. by split_and!.
Qed.
End commands.
End admin_spec.

#[export] Hint Resolve new_cq_wf new_sq_wf : kvssd.
