(* ===== verification/IoSpec.v ===== *)
(** * The KV commands of the controller

    [nvme_io_kv] refines the abstract key-value machine of {!KvSpec} and {!KvList}:
    a finite map, one transition relation per opcode. *)

From S2P Require Import Prelude.
From S2P Require Import Bytes.
From S2P Require Import NvmeSpec.
From S2P Require Import Kv.
From S2P Require Import KvTable.
From S2P Require Import KvInv.
From S2P Require Import KvSpec.
From S2P Require Import KvList.
From S2P Require Import Dma.
From S2P Require Import DmaSpec.
From S2P Require Import Ctrl.
From S2P Require Import Admin.
From S2P Require Import Regs.
From S2P Require Import CtrlInv.

(** ** The KV view of a submission queue entry *)

(** The fields of [*(const NvmeKVCmd * )sqe]. *)
Definition kv_view (s : NvmeSqe) : NvmeKVCmd := {|
  cmd_opcode := sqe_opcode s; cmd_flags := sqe_flags s; cmd_cid := sqe_cid s;
  cmd_nsid := sqe_nsid s; cmd_key := sqe_cdw2 s + sqe_cdw3 s * 2 ^ 32;
  cmd_mptr := sqe_mptr s; cmd_prp1 := sqe_prp1 s; cmd_prp2 := sqe_prp2 s;
  cmd_hbs := sqe_cdw10 s; cmd_kl := sqe_cdw11 s mod 2 ^ 8;
  cmd_ro := sqe_cdw11 s / 2 ^ 8 mod 2 ^ 8; cmd_rsvd := sqe_cdw11 s / 2 ^ 16;
  cmd_cdw12 := sqe_cdw12 s; cmd_cdw13 := sqe_cdw13 s;
  cmd_key_hi := sqe_cdw14 s + sqe_cdw15 s * 2 ^ 32;
|}.

Lemma cast_well_typed (s : NvmeSqe) : well_typed (cast s : NvmeKVCmd).
Proof. apply decode_well_typed. by rewrite length_encode. Qed.

Lemma le_bytes_split n m a b :
  0 ≤ a < 256 ^ Z.of_nat n →
  le_bytes (n + m) (a + b * 256 ^ Z.of_nat n) = le_bytes n a ++ le_bytes m b.
Proof.
  intros Ha. rewrite le_bytes_app. f_equal.
  - rewrite <-(le_bytes_mod n (a + _)), Z.mod_add by (pose proof (pow256_pos n); lia).
    by rewrite le_bytes_mod.
  - rewrite Z.div_add, Z.div_small by (pose proof (pow256_pos n); lia). done.
Qed.

Lemma le_bytes_cdw11 x :
  le_bytes 1 (x mod 2 ^ 8) ++ le_bytes 1 (x / 2 ^ 8 mod 2 ^ 8) ++ le_bytes 2 (x / 2 ^ 16) =
  le_bytes 4 x.
Proof.
  change (le_bytes 4 x) with (le_bytes (1 + (1 + 2)) x). rewrite !le_bytes_app.
  change (2 ^ 8) with (256 ^ Z.of_nat 1). rewrite !le_bytes_mod. do 3 f_equal.
  by rewrite Z.div_div by done.
Qed.

Lemma kv_view_fits s : well_typed s → well_typed (kv_view s).
Proof.
  unfold well_typed. cbn -[Z.pow Z.modulo Z.div]. rewrite !Forall2_cons. unfold fits.
  change (256 ^ Z.of_nat 1) with (2 ^ 8). change (256 ^ Z.of_nat 2) with (2 ^ 16).
  change (256 ^ Z.of_nat 4) with (2 ^ 32). change (256 ^ Z.of_nat 8) with (2 ^ 64).
  intros. destruct_and!.
  pose proof (Z.mod_pos_bound (sqe_cdw11 s) (2 ^ 8)).
  pose proof (Z.mod_pos_bound (sqe_cdw11 s / 2 ^ 8) (2 ^ 8)).
  pose proof (Z.div_pos (sqe_cdw11 s) (2 ^ 16)).
  pose proof (Z.div_lt_upper_bound (sqe_cdw11 s) (2 ^ 16) (2 ^ 16)).
  split_and!; try done; lia.
Qed.

Lemma encode_kv_view s : well_typed s → encode (kv_view s) = encode s.
Proof.
  unfold well_typed. cbn -[Z.pow]. rewrite !Forall2_cons. unfold fits. intros. destruct_and!.
  unfold encode. cbn -[le_bytes Z.pow Z.modulo Z.div]. rewrite !app_nil_r.
  change (2 ^ 32) with (256 ^ Z.of_nat 4).
  change (le_bytes 8 (sqe_cdw2 s + ?x)) with (le_bytes (4 + 4) (sqe_cdw2 s + x)).
  change (le_bytes 8 (sqe_cdw14 s + ?x)) with (le_bytes (4 + 4) (sqe_cdw14 s + x)).
  rewrite !le_bytes_split by done. rewrite <-(le_bytes_cdw11 (sqe_cdw11 s)).
  by rewrite <-!app_assoc.
Qed.

(** The pointer cast reads the KV command out of the generic entry. *)
Lemma cast_view (s : NvmeSqe) : well_typed s → cast s = kv_view s.
Proof.
  intros Hs. unfold cast. rewrite <-(encode_kv_view s Hs).
  by apply decode_encode, kv_view_fits.
Qed.

(** ** The abstract machine *)

Section io_spec.
Context `{Uninit} `{VfuOk}.
Implicit Types (n : nvme_ctrl) (h : host).

(** One KV command: [io_spec vfu ns cmd h st m h'], from the namespace [ns] and
    the host [h], may end with status [st], map [m] and host [h']. *)
Definition io_spec (vfu : vfu_ctx_t) (ns : kv_ns) (cmd : NvmeKVCmd) (h : host)
    (st : Z) (m : kvmap) (h' : host) : Prop :=
  let op := cmd_opcode cmd in
  if op =? NVME_CMD_KV_STORE then
    store_spec (kvdma vfu) (ns_max_num_keys ns) cmd (ns_map ns) h st m h'
  else if op =? NVME_CMD_KV_RETRIEVE then
    m = ns_map ns ∧ retrieve_spec (kvdma vfu) cmd (ns_map ns) h st h'
  else if op =? NVME_CMD_KV_DELETE then
    h' = h ∧ (st, m) = delete_spec (ns_ednek ns) cmd (ns_map ns)
  else if op =? NVME_CMD_KV_EXIST then
    h' = h ∧ m = ns_map ns ∧ st = exist_spec cmd (ns_map ns)
  else if op =? NVME_CMD_KV_LIST then
    m = ns_map ns ∧
    ∃ ps, ns_pairs ns = Some ps ∧ list_spec (kvdma vfu) cmd ps h st h'
  else h' = h ∧ m = ns_map ns ∧ st = Z.lor NVME_INVALID_OPCODE NVME_DNR.

Lemma on_ns_wp {A} (m : M (kv_ns * host) A) (Q : A → machine → Prop) n h :
  wp m (λ a s', Q a (n_set_ns n s'.1, s'.2)) (n_ns n, h) → wp (on_ns m) Q (n, h).
Proof. intros Hm. unfold on_ns. by apply wp_zoom. Qed.

Definition io_post n h (cmd : NvmeKVCmd) (st : Z) (s' : machine) : Prop :=
  s'.1 = n_set_ns n (n_ns s'.1) ∧ kv_ok (n_ns s'.1) ∧ same_config (n_ns n) (n_ns s'.1) ∧
  io_spec (n_vfu n) (n_ns n) cmd h st (ns_map (n_ns s'.1)) s'.2.

(** Lift the specification of a handler to the controller. *)
Lemma io_lift n h cmd (m : M (kv_ns * host) Z) :
  wp m (λ st s', kv_ok s'.1 ∧ same_config (n_ns n) s'.1 ∧
          io_spec (n_vfu n) (n_ns n) cmd h st (ns_map s'.1) s'.2) (n_ns n, h) →
  wp (on_ns m) (io_post n h cmd) (n, h).
Proof.
  intros Hm. apply on_ns_wp. eapply wp_mono; [done|].
  intros st s' (Hok & Hcfg & Hspec). by split_and!.
Qed.

Lemma nvme_io_kv_wp n h sqe :
  kv_ok (n_ns n) → wp (nvme_io_kv sqe) (io_post n h (cast sqe)) (n, h).
Proof.
  intros Hok. pose proof Hok as (ps & id & Hinv). pose proof (cast_well_typed sqe) as Hcmd.
  unfold nvme_io_kv. set (cmd := cast sqe : NvmeKVCmd) in *. apply wp_bind, wp_gets. cbn [fst].
  assert (Hsame : same_config (n_ns n) (n_ns n)) by done.
  case_match eqn:E1; [|case_match eqn:E2; [|case_match eqn:E3;
    [|case_match eqn:E4; [|case_match eqn:E5]]]].
  6:{ apply wp_ret. split_and!; [by destruct n|done..|]. unfold io_spec.
      by rewrite E1, E2, E3, E4, E5. }
  all: apply io_lift; unfold io_spec; rewrite ?E1, ?E2, ?E3, ?E4, ?E5.
  - eapply wp_mono; [by apply (kv_store_wp (kvdma (n_vfu n)) _ ps id)|].
    intros st s' (? & ? & ?). by split_and!.
  - eapply wp_mono; [by apply (kv_retrieve_wp (kvdma (n_vfu n)) _ ps id)|].
    intros st s' [-> ?]. by split_and!.
  - eapply wp_mono; [by apply (kv_delete_wp _ ps id)|].
    intros st s' (? & ? & ? & ?). by split_and!.
  - eapply wp_mono; [by apply (kv_exist_wp _ ps id)|].
    intros st s' [-> ?]. by split_and!.
  - eapply wp_mono; [by apply (kv_list_spec (kvdma (n_vfu n)) _ ps id)|].
    intros st s' [-> ?]. split_and!; [done..|]. exists ps. split; [apply Hinv|done].
Qed.

Lemma xfer_status_cases rc : xfer_status rc = NVME_SUCCESS ∨ xfer_status rc = NVME_INVALID_FIELD.
Proof. unfold xfer_status. case_match; auto. Qed.

(** A KV command always has a completion. *)
Lemma io_post_status n h cmd st s' : io_post n h cmd st s' → st ≠ 0xffff.
Proof.
  intros (_ & _ & _ & Hspec). revert Hspec. unfold io_spec.
  case_match; [intros []; try discriminate; by destruct (xfer_status_cases rc) as [-> | ->]|].
  case_match; [intros [_ []]; try discriminate; by destruct (xfer_status_cases rc) as [-> | ->]|].
  case_match; [unfold delete_spec; intros [_ Hd]; repeat case_match; by injection Hd as -> _|].
  case_match; [unfold exist_spec; intros (_ & _ & ->); by repeat case_match|].
  case_match; [|by intros (_ & _ & ->)].
  intros (_ & ps & _ & []); try discriminate. by destruct (xfer_status_cases rc) as [-> | ->].
Qed.
End io_spec.
