(* ===== verification/QueueSpec.v ===== *)
(** * The queue engine

    Posting a completion advances the ring of the completion queue; one iteration
    of the engine consumes one submission queue entry; with a tail inside the
    queue the loop ends, with a tail outside it never drains the queue. *)

From S2P Require Import Prelude.
From S2P Require Import Bytes.
From S2P Require Import NvmeSpec.
From S2P Require Import Kv.
From S2P Require Import KvTable.
From S2P Require Import KvInv.
From S2P Require Import KvSpec.
From S2P Require Import KvList.
From S2P Require Import Dma.
From S2P Require Import DmaSpec.
From S2P Require Import Ctrl.
From S2P Require Import Admin.
From S2P Require Import Regs.
From S2P Require Import CtrlInv.
From S2P Require Import RegsSpec.
From S2P Require Import StateSpec.
From S2P Require Import AdminSpec.
From S2P Require Import IoSpec.

(** ** The completion ring *)

Definition cq_advance (q : nvme_cq) : nvme_cq :=
  let tail := u16 (cq_tail q + 1) in
  if tail =? cq_size q then cq_set_tail_phase q 0 (Z.lxor (cq_phase q) 1)
  else cq_set_tail_phase q tail (cq_phase q).

Lemma lxor_phase p : 0 ≤ p ≤ 1 → Z.lxor p 1 = 1 - p.
Proof. intros. assert (p = 0 ∨ p = 1) as [-> | ->] by lia; done. Qed.

Lemma cq_advance_wf q : cq_wf q → cq_enabled q = true → cq_wf (cq_advance q).
Proof.
  intros [? ? ? Hs Ht Hp Hi He] Hen. specialize (He Hen). unfold cq_advance. cbv zeta.
  assert (Hcase : u16 (cq_tail q + 1) = cq_tail q + 1 ∧ cq_tail q + 1 < 2 ^ 16 ∨
                  u16 (cq_tail q + 1) = 0 ∧ cq_size q = 2 ^ 16).
  { destruct (decide (cq_tail q + 1 < 2 ^ 16)); [left; by rewrite u16_small by lia|right].
    assert (cq_tail q + 1 = 2 ^ 16) as -> by lia. split; [done|lia]. }
  destruct (Z.eqb_spec (u16 (cq_tail q + 1)) (cq_size q)); split; cbn;
    rewrite ?lxor_phase by done; lia || done.
Qed.

(** The phase tag flips exactly when the tail wraps, for every size a [uint16_t]
    tail can reach. *)
Definition ring_state (size : Z) (q : nvme_cq) (k : Z) : Prop :=
  cq_size q = size ∧ cq_tail q = k mod size ∧ cq_phase q = 1 - (k / size) mod 2.

Lemma ring_state_advance size q k :
  1 ≤ size < 2 ^ 16 → 0 ≤ k → ring_state size q k → ring_state size (cq_advance q) (k + 1).
Proof.
  intros Hs Hk (Hsz & Ht & Hp). unfold ring_state, cq_advance. cbv zeta.
  pose proof (Z.mod_pos_bound k size). pose proof (Z.mod_pos_bound (k / size) 2).
  pose proof (Z.div_mod k size). rewrite Ht, Hsz, u16_small by lia.
  destruct (Z.eqb_spec (k mod size + 1) size) as [Heq|Hne]; cbn [cq_size cq_tail cq_phase cq_set_tail_phase].
  - assert (k + 1 = (k / size + 1) * size) as -> by lia.
    rewrite Z.mod_mul, Z.div_mul by lia. split_and!; [done|done|].
    rewrite lxor_phase by lia. rewrite Hp, <-(Z.add_mod_idemp_l (k / size)) by done.
    assert ((k / size) mod 2 = 0 ∨ (k / size) mod 2 = 1) as [-> | ->] by lia; done.
  - assert (Hk1 : k + 1 = size * (k / size) + (k mod size + 1)) by lia.
    rewrite <-(Z.mod_unique (k + 1) size (k / size) (k mod size + 1)) by lia.
    rewrite <-(Z.div_unique (k + 1) size (k / size) (k mod size + 1)) by lia. done.
Qed.

(** With 65536 entries the tail wraps in its type and the phase never flips. *)
Lemma cq_advance_65536 q :
  cq_size q = 2 ^ 16 → cq_phase (cq_advance q) = cq_phase q.
Proof.
  intros Hs. unfold cq_advance. cbv zeta. pose proof (u16_range (cq_tail q + 1)).
  destruct (Z.eqb_spec (u16 (cq_tail q + 1)) (cq_size q)); [lia|done].
Qed.

Section queue_spec.
Context `{Uninit} `{VfuOk}.
Implicit Types (n : nvme_ctrl) (h : host).

(** ** [nvme_post_cqe] *)

(** The entry posted to the queue [cq]. *)
Definition cqe_of (cq : nvme_cq) (sqid sq_head cid cdw0 status : Z) : NvmeCqe :=
  {| cqe_cdw0 := cdw0; cqe_cdw1 := 0; cqe_sq_head := sq_head; cqe_sq_id := sqid;
     cqe_cid := cid;
     cqe_status := u16 (Z.lor (Z.shiftl status 1) (Z.land (cq_phase cq) 1)) |}.

Definition cq_slot (cq : nvme_cq) : Z := u64 (cq_dma cq + cq_tail cq * 16).

(** Nothing for a disabled queue.  Otherwise the entry goes to the slot of the
    tail (a failed transfer is ignored), the ring advances, the vector fires. *)
Inductive post_spec n h (cqid : Z) (cq : nvme_cq) (cqe : NvmeCqe) : machine → Prop :=
| PostDisabled : cq_enabled cq = false → post_spec n h cqid cq cqe (n, h)
| PostDone rc h1 :
    cq_enabled cq = true →
    nvme_gpa_xfer (n_vfu n) (cq_slot cq) (encode cqe) 16 true h =
      Done ((rc, encode cqe), h1) →
    xfer_post true (gpa_addrs (n_vfu n) PROT_WRITE (cq_slot cq) 16) (encode cqe) 16 h
      (rc, encode cqe) h1 →
    post_spec n h cqid cq cqe
      (n_set_cq n (<[Z.to_nat cqid := cq_advance cq]> (n_cq n)),
       h_add_call h1 (IrqTrigger (cq_irq cq))).

Lemma nvme_post_cqe_wp n h cqid sqid sq_head cid cdw0 status cq :
  queues_wf n → 0 ≤ cqid < 64 → n_cq n !! Z.to_nat cqid = Some cq →
  wp (nvme_post_cqe cqid sqid sq_head cid cdw0 status)
    (λ _ s', post_spec n h cqid cq (cqe_of cq sqid sq_head cid cdw0 status) s') (n, h).
Proof.
  intros Hq Hcq Hlk. unfold nvme_post_cqe. apply wp_bind, get_cq_wp; [done..|].
  rewrite Hlk. intros ? [= <-] [_ _ _ Hirq _].
  destruct (cq_enabled cq) eqn:Hen; cbn [negb]; [|by apply wp_ret, PostDisabled].
  fold (cqe_of cq sqid sq_head cid cdw0 status). set (cqe := cqe_of _ _ _ _ _ _).
  cbv zeta. change (Z.of_nat (sizeof NvmeCqe)) with 16. fold (cq_slot cq).
  assert (Hl : length (encode cqe) = 16%nat) by exact (length_encode cqe).
  destruct (proj1 (wp_done _ _ _)
    (nvme_gpa_xfer_wp (n_vfu n) (cq_slot cq) (encode cqe) 16 true h
       ltac:(rewrite Hl; lia) ltac:(done))) as ([rc b] & h1 & Hx & Hpost).
  assert (b = encode cqe) as -> by (by apply Hpost).
  apply wp_bind, wp_gets. cbn [fst]. apply wp_bind, wp_zoom. cbn [snd].
  eapply wp_run; [done|]. cbn [fst]. apply wp_bind, put_cq_wp; [done..|].
  destruct (Z.leb_spec 0 (cq_irq cq)); [|lia].
  unfold on_host. apply wp_zoom, wp_modify. cbn [fst snd].
  rewrite u32_small by lia. by eapply PostDone.
Qed.

(** Submission queues, registers and namespace are left alone. *)
Lemma post_spec_frame n h cqid cq cqe s' :
  post_spec n h cqid cq cqe s' → ∃ l, s'.1 = n_set_cq n l ∧ host_frame h s'.2.
Proof.
  intros [|rc h1 _ _ Hx]; cbn; [exists (n_cq n); by destruct n|].
  eexists. split; [done|]. by destruct Hx as (_ & _ & _ & _ & Hheap & _).
Qed.

Lemma post_spec_inv n h cqid cq cqe s' :
  ctrl_inv n → n_cq n !! Z.to_nat cqid = Some cq → post_spec n h cqid cq cqe s' →
  ctrl_inv s'.1.
Proof.
  intros Hinv Hcq [|rc h1 Hen _ _]; cbn; [done|].
  pose proof (Forall_lookup_1 _ _ _ _ (qw_cq _ (ci_queues _ Hinv)) Hcq) as Hwf.
  eapply ctrl_inv_set_cq; [done..|by apply cq_advance_wf|]. by left.
Qed.

(** ** One entry *)

Definition sq_next (q : nvme_sq) : nvme_sq :=
  sq_set_head q (u16 ((sq_head q + 1) mod sq_size q)).

Lemma sq_next_head q :
  sq_wf q → sq_head q < sq_size q →
  sq_next q = sq_set_head q ((sq_head q + 1) mod sq_size q).
Proof.
  intros Hwf Hlt. pose proof (sw_head _ Hwf). pose proof (sw_size _ Hwf). unfold sq_next. f_equal. apply u16_small.
  pose proof (Z.mod_pos_bound (sq_head q + 1) (sq_size q)). lia.
Qed.

Definition sq_slot (q : nvme_sq) : Z := u64 (sq_dma q + sq_head q * 64).

(** The transfer that fetches the entry at the head of [q]. *)
Definition fetch (vfu : vfu_ctx_t) (q : nvme_sq) : M host (Z * list byte) :=
  nvme_gpa_xfer vfu (sq_slot q) (uninit <$> seqZ 0 64) 64 false.

Lemma fetch_ok vfu q h :
  ∃ rc b h1, fetch vfu q h = Done ((rc, b), h1) ∧ (rc = 0 ∨ rc = -1) ∧
    length b = 64%nat ∧ host_frame h h1 ∧
    xfer_post false (gpa_addrs vfu PROT_READ (sq_slot q) 64)
      (uninit <$> seqZ 0 64) 64 h (rc, b) h1.
Proof.
  assert (Hl : length (uninit <$> seqZ 0 64) = 64%nat) by done.
  destruct (proj1 (wp_done _ _ _) (nvme_gpa_xfer_wp vfu (sq_slot q)
    (uninit <$> seqZ 0 64) 64 false h ltac:(rewrite Hl; lia) ltac:(done)))
    as ([rc b] & h1 & Hx & Hpost).
  exists rc, b, h1. pose proof Hpost as (Hrc & Hb & _ & _ & Hheap & _). cbn [fst snd] in *.
  by rewrite Hl in Hb.
Qed.

(** The command at the head of queue [qid], and what executing it may do. *)
Definition exec (qid : Z) (sqe : NvmeSqe) : M machine (Z * Z) :=
  if qid =? 0 then nvme_admin_cmd sqe else st ← nvme_io_kv sqe; mret (st, 0).

(** The state a command leaves: the invariant holds, and of queue [qid] only the
    commands before it (the engine) have changed anything. *)
Record exec_post (qid : Z) n h (s' : machine) : Prop := {
  ep_inv : ctrl_inv s'.1;
  ep_vfu : n_vfu s'.1 = n_vfu n;
  ep_regs : n_regs s'.1 = n_regs n;
  ep_msix : n_msix_region s'.1 = n_msix_region n;
  ep_sq : n_sq s'.1 !! Z.to_nat qid = n_sq n !! Z.to_nat qid;
  ep_max : ns_max_num_keys (n_ns s'.1) = ns_max_num_keys (n_ns n);
  ep_heap : qid = 0 → host_frame h s'.2;
  ep_pairs : qid = 0 → ns_pairs (n_ns s'.1) = ns_pairs (n_ns n);
}.

Lemma exec_wp n h qid sqe :
  ctrl_inv n → r_csts (n_regs n) = NVME_CSTS_RDY → well_typed sqe →
  wp (exec qid sqe) (λ _ s', exec_post qid n h s') (n, h).
Proof.
  intros Hinv Hready Hsqe. unfold exec. destruct (Z.eqb_spec qid 0) as [->|Hne].
  - eapply wp_mono; [by apply nvme_admin_cmd_wp|].
    intros r s' (Hi & [] & Hh). by split.
  - apply wp_bind. eapply wp_mono; [apply nvme_io_kv_wp, Hinv|].
    intros st [n' h'] (Hn & Hok & [Hmax _] & _). apply wp_ret. cbn [fst snd] in *.
    rewrite Hn. split; cbn; try done. by apply ctrl_inv_set_ns.
Qed.

(** One entry of queue [qid] consumed: it is fetched from the head, the head
    advances, the command runs, and its completion, if it has one, is posted. *)
Inductive sq_entry (qid : Z) : machine → machine → Prop :=
| SqEntry n h sq b h1 st cdw0 n2 h2 s3 :
    n_sq n !! Z.to_nat qid = Some sq → sq_head sq ≠ sq_tail sq →
    fetch (n_vfu n) sq h = Done ((0, b), h1) →
    exec qid (decode b) (n_set_sq n (<[Z.to_nat qid := sq_next sq]> (n_sq n)), h1) =
      Done ((st, cdw0), (n2, h2)) →
    (if st =? NVME_NO_COMPLETE then s3 = (n2, h2)
     else ∃ cq, n_cq n2 !! Z.to_nat (sq_cqid sq) = Some cq ∧
       post_spec n2 h2 (sq_cqid sq) cq
         (cqe_of cq qid (sq_head (sq_next sq)) (sqe_cid (decode b)) cdw0 st) s3) →
    sq_entry qid (n, h) s3.

(** One iteration.  [true]: the entry was fetched and executed, the head has
    advanced.  [false]: the fetch failed, nothing has changed. *)
Record step_post (qid : Z) n h (sq : nvme_sq) (more : bool) (s' : machine) : Prop := {
  sp_inv : ctrl_inv s'.1;
  sp_vfu : n_vfu s'.1 = n_vfu n;
  sp_regs : n_regs s'.1 = n_regs n;
  sp_msix : n_msix_region s'.1 = n_msix_region n;
  sp_max : ns_max_num_keys (n_ns s'.1) = ns_max_num_keys (n_ns n);
  sp_sq : n_sq s'.1 !! Z.to_nat qid = Some (if more then sq_next sq else sq);
  sp_heap : qid = 0 → host_frame h s'.2;
  sp_more b h1 : fetch (n_vfu n) sq h = Done ((0, b), h1) → more = true;
  sp_pairs : qid = 0 → ns_pairs (n_ns s'.1) = ns_pairs (n_ns n);
  sp_entry : more = true → sq_head sq ≠ sq_tail sq → sq_entry qid (n, h) s';
  sp_stop : more = false →
    ∃ b, fetch (n_vfu n) sq h = Done ((-1, b), s'.2) ∧ s'.1 = n;
}.

Lemma sq_step_wp n h qid sq :
  ctrl_inv n → 0 ≤ qid < 64 → n_sq n !! Z.to_nat qid = Some sq → sq_enabled sq = true →
  wp (sq_step qid) (step_post qid n h sq) (n, h).
Proof.
  intros Hinv Hqid Hsq Hen. pose proof (ctrl_inv_ready _ _ _ Hinv Hsq Hen) as Hready.
  pose proof (Forall_lookup_1 _ _ _ _ (qw_sq _ (ci_queues _ Hinv)) Hsq) as Hwf.
  pose proof (sw_enabled _ Hwf Hen) as Hlt. pose proof (sw_head _ Hwf) as Hhd.
  unfold sq_step. apply wp_bind, get_sq_wp; [apply Hinv|done|]. rewrite Hsq.
  intros ? [= <-] _. apply wp_bind, wp_gets. cbn [fst].
  change (Z.of_nat (sizeof NvmeSqe)) with 64. fold (sq_slot sq). fold (fetch (n_vfu n) sq).
  destruct (fetch_ok (n_vfu n) sq h) as (rc & b & h1 & Hf & Hrc & Hb & Hheap & _).
  apply wp_bind, wp_zoom. cbn [snd]. eapply wp_run; [done|]. cbn [fst snd].
  destruct Hrc as [-> | ->]; cbn [truthy negb Z.eqb].
  2:{ apply wp_ret. split; cbn [fst snd]; try done; [congruence|eauto]. }
  destruct (Z.eqb_spec (sq_size sq) 0); [lia|]. fold (sq_next sq). cbv zeta.
  apply wp_bind, put_sq_wp; [apply Hinv|done|].
  set (n1 := n_set_sq n _). set (sqe := decode b : NvmeSqe). fold (exec qid sqe).
  assert (Hinv1 : ctrl_inv n1).
  { eapply ctrl_inv_set_sq; [done..|apply sq_wf_advance; [done|lia]|by left]. }
  assert (Hsq1 : n_sq n1 !! Z.to_nat qid = Some (sq_next sq)).
  { apply list_lookup_insert_eq. rewrite (qw_sqs _ (ci_queues _ Hinv)). lia. }
  destruct (proj1 (wp_done _ _ _) (exec_wp n1 h1 qid sqe Hinv1 Hready
    ltac:(by apply decode_well_typed))) as ([st cdw0] & [n2 h2] & He & Hpost).
  apply wp_bind. eapply wp_run; [done|].
  destruct Hpost; cbn [fst snd] in *. rewrite Hsq1 in ep_sq0.
  destruct (Z.eqb_spec st NVME_NO_COMPLETE) as [->|Hst].
  { apply wp_ret. split; cbn [fst snd]; try done; [intros Hq; etrans; [done|auto]|].
    intros _ Hne. by eapply SqEntry. }
  apply wp_bind, get_sq_wp; [apply ep_inv0|done|]. rewrite ep_sq0.
  intros ? [= <-] Hwf2. apply wp_bind.
  destruct (lookup_lt_is_Some_2 (n_cq n2) (Z.to_nat (sq_cqid (sq_next sq)))) as [cq Hcq].
  { rewrite (qw_cqs _ (ci_queues _ ep_inv0)). pose proof (sw_cqid _ Hwf2). lia. }
  eapply wp_mono; [apply nvme_post_cqe_wp; [apply ep_inv0|apply Hwf2|done]|].
  intros [] s' Hpost. apply wp_ret.
  pose proof (post_spec_inv _ _ _ _ _ _ ep_inv0 Hcq Hpost).
  destruct (post_spec_frame _ _ _ _ _ _ Hpost) as (l & Hs' & Hh).
  split; rewrite ?Hs'; cbn [n_vfu n_regs n_sq n_msix_region n_ns n_set_cq]; try done;
    [congruence| |].
  - intros Hq. etrans; [done|]. etrans; [by apply ep_heap0|done].
  - intros _ Hne. eapply SqEntry; [done..|].
    rewrite (proj2 (Z.eqb_neq _ _) Hst). by exists cq.
Qed.

(** An iteration that goes on has consumed an entry. *)
Lemma sq_step_entry n h qid sq s' :
  ctrl_inv n → 0 ≤ qid < 64 → n_sq n !! Z.to_nat qid = Some sq → sq_enabled sq = true →
  sq_head sq ≠ sq_tail sq → sq_step qid (n, h) = Done (true, s') → sq_entry qid (n, h) s'.
Proof.
  intros Hinv Hqid Hsq Hen Hne Hrun. pose proof (sq_step_wp n h qid sq Hinv Hqid Hsq Hen) as Hw.
  unfold wp in Hw. rewrite Hrun in Hw. by apply (sp_entry _ _ _ _ _ _ Hw).
Qed.

(** ** The loop *)

Lemma step_enabled qid n h sq s' :
  sq_enabled sq = true → step_post qid n h sq true s' →
  ctrl_inv s'.1 ∧ n_sq s'.1 !! Z.to_nat qid = Some (sq_next sq) ∧
  sq_enabled (sq_next sq) = true ∧ sq_tail (sq_next sq) = sq_tail sq ∧
  sq_size (sq_next sq) = sq_size sq ∧ n_vfu s'.1 = n_vfu n.
Proof. intros Hen []. by split_and!. Qed.

(** What the engine leaves of queue [qid] after consuming [k] entries: only its
    head has moved, [k] places, up to the tail unless a fetch failed. *)
Record loop_post (qid : Z) n h (sq : nvme_sq) (s' : machine) : Prop := {
  lp_inv : ctrl_inv s'.1;
  lp_vfu : n_vfu s'.1 = n_vfu n;
  lp_regs : n_regs s'.1 = n_regs n;
  lp_msix : n_msix_region s'.1 = n_msix_region n;
  lp_max : ns_max_num_keys (n_ns s'.1) = ns_max_num_keys (n_ns n);
  lp_pairs : qid = 0 → ns_pairs (n_ns s'.1) = ns_pairs (n_ns n);
  lp_run : ∃ k s1, nsteps (sq_entry qid) k (n, h) s1 ∧ s1.1 = s'.1 ∧
    let sq' := sq_set_head sq ((sq_head sq + Z.of_nat k) mod sq_size sq) in
    n_sq s'.1 !! Z.to_nat qid = Some sq' ∧
    (s1 = s' ∧ sq_head sq' = sq_tail sq ∨
     ∃ b, fetch (n_vfu n) sq' s1.2 = Done ((-1, b), s'.2));
}.

Lemma sq_loop_head n h qid sq fuel :
  queues_wf n → 0 ≤ qid < 64 → n_sq n !! Z.to_nat qid = Some sq →
  sq_loop fuel qid (n, h) =
    if sq_head sq =? sq_tail sq then Done (tt, (n, h)) else
    match fuel with
    | O => OutOfFuel
    | S fuel' => (more ← sq_step qid;
                  if more : bool then sq_loop fuel' qid else mret tt) (n, h)
    end.
Proof.
  intros Hq Hqid Hsq.
  assert (Hget : get_sq qid (n, h) = Done (sq, (n, h))).
  { destruct (qid_nat qid Hqid) as (i & -> & Hi). rewrite Nat2Z.id in Hsq.
    by apply get_sq_eq. }
  destruct fuel; cbn; rewrite (bind_done _ _ _ _ _ Hget); by destruct (_ =? _).
Qed.

(** The head after one entry and [k] more. *)
Lemma sq_next_run sq k :
  sq_wf sq → sq_head sq < sq_size sq →
  sq_set_head (sq_next sq) ((sq_head (sq_next sq) + Z.of_nat k) mod sq_size (sq_next sq)) =
  sq_set_head sq ((sq_head sq + Z.of_nat (S k)) mod sq_size sq).
Proof.
  intros Hwf Hlt. pose proof (sw_size _ Hwf) as Hs. pose proof (sw_head _ Hwf) as Hh.
  unfold sq_next, sq_set_head. cbn [sq_head sq_size]. f_equal.
  pose proof (Z.mod_pos_bound (sq_head sq + 1) (sq_size sq)).
  rewrite u16_small, Z.add_mod_idemp_l by lia. f_equal. lia.
Qed.

Lemma sq_run_0 sq :
  sq_wf sq → sq_head sq < sq_size sq →
  sq_set_head sq ((sq_head sq + Z.of_nat 0) mod sq_size sq) = sq.
Proof.
  intros Hwf%sw_head Hlt. rewrite Z.add_0_r, Z.mod_small by lia. by destruct sq.
Qed.

(** Prefix one consumed entry to a run. *)
Lemma loop_post_step qid n h sq s1 s' :
  sq_wf sq → sq_head sq < sq_size sq → sq_head sq ≠ sq_tail sq →
  step_post qid n h sq true s1 → loop_post qid s1.1 s1.2 (sq_next sq) s' →
  loop_post qid n h sq s'.
Proof.
  intros Hwf Hlt Hne Hstep [? ? ? ? ? Hpairs (k & s2 & Hk & Hs2 & Hsq & Hend)].
  destruct Hstep. split; try congruence.
  - intros Hq. rewrite Hpairs by done. by apply sp_pairs0.
  - exists (S k), s2. cbv zeta in * |- *. rewrite sq_next_run in Hsq, Hend by done.
    split_and!; [|done..|].
    + apply nsteps_l with s1; [by apply sp_entry0|by destruct s1].
    + rewrite sp_vfu0 in Hend. destruct Hend as [[? Ht]|?]; [left|by right]. done.
Qed.

Lemma sq_loop_safe fuel n h qid sq :
  ctrl_inv n → 0 ≤ qid < 64 → n_sq n !! Z.to_nat qid = Some sq → sq_enabled sq = true →
  safe (sq_loop fuel qid) (λ _ s', loop_post qid n h sq s') (n, h).
Proof.
  intros Hinv Hqid. revert n h sq Hinv. induction fuel as [|fuel IH];
    intros n h sq Hinv Hsq Hen; unfold safe;
    rewrite (sq_loop_head _ _ _ sq) by (done || apply Hinv);
    pose proof (Forall_lookup_1 _ _ _ _ (qw_sq _ (ci_queues _ Hinv)) Hsq) as Hwf;
    pose proof (sw_enabled _ Hwf Hen) as Hlt;
    pose proof (sq_run_0 _ Hwf Hlt) as Hrun0;
    (destruct (Z.eqb_spec (sq_head sq) (sq_tail sq)) as [Heq|Hne];
     [split; try done; exists 0%nat, (n, h);
      cbv zeta; split_and!; [apply nsteps_O|done|by rewrite Hrun0|left; by rewrite Hrun0]|]); [done|].
  change (safe (more ← sq_step qid; if more : bool then sq_loop fuel qid else mret tt)
    (λ _ s', loop_post qid n h sq s') (n, h)).
  apply safe_bind. eapply safe_mono; [apply wp_safe; by apply sq_step_wp|].
  intros [] [n1 h1] Hstep.
  - destruct (step_enabled _ _ _ _ _ Hen Hstep) as (Hinv1 & Hsq1 & Hen1 & _).
    eapply safe_mono; [by apply (IH n1 h1 (sq_next sq))|].
    intros u s' Hl. by eapply (loop_post_step _ _ _ _ (n1, h1)).
  - apply wp_safe, wp_ret. destruct Hstep. cbn [fst snd] in *. split; cbn [fst]; try done.
    destruct (sp_stop0 eq_refl) as (b & Hf & Hn). subst n1.
    exists 0%nat, (n, h). cbv zeta; split_and!; [apply nsteps_O|done|by rewrite Hrun0|].
    right. exists b. by rewrite Hrun0.
Qed.

(** The admin queue with its tail outside: the head, inside, never meets it. *)
Lemma sq_loop_diverges fuel n h sq :
  ctrl_inv n → n_sq n !! 0%nat = Some sq → sq_enabled sq = true → sq_size sq ≤ sq_tail sq →
  h_heap h = [] →
  (∀ hd h, 0 ≤ hd < sq_size sq → h_heap h = [] →
     ∃ b h1, fetch (n_vfu n) (sq_set_head sq hd) h = Done ((0, b), h1)) →
  sq_loop fuel 0 (n, h) = OutOfFuel.
Proof.
  revert n h sq. induction fuel as [|fuel IH]; intros n h sq Hinv Hsq Hen Htl Hheap Hfetch;
    rewrite (sq_loop_head _ _ _ sq) by (done || apply Hinv);
    pose proof (Forall_lookup_1 _ _ _ _ (qw_sq _ (ci_queues _ Hinv)) Hsq) as Hwf;
    pose proof (sw_enabled _ Hwf Hen) as Hlt; pose proof (sw_head _ Hwf);
    (destruct (Z.eqb_spec (sq_head sq) (sq_tail sq)) as [Heq|Hne]; [lia|]); [done|].
  destruct (proj1 (wp_done _ _ _) (sq_step_wp n h 0 sq Hinv ltac:(lia) Hsq Hen))
    as (more & [n1 h1] & E & Hstep). rewrite bind_run, E.
  destruct (Hfetch (sq_head sq) h ltac:(lia) Hheap) as (b & h2 & Hf).
  assert (sq_set_head sq (sq_head sq) = sq) as Hself by (by destruct sq).
  rewrite Hself in Hf. assert (more = true) as -> by (by eapply (sp_more _ _ _ _ _ _ Hstep)).
  destruct (step_enabled _ _ _ _ _ Hen Hstep) as (Hinv1 & Hsq1 & Hen1 & Ht1 & Hs1 & Hv1).
  apply (IH n1 h1 (sq_next sq)); try done.
  - by apply (sp_heap _ _ _ _ _ _ Hstep).
  - rewrite Hs1. cbn [fst] in Hv1. rewrite Hv1. apply Hfetch.
Qed.

(** Entries between head and tail, when the tail is inside the queue. *)
Definition sq_pending (q : nvme_sq) : Z := (sq_tail q - sq_head q) mod sq_size q.

Lemma sq_pending_next q :
  sq_wf q → 0 < sq_size q → sq_head q ≠ sq_tail q → sq_head q < sq_size q →
  sq_tail q < sq_size q → sq_pending (sq_next q) = sq_pending q - 1.
Proof.
  intros Hwf Hpos Hne Hhl Htl. pose proof (sw_size _ Hwf) as Hs.
  pose proof (sw_head _ Hwf) as Hh. pose proof (sw_tail _ Hwf) as Ht. unfold sq_pending, sq_next. cbn.
  pose proof (Z.mod_pos_bound (sq_head q + 1) (sq_size q)).
  rewrite u16_small by lia. rewrite Zminus_mod_idemp_r.
  destruct (Z.lt_total (sq_head q) (sq_tail q)) as [|[|]]; [|lia|].
  - rewrite !Z.mod_small by lia. lia.
  - rewrite <-(Z.mod_unique (sq_tail q - sq_head q) (sq_size q) (-1)
      (sq_tail q - sq_head q + sq_size q)) by lia.
    rewrite <-(Z.mod_unique (sq_tail q - (sq_head q + 1)) (sq_size q) (-1)
      (sq_tail q - (sq_head q + 1) + sq_size q)) by lia. lia.
Qed.

Lemma sq_loop_ends fuel n h qid sq :
  ctrl_inv n → 0 ≤ qid < 64 → n_sq n !! Z.to_nat qid = Some sq → sq_enabled sq = true →
  sq_tail sq < sq_size sq → sq_pending sq ≤ Z.of_nat fuel →
  sq_loop fuel qid (n, h) ≠ OutOfFuel.
Proof.
  intros Hinv Hqid. revert n h sq Hinv. induction fuel as [|fuel IH];
    intros n h sq Hinv Hsq Hen Htl Hfuel;
    rewrite (sq_loop_head _ _ _ sq) by (done || apply Hinv);
    (destruct (Z.eqb_spec (sq_head sq) (sq_tail sq)) as [Heq|Hne]; [done|]);
    pose proof (Forall_lookup_1 _ _ _ _ (qw_sq _ (ci_queues _ Hinv)) Hsq) as Hwf;
    pose proof (sw_enabled _ Hwf Hen) as Hhl; pose proof (sw_head _ Hwf) as Hh0;
    pose proof (sq_pending_next _ Hwf ltac:(lia) Hne Hhl Htl) as Hnext.
  - pose proof (Z.mod_pos_bound (sq_tail (sq_next sq) - sq_head (sq_next sq))
      (sq_size (sq_next sq)) ltac:(cbn; lia)). unfold sq_pending in Hnext, Hfuel. lia.
  - destruct (proj1 (wp_done _ _ _) (sq_step_wp n h qid sq Hinv Hqid Hsq Hen))
      as ([] & [n1 h1] & E & Hstep); rewrite bind_run, E; [|done].
    destruct (step_enabled _ _ _ _ _ Hen Hstep) as (Hinv1 & Hsq1 & Hen1 & Ht1 & Hs1 & _).
    apply (IH n1 h1 (sq_next sq)); try done; lia.
Qed.
End queue_spec.
