(* ===== verification/Progress.v ===== *)
(** * Progress: every command submitted is completed

    When entries can be fetched and allocations succeed, the engine, run on an I/O
    queue whose tail is inside, executes the entries between head and tail in order
    and posts one completion for each. *)

From S2P Require Import Prelude.
From S2P Require Import Bytes.
From S2P Require Import NvmeSpec.
From S2P Require Import Kv.
From S2P Require Import KvInv.
From S2P Require Import KvSpec.
From S2P Require Import Dma.
From S2P Require Import DmaSpec.
From S2P Require Import Ctrl.
From S2P Require Import Admin.
From S2P Require Import Regs.
From S2P Require Import Keeps.
From S2P Require Import CtrlInv.
From S2P Require Import IoSpec.
From S2P Require Import QueueSpec.

Section progress.
Context `{Uninit} `{VfuOk}.
Implicit Types (n : nvme_ctrl) (h : host).

(** One entry of an I/O queue executed and completed: the 64 bytes at the head of
    [sq] are a command, which is one step of the abstract machine, and the entry
    [cqe] with its status and identifier is posted to the queue [cq], from the state
    that the command left. *)
Inductive io_done (qid : Z) n h (cqe : NvmeCqe) : machine → machine → Prop :=
| IoDone sq b h1 st n2 h2 cq s' :
    n_sq n !! Z.to_nat qid = Some sq → sq_head sq ≠ sq_tail sq →
    fetch (n_vfu n) sq h = Done ((0, b), h1) →
    nvme_io_kv (decode b) (n_set_sq n (<[Z.to_nat qid := sq_next sq]> (n_sq n)), h1) =
      Done (st, (n2, h2)) →
    io_post (n_set_sq n (<[Z.to_nat qid := sq_next sq]> (n_sq n))) h1
      (cast (decode b : NvmeSqe)) st (n2, h2) →
    n_cq n2 !! Z.to_nat (sq_cqid sq) = Some cq →
    cqe = cqe_of cq qid (sq_head (sq_next sq)) (sqe_cid (decode b)) 0 st →
    post_spec n2 h2 (sq_cqid sq) cq cqe s' →
    io_done qid n h cqe (n2, h2) s'.

Lemma exec_io n h qid sqe st cdw0 s' :
  kv_ok (n_ns n) → qid ≠ 0 → exec qid sqe (n, h) = Done ((st, cdw0), s') →
  nvme_io_kv sqe (n, h) = Done (st, s') ∧ io_post n h (cast sqe) st s' ∧ cdw0 = 0 ∧
  st ≠ NVME_NO_COMPLETE.
Proof.
  intros Hok Hq He. unfold exec in He. rewrite (proj2 (Z.eqb_neq _ _) Hq), bind_run in He.
  pose proof (nvme_io_kv_wp n h sqe Hok) as Hio. unfold wp in Hio.
  destruct (nvme_io_kv sqe (n, h)) as [[st' s2]| |]; [|done..].
  injection He as -> <- ->. split_and!; [done..|]. by eapply io_post_status.
Qed.

Lemma io_entry_done n h qid s' :
  ctrl_inv n → 0 < qid < 64 → sq_entry qid (n, h) s' →
  ∃ cqe mid, io_done qid n h cqe mid s'.
Proof.
  intros Hinv Hqid Hentry.
  inversion Hentry as [n' h' sq b h1 st cdw0 n2 h2 s3 Hsq Hne Hf He Hp Hnh Hs].
  subst n' h' s3. clear Hentry. apply exec_io in He as (Hrun & Hio & -> & Hst); [|exact (ci_ns _ Hinv)|lia].
  rewrite (proj2 (Z.eqb_neq _ _) Hst) in Hp. destruct Hp as (cq & Hcq & Hpost).
  eexists _, _. by eapply IoDone.
Qed.

(** A sequence of entries, with the completions posted for them; the effect of each
    command on the host is in [R]. *)
Inductive io_run (R : host → host → Prop) (qid : Z) :
    list NvmeCqe → machine → machine → Prop :=
| IoNil s : io_run R qid [] s s
| IoCons cqe l n h mid s s' :
    io_done qid n h cqe mid s → R h mid.2 → io_run R qid l s s' →
    io_run R qid (cqe :: l) (n, h) s'.

(** Any effect. *)
Definition any_effect (h h' : host) : Prop := True.

(** Completion queue [cqid] after [k] completions. *)
Lemma io_done_cq n h qid cqe mid s' sq cq :
  io_done qid n h cqe mid s' → n_sq n !! Z.to_nat qid = Some sq →
  n_cq n !! Z.to_nat (sq_cqid sq) = Some cq → cq_enabled cq = true →
  n_cq s'.1 !! Z.to_nat (sq_cqid sq) = Some (cq_advance cq).
Proof.
  intros [sq' b h1 st n2 h2 cq' s1 Hsq _ _ _ Hio Hcq' _ Hpost] Hsq' Hcq Hen.
  simplify_eq. destruct Hio as (Hn2 & _). cbn [fst] in Hn2. rewrite Hn2 in Hcq'.
  cbn in Hcq'. simplify_eq. destruct Hpost as [|rc h3 _ _ _]; [congruence|].
  cbn. apply list_lookup_insert_eq. rewrite Hn2. cbn. by eapply lookup_lt_Some.
Qed.

Lemma cq_advance_enabled cq : cq_enabled (cq_advance cq) = cq_enabled cq.
Proof. unfold cq_advance. by case_match. Qed.

(** The state that the command leaves. *)
Lemma io_done_mid n h qid cqe n2 h2 s' sq :
  ctrl_inv n → 0 < qid < 64 → heap_full h → n_sq n !! Z.to_nat qid = Some sq →
  sq_enabled sq = true → io_done qid n h cqe (n2, h2) s' →
  ctrl_inv n2 ∧ n_vfu n2 = n_vfu n ∧ n_cq n2 = n_cq n ∧ heap_full h2 ∧
  n_sq n2 !! Z.to_nat qid = Some (sq_next sq).
Proof.
  intros Hinv Hqid Hheap Hsq Hen Hdone.
  inversion Hdone as [sq' b h1 st n2' h2' cq' s1 Hsq' _ Hf Hrun Hio _ _ _]. simplify_eq.
  pose proof (Forall_lookup_1 _ _ _ _ (qw_sq _ (ci_queues _ Hinv)) Hsq) as Hwf.
  pose proof (sw_enabled _ Hwf Hen) as Hlt. pose proof (sw_head _ Hwf).
  pose proof (keeps_gpa_xfer (n_vfu n) (sq_slot sq) (uninit <$> seqZ 0 64) 64 false h Hheap) as Hk1.
  unfold fetch in Hf. rewrite Hf in Hk1.
  pose proof (keeps_io_kv (decode b) (n_set_sq n (<[Z.to_nat qid := sq_next sq]> (n_sq n)), h1)
    Hk1) as Hk2. rewrite Hrun in Hk2.
  destruct Hio as (Hn2 & Hok & [Hmax _] & _). cbn [fst snd] in *. rewrite Hn2. cbn.
  split; [|split_and!; [done..|]].
  - apply ctrl_inv_set_ns; [|done..].
    eapply ctrl_inv_set_sq; [done..|apply sq_wf_advance; [done|lia]|by left].
  - apply list_lookup_insert_eq. rewrite (qw_sqs _ (ci_queues _ Hinv)). lia.
Qed.

(** The queue [q], its entries fetchable, with its completion queue live. *)
Record io_live (qid : Z) n h (sq : nvme_sq) (cq : nvme_cq) : Prop := {
  il_inv : ctrl_inv n;
  il_sq : n_sq n !! Z.to_nat qid = Some sq;
  il_sq_enabled : sq_enabled sq = true;
  il_cq : n_cq n !! Z.to_nat (sq_cqid sq) = Some cq;
  il_cq_enabled : cq_enabled cq = true;
  il_tail : sq_tail sq < sq_size sq;
  il_heap : heap_full h;
  il_fetch hd h1 : 0 ≤ hd < sq_size sq → heap_full h1 →
    ∃ b h2, fetch (n_vfu n) (sq_set_head sq hd) h1 = Done ((0, b), h2);
}.

(** One iteration of the loop. *)
Lemma sq_step_live n h qid sq cq :
  0 < qid < 64 → io_live qid n h sq cq → sq_head sq ≠ sq_tail sq →
  wp (sq_step qid) (λ more s', more = true ∧ (∃ cqe mid, io_done qid n h cqe mid s') ∧
    io_live qid s'.1 s'.2 (sq_next sq) (cq_advance cq)) (n, h).
Proof.
  intros Hqid [Hinv Hsq Hen Hcq Hcen Htl Hheap Hfetch] Hne.
  pose proof (Forall_lookup_1 _ _ _ _ (qw_sq _ (ci_queues _ Hinv)) Hsq) as Hwf.
  pose proof (sw_enabled _ Hwf Hen) as Hlt. pose proof (sw_head _ Hwf) as Hhd.
  pose proof (keeps_sq_step qid ltac:(lia) (n, h) Hheap) as Hfull.
  pose proof (sq_step_wp n h qid sq Hinv ltac:(lia) Hsq Hen) as Hstep. unfold wp in *.
  destruct (sq_step qid (n, h)) as [[more s']| |]; [|done..].
  destruct (Hfetch (sq_head sq) h ltac:(lia) Hheap) as (b & h2 & Hf).
  replace (sq_set_head sq (sq_head sq)) with sq in Hf by (by destruct sq).
  assert (more = true) as -> by (by eapply sp_more).
  destruct (io_entry_done n h qid s' Hinv Hqid) as (cqe & mid & Hdone); [by apply (sp_entry _ _ _ _ _ _ Hstep)|].
  split; [done|]. split; [by exists cqe, mid|].
  destruct (step_enabled _ _ _ _ _ Hen Hstep) as (Hinv1 & Hsq1 & Hen1 & Ht1 & Hs1 & Hv1).
  split; try done.
  - exact (io_done_cq n h qid cqe mid s' sq cq Hdone Hsq Hcq Hcen).
  - by rewrite cq_advance_enabled.
  - intros hd h1 Hh Hh1. rewrite Hv1. by apply Hfetch.
Qed.

Lemma sq_loop_live fuel n h qid sq cq :
  0 < qid < 64 → io_live qid n h sq cq → sq_pending sq ≤ Z.of_nat fuel →
  wp (sq_loop fuel qid) (λ _ s', ∃ cqes, io_run any_effect qid cqes (n, h) s' ∧
    Z.of_nat (length cqes) = sq_pending sq ∧
    n_sq s'.1 !! Z.to_nat qid = Some (sq_set_head sq (sq_tail sq)) ∧
    n_cq s'.1 !! Z.to_nat (sq_cqid sq) = Some (Nat.iter (length cqes) cq_advance cq)) (n, h).
Proof.
  intros Hqid. revert n h sq cq. induction fuel as [|fuel IH]; intros n h sq cq Hlive Hfuel;
    pose proof Hlive as [Hinv Hsq Hen Hcq Hcen Htl Hheap Hfetch];
    pose proof (Forall_lookup_1 _ _ _ _ (qw_sq _ (ci_queues _ Hinv)) Hsq) as Hwf;
    pose proof (sw_enabled _ Hwf Hen) as Hlt; pose proof (sw_head _ Hwf) as Hhd;
    pose proof (λ f, sq_loop_head n h qid sq f (ci_queues _ Hinv) ltac:(lia) Hsq) as Hloop;
    (destruct (Z.eqb_spec (sq_head sq) (sq_tail sq)) as [Heq|Hne];
     [eapply wp_run; [by apply Hloop|]; exists []; split; [apply IoNil|];
      unfold sq_pending; rewrite Heq, Z.sub_diag, Z.mod_0_l by lia;
      split_and!; [done|rewrite <-Heq; by destruct sq|done]|]);
    pose proof (sq_pending_next _ Hwf ltac:(lia) Hne Hlt Htl) as Hnext.
  - pose proof (Z.mod_pos_bound (sq_tail (sq_next sq) - sq_head (sq_next sq))
      (sq_size (sq_next sq)) ltac:(cbn; lia)). unfold sq_pending in Hnext, Hfuel. lia.
  - eapply wp_eq; [exact (Hloop (S fuel))|]. apply wp_bind.
    eapply wp_mono; [by apply sq_step_live|].
    intros more [n1 h1] (-> & (cqe & mid & Hdone) & Hlive1). cbn [fst snd] in *.
    eapply wp_mono; [apply (IH n1 h1 (sq_next sq) (cq_advance cq)); [done|lia]|].
    intros u s' (cqes & Hrun & Hl & Hsq' & Hcq'). exists (cqe :: cqes).
    split; [by eapply IoCons|]. split; [cbn [length]; lia|]. split; [done|].
    cbn [length]. by rewrite Nat.iter_succ_r.
Qed.

(** The engine, entered from outside. *)
Lemma process_sq_live fuel n h qid sq cq :
  0 < qid < 64 → io_live qid n h sq cq → sq_size sq ≤ Z.of_nat fuel →
  wp (nvme_process_sq fuel qid) (λ _ s', ∃ cqes, io_run any_effect qid cqes (n, h) s' ∧
    Z.of_nat (length cqes) = sq_pending sq ∧
    n_sq s'.1 !! Z.to_nat qid = Some (sq_set_head sq (sq_tail sq)) ∧
    n_cq s'.1 !! Z.to_nat (sq_cqid sq) = Some (Nat.iter (length cqes) cq_advance cq)) (n, h).
Proof.
  intros Hqid Hlive Hfuel. pose proof Hlive as [Hinv Hsq Hen _ _ _ _ _].
  pose proof (Forall_lookup_1 _ _ _ _ (qw_sq _ (ci_queues _ Hinv)) Hsq) as Hwf.
  pose proof (sw_enabled _ Hwf Hen). pose proof (sw_head _ Hwf).
  unfold nvme_process_sq. apply wp_bind, get_sq_wp; [apply Hinv|lia|]. rewrite Hsq.
  intros ? [= <-] _. rewrite Hen. cbn [negb]. apply sq_loop_live; [done..|].
  unfold sq_pending. pose proof (Z.mod_pos_bound (sq_tail sq - sq_head sq) (sq_size sq)). lia.
Qed.
End progress.
