(* ===== verification/HostRing.v ===== *)
(** * The completion ring as the host sees it

    A host polls a completion queue by the phase tag.  [host_poll] is such a driver,
    reading guest memory only; it finds exactly the completions that the controller
    posted and that it has not consumed, in order, as long as the controller is
    at most one round ahead. *)

From S2P Require Import Prelude.
From S2P Require Import Bytes.
From S2P Require Import NvmeSpec.
From S2P Require Import Kv.
From S2P Require Import KvSpec.
From S2P Require Import Dma.
From S2P Require Import DmaSpec.
From S2P Require Import Ctrl.
From S2P Require Import Admin.
From S2P Require Import Regs.
From S2P Require Import Keeps.
From S2P Require Import CtrlInv.
From S2P Require Import IoSpec.
From S2P Require Import QueueSpec.
From S2P Require Import Progress.

(** ** The driver *)

(** The phase tag of the [k]-th entry ever posted to a queue of [size] entries. *)
Definition phase_of (size k : Z) : Z := 1 - (k / size) mod 2.

Definition cqe_phase (c : NvmeCqe) : Z := Z.land (cqe_status c) 1.

(** Consume entries from number [k] on, until one whose tag is stale; [read i] is
    the entry in slot [i]. *)
Fixpoint host_poll (fuel : nat) (read : Z → NvmeCqe) (size k : Z) : list NvmeCqe :=
  match fuel with
  | O => []
  | S fuel' =>
      let c := read (k mod size) in
      if cqe_phase c =? phase_of size k then c :: host_poll fuel' read size (k + 1) else []
  end.

(** A reader under which the entries [cs] are in place from number [m] on, and
    the one after them is stale. *)
Lemma host_poll_exact read size cs m fuel :
  (∀ j c, cs !! j = Some c → (m ≤ j)%nat →
     read (Z.of_nat j mod size) = c ∧ cqe_phase c = phase_of size (Z.of_nat j)) →
  cqe_phase (read (Z.of_nat (length cs) mod size)) ≠ phase_of size (Z.of_nat (length cs)) →
  (m ≤ length cs)%nat → (length cs - m < fuel)%nat →
  host_poll fuel read size (Z.of_nat m) = drop m cs.
Proof.
  intros Hin Hstale. revert m Hin. induction fuel as [|fuel IH]; intros m Hin Hm Hf; [lia|].
  cbn [host_poll]. destruct (decide (m = length cs)) as [->|Hne].
  - rewrite (proj2 (Z.eqb_neq _ _) Hstale). by rewrite drop_ge.
  - destruct (lookup_lt_is_Some_2 cs m ltac:(lia)) as [c Hc].
    destruct (Hin m c Hc ltac:(lia)) as [-> ->]. rewrite Z.eqb_refl.
    rewrite (drop_S _ _ _ Hc). f_equal. replace (Z.of_nat m + 1) with (Z.of_nat (S m)) by lia.
    apply IH; [|lia..]. intros j c' Hj Hle. apply Hin; [done|lia].
Qed.

Lemma land1_mod z : Z.land z 1 = z mod 2.
Proof. by apply (Z.land_ones z 1). Qed.

(** The phase tag of a posted entry is the one of the queue. *)
Lemma cqe_of_phase cq sqid sq_head cid cdw0 status :
  0 ≤ cq_phase cq ≤ 1 → cqe_phase (cqe_of cq sqid sq_head cid cdw0 status) = cq_phase cq.
Proof.
  intros Hp. unfold cqe_phase, cqe_of. cbn [cqe_status]. unfold u16.
  rewrite <-(Z.land_ones _ 16), <-Z.land_assoc by done. change (Z.land (Z.ones 16) 1) with 1.
  rewrite Z.land_lor_distr_l, !land1_mod, Z.mod_mod, Z.shiftl_mul_pow2 by done.
  change (2 ^ 1) with 2. rewrite Z.mod_mul by done. cbn. apply Z.mod_small. lia.
Qed.

(** Entries one round apart have different tags. *)
Lemma phase_of_round size k : 0 < size → phase_of size (k + size) = 1 - phase_of size k.
Proof.
  intros Hs. unfold phase_of. replace (k + size) with (k + 1 * size) by lia.
  rewrite Z.div_add by lia. pose proof (Z.mod_pos_bound (k / size) 2).
  rewrite <-(Z.add_mod_idemp_l (k / size)) by done.
  assert ((k / size) mod 2 = 0 ∨ (k / size) mod 2 = 1) as [-> | ->] by lia; done.
Qed.

Lemma phase_of_first size k : 0 ≤ k < size → phase_of size k = 1.
Proof. intros. unfold phase_of. by rewrite Z.div_small. Qed.

Section ring.
Context `{Uninit} `{VfuOk}.
Implicit Types (n : nvme_ctrl) (h : host) (cs : list NvmeCqe).

(** A completion queue of [size] entries at guest address [dma], mapped slot by slot
    at the addresses [addrs], where transfers succeed. *)
Record ring_mapped (vfu : vfu_ctx_t) (dma size : Z) (addrs : Z → list Z) : Prop := {
  rm_size : 1 ≤ size < 2 ^ 16;
  rm_map i : 0 ≤ i < size →
    gpa_addrs vfu PROT_WRITE (u64 (dma + i * 16)) 16 = Some (addrs i);
  rm_nodup i : 0 ≤ i < size → NoDup (addrs i);
  rm_disjoint i j a : 0 ≤ i < size → 0 ≤ j < size → i ≠ j → a ∈ addrs i → a ∉ addrs j;
  rm_xfer i bs h : 0 ≤ i < size → length bs = 16%nat → heap_full h →
    ∃ h', nvme_gpa_xfer vfu (u64 (dma + i * 16)) bs 16 true h = Done ((0, bs), h');
}.

(** The entry that guest memory holds in slot [i]. *)
Definition read_slot (addrs : Z → list Z) h (i : Z) : NvmeCqe :=
  decode (mem_get (h_mem h) <$> addrs i).

(** The slots hold what they held. *)
Definition slots_kept (size : Z) (addrs : Z → list Z) h h' : Prop :=
  ∀ i, 0 ≤ i < size → mem_get (h_mem h') <$> addrs i = mem_get (h_mem h) <$> addrs i.

(** The queue, as the controller holds it. *)
Definition ring_cq (dma size : Z) (cq : nvme_cq) : Prop :=
  cq_enabled cq = true ∧ cq_dma cq = dma ∧ cq_size cq = size.

(** Histories of queue [cqid], with the entries posted: it starts fresh, over slots
    that the host has cleared; entries are posted; and anything else happens that
    leaves the controller's side of the queue and the slots alone. *)
Inductive ring_run (vfu : vfu_ctx_t) (dma size : Z) (addrs : Z → list Z) (cqid : Z) :
    list NvmeCqe → machine → Prop :=
| RrStart n h cq :
    ctrl_inv n → n_vfu n = vfu → n_cq n !! Z.to_nat cqid = Some cq → ring_cq dma size cq →
    cq_tail cq = 0 → cq_phase cq = 1 → heap_full h →
    (∀ i, 0 ≤ i < size → cqe_phase (read_slot addrs h i) = 0) →
    ring_run vfu dma size addrs cqid [] (n, h)
| RrPost cs n h cq sqid sq_head cid cdw0 status s' :
    ring_run vfu dma size addrs cqid cs (n, h) → n_cq n !! Z.to_nat cqid = Some cq →
    well_typed (cqe_of cq sqid sq_head cid cdw0 status) →
    nvme_post_cqe cqid sqid sq_head cid cdw0 status (n, h) = Done (tt, s') →
    ring_run vfu dma size addrs cqid (cs ++ [cqe_of cq sqid sq_head cid cdw0 status]) s'
| RrOther cs n h cq n' h' cq' :
    ring_run vfu dma size addrs cqid cs (n, h) → n_cq n !! Z.to_nat cqid = Some cq →
    ctrl_inv n' → n_vfu n' = vfu → n_cq n' !! Z.to_nat cqid = Some cq' →
    cq_set_head cq' 0 = cq_set_head cq 0 → heap_full h' →
    slots_kept size addrs h h' →
    ring_run vfu dma size addrs cqid cs (n', h').

(** What holds after the entries [cs]. *)
Record ring_inv (vfu : vfu_ctx_t) (dma size : Z) (addrs : Z → list Z) (cqid : Z)
    cs (s : machine) : Prop := {
  ri_inv : ctrl_inv s.1;
  ri_vfu : n_vfu s.1 = vfu;
  ri_full : heap_full s.2;
  ri_cq : ∃ cq, n_cq s.1 !! Z.to_nat cqid = Some cq ∧ ring_cq dma size cq ∧
    ring_state size cq (Z.of_nat (length cs));
  ri_phase j c : cs !! j = Some c → cqe_phase c = phase_of size (Z.of_nat j);
  ri_slot j c : cs !! j = Some c → Z.of_nat (length cs) - size ≤ Z.of_nat j →
    read_slot addrs s.2 (Z.of_nat j mod size) = c;
  ri_clear i : Z.of_nat (length cs) ≤ i < size → cqe_phase (read_slot addrs s.2 i) = 0;
}.

(** Posting writes the slot of the tail, and no other. *)
Lemma post_slots n h cqid cqe cq dma size addrs s' :
  ring_mapped (n_vfu n) dma size addrs → queues_wf n →
  n_cq n !! Z.to_nat cqid = Some cq → ring_cq dma size cq → cq_tail cq < size → heap_full h →
  post_spec n h cqid cq cqe s' → well_typed cqe →
  read_slot addrs s'.2 (cq_tail cq) = cqe ∧
  (∀ i, 0 ≤ i < size → i ≠ cq_tail cq → read_slot addrs s'.2 i = read_slot addrs h i).
Proof.
  intros Hm Hq Hcq (Hen & Hdma & Hsz) Ht Hfull Hp Hwt.
  pose proof (cw_tail _ (Forall_lookup_1 _ _ _ _ (qw_cq _ Hq) Hcq)) as Ht0.
  destruct Hp as [Hdis|rc h1 _ Hx Hpost]; [congruence|].
  unfold cq_slot in *. rewrite Hdma in Hx, Hpost.
  destruct (rm_xfer _ _ _ _ Hm (cq_tail cq) (encode cqe) h) as [h2 Hx2];
    [lia|exact (length_encode cqe)|done|].
  rewrite Hx in Hx2. injection Hx2 as -> <-.
  destruct Hpost as (_ & _ & _ & _ & _ & Hok).
  destruct (Hok eq_refl) as (a & Ha & Hla & _ & Hmem). cbn [snd].
  rewrite (rm_map _ _ _ _ Hm) in Ha by lia. injection Ha as <-.
  assert (Hl16 : length (encode cqe) = 16%nat) by exact (length_encode cqe).
  rewrite take_ge in Hmem by lia. unfold read_slot. cbn [h_mem h_add_call]. rewrite Hmem. split.
  - rewrite write_addrs_read; [by apply decode_encode|by apply (rm_nodup _ _ _ _ Hm); lia|lia].
  - intros i Hi Hne. f_equal. apply list_fmap_ext. intros j x Hx'.
    apply write_addrs_other. intros Hin.
    by eapply (rm_disjoint _ _ _ _ Hm (cq_tail cq) i x); [lia|..|by eapply list_elem_of_lookup_2].
Qed.

(** The queue after a post. *)
Lemma post_queue n h cqid cqe cq s' :
  n_cq n !! Z.to_nat cqid = Some cq → cq_enabled cq = true → heap_full h →
  post_spec n h cqid cq cqe s' →
  n_vfu s'.1 = n_vfu n ∧ heap_full s'.2 ∧ n_cq s'.1 !! Z.to_nat cqid = Some (cq_advance cq).
Proof.
  intros Hcq Hen Hfull [?|rc h1 _ _ Hx]; [congruence|]. split; [done|]. split.
  - destruct Hx as (_ & _ & _ & _ & Hheap & _). by apply Hheap.
  - cbn. apply list_lookup_insert_eq. by eapply lookup_lt_Some.
Qed.

Lemma cqe_of_typed cq qid sq_head st (sqe : NvmeSqe) :
  0 ≤ qid < 64 → 0 ≤ sq_head < 2 ^ 16 → well_typed sqe →
  well_typed (cqe_of cq qid sq_head (sqe_cid sqe) 0 st).
Proof.
  unfold well_typed. intros Hq Hh Hsqe. pose proof (u16_range
    (Z.lor (Z.shiftl st 1) (Z.land (cq_phase cq) 1))).
  revert Hsqe. cbn -[Z.pow]. rewrite !Forall2_cons. unfold fits.
  change (256 ^ Z.of_nat 2) with (2 ^ 16). change (256 ^ Z.of_nat 4) with (2 ^ 32).
  intros. destruct_and!. split_and!; lia || done.
Qed.

(** Slots of entries less than a round apart differ. *)
Lemma slot_ne size j k :
  0 < size → k - size ≤ j < k → j ≠ k - size → j mod size ≠ k mod size.
Proof.
  intros Hs Hj Hne Heq. apply Hne.
  pose proof (Z.div_mod j size) as Ej. pose proof (Z.div_mod k size) as Ek.
  rewrite Heq in Ej. assert (k / size - j / size = 1) by nia. nia.
Qed.

Lemma ring_post vfu dma size addrs cqid cs n h cq sqid sq_head cid cdw0 status s' :
  ring_mapped vfu dma size addrs → ring_inv vfu dma size addrs cqid cs (n, h) →
  n_cq n !! Z.to_nat cqid = Some cq → well_typed (cqe_of cq sqid sq_head cid cdw0 status) →
  post_spec n h cqid cq (cqe_of cq sqid sq_head cid cdw0 status) s' →
  ring_inv vfu dma size addrs cqid (cs ++ [cqe_of cq sqid sq_head cid cdw0 status]) s'.
Proof.
  intros Hm [Hinv Hvfu Hfull (cq' & Hcq' & Hring & Hst) Hph Hslot Hclear] Hcq Hwt Hpost.
  cbn [fst snd] in *. subst vfu. assert (cq' = cq) as -> by congruence. set (cqe := cqe_of _ _ _ _ _ _) in *.
  pose proof (rm_size _ _ _ _ Hm) as Hsize. pose proof Hring as (Hen & Hdma & Hsz).
  pose proof Hst as (_ & Ht & Hp). set (k := Z.of_nat (length cs)) in *.
  pose proof (Z.mod_pos_bound k size) as Hk.
  pose proof (post_spec_inv _ _ _ _ _ _ Hinv Hcq Hpost) as I1.
  destruct (post_queue n h cqid cqe cq s') as (I2 & I3 & I4); [done..|].
  destruct (post_slots n h cqid cqe cq dma size addrs s') as [Hnew Hold]; try done;
    [apply Hinv|lia|]. rewrite Ht in Hnew, Hold.
  assert (Hlen : Z.of_nat (length (cs ++ [cqe])) = k + 1) by (rewrite length_app; cbn; lia).
  assert (Hcqe : cqe_phase cqe = phase_of size k).
  { unfold cqe. rewrite cqe_of_phase; [done|].
    pose proof (Z.mod_pos_bound (k / size) 2). lia. }
  split; rewrite ?Hlen; try done.
  - exists (cq_advance cq). split; [done|]. split.
    + unfold ring_cq, cq_advance. by case_match.
    + apply ring_state_advance; [lia|lia|done].
  - intros j c [Hj|[Hj Hc]]%lookup_app_Some; [by apply Hph|].
    apply list_lookup_singleton_Some in Hc as [Hj0 <-].
    replace (Z.of_nat j) with k by lia. done.
  - intros j c [Hj|[Hj Hc]]%lookup_app_Some Hle.
    + pose proof (lookup_lt_Some _ _ _ Hj). rewrite Hold; [apply Hslot; [done|lia]|..].
      * apply Z.mod_pos_bound. lia.
      * apply slot_ne; lia.
    + apply list_lookup_singleton_Some in Hc as [Hj0 <-].
      replace (Z.of_nat j) with k by lia. done.
  - intros i Hi. rewrite Hold; [apply Hclear; lia|lia|]. rewrite Z.mod_small by lia. lia.
Qed.

Lemma ring_other vfu dma size addrs cqid cs n h cq n' h' cq' :
  ring_mapped vfu dma size addrs → ring_inv vfu dma size addrs cqid cs (n, h) →
  n_cq n !! Z.to_nat cqid = Some cq → ctrl_inv n' → n_vfu n' = vfu →
  n_cq n' !! Z.to_nat cqid = Some cq' → cq_set_head cq' 0 = cq_set_head cq 0 → heap_full h' →
  slots_kept size addrs h h' → ring_inv vfu dma size addrs cqid cs (n', h').
Proof.
  intros Hm [_ _ _ (cq1 & Hcq1 & Hring & Hst) Hph Hslot Hclear] Hcq Hinv Hvfu Hcq' Heq Hfull Hmem.
  pose proof (rm_size _ _ _ _ Hm) as Hsize.
  cbn [fst snd] in *. assert (cq1 = cq) as -> by congruence.
  assert (Hread : ∀ i, 0 ≤ i < size → read_slot addrs h' i = read_slot addrs h i).
  { intros i Hi. unfold read_slot. by rewrite Hmem. }
  split; cbn [fst snd]; try done.
  - exists cq'. split; [done|]. injection Heq as E1 E2 E3 E4 E5 E6 E7.
    unfold ring_cq, ring_state in *. rewrite E1, E2, E4, E5, E7. by split.
  - intros j c Hj Hle. rewrite Hread by (apply Z.mod_pos_bound; lia). by apply Hslot.
  - intros i Hi. rewrite Hread by lia. by apply Hclear.
Qed.

Lemma ring_run_inv vfu dma size addrs cqid cs s :
  ring_mapped vfu dma size addrs → 0 ≤ cqid < 64 → ring_run vfu dma size addrs cqid cs s →
  ring_inv vfu dma size addrs cqid cs s.
Proof.
  intros Hm Hcqid. pose proof (rm_size _ _ _ _ Hm) as Hsize.
  induction 1 as [n h cq Hinv Hvfu Hcq Hring Ht Hp Hfull Hclear
    |cs n h cq sqid sq_head cid cdw0 status s' _ IH Hcq Hwt Hrun
    |cs n h cq n' h' cq' _ IH Hcq Hinv Hvfu Hcq' Heq Hfull Hmem].
  - split; cbn; try done.
    exists cq. split; [done|]. split; [done|]. unfold ring_state. destruct Hring as (_ & _ & ->).
    by rewrite Ht, Hp, Z.mod_0_l, Z.div_0_l by lia.
  - eapply ring_post; [done..|].
    pose proof (nvme_post_cqe_wp n h cqid sqid sq_head cid cdw0 status cq
      (ci_queues _ (ri_inv _ _ _ _ _ _ _ IH)) Hcqid Hcq) as Hp.
    unfold wp in Hp. by rewrite Hrun in Hp.
  - by eapply ring_other.
Qed.

(** Entries of an I/O queue completed, none of whose commands writes to the ring. *)
Lemma ring_io_run vfu dma size addrs qid cqid cqes s s' cs sq :
  ring_mapped vfu dma size addrs → 0 < qid < 64 → io_run (slots_kept size addrs) qid cqes s s' →
  n_sq s.1 !! Z.to_nat qid = Some sq → sq_enabled sq = true → sq_cqid sq = cqid →
  ring_inv vfu dma size addrs cqid cs s → ring_inv vfu dma size addrs cqid (cs ++ cqes) s'.
Proof.
  intros Hm Hqid Hrun. revert cs sq.
  induction Hrun as [s|cqe l n h [n2 h2] s s' Hdone Hkept _ IH]; intros cs sq Hsq Hen Hcqid Hring;
    [by rewrite app_nil_r|].
  cbn [fst snd] in *. pose proof (ri_inv _ _ _ _ _ _ _ Hring) as Hinv. cbn [fst] in Hinv.
  destruct (io_done_mid n h qid cqe n2 h2 s sq) as (Hinv2 & Hv2 & Hcq2 & Hfull2 & Hsq2);
    [done|done|apply Hring|done..|].
  inversion Hdone as [sq' b h1 st n2' h2' cq' s1 Hsq' _ Hf Hkv Hio Hcq' Ecqe Hpost].
  simplify_eq. rewrite (cons_middle _ cs l), app_assoc.
  destruct (post_spec_frame _ _ _ _ _ _ Hpost) as (cqs & Hs & _).
  eapply IH; [by rewrite Hs|done|done|].
  assert (Hring2 : ring_inv vfu dma size addrs (sq_cqid sq) cs (n2, h2)).
  { rewrite Hcq2 in Hcq'. eapply ring_other; try done; [|by rewrite Hcq2].
    rewrite Hv2. apply Hring. }
  eapply ring_post; try done.
  pose proof (Forall_lookup_1 _ _ _ _ (qw_sq _ (ci_queues _ Hinv2)) Hsq2) as Hwf2.
  destruct (fetch_ok (n_vfu n) sq h) as (rc & b' & h1' & Hf' & _ & Hlb & _).
  rewrite Hf in Hf'. injection Hf' as <- <- <-.
  apply cqe_of_typed; [lia|apply Hwf2|by apply decode_well_typed].
Qed.

(** The host, having consumed [m] entries and at most one round behind, finds the
    others. *)
Lemma ring_poll vfu dma size addrs cqid cs s m :
  ring_mapped vfu dma size addrs → ring_inv vfu dma size addrs cqid cs s →
  (m ≤ length cs)%nat → Z.of_nat (length cs) ≤ Z.of_nat m + size →
  host_poll (S (Z.to_nat size)) (read_slot addrs s.2) size (Z.of_nat m) = drop m cs.
Proof.
  intros Hm [_ _ _ _ Hph Hslot Hclear] Hle Hround. pose proof (rm_size _ _ _ _ Hm) as Hsize.
  apply host_poll_exact; [|..|done|lia].
  - intros j c Hj Hmj. split; [apply Hslot; [done|lia]|by apply Hph].
  - set (k := Z.of_nat (length cs)) in *. destruct (decide (k < size)) as [Hlt|Hge].
    + rewrite Z.mod_small by lia. rewrite Hclear by lia. by rewrite phase_of_first by lia.
    + destruct (lookup_lt_is_Some_2 cs (Z.to_nat (k - size)) ltac:(lia)) as [c Hc].
      pose proof (Hslot _ _ Hc ltac:(lia)) as Hread. rewrite Z2Nat.id in Hread by lia.
      replace (k mod size) with ((k - size) mod size)
        by (rewrite <-(Z.mod_add (k - size) 1) by lia; f_equal; lia).
      rewrite Hread, (Hph _ _ Hc), Z2Nat.id by lia.
      replace k with (k - size + size) at 2 by lia. rewrite phase_of_round by lia. lia.
Qed.
End ring.
