(* ===== verification/System.v ===== *)
(** * The device: region callbacks, life cycle, reachable states

    The callbacks that libvfio-user runs ([nvme_bar0_access], [nvme_msix_access],
    the reset callback) as transitions of one device, interleaved with the changes
    that the guest and the allocator make on their own. *)

From S2P Require Import Prelude.
From S2P Require Import Bytes.
From S2P Require Import NvmeSpec.
From S2P Require Import Kv.
From S2P Require Import KvTable.
From S2P Require Import KvInv.
From S2P Require Import KvSpec.
From S2P Require Import KvList.
From S2P Require Import Dma.
From S2P Require Import DmaSpec.
From S2P Require Import Ctrl.
From S2P Require Import Admin.
From S2P Require Import Regs.
From S2P Require Import CtrlInv.
From S2P Require Import RegsSpec.
From S2P Require Import StateSpec.
From S2P Require Import AdminSpec.
From S2P Require Import IoSpec.
From S2P Require Import QueueSpec.

Section system.
Context `{Uninit} `{VfuOk}.
Implicit Types (n : nvme_ctrl) (h : host).

(** ** Initialisation *)

Lemma kv_inv_init max :
  0 ≤ max ≤ 2 ^ 31 →
  kv_inv {| ns_pairs := Some (replicate 16 zero_pair); ns_entries_allocated := 16;
            ns_max_num_keys := max; ns_id_ns_kv := Some (id_ns_init max); ns_ednek := 0 |}
    (replicate 16 zero_pair) (id_ns_init max).
Proof.
  intros Hmax. assert (He : entries (replicate 16 zero_pair) = []) by apply entries_zero.
  split; cbn -[replicate]; rewrite ?He; try done; try lia.
  - apply Forall_replicate, zero_pair_wf.
  - by exists 0%nat.
  - by left.
  - apply Hmax.
Qed.

Definition ns_init (max : Z) : kv_ns :=
  {| ns_pairs := Some (replicate 16 zero_pair); ns_entries_allocated := 16;
     ns_max_num_keys := max; ns_id_ns_kv := Some (id_ns_init max); ns_ednek := 0 |}.

Lemma ns_init_map max : ns_map (ns_init max) = ∅.
Proof.
  change (ns_map (ns_init max)) with (kv_abs (replicate 16 zero_pair)).
  unfold kv_abs. by rewrite entries_zero.
Qed.

(** The controller after a successful initialisation. *)
Definition ctrl_init_state (vfu : vfu_ctx_t) (max : Z) : nvme_ctrl :=
  n_set_ns (n_set_regs (ctrl_zero vfu) (Build_nvme_regs CAP_VALUE 0x00020000 0 0 0 0 0 0 0))
    (ns_init max).

Lemma ctrl_init_inv vfu max : 0 ≤ max ≤ 2 ^ 31 → ctrl_inv (ctrl_init_state vfu max).
Proof.
  intros Hmax. split; try done.
  - split; try done; apply Forall_replicate; eauto with kvssd.
  - split; try done. by left.
  - exists (replicate 16 zero_pair), (id_ns_init max). by apply kv_inv_init.
  - intros _. by split; apply Forall_replicate.
Qed.

(** The outcomes of the next two allocations decide: both are needed, and the
    second is not asked for when the first fails. *)
Lemma nvme_ctrl_init_eq n h vfu max :
  nvme_ctrl_init vfu max (n, h) =
    let (id_ok, h1) := heap_alloc h in
    if id_ok then
      let (pairs_ok, h2) := heap_alloc h1 in
      if pairs_ok then Done (0, (ctrl_init_state vfu max, h2))
      else Done (-1, (n_set_ns (ctrl_init_state vfu max) ns_zero, h2))
    else Done (-1, (n_set_ns (ctrl_init_state vfu max) ns_zero, h1)).
Proof. by destruct h as [[|[] [|[] o]] m l]. Qed.

Lemma nvme_ctrl_init_wp n h vfu max :
  wp (nvme_ctrl_init vfu max) (λ rc s',
    (rc = 0 ∧ s'.1 = ctrl_init_state vfu max ∨ rc = -1 ∧ n_ns s'.1 = ns_zero) ∧
    host_frame h s'.2 ∧
    (h_heap h = [] → rc = 0) ∧ h_mem s'.2 = h_mem h) (n, h).
Proof.
  unfold wp, host_frame. rewrite nvme_ctrl_init_eq.
  destruct h as [[|[] [|[] o]] m l]; cbn; split_and!; auto; done.
Qed.

(** ** Doorbells *)

(** What no callback changes. *)
Definition dev_frame n n' : Prop :=
  n_vfu n' = n_vfu n ∧ ns_max_num_keys (n_ns n') = ns_max_num_keys (n_ns n).

#[export] Instance dev_frame_preorder : PreOrder dev_frame.
Proof. unfold dev_frame. split; [by split|]. intros ? ? ? [] []. split; congruence. Qed.

Definition dev_post n (s' : machine) : Prop := ctrl_inv s'.1 ∧ dev_frame n s'.1.

(** The stored key-value pairs are the same. *)
Definition same_data n n' : Prop := ns_pairs (n_ns n') = ns_pairs (n_ns n).

Lemma process_sq_safe fuel n h qid :
  ctrl_inv n → 0 ≤ qid < 64 → safe (nvme_process_sq fuel qid)
    (λ _ s', dev_post n s' ∧ (qid = 0 → same_data n s'.1)) (n, h).
Proof.
  intros Hinv Hqid. unfold nvme_process_sq. apply safe_bind, wp_safe.
  apply get_sq_wp; [apply Hinv|done|]. intros sq Hsq _.
  destruct (sq_enabled sq) eqn:Hen; cbn [negb]; [|done].
  eapply safe_mono; [by apply sq_loop_safe|]. intros _ s' []. by split; [split|].
Qed.

(** With the tail inside the queue, [sq_size] iterations are enough. *)
Lemma process_sq_ends fuel n h qid sq :
  ctrl_inv n → 0 ≤ qid < 64 → n_sq n !! Z.to_nat qid = Some sq →
  (sq_enabled sq = true → sq_tail sq < sq_size sq ≤ Z.of_nat fuel) →
  nvme_process_sq fuel qid (n, h) ≠ OutOfFuel.
Proof.
  intros Hinv Hqid Hsq Hlt. unfold nvme_process_sq. rewrite bind_run.
  assert (get_sq qid (n, h) = Done (sq, (n, h))) as ->.
  { destruct (qid_nat qid Hqid) as (i & -> & Hi). rewrite Nat2Z.id in Hsq.
    by apply get_sq_eq. }
  destruct (sq_enabled sq) eqn:Hen; cbn [negb]; [|done]. specialize (Hlt eq_refl).
  pose proof (Forall_lookup_1 _ _ _ _ (qw_sq _ (ci_queues _ Hinv)) Hsq) as Hwf.
  pose proof (sw_enabled _ Hwf Hen). pose proof (sw_head _ Hwf).
  eapply sq_loop_ends; try done; [lia|]. unfold sq_pending.
  pose proof (Z.mod_pos_bound (sq_tail sq - sq_head sq) (sq_size sq)). lia.
Qed.

Lemma wp_of_safe {A} (m : M machine A) Q s : safe m Q s → m s ≠ OutOfFuel → wp m Q s.
Proof. unfold safe, wp. by destruct (m s) as [[]| |]. Qed.

(** The queue and the kind of a doorbell offset. *)
Definition db_qid (offset : Z) : Z := u16 ((offset - NVME_REG_DOORBELL) / 4 / 2).
Definition db_is_cq (offset : Z) : bool := truthy (Z.land ((offset - NVME_REG_DOORBELL) / 4) 1).

(** The tail doorbell of an I/O submission queue. *)
Definition io_doorbell (offset : Z) : bool :=
  (NVME_REG_DOORBELL <=? offset) && (0 <? db_qid offset) && (db_qid offset <? NVME_MAX_QUEUES)
  && negb (db_is_cq offset).

Lemma ctrl_inv_set_tail n i sq v :
  ctrl_inv n → n_sq n !! i = Some sq → ctrl_inv (n_set_sq n (<[i := sq_set_tail sq (u16 v)]> (n_sq n))).
Proof.
  intros Hinv Hsq. eapply ctrl_inv_set_sq; [done..| |by left].
  apply sq_wf_set_tail. eapply (Forall_lookup_1 _ _ _ _ (qw_sq _ (ci_queues _ Hinv)) Hsq).
Qed.

(** ** BAR 0 *)

Definition bar0_args (buf : list byte) (count offset : Z) : Prop :=
  0 ≤ count ≤ 8 ∧ count ≤ Z.of_nat (length buf) ∧ 0 ≤ offset < NVME_BAR0_SIZE.

Lemma bar0_doorbell_safe fuel n h buf count offset :
  ctrl_inv n → bar0_args buf count offset → NVME_REG_DOORBELL ≤ offset →
  safe (nvme_bar0_access fuel buf count offset true)
    (λ r s', r = (count, buf) ∧ dev_post n s' ∧
              (io_doorbell offset = false → same_data n s'.1)) (n, h).
Proof.
  intros Hinv (Hc & Hl & Ho) Hdb. unfold nvme_bar0_access.
  destruct (Z.leb_spec NVME_REG_DOORBELL offset); [|lia].
  apply safe_bind, wp_safe. eapply wp_run; [by apply rd_le_eq|]. cbv zeta.
  fold (db_qid offset) (db_is_cq offset). set (v := u32 _). apply safe_bind.
  unfold io_doorbell. assert (Hrefl : dev_post n (n, h)) by (by split).
  destruct (Z.ltb_spec (db_qid offset) NVME_MAX_QUEUES) as [Hlt|]; [|by apply wp_safe, wp_ret].
  assert (Hq : 0 ≤ db_qid offset < 64)
    by (pose proof (u16_range ((offset - NVME_REG_DOORBELL) / 4 / 2)); unfold db_qid,
        NVME_MAX_QUEUES in *; lia).
  destruct (db_is_cq offset).
  - apply wp_safe, wp_bind, get_cq_wp; [apply Hinv|done|]. intros cq Hcq Hwf.
    apply put_cq_wp; [apply Hinv|done|]. apply wp_safe, wp_ret. split; [done|]. split; [split; [|done]|done]. cbn [fst].
    eapply ctrl_inv_set_cq; [done|done|by apply cq_wf_set_head|by left].
  - apply safe_bind, wp_safe, get_sq_wp; [apply Hinv|done|]. intros sq Hsq Hwf.
    apply safe_bind, wp_safe, put_sq_wp; [apply Hinv|done|].
    eapply safe_mono; [apply process_sq_safe; [by apply ctrl_inv_set_tail|done]|].
    intros u s' [Hi Hf]. apply wp_safe, wp_ret. split; [done|]. split; [done|].
    intros Hio. apply Hf. unfold NVME_MAX_QUEUES in *. lia.
Qed.

Lemma bar0_safe fuel n h buf count offset is_write :
  ctrl_inv n → bar0_args buf count offset →
  safe (nvme_bar0_access fuel buf count offset is_write)
    (λ r s', r.1 = count ∧ dev_post n s' ∧
              (is_write && io_doorbell offset = false → same_data n s'.1)) (n, h).
Proof.
  intros Hinv Hargs. assert (Hrefl : dev_post n (n, h)) by (by split).
  destruct (Z.leb_spec NVME_REG_DOORBELL offset) as [Hdb|Hdb].
  - destruct is_write.
    + eapply safe_mono; [by apply bar0_doorbell_safe|]. intros r s' (-> & ? & ?).
      by split_and!.
    + unfold nvme_bar0_access. destruct (Z.leb_spec NVME_REG_DOORBELL offset); [|lia].
      by apply wp_safe, wp_ret.
  - unfold nvme_bar0_access. destruct (Z.leb_spec NVME_REG_DOORBELL offset); [lia|].
    destruct Hargs as (Hc & Hl & Ho). unfold NVME_BAR0_SIZE in Ho.
    rewrite u64_small by lia. apply wp_safe. destruct is_write; apply wp_bind.
    + eapply wp_run; [by apply nvme_reg_write_eq|]. apply wp_ret. split; [done|].
      destruct (reg_write_frame n offset (le_val (take (Z.to_nat count) buf)) count)
        as (Hns & Hvfu & _). split; [split|]; cbn [fst].
      * apply ctrl_inv_reg_write; [done|by apply le_val_64].
      * split; congruence.
      * intros _. unfold same_data. congruence.
    + eapply wp_run; [apply nvme_reg_read_eq; lia|]. by apply wp_ret.
Qed.

(** ** The MSI-X region *)

Lemma msix_wp n h buf count offset is_write :
  ctrl_inv n → 0 ≤ count ≤ Z.of_nat (length buf) → 0 ≤ offset → offset + count < 2 ^ 64 →
  wp (nvme_msix_access buf count offset is_write)
    (λ r s', dev_post n s' ∧ s'.2 = h ∧ length r.2 = length buf ∧
             (r.1 = if offset + count <=? 4096 then count else -1) ∧
             ∃ m, s'.1 = n_set_msix n m) (n, h).
Proof.
  intros Hinv Hc Ho H64. pose proof (ci_msix _ Hinv) as Hm.
  assert (Hrefl : dev_post n (n, h)) by (by split).
  assert (Hself : ∃ m, n = n_set_msix n m) by (exists (n_msix_region n); by destruct n).
  unfold nvme_msix_access, NVME_MSIX_BAR_SIZE. apply wp_bind, wp_gets. cbn [fst].
  rewrite (u64_small offset), u64_small by lia.
  destruct (Z.ltb_spec 4096 (offset + count)), (Z.leb_spec (offset + count) 4096); try lia.
  { by apply wp_ret. }
  destruct is_write; (apply wp_bind; eapply wp_of_option; [apply buf_read_Some; lia|]).
  - apply wp_bind. eapply wp_of_option;
      [apply buf_write_Some; rewrite ?length_take, ?length_drop; lia|].
    apply wp_bind, wp_modify, wp_ret. split; [split; [|done]|by eauto]. cbn [fst].
    destruct Hinv as [[] ? ? ? ?]. split; cbn; try done.
    rewrite !length_app, !length_take, !length_drop. lia.
  - apply wp_bind. eapply wp_of_option;
      [apply buf_write_Some; rewrite ?length_take, ?length_drop; lia|].
    apply wp_ret. split_and!; [done..| |done|done]. cbn [snd].
    rewrite !length_app, !length_take, !length_drop. lia.
Qed.

(** ** Events *)

(** [nvme_reset_cb] of [main.c]. *)
Definition nvme_reset_cb : M machine Z := nvme_ctrl_reset;; mret 0.

Lemma reset_cb_wp n h :
  ctrl_inv n →
  wp nvme_reset_cb (λ rc s', rc = 0 ∧ s' = (ctrl_reset_next n, h) ∧ dev_post n s') (n, h).
Proof.
  intros Hinv. apply wp_bind. eapply wp_run; [apply nvme_ctrl_reset_eq, Hinv|].
  apply wp_ret. split_and!; [done|done|]. split; [by apply ctrl_inv_reset|done].
Qed.

(** The callbacks libvfio-user may run, with the arguments it gives them. *)
Inductive event : Type :=
| EvBar0 (buf : list byte) (count offset : Z) (is_write : bool)
| EvMsix (buf : list byte) (count offset : Z) (is_write : bool)
| EvReset.

Definition event_ok (e : event) : Prop :=
  match e with
  | EvBar0 buf count offset _ => bar0_args buf count offset
  | EvMsix buf count offset _ =>
      0 ≤ count ≤ Z.of_nat (length buf) ∧ 0 ≤ offset ∧ offset + count < 2 ^ 64
  | EvReset => True
  end.

Definition handle (fuel : nat) (e : event) : M machine unit :=
  match e with
  | EvBar0 buf count offset w => nvme_bar0_access fuel buf count offset w;; mret tt
  | EvMsix buf count offset w => nvme_msix_access buf count offset w;; mret tt
  | EvReset => nvme_reset_cb;; mret tt
  end.

(** The event rings the tail doorbell of an I/O queue. *)
Definition rings_io (e : event) : bool :=
  match e with EvBar0 _ _ offset w => w && io_doorbell offset | _ => false end.

Lemma handle_safe fuel e n h :
  ctrl_inv n → event_ok e →
  safe (handle fuel e)
    (λ _ s', dev_post n s' ∧ (rings_io e = false → same_data n s'.1)) (n, h).
Proof.
  intros Hinv He. destruct e as [buf count offset w|buf count offset w|]; cbn in *;
    apply safe_bind.
  - eapply safe_mono; [by apply bar0_safe|]. intros r s' (_ & Hp & Hd).
    by apply wp_safe, wp_ret.
  - destruct He as (? & ? & ?). eapply safe_mono; [apply wp_safe; by apply msix_wp|].
    intros r s' (Hp & _ & _ & _ & Hns). apply wp_safe, wp_ret. split; [done|].
    intros _. unfold same_data. by destruct Hns as [m ->].
  - eapply safe_mono; [apply wp_safe; by apply reset_cb_wp|].
    intros r s' (_ & -> & Hp). by apply wp_safe, wp_ret.
Qed.

(** ** Reachable states *)

Definition n_set_vfu n (vfu : vfu_ctx_t) : nvme_ctrl :=
  {| n_vfu := vfu; n_regs := n_regs n; n_sq := n_sq n; n_cq := n_cq n;
     n_msix_region := n_msix_region n; n_ns := n_ns n |}.

(** A callback runs to its end; or the guest writes its memory, maps or unmaps
    it, and the allocator changes its mind. *)
Inductive dev_step : machine → machine → Prop :=
| StepEvent fuel e s s' :
    event_ok e → handle fuel e s = Done (tt, s') → dev_step s s'
| StepEnv n h vfu heap m :
    dev_step (n, h) (n_set_vfu n vfu, {| h_heap := heap; h_mem := m; h_log := h_log h |}).

(** The states of a device initialised for [max] keys. *)
Inductive reachable (max : Z) : machine → Prop :=
| ReachInit s0 vfu s1 :
    nvme_ctrl_init vfu max s0 = Done (0, s1) → reachable max s1
| ReachStep s s' : reachable max s → dev_step s s' → reachable max s'.

Lemma ctrl_inv_set_vfu n vfu : ctrl_inv n → ctrl_inv (n_set_vfu n vfu).
Proof. intros [[] ? ? ? ?]. by split; [split|..]. Qed.

Lemma dev_step_inv s s' : ctrl_inv s.1 → dev_step s s' → ctrl_inv s'.1.
Proof.
  intros Hinv Hstep. revert Hinv.
  destruct Hstep as [fuel e [n h] s1 He Hrun|n h vfu heap m]; cbn [fst]; intros Hinv.
  - pose proof (handle_safe fuel e n h Hinv He) as Hs. unfold safe in Hs.
    rewrite Hrun in Hs. apply Hs.
  - by apply ctrl_inv_set_vfu.
Qed.

Lemma reachable_inv max s : 0 ≤ max ≤ 2 ^ 31 → reachable max s → ctrl_inv s.1.
Proof.
  intros Hmax. induction 1 as [[n h] vfu s1 Hi|s s' _ IH Hstep].
  - pose proof (nvme_ctrl_init_wp n h vfu max) as Hw. unfold wp in Hw. rewrite Hi in Hw.
    destruct Hw as ([[_ ->]|[? _]] & _); [|done]. by apply ctrl_init_inv.
  - by eapply dev_step_inv.
Qed.

(** The capacity stays the one of the initialisation. *)
Lemma reachable_max max s :
  0 ≤ max ≤ 2 ^ 31 → reachable max s → ns_max_num_keys (n_ns s.1) = max.
Proof.
  intros Hmax. induction 1 as [[n h] vfu s1 Hi|s s' Hr IH Hstep].
  - pose proof (nvme_ctrl_init_wp n h vfu max) as Hw. unfold wp in Hw. rewrite Hi in Hw.
    destruct Hw as ([[_ ->]|[? _]] & _); done.
  - rewrite <-IH. pose proof (reachable_inv _ _ Hmax Hr) as Hinv. revert Hinv.
    destruct Hstep as [fuel e [n h] s1 He Hrun|n h vfu heap m]; intros Hinv; [|done].
    pose proof (handle_safe fuel e n h Hinv He) as Hs. unfold safe in Hs.
    rewrite Hrun in Hs. by destruct Hs as [[_ [_ ->]] _].
Qed.
End system.
