(* ===== verification/Lifecycle.v ===== *)
(** * The life cycle of the controller

    CC and CSTS as an abstract machine of four flags, one deterministic step for
    each callback: what a CC write, a reset and anything else do to it.  Once all
    queues are down they stay down until CC.EN is set again. *)

From S2P Require Import Prelude.
From S2P Require Import Bytes.
From S2P Require Import NvmeSpec.
From S2P Require Import Kv.
From S2P Require Import KvSpec.
From S2P Require Import Dma.
From S2P Require Import DmaSpec.
From S2P Require Import Ctrl.
From S2P Require Import Admin.
From S2P Require Import Regs.
From S2P Require Import CtrlInv.
From S2P Require Import RegsSpec.
From S2P Require Import StateSpec.
From S2P Require Import QueueSpec.
From S2P Require Import System.

(** ** The abstract machine *)

(** What the host asks for in CC (enable, shutdown notification) and what CSTS tells
    it (ready, shutdown complete). *)
Record life : Type := Life { lf_en : bool; lf_shn : bool; lf_rdy : bool; lf_shst : bool }.

Definition life_reset : life := Life false false false false.

(** The host writes CC.  RDY follows EN.  "Shutdown complete" is set by a new shutdown
    notification; it is cleared when the notification goes away and when EN changes,
    and kept otherwise. *)
Definition life_cc (l : life) (en shn : bool) : life := {|
  lf_en := en; lf_shn := shn; lf_rdy := en;
  lf_shst :=
    if shn && negb (lf_shn l) then true
    else if negb shn then false
    else if eqb (lf_en l) en then lf_shst l else false;
|}.

(** The callbacks: a write to CC, a reset, or anything else. *)
Definition life_event (e : event) (l : life) : life :=
  match e with
  | EvBar0 buf count offset true =>
      if offset =? NVME_REG_CC then
        let cc := u32 (le_val (take (Z.to_nat count) buf)) in
        life_cc l (Z.testbit cc 0) (Z.testbit cc 14 || Z.testbit cc 15)
      else l
  | EvReset => life_reset
  | _ => l
  end.

(** The flags in the registers, bit by bit. *)
Definition life_of (r : nvme_regs) : life := {|
  lf_en := Z.testbit (r_cc r) 0;
  lf_shn := Z.testbit (r_cc r) 14 || Z.testbit (r_cc r) 15;
  lf_rdy := Z.testbit (r_csts r) 0;
  lf_shst := Z.testbit (r_csts r) 3;
|}.

Definition life_csts (l : life) : Z := (if lf_rdy l then 1 else 0) + (if lf_shst l then 8 else 0).

Section lifecycle.
Context `{Uninit} `{VfuOk}.
Implicit Types (n : nvme_ctrl) (h : host) (s : machine).

(** CC.EN goes from 0 to 1. *)
Definition enables n n' : Prop :=
  rises (cc_en (r_cc (n_regs n))) (cc_en (r_cc (n_regs n'))) = true.

(** ** What a callback does to the registers *)

(** The register write that a callback is: offset, value and width. *)
Definition reg_written (e : event) : option (Z * Z * Z) :=
  match e with
  | EvBar0 buf count offset true =>
      if NVME_REG_DOORBELL <=? offset then None
      else Some (offset, le_val (take (Z.to_nat count) buf), count)
  | _ => None
  end.

Inductive regs_effect (e : event) n : nvme_ctrl → Prop :=
| ReSame n' :
    reg_written e = None → e ≠ EvReset → n_regs n' = n_regs n → (all_down n → all_down n') →
    regs_effect e n n'
| ReWrite offset v count :
    reg_written e = Some (offset, v, count) → regs_effect e n (reg_write_next n offset v count)
| ReReset : e = EvReset → regs_effect e n (ctrl_reset_next n).

Lemma all_down_sq n i sq : all_down n → n_sq n !! i = Some sq → sq_enabled sq = false.
Proof. intros [Hs _] Hi. by eapply (Forall_lookup_1 _ _ _ _ Hs). Qed.

Lemma all_down_set_tail n i sq v :
  all_down n → n_sq n !! i = Some sq → all_down (n_set_sq n (<[i := sq_set_tail sq v]> (n_sq n))).
Proof.
  intros Hd Hi. pose proof (all_down_sq _ _ _ Hd Hi). destruct Hd. split; [|done].
  by apply Forall_insert.
Qed.

Lemma all_down_set_head n i cq v :
  all_down n → n_cq n !! i = Some cq → all_down (n_set_cq n (<[i := cq_set_head cq v]> (n_cq n))).
Proof.
  intros [Hs Hc] Hi. split; [done|]. apply Forall_insert; [done|]. cbn.
  by eapply (Forall_lookup_1 _ _ _ _ Hc).
Qed.

(** The engine leaves the registers alone, and does nothing while down. *)
Lemma process_sq_effect fuel n h qid :
  ctrl_inv n → 0 ≤ qid < 64 →
  safe (nvme_process_sq fuel qid) (λ _ s',
    n_regs s'.1 = n_regs n ∧ (all_down n → s' = (n, h))) (n, h).
Proof.
  intros Hinv Hqid. unfold nvme_process_sq. apply safe_bind, wp_safe.
  apply get_sq_wp; [apply Hinv|done|]. intros sq Hsq _.
  destruct (sq_enabled sq) eqn:Hen; cbn [negb]; [|done].
  eapply safe_mono; [by apply sq_loop_safe|]. intros u s' Hl. split; [apply Hl|].
  intros Hd. by rewrite (all_down_sq _ _ _ Hd Hsq) in Hen.
Qed.

(** A callback, from queues that are down, leaves the host and the namespace. *)
Definition effect (e : event) n h s' : Prop :=
  regs_effect e n s'.1 ∧ (all_down n → s'.2 = h ∧ n_ns s'.1 = n_ns n).

Lemma bar0_effect fuel n h buf count offset is_write :
  ctrl_inv n → bar0_args buf count offset →
  safe (nvme_bar0_access fuel buf count offset is_write)
    (λ _ s', effect (EvBar0 buf count offset is_write) n h s') (n, h).
Proof.
  intros Hinv (Hc & Hl & Ho). unfold nvme_bar0_access.
  assert (Hw : is_write = false ∨ NVME_REG_DOORBELL ≤ offset →
    reg_written (EvBar0 buf count offset is_write) = None).
  { cbn. intros [-> | Hle]; [done|]. destruct is_write; [|done].
    by rewrite (proj2 (Z.leb_le _ _)) by done. }
  assert (Hrefl : is_write = false ∨ NVME_REG_DOORBELL ≤ offset →
    effect (EvBar0 buf count offset is_write) n h (n, h)).
  { intros. split; [by apply ReSame; [apply Hw| | |]|done]. }
  destruct (Z.leb_spec NVME_REG_DOORBELL offset) as [Hdb|Hdb].
  - destruct is_write; [|by apply wp_safe, wp_ret, Hrefl; left].
    specialize (Hw (or_intror Hdb)). specialize (Hrefl (or_intror Hdb)).
    apply safe_bind, wp_safe. eapply wp_run; [by apply rd_le_eq|]. cbv zeta.
    fold (db_qid offset) (db_is_cq offset). set (v := u32 _). apply safe_bind.
    destruct (Z.ltb_spec (db_qid offset) NVME_MAX_QUEUES) as [Hlt|]; [|by apply wp_safe, wp_ret].
    assert (Hq : 0 ≤ db_qid offset < 64)
      by (pose proof (u16_range ((offset - NVME_REG_DOORBELL) / 4 / 2)); unfold db_qid,
          NVME_MAX_QUEUES in *; lia).
    destruct (db_is_cq offset).
    + apply wp_safe, wp_bind, get_cq_wp; [apply Hinv|done|]. intros cq Hcq _.
      apply put_cq_wp; [apply Hinv|done|]. apply wp_safe, wp_ret. split; [|done].
      apply ReSame; [done..|]. intros. by apply all_down_set_head.
    + apply safe_bind, wp_safe, get_sq_wp; [apply Hinv|done|]. intros sq Hsq _.
      apply safe_bind, wp_safe, put_sq_wp; [apply Hinv|done|].
      eapply safe_mono; [apply process_sq_effect; [by apply ctrl_inv_set_tail|done]|].
      intros u s' [Hr Hd]. apply wp_safe, wp_ret.
      assert (Hd' : all_down n → _) by (intros; by apply Hd, all_down_set_tail).
      split; [apply ReSame; [done..|]|]; intros Hdown; rewrite Hd' by done; [|done].
      by apply all_down_set_tail.
  - unfold NVME_BAR0_SIZE in Ho. rewrite u64_small by lia. apply wp_safe.
    destruct is_write; apply wp_bind.
    + eapply wp_run; [by apply nvme_reg_write_eq|]. apply wp_ret.
      split; [apply ReWrite; cbn; by rewrite (proj2 (Z.leb_gt _ _)) by done|].
      intros _. split; [done|]. apply reg_write_frame.
    + eapply wp_run; [apply nvme_reg_read_eq; lia|]. by apply wp_ret, Hrefl; left.
Qed.

Lemma handle_effect fuel e n h :
  ctrl_inv n → event_ok e → safe (handle fuel e) (λ _ s', effect e n h s') (n, h).
Proof.
  intros Hinv He. destruct e as [buf count offset w|buf count offset w|]; cbn in *;
    apply safe_bind.
  - eapply safe_mono; [by apply bar0_effect|]. intros r s' Hr. by apply wp_safe, wp_ret.
  - destruct He as (? & ? & ?). eapply safe_mono; [apply wp_safe; by apply msix_wp|].
    intros r s' (_ & Hh & _ & _ & m & Hm). apply wp_safe, wp_ret. unfold effect.
    rewrite Hm, Hh. by split; [apply ReSame|].
  - eapply safe_mono; [apply wp_safe; by apply reset_cb_wp|].
    intros r s' (_ & -> & _). apply wp_safe, wp_ret. by split; [apply ReReset|].
Qed.

(** ** The flags follow the abstract machine *)

Lemma truthy_testbit z k : 0 ≤ k → truthy (Z.land z (2 ^ k)) = Z.testbit z k.
Proof.
  intros Hk. assert (Z.land z (2 ^ k) = if Z.testbit z k then 2 ^ k else 0) as ->.
  { apply Z.bits_inj'. intros i Hi. rewrite Z.land_spec, Z.pow2_bits_eqb by done.
    destruct (Z.eqb_spec k i) as [->|Hne].
    - destruct (Z.testbit z i); [by rewrite Z.pow2_bits_true|by rewrite Z.bits_0].
    - rewrite andb_false_r. destruct (Z.testbit z k); [by rewrite Z.pow2_bits_false|by rewrite Z.bits_0]. }
  destruct (Z.testbit z k); [|done]. unfold truthy. pose proof (Z.pow_pos_nonneg 2 k).
  by rewrite (proj2 (Z.eqb_neq _ _)) by lia.
Qed.

Lemma cc_en_bit cc : cc_en cc = Z.testbit cc 0.
Proof. by apply (truthy_testbit cc 0). Qed.

Lemma cc_shn_bits cc : cc_shn cc = Z.testbit cc 14 || Z.testbit cc 15.
Proof.
  rewrite <-!truthy_testbit by done. unfold cc_shn, truthy.
  change NVME_CC_SHN_MASK with (Z.lor (2 ^ 14) (2 ^ 15)). rewrite Z.land_lor_distr_r.
  apply eq_true_iff_eq. rewrite orb_true_iff, !negb_true_iff, !Z.eqb_neq, Z.lor_eq_0_iff.
  destruct (decide (Z.land cc (2 ^ 14) = 0)); tauto.
Qed.

(** CSTS has no bits but the two flags. *)
Lemma csts_flags r : csts_ok r → r_csts r = life_csts (life_of r).
Proof.
  unfold csts_ok, life_csts, life_of. cbn.
  intros [-> | [_ ->]]; by destruct (cc_en (r_cc r)).
Qed.

Lemma csts_next_life r cc :
  csts_ok r →
  life_of (set_csts (set_cc r cc) (csts_next (r_csts r) (r_cc r) cc)) =
    life_cc (life_of r) (Z.testbit cc 0) (Z.testbit cc 14 || Z.testbit cc 15).
Proof.
  unfold csts_ok, csts_next, life_of, life_cc.
  cbn [lf_en lf_shn lf_rdy lf_shst r_cc r_csts set_cc set_csts].
  rewrite <-!cc_en_bit, <-!cc_shn_bits.
  destruct (cc_shn cc), (cc_shn (r_cc r)), (cc_en cc), (cc_en (r_cc r));
    intros [-> | [Hs ->]]; try discriminate Hs; reflexivity.
Qed.

Lemma regs_next_life r offset v count : life_of (regs_next r offset v count) = life_of r.
Proof. unfold regs_next, life_of. by repeat case_match. Qed.

Lemma regs_effect_life e n n' :
  ctrl_inv n → regs_effect e n n' → life_of (n_regs n') = life_event e (life_of (n_regs n)).
Proof.
  intros Hinv [n1 Hw He Hr _|offset v count Hw| ->]; [| |done].
  - rewrite Hr. destruct e as [buf count offset []| |]; cbn in *; try done.
    destruct (Z.leb_spec NVME_REG_DOORBELL offset); [|done].
    destruct (Z.eqb_spec offset NVME_REG_CC) as [->|]; [done|done].
  - destruct e as [buf count' offset' []| |]; cbn in Hw; try done.
    case_match; [done|]. injection Hw as <- <- <-. cbn. unfold reg_write_next.
    destruct (offset' =? NVME_REG_CC); [|apply regs_next_life].
    apply csts_next_life, (ci_regs _ Hinv).
Qed.

Lemma handle_life fuel e s s' :
  ctrl_inv s.1 → event_ok e → handle fuel e s = Done (tt, s') →
  life_of (n_regs s'.1) = life_event e (life_of (n_regs s.1)).
Proof.
  destruct s as [n h]. intros Hinv He Hrun.
  pose proof (handle_effect fuel e n h Hinv He) as Hs. unfold safe in Hs.
  rewrite Hrun in Hs. apply regs_effect_life; [done|apply Hs].
Qed.

(** ** Down stays down *)

Lemma regs_effect_down e n n' :
  regs_effect e n n' → ¬ enables n n' → all_down n → all_down n'.
Proof.
  intros [n1 _ _ _ Hd|offset v count _|_] Hen; [done| |intros _; apply ctrl_down_all].
  revert Hen. unfold reg_write_next, enables. destruct (offset =? NVME_REG_CC); [|done].
  unfold cc_next. cbn [n_regs n_set_regs r_cc set_cc set_csts].
  destruct (rises (cc_en _) (cc_en (u32 v))); [done|]. intros _ Hd.
  repeat case_match; try done; apply (ctrl_down_all (ctrl_down n)) || apply ctrl_down_all.
Qed.

Lemma dev_step_down s s' :
  ctrl_inv s.1 → dev_step s s' → ¬ enables s.1 s'.1 → all_down s.1 → all_down s'.1.
Proof.
  intros Hinv Hstep. revert Hinv.
  destruct Hstep as [fuel e [n h] s1 He Hrun|n h vfu heap m]; cbn [fst]; intros Hinv.
  - pose proof (handle_effect fuel e n h Hinv He) as Hs. unfold safe in Hs.
    rewrite Hrun in Hs. by apply (regs_effect_down e), Hs.
  - done.
Qed.

(** Transitions that do not set CC.EN. *)
Definition quiet_step s s' : Prop := dev_step s s' ∧ ¬ enables s.1 s'.1.

Lemma quiet_down s s' :
  ctrl_inv s.1 → rtc quiet_step s s' → all_down s.1 → ctrl_inv s'.1 ∧ all_down s'.1.
Proof.
  intros Hinv Hrtc. revert Hinv. induction Hrtc as [|s1 s2 s3 [Hstep Hq] _ IH]; [done|].
  intros Hinv Hd. apply IH; [by eapply dev_step_inv|by eapply dev_step_down].
Qed.

(** A device whose queues are down executes nothing: guest memory and data stay. *)
Lemma down_idle fuel e s s' :
  ctrl_inv s.1 → event_ok e → all_down s.1 → handle fuel e s = Done (tt, s') →
  s'.2 = s.2 ∧ n_ns s'.1 = n_ns s.1.
Proof.
  destruct s as [n h]. intros Hinv He Hd Hrun.
  pose proof (handle_effect fuel e n h Hinv He) as Hs. unfold safe in Hs.
  rewrite Hrun in Hs. by apply Hs.
Qed.
End lifecycle.
