(* ===== verification/History.v ===== *)
(** * Histories: the device as a key-value machine

    A history is any sequence of transitions of the device, labelled with the KV
    commands that its I/O queues executed and their statuses.  Every run of the
    device is one, and each history is a run of the abstract key-value machine. *)

From S2P Require Import Prelude.
From S2P Require Import Bytes.
From S2P Require Import NvmeSpec.
From S2P Require Import Kv.
From S2P Require Import KvTable.
From S2P Require Import KvInv.
From S2P Require Import KvSpec.
From S2P Require Import KvList.
From S2P Require Import Dma.
From S2P Require Import DmaSpec.
From S2P Require Import Ctrl.
From S2P Require Import Admin.
From S2P Require Import Regs.
From S2P Require Import CtrlInv.
From S2P Require Import RegsSpec.
From S2P Require Import IoSpec.
From S2P Require Import QueueSpec.
From S2P Require Import Progress.
From S2P Require Import System.

Section history.
Context `{Uninit} `{VfuOk}.
Implicit Types (n : nvme_ctrl) (h : host) (s : machine) (m : kvmap).

(** A command and its status. *)
Abbreviation label := (NvmeKVCmd * Z)%type.

(** ** The abstract machine *)

(** One command on a namespace of [max] keys that stands for [m], with some guest
    memory, allocator and EDNEK setting. *)
Definition kv_step (max : Z) (l : label) m m' : Prop :=
  ∃ vfu ns h h', kv_ok ns ∧ ns_max_num_keys ns = max ∧ ns_map ns = m ∧
    io_spec vfu ns l.1 h l.2 m' h'.

Inductive kv_run (max : Z) : list label → kvmap → kvmap → Prop :=
| KvNil m : kv_run max [] m m
| KvCons l ls m m1 m2 : kv_step max l m m1 → kv_run max ls m1 m2 → kv_run max (l :: ls) m m2.

Lemma kv_run_app max l1 l2 m m1 m2 :
  kv_run max l1 m m1 → kv_run max l2 m1 m2 → kv_run max (l1 ++ l2) m m2.
Proof. induction 1; [done|]. intros. eapply KvCons; eauto. Qed.

(** A command other than a STORE or DELETE of [k]. *)
Definition spares (k : list byte) (l : label) : Prop :=
  ckey l.1 = k → cmd_opcode l.1 ≠ NVME_CMD_KV_STORE ∧ cmd_opcode l.1 ≠ NVME_CMD_KV_DELETE.

Lemma kv_step_spares max l m m' k : kv_step max l m m' → spares k l → m' !! k = m !! k.
Proof.
  destruct l as [cmd st]. unfold spares. cbn [fst].
  intros (vfu & ns & h & h' & _ & _ & <- & Hspec) Hk. revert Hspec. unfold io_spec. cbn [fst snd].
  destruct (decide (ckey cmd = k)) as [Heq|Hne].
  { destruct (Hk Heq) as [Hs Hd]. rewrite (proj2 (Z.eqb_neq _ _) Hs), (proj2 (Z.eqb_neq _ _) Hd).
    repeat case_match; intros; by destruct_and?; subst. }
  case_match; [by intros []; rewrite ?lookup_insert_ne|].
  case_match; [by intros [-> _]|]. case_match.
  { unfold delete_spec. intros [_ Hd].
    repeat case_match; injection Hd as _ ->; by rewrite ?lookup_delete_ne. }
  repeat case_match; by intros; destruct_and?; subst.
Qed.

Lemma kv_run_spares max ls m m' k :
  kv_run max ls m m' → Forall (spares k) ls → m' !! k = m !! k.
Proof.
  induction 1 as [|l ls m m1 m2 Hstep _ IH]; [done|]. intros [Hl Hls]%Forall_cons.
  rewrite IH by done. by eapply kv_step_spares.
Qed.

(** ** Commands executed *)

(** Entries of queue [qid] consumed one after the other: the command is the 64 bytes
    at the head of the queue, and the status is the one it ran to. *)
Inductive executed (qid : Z) : list label → machine → machine → Prop :=
| ExNil s : executed qid [] s s
| ExCons n h sq b h1 st cdw0 s1 s ls s' :
    n_sq n !! Z.to_nat qid = Some sq → fetch (n_vfu n) sq h = Done ((0, b), h1) →
    exec qid (decode b) (n_set_sq n (<[Z.to_nat qid := sq_next sq]> (n_sq n)), h1) =
      Done ((st, cdw0), s1) →
    sq_entry qid (n, h) s → executed qid ls s s' →
    executed qid ((cast (decode b : NvmeSqe), st) :: ls) (n, h) s'.

Lemma nsteps_executed qid k s s' :
  nsteps (sq_entry qid) k s s' → ∃ ls, executed qid ls s s'.
Proof.
  induction 1 as [s|k s s1 s' Hentry _ [ls IH]]; [by exists []; constructor|].
  pose proof Hentry as Hentry'.
  destruct Hentry' as [n h sq b h1 st cdw0 n2 h2 s3 Hsq _ Hf He _].
  eexists. by eapply ExCons.
Qed.

(** What a command keeps of the namespace, besides changing the map. *)
Definition ns_good (max : Z) n : Prop := kv_ok (n_ns n) ∧ ns_max_num_keys (n_ns n) = max.

Lemma post_spec_ns n h cqid cq cqe s' : post_spec n h cqid cq cqe s' → n_ns s'.1 = n_ns n.
Proof. by intros []. Qed.

Lemma entry_kv_step max n h qid sq b h1 st cdw0 s1 s :
  ns_good max n → qid ≠ 0 → n_sq n !! Z.to_nat qid = Some sq →
  fetch (n_vfu n) sq h = Done ((0, b), h1) →
  exec qid (decode b) (n_set_sq n (<[Z.to_nat qid := sq_next sq]> (n_sq n)), h1) =
    Done ((st, cdw0), s1) →
  sq_entry qid (n, h) s →
  ns_good max s.1 ∧
  kv_step max (cast (decode b : NvmeSqe), st) (ns_map (n_ns n)) (ns_map (n_ns s.1)).
Proof.
  intros [Hok Hmax] Hqid Hsq Hf He Hentry.
  inversion Hentry as [n' h' sq' b' h1' st' cdw0' n2 h2 s3 Hsq' _ Hf' He' Hp].
  subst n' h' s3. rewrite Hsq in Hsq'. injection Hsq' as <-.
  rewrite Hf in Hf'. injection Hf' as <- <-. rewrite He in He'. injection He' as <- <- ->.
  apply exec_io in He as (_ & Hio & -> & Hst); [|done..].
  assert (Hns : n_ns s.1 = n_ns n2).
  { revert Hp. rewrite (proj2 (Z.eqb_neq _ _) Hst). intros (cq & _ & Hpost).
    by eapply post_spec_ns. }
  destruct Hio as (_ & Hok2 & [Hmax2 _] & Hspec). cbn [fst snd] in *. unfold ns_good.
  rewrite Hns. split; [split; [done|by rewrite Hmax2]|].
  exists (n_vfu n), (n_ns n), h1, h2. by split_and!.
Qed.

Lemma executed_kv_run max qid ls s s' :
  executed qid ls s s' → qid ≠ 0 → ns_good max s.1 →
  kv_run max ls (ns_map (n_ns s.1)) (ns_map (n_ns s'.1)).
Proof.
  induction 1 as [s|n h sq b h1 st cdw0 s1 s ls s' Hsq Hf He Hentry _ IH]; intros Hqid Hgood;
    [constructor|].
  destruct (entry_kv_step max n h qid sq b h1 st cdw0 s1 s) as [Hgood' Hstep]; [done..|].
  eapply KvCons; [done|]. by apply IH.
Qed.

(** ** Histories of the device *)

(** The write of a doorbell, with the queue and its new tail. *)
Definition rung (buf : list byte) (count offset : Z) n (sq : nvme_sq) : nvme_ctrl :=
  n_set_sq n (<[Z.to_nat (db_qid offset) :=
    sq_set_tail sq (u16 (u32 (le_val (take (Z.to_nat count) buf))))]> (n_sq n)).

Inductive dev_history : list label → machine → machine → Prop :=
| HistNil s : dev_history [] s s
| HistEnv n h vfu heap mem ls s' :
    dev_history ls (n_set_vfu n vfu, {| h_heap := heap; h_mem := mem; h_log := h_log h |}) s' →
    dev_history ls (n, h) s'
| HistOther fuel e s s1 ls s' :
    event_ok e → rings_io e = false → handle fuel e s = Done (tt, s1) →
    dev_history ls s1 s' → dev_history ls s s'
| HistIo fuel buf count offset n h sq s1 s2 ls1 ls s' :
    bar0_args buf count offset → io_doorbell offset = true →
    handle fuel (EvBar0 buf count offset true) (n, h) = Done (tt, s1) →
    n_sq n !! Z.to_nat (db_qid offset) = Some sq →
    executed (db_qid offset) ls1 (rung buf count offset n sq, h) s2 → s2.1 = s1.1 →
    dev_history ls s1 s' → dev_history (ls1 ++ ls) (n, h) s'.

(** A doorbell executes entries of its queue, starting with the new tail. *)
Lemma doorbell_executes fuel n h buf count offset s1 :
  ctrl_inv n → bar0_args buf count offset → io_doorbell offset = true →
  handle fuel (EvBar0 buf count offset true) (n, h) = Done (tt, s1) →
  ∃ sq ls s2, n_sq n !! Z.to_nat (db_qid offset) = Some sq ∧
    executed (db_qid offset) ls (rung buf count offset n sq, h) s2 ∧ s2.1 = s1.1.
Proof.
  intros Hinv (Hc & Hl & Ho) Hio Hrun.
  unfold io_doorbell in Hio. apply andb_prop in Hio as [[[Hdb Hpos]%andb_prop Hlt]%andb_prop Hcq].
  apply Z.ltb_lt in Hpos. pose proof Hlt as Hlt'. apply Z.ltb_lt in Hlt'.
  unfold NVME_MAX_QUEUES in Hlt'. apply negb_true_iff in Hcq.
  enough (Hs : safe (nvme_bar0_access fuel buf count offset true) (λ _ s',
    ∃ sq ls s2, n_sq n !! Z.to_nat (db_qid offset) = Some sq ∧
      executed (db_qid offset) ls (rung buf count offset n sq, h) s2 ∧ s2.1 = s'.1) (n, h)).
  { cbn in Hrun. rewrite bind_run in Hrun. unfold safe in Hs.
    destruct (nvme_bar0_access _ _ _ _ _ _) as [[r s']| |]; [|done..].
    by injection Hrun as <-. }
  unfold nvme_bar0_access. rewrite Hdb. apply safe_bind, wp_safe.
  eapply wp_run; [by apply rd_le_eq|]. cbv zeta. fold (db_qid offset) (db_is_cq offset).
  rewrite Hlt, Hcq. apply safe_bind, safe_bind, wp_safe, get_sq_wp; [apply Hinv|lia|].
  intros sq Hsq _. apply safe_bind, wp_safe, put_sq_wp; [apply Hinv|lia|].
  fold (rung buf count offset n sq). set (n1 := rung _ _ _ _ _).
  assert (Hinv1 : ctrl_inv n1) by (by apply ctrl_inv_set_tail).
  enough (Hs : safe (nvme_process_sq fuel (db_qid offset)) (λ _ s',
    ∃ ls s2, executed (db_qid offset) ls (n1, h) s2 ∧ s2.1 = s'.1) (n1, h)).
  { eapply safe_mono; [done|]. intros u s' (ls & s2 & ? & ?). apply wp_safe, wp_ret.
    by exists sq, ls, s2. }
  unfold nvme_process_sq. apply safe_bind, wp_safe, get_sq_wp; [apply Hinv1|lia|].
  intros sq1 Hsq1 _. destruct (sq_enabled sq1) eqn:Hen; cbn [negb].
  2:{ apply wp_safe, wp_ret. exists [], (n1, h). by split; [constructor|]. }
  eapply safe_mono; [apply sq_loop_safe; [done|lia|done|done]|].
  intros u s' Hp. destruct (lp_run _ _ _ _ _ Hp) as (k & s2 & Hk & Heq & _).
  apply nsteps_executed in Hk as [ls Hls]. by exists ls, s2.
Qed.

(** Every run of the device is a history. *)
Lemma dev_history_exists s s' :
  rtc dev_step s s' → ctrl_inv s.1 → ∃ ls, dev_history ls s s'.
Proof.
  induction 1 as [s|s s1 s' Hstep _ IH]; intros Hinv; [by exists []; constructor|].
  destruct IH as [ls Hls]; [by eapply dev_step_inv|].
  destruct Hstep as [fuel e s s1 He Hrun|n h vfu heap mem]; [|by exists ls; eapply HistEnv].
  destruct (rings_io e) eqn:Hio; [|by exists ls; eapply HistOther].
  destruct e as [buf count offset w| |]; [|done..]. cbn in Hio. apply andb_prop in Hio as [-> Hio].
  destruct s as [n h].
  destruct (doorbell_executes fuel n h buf count offset s1) as (sq & ls1 & s2 & ? & ? & ?);
    [done..|]. exists (ls1 ++ ls). by eapply HistIo.
Qed.

Lemma same_data_map n n' : same_data n n' → ns_map (n_ns n') = ns_map (n_ns n).
Proof. unfold same_data, ns_map. by intros ->. Qed.

(** And its labels are a run of the abstract machine. *)
Lemma dev_history_kv_run max ls s s' :
  dev_history ls s s' → ctrl_inv s.1 → ns_max_num_keys (n_ns s.1) = max →
  kv_run max ls (ns_map (n_ns s.1)) (ns_map (n_ns s'.1)).
Proof.
  induction 1 as [s|n h vfu heap mem ls s' _ IH|fuel e [n h] s1 ls s' He Hio Hrun _ IH
    |fuel buf count offset n h sq s1 s2 ls1 ls s' Hargs Hio Hrun Hsq Hex Heq _ IH]; intros Hinv Hmax.
  - constructor.
  - apply IH; [by apply ctrl_inv_set_vfu|done].
  - pose proof (handle_safe fuel e n h Hinv He) as Hs. unfold safe in Hs. rewrite Hrun in Hs.
    destruct Hs as [[Hinv1 [_ Hmax1]] Hd]. cbn [fst] in *.
    rewrite <-(same_data_map _ _ (Hd Hio)). apply IH; [done|congruence].
  - pose proof (handle_safe fuel (EvBar0 buf count offset true) n h Hinv Hargs) as Hs.
    unfold safe in Hs. rewrite Hrun in Hs. destruct Hs as [[Hinv1 [_ Hmax1]] _]. cbn [fst] in *.
    eapply kv_run_app; [|apply IH; [done|congruence]]. rewrite <-Heq.
    apply (executed_kv_run max _ _ _ _ Hex).
    + unfold io_doorbell in Hio. lia.
    + split; [exact (ci_ns _ Hinv)|done].
Qed.
End history.
