(* ===== verification/Demo.v ===== *)
(** * A concrete device

    A controller of four keys on the flat library of {!DmaSpec}, its guest memory
    and a complete session: enable, queue creation, STORE, RETRIEVE.  The witnesses
    of the theorems instantiate them here. *)

From S2P Require Import Prelude.
From S2P Require Import Bytes.
From S2P Require Import NvmeSpec.
From S2P Require Import Kv.
From S2P Require Import KvTable.
From S2P Require Import KvInv.
From S2P Require Import KvSpec.
From S2P Require Import KvList.
From S2P Require Import Dma.
From S2P Require Import DmaSpec.
From S2P Require Import Ctrl.
From S2P Require Import Admin.
From S2P Require Import Regs.
From S2P Require Import CtrlInv.
From S2P Require Import RegsSpec.
From S2P Require Import StateSpec.
From S2P Require Import AdminSpec.
From S2P Require Import IoSpec.
From S2P Require Import QueueSpec.
From S2P Require Import System.

(** Uninitialised memory happens to hold zeros. *)
#[export] Instance zero_uninit : Uninit := λ _, x00.

(** The flat library serves every transfer inside its region. *)
Lemma flat_copy (c : @vfu_ctx_t flat_vfu) gpa buf (len : nat) to_host h :
  0 ≤ gpa → gpa + Z.of_nat len ≤ flat_size c → length buf = len → Z.of_nat len < 2 ^ 64 →
  wp (nvme_sgl_copy c [(gpa, len)] 1 buf (Z.of_nat len) to_host)
    (λ r _, r.1 = 0 ∧ (to_host = true → r.2 = buf)) h.
Proof.
  intros H0 Hsz Hb H64.
  assert (Htr : mapM (translate c (prot_of to_host)) (seqZ gpa (Z.of_nat len)) =
    Some (seqZ (flat_vaddr c + gpa) (Z.of_nat len))) by (by apply flat_translate_range).
  eapply wp_mono; [eapply (nvme_sgl_copy_success c [(gpa, len)] 1 buf (Z.of_nat len) to_host h h)|].
  - done.
  - done.
  - done.
  - exact Htr.
  - cbn [fmap list_fmap concat]. by rewrite app_nil_r.
  - rewrite length_seqZ. lia.
  - lia.
  - done.
  - unfold NVME_MAX_SG. lia.
  - reflexivity.
  - intros r h' [? Hp]. split; [done|]. apply Hp.
Qed.

Lemma flat_xfer (c : @vfu_ctx_t flat_vfu) gpa buf (len : nat) to_host h :
  0 ≤ gpa → gpa + Z.of_nat len ≤ flat_size c → (0 < len)%nat → length buf = len →
  Z.of_nat len < 2 ^ 64 → h_heap h = [] →
  ∃ b h', nvme_gpa_xfer c gpa buf (Z.of_nat len) to_host h = Done ((0, b), h') ∧
    (to_host = true → b = buf).
Proof.
  intros H0 Hsz Hlen Hb H64 Hheap. unfold nvme_gpa_xfer.
  assert (Hal : alloc h = Done (true, h)) by (unfold alloc; cbn; by rewrite Hheap).
  rewrite (proj2 (Z.eqb_neq (Z.of_nat len) 0)) by lia.
  rewrite (bind_done _ _ _ _ _ Hal). cbn [negb].
  assert (vfu_addr_to_sgl c gpa (Z.of_nat len) 8 (prot_of to_host) = (1, [(gpa, len)])) as ->.
  { cbn. unfold flat_addr_to_sgl.
    assert ((0 <=? gpa) && (gpa + Z.of_nat len <=? flat_size c) && (1 <=? 8) &&
      (0 <=? Z.of_nat len) = true) as -> by (rewrite !andb_true_iff, !Z.leb_le; lia).
    by rewrite Nat2Z.id. }
  rewrite (proj2 (Z.leb_gt 1 0)) by done.
  destruct (proj1 (wp_done _ _ _) (flat_copy c gpa buf len to_host h H0 Hsz Hb H64))
    as ([rc b] & h1 & E & Hrc & Hpost).
  cbn [fst snd] in *. subst rc. by exists b, h1.
Qed.

Lemma flat_fetch (c : @vfu_ctx_t flat_vfu) (q : nvme_sq) h :
  0 ≤ sq_slot q → sq_slot q + 64 ≤ flat_size c → h_heap h = [] →
  ∃ b h1, fetch c q h = Done ((0, b), h1).
Proof.
  intros H0 H64 Hheap.
  destruct (flat_xfer c (sq_slot q) (uninit <$> seqZ 0 64) 64 false h) as (b & h1 & E & _);
    [done..|lia|done|done|done|by exists b, h1].
Qed.

(** 64 KiB of guest memory mapped at [0x10000]. *)
Definition demo_vfu : flat_ctx := {| flat_vaddr := 0x10000; flat_size := 0x10000 |}.
Definition demo_ctrl : nvme_ctrl := ctrl_init_state demo_vfu 4.
Definition demo_host (m : mem) : host := {| h_heap := []; h_mem := m; h_log := [] |}.

Lemma demo_inv : ctrl_inv demo_ctrl.
Proof. by apply ctrl_init_inv. Qed.

(** The admin queues of four entries at [0x1000] and [0x2000], enabled. *)
Definition demo_regs : nvme_regs :=
  Build_nvme_regs CAP_VALUE 0x00020000 0 0 0 0 0x00030003 0x1000 0x2000.
Definition demo_setup : nvme_ctrl := n_set_regs demo_ctrl demo_regs.
Definition demo_ready : nvme_ctrl := cc_next demo_setup 1.

Lemma demo_setup_inv : ctrl_inv demo_setup.
Proof.
  destruct demo_inv as [[] ? ? ? Hd]. split; [by split|split; try done; by left|done..].
Qed.

Lemma demo_ready_inv : ctrl_inv demo_ready.
Proof. apply ctrl_inv_cc_next; [apply demo_setup_inv|done]. Qed.

Lemma demo_ready_csts : r_csts (n_regs demo_ready) = NVME_CSTS_RDY.
Proof. reflexivity. Qed.

(** ** A session *)

Definition sqe0 : NvmeSqe := Build_NvmeSqe 0 0 0 1 0 0 0 0 0 0 0 0 0 0 0.
Definition demo_create_cq : NvmeSqe :=
  Build_NvmeSqe NVME_ADM_CREATE_CQ 0 7 0 0 0 0 0x4000 0 0x00030001 0x00010003 0 0 0 0.
Definition demo_create_sq : NvmeSqe :=
  Build_NvmeSqe NVME_ADM_CREATE_SQ 0 8 0 0 0 0 0x3000 0 0x00030001 0x00010001 0 0 0 0.
(** Key "abcdefghij" (10 bytes), five bytes of data at [0x5000]. *)
Definition demo_store : NvmeSqe :=
  Build_NvmeSqe NVME_CMD_KV_STORE 0 9 1 0x64636261 0x68676665 0 0x5000 0 5 10 0 0 0x6a69 0.
Definition demo_retrieve : NvmeSqe :=
  Build_NvmeSqe NVME_CMD_KV_RETRIEVE 0 10 1 0x64636261 0x68676665 0 0x6000 0 5 10 0 0 0x6a69 0.
Definition demo_data : list byte := [x68; x65; x6c; x6c; x6f].

Definition demo_mem : mem :=
  mem_write (mem_write (mem_write ∅ 0x11000 (encode demo_create_cq ++ encode demo_create_sq))
    0x13000 (encode demo_store ++ encode demo_retrieve)) 0x15000 demo_data.

Lemma demo_typed :
  well_typed demo_create_cq ∧ well_typed demo_create_sq ∧ well_typed demo_store ∧
  well_typed demo_retrieve.
Proof. split_and!; repeat constructor; vm_compute; discriminate || reflexivity. Qed.

(** The register and doorbell writes of the session, in order. *)
Definition demo_session : list event :=
  [EvBar0 (le_bytes 4 0x00030003) 4 NVME_REG_AQA true;
   EvBar0 (le_bytes 8 0x1000) 8 NVME_REG_ASQ true;
   EvBar0 (le_bytes 8 0x2000) 8 NVME_REG_ACQ true;
   EvBar0 (le_bytes 4 1) 4 NVME_REG_CC true;
   EvBar0 (le_bytes 4 2) 4 0x1000 true;
   EvBar0 (le_bytes 4 2) 4 0x1008 true].

Fixpoint handle_all (fuel : nat) (es : list event) : M machine unit :=
  match es with
  | [] => mret tt
  | e :: es' => handle fuel e;; handle_all fuel es'
  end.

(** The entry [i] of a completion queue at process address [a]. *)
Definition read_cqe (m : mem) (a i : Z) : NvmeCqe := decode (mem_read m (a + 16 * i) 16).

Definition demo_final : option (list byte * list NvmeCqe * list vfu_call) :=
  match handle_all 4 demo_session (demo_ctrl, demo_host demo_mem) with
  | Done (_, (n, h)) =>
      Some (mem_read (h_mem h) 0x16000 5,
            [read_cqe (h_mem h) 0x12000 0; read_cqe (h_mem h) 0x12000 1;
             read_cqe (h_mem h) 0x14000 0; read_cqe (h_mem h) 0x14000 1],
            h_log h)
  | _ => None
  end.
