(* ===== verification/KvTheorems.v ===== *)
(** * Theorems about the key-value namespace

    The handlers of [src/kv.c] over any host-data callbacks that keep their
    contract ([DmaOk]). *)

From S2P Require Import Prelude.
From S2P Require Import Bytes.
From S2P Require Import NvmeSpec.
From S2P Require Import Kv.
From S2P Require Import KvTable.
From S2P Require Import KvInv.
From S2P Require Import KvSpec.
From S2P Require Import KvList.
From S2P Require Import Dma.
From S2P Require Import DmaSpec.
From S2P Require Import Ctrl.
From S2P Require Import System.
From S2P Require Import Demo.

(** ** The host's reading of a LIST reply

    As the Key Value Command Set lays it out: the count of keys (16 bits), two
    reserved bytes, then key data structures, each a 16-bit length and the bytes of
    the key, padded to a multiple of four bytes. *)

Definition round_up_4 (n : Z) : Z := (n + 3) / 4 * 4.

Fixpoint parse_keys (n : nat) (bs : list byte) : option (list (list byte)) :=
  match n with
  | O => Some []
  | S n' =>
      let kl := le_val (take 2 bs) in
      if Z.of_nat (length bs) <? 2 + kl then None else
      ks ← parse_keys n' (drop (Z.to_nat (round_up_4 (2 + kl))) bs);
      Some (take (Z.to_nat kl) (drop 2 bs) :: ks)
  end.

Definition rds_parse (bs : list byte) : option (list (list byte)) :=
  parse_keys (Z.to_nat (le_val (take 2 bs))) (drop 4 bs).

(** The padding of the code is that of the standard for keys of even length. *)
Lemma even_kds_size (k : list byte) :
  Nat.Even (length k) → kds_size k = round_up_4 (2 + Z.of_nat (length k)).
Proof. intros [m Hm]. unfold kds_size, round_up_4. rewrite Hm, Nat2Z.inj_mul. Z.to_euclidean_division_equations. lia. Qed.

Lemma parse_keys_bytes ks :
  Forall (λ k : list byte, (length k ≤ 16)%nat) ks →
  Forall (λ k : list byte, Nat.Even (length k)) ks →
  parse_keys (length ks) (concat (kds_bytes <$> ks)) = Some ks.
Proof.
  induction 1 as [|k ks Hk _ IH]; [done|]. intros [He Hes]%Forall_cons_1.
  cbn [length parse_keys fmap list_fmap concat].
  set (rest := concat (kds_bytes <$> ks)) in *.
  assert (Hkl : le_val (take 2 (kds_bytes k ++ rest)) = Z.of_nat (length k)).
  { unfold kds_bytes. rewrite <-!app_assoc, take_app_length' by (by rewrite length_le_bytes).
    apply le_val_le_bytes_small. change (256 ^ Z.of_nat 2) with 65536. lia. }
  cbv zeta. rewrite Hkl, <-even_kds_size by done.
  assert (Z.to_nat (kds_size k) = length (kds_bytes k)) as -> by (rewrite <-length_kds; lia).
  rewrite drop_app_length, IH, length_app by done. pose proof (length_kds k) as Hl.
  unfold kds_size in Hl. pose proof (Z.mod_pos_bound (2 + Z.of_nat (length k)) 4).
  destruct (Z.ltb_spec (Z.of_nat (length (kds_bytes k) + length rest))
    (2 + Z.of_nat (length k))); [lia|].
  cbn [mbind option_bind]. do 2 f_equal. unfold kds_bytes.
  rewrite <-!app_assoc, drop_app_length' by (by rewrite length_le_bytes).
  by rewrite Nat2Z.id, take_app_length.
Qed.

Lemma rds_parse_bytes ks :
  Z.of_nat (length ks) < 2 ^ 16 → Forall (λ k : list byte, (length k ≤ 16)%nat) ks →
  Forall (λ k : list byte, Nat.Even (length k)) ks →
  rds_parse (rds_bytes ks) = Some ks.
Proof.
  intros Hn Hks He. unfold rds_parse, rds_bytes.
  rewrite take_app_length' by (by rewrite length_le_bytes).
  rewrite le_val_le_bytes_small by (change (256 ^ Z.of_nat 2) with (2 ^ 16); lia).
  rewrite Nat2Z.id, app_assoc, drop_app_length' by done. by apply parse_keys_bytes.
Qed.

(** A key of three bytes is followed by one byte of padding instead of three: the
    host reads the next key at the wrong place. *)
Example odd_key_misread :
  rds_parse (rds_bytes [zeros 3; zeros 4]) ≠ Some [zeros 3; zeros 4].
Proof. vm_compute. discriminate. Qed.

(** The keys LIST may send are keys of the map, each once. *)
Lemma candidates_ok ns ps id cmd :
  kv_inv ns ps id →
  NoDup (list_candidates cmd ps) ∧
  Forall (λ k, is_Some (ns_map ns !! k) ∧ (length k ≤ 16)%nat) (list_candidates cmd ps).
Proof.
  intros Hinv. unfold list_candidates. set (i := from_option _ _ _).
  assert (Hps : used_keys ps = used_keys (take i ps) ++ used_keys (drop i ps)).
  { unfold used_keys. by rewrite <-fmap_app, <-entries_app, take_drop. }
  pose proof (ki_distinct _ _ _ Hinv) as Hd. unfold keys_distinct in Hd.
  fold (used_keys ps) in Hd. rewrite Hps in Hd. split; [by apply NoDup_app in Hd as (_ & _ & Hd)|].
  apply Forall_forall. intros k Hk.
  assert (Hin : k ∈ used_keys ps) by (rewrite Hps; apply elem_of_app; by right).
  apply list_elem_of_fmap in Hin as ([k' v] & -> & Hin). cbn.
  apply list_elem_of_omap in Hin as (p & Hp & He). unfold entry in He.
  destruct (p_used p) eqn:Hu; [|done]. injection He as <- <-.
  pose proof Hp as [j Hj]%list_elem_of_lookup.
  destruct (kv_inv_slot _ _ _ Hinv _ _ Hj) as [Hwf _]. split.
  - exists (p_val p). rewrite (kv_inv_map _ _ _ Hinv).
    apply kv_abs_lookup; [apply Hinv|]. by exists j, p.
  - destruct Hwf. unfold pkey. rewrite length_take. lia.
Qed.

Section kv_theorems.
Context {W : Type} `{Heap W} (dma : kv_dma W) `{!DmaOk dma}.
Implicit Types (w : W) (ns : kv_ns).

(** C9: STORE refines the map machine.  From a well-formed namespace it finishes
    without undefined behaviour, keeps the namespace well formed and its settings,
    and its status and the new contents are those of [store_spec]: key or value
    too long, key present or absent against the option bits, no room, no memory,
    or the value stored and the status of the transfer. *)
Theorem kv_store_refines ns w cmd :
  kv_ok ns → well_typed cmd → wp (kv_store dma cmd) (store_post dma ns w cmd) (ns, w).
Proof. intros (ps & id & Hinv) Hcmd. by eapply kv_store_wp. Qed.

(** RETRIEVE leaves the namespace alone; it refuses a key longer than 16
    bytes, reports a missing key, and otherwise transfers the first
    [min hbs 4096] bytes of the value stored under the key. *)
Theorem kv_retrieve_refines ns w cmd :
  kv_ok ns → well_typed cmd →
  wp (kv_retrieve dma cmd)
    (λ st s', s'.1 = ns ∧ retrieve_spec dma cmd (ns_map ns) w st s'.2) (ns, w).
Proof. intros (ps & id & Hinv) Hcmd. by eapply kv_retrieve_wp. Qed.

(** DELETE removes exactly the named key, reports a missing key only when
    EDNEK asks for it, touches nothing but the namespace, and keeps it well
    formed. *)
Theorem kv_delete_refines ns w cmd :
  kv_ok ns → well_typed cmd →
  wp (kv_delete cmd) (λ st s',
    kv_ok s'.1 ∧ same_config ns s'.1 ∧ s'.2 = w ∧
    (st, ns_map s'.1) = delete_spec (ns_ednek ns) cmd (ns_map ns)) (ns, w).
Proof. intros (ps & id & Hinv) Hcmd. by eapply kv_delete_wp. Qed.

(** EXIST changes nothing and answers membership of the key in the map. *)
Theorem kv_exist_refines ns w cmd :
  kv_ok ns → well_typed cmd →
  wp (kv_exist cmd) (λ st s', s' = (ns, w) ∧ st = exist_spec cmd (ns_map ns)) (ns, w).
Proof. intros (ps & id & Hinv) Hcmd. by eapply kv_exist_wp. Qed.

(** C19: LIST leaves the namespace alone.  It refuses a key that is too long; it
    reports a capacity error only when an allocation fails; otherwise it sends one
    reply and finishes with the status of that transfer.  The reply is the count of
    keys (modulo 65536) and the key structures, with the code's padding, of the
    longest prefix that fits in the host's buffer (of whatever size) of the stored
    keys from the named one on, or from the first when the named one is not stored:
    distinct keys, all of them stored.  When their lengths are even and there are
    fewer than 65536 of them, a host that pads to a multiple of four, as the standard
    says, parses the reply back into exactly these keys. *)
Theorem kv_list_reply ns w cmd ps :
  kv_ok ns → ns_pairs ns = Some ps → well_typed cmd →
  wp (kv_list dma cmd) (λ st s', s'.1 = ns ∧
    (16 < cmd_kl cmd → st = NVME_INVALID_FIELD) ∧
    (cmd_kl cmd ≤ 16 →
      (st = NVME_CAP_EXCEEDED ∧ ∃ w1, allocs w w1 ∧ heap_alloc w1 = (false, s'.2)) ∨
      ∃ ks w1 src rc,
        let reply := rds_bytes ks in
        allocs w w1 ∧ take (length reply) src = reply ∧
        c2h dma cmd src (Z.of_nat (length reply)) w1 = Done (rc, s'.2) ∧
        st = xfer_status rc ∧ (rc = 0 → dma_write dma w1 cmd reply s'.2) ∧
        fills_buffer (cmd_hbs cmd) ks (list_candidates cmd ps) ∧
        NoDup ks ∧ Forall (λ k, is_Some (ns_map ns !! k)) ks ∧
        (Z.of_nat (length ks) < 2 ^ 16 → Forall (λ k, Nat.Even (length k)) ks →
           rds_parse reply = Some ks))) (ns, w).
Proof.
  intros (ps' & id & Hinv) Hps Hcmd.
  assert (ps' = ps) as -> by (pose proof (ki_pairs _ _ _ Hinv); congruence).
  destruct (candidates_ok _ _ _ cmd Hinv) as [Hnd Hall].
  eapply wp_mono; [by eapply kv_list_spec|]. intros st s' [Hs Hspec]. split; [done|].
  destruct Hspec as [w' ?|w1 w' ? Hw Hw1|ks w1 src rc w' Hkl Hw Hfill Hsrc Hdma];
    (split; [done || lia|]); intros; [lia|left; by eauto|right].
  assert (Hpre : ks `prefix_of` list_candidates cmd ps).
  { destruct Hfill as [_ [->|(k & rest & -> & _)]]; [done|by eexists]. }
  destruct Hpre as [rest Hpre]. rewrite Hpre in Hnd, Hall.
  apply NoDup_app in Hnd as (Hnd & _). apply Forall_app in Hall as [Hall _].
  assert (Hlen : Z.of_nat (length (rds_bytes ks)) ≤ Z.of_nat (length src)).
  { rewrite <-Hsrc, length_take. lia. }
  pose proof (c2h_ok dma cmd src _ w1 (conj (Nat2Z.is_nonneg _) Hlen)) as Hc.
  unfold wp in Hc. rewrite Hdma, Nat2Z.id, Hsrc in Hc.
  exists ks, w1, src, rc. split_and!; try done.
  - eapply Forall_impl; [exact Hall|]. by intros k [? _].
  - intros Hn He. apply rds_parse_bytes; [done| |done].
    eapply Forall_impl; [exact Hall|]. by intros k [_ ?].
Qed.

Lemma map_value_length ns ps id k v :
  kv_inv ns ps id → ns_map ns !! k = Some v → Z.of_nat (length v) = 4096.
Proof.
  intros Hinv. rewrite (kv_inv_map _ _ _ Hinv).
  intros (i & p & Hi & _ & _ & <-)%kv_abs_lookup; [|apply Hinv].
  by destruct (kv_inv_slot _ _ _ Hinv _ _ Hi) as [[] _].
Qed.

(** The value that [d] read into the slot of [cmd] leaves there: it overlays the old
    value, or the zeros of a new slot. *)
Definition overlaid (d : list byte) (old : option (list byte)) : list byte :=
  d ++ drop (length d) (default (zeros NVME_KV_MAX_VAL_SIZE) old).

(** What STORE left under its key. *)
Lemma store_success ns w cmd ns1 w1 :
  kv_ok ns → well_typed cmd → kv_store dma cmd (ns, w) = Done (NVME_SUCCESS, (ns1, w1)) →
  kv_ok ns1 ∧ cmd_kl cmd ≤ 16 ∧ ∃ w0 d,
    (w0 = w ∨ heap_alloc w = (true, w0)) ∧ dma_read dma w0 cmd d ∧
    Z.of_nat (length d) = cmd_hbs cmd ∧ cmd_hbs cmd ≤ NVME_KV_MAX_VAL_SIZE ∧
    ns_map ns1 !! ckey cmd = Some (overlaid d (ns_map ns !! ckey cmd)).
Proof.
  intros (ps & id & Hinv) Hcmd Hrun. pose proof (cmd_fits _ Hcmd) as Hfits.
  pose proof (kv_store_wp dma ns ps id w cmd Hinv Hcmd) as Hw. unfold wp in Hw.
  rewrite Hrun in Hw. destruct Hw as (Hok & _ & Hspec). cbn [fst snd] in *.
  split; [done|].
  assert (Hput : ∀ w0 v0 rc v w', Z.of_nat (length v0) = 4096 →
    cmd_hbs cmd ≤ NVME_KV_MAX_VAL_SIZE → xfer_status rc = NVME_SUCCESS →
    h2c dma cmd v0 (cmd_hbs cmd) w0 = Done ((rc, v), w') →
    ∃ d, dma_read dma w0 cmd d ∧ Z.of_nat (length d) = cmd_hbs cmd ∧
         v = d ++ drop (length d) v0).
  { intros w0 v0 rc v w' Hl Hh Hrc Hx.
    assert (Hlen : 0 ≤ cmd_hbs cmd ≤ Z.of_nat (length v0)).
    { unfold NVME_KV_MAX_VAL_SIZE in *. lia. }
    pose proof (h2c_ok dma cmd v0 (cmd_hbs cmd) w0 Hlen) as Hq. unfold wp in Hq.
    rewrite Hx in Hq. cbn [fst snd] in Hq. destruct Hq as [_ Hd].
    assert (rc = 0) as -> by (unfold xfer_status, truthy in Hrc; by destruct (Z.eqb_spec rc 0)).
    destruct (Hd eq_refl) as (d & Hld & Hr & ->).
    exists d. by rewrite <-Hld, Nat2Z.id. }
  remember NVME_SUCCESS as st eqn:Hst.
  destruct Hspec; try discriminate; (split; [done|]);
    match goal with Hx : h2c _ _ ?v _ _ = _ |- _ => eapply Hput in Hx as (d & ? & ? & ->); [|by eauto using map_value_length|done..] end.
  - eexists w, d. rewrite lookup_insert_eq. split_and!; [by left|done..|].
    by match goal with Hm : _ !! _ = Some _ |- _ => rewrite Hm end.
  - eexists _, d. rewrite lookup_insert_eq. split_and!; [eassumption|done..|].
    by match goal with Hm : _ !! _ = None |- _ => rewrite Hm end.
Qed.

(** C8: a value stored is the value retrieved.  A STORE that succeeds has read [d],
    as many bytes as its HBS says, from the host, and leaves under its key [d] laid
    over the old value (zeros for a new key).  Whatever happens to the world in
    between, a RETRIEVE of that key, of any length, then finishes with the status of
    its transfer and changes nothing; when it succeeds the host has received the
    first min(HBS, 4096) bytes of that value.  They are the first bytes of [d] when
    the RETRIEVE is no longer than the STORE; a longer one also gets the tail of the
    older value. *)
Theorem store_then_retrieve ns w cmd ns1 w1 :
  kv_ok ns → well_typed cmd → kv_store dma cmd (ns, w) = Done (NVME_SUCCESS, (ns1, w1)) →
  ∃ w0 d, (w0 = w ∨ heap_alloc w = (true, w0)) ∧
    dma_read dma w0 cmd d ∧ Z.of_nat (length d) = cmd_hbs cmd ∧
    ns_map ns1 !! ckey cmd = Some (overlaid d (ns_map ns !! ckey cmd)) ∧
    ∀ cmd' w', well_typed cmd' → cmd_kl cmd' = cmd_kl cmd → ckey cmd' = ckey cmd →
      let v := overlaid d (ns_map ns !! ckey cmd) in
      let r := take (Z.to_nat (cmd_hbs cmd' `min` NVME_KV_MAX_VAL_SIZE)) v in
      (cmd_hbs cmd' ≤ cmd_hbs cmd → r = take (Z.to_nat (cmd_hbs cmd')) d) ∧
      wp (kv_retrieve dma cmd') (λ st s', s'.1 = ns1 ∧ ∃ rc,
        c2h dma cmd' v (cmd_hbs cmd' `min` NVME_KV_MAX_VAL_SIZE) w' = Done (rc, s'.2) ∧
        st = xfer_status rc ∧ (rc = 0 → dma_write dma w' cmd' r s'.2)) (ns1, w').
Proof.
  intros Hok Hcmd Hrun.
  destruct (store_success _ _ _ _ _ Hok Hcmd Hrun)
    as ((ps & id & Hinv) & Hkl & w0 & d & Hw0 & Hr & Hd & Hle & Hmap).
  exists w0, d. split_and!; [done..|]. intros cmd' w' Hcmd' Hkl' Hkey v r.
  pose proof (cmd_fits _ Hcmd') as Hfits. split.
  { intros Hhbs. unfold r, v, overlaid. rewrite Z.min_l, take_app_le by lia. done. }
  eapply wp_mono; [by eapply kv_retrieve_wp|]. intros st [ns2 w2] [Hns Hspec].
  split; [done|]. cbn [fst snd] in *.
  subst ns2. destruct Hspec as [Hbig|_ Hnone|v' rc w2' _ Hsome Hx]; [lia|congruence|].
  rewrite Hkey, Hmap in Hsome. injection Hsome as <-. exists rc. split_and!; [done..|].
  intros ->. pose proof (map_value_length _ _ _ _ _ Hinv Hmap) as Hlen.
  pose proof (c2h_ok dma cmd' (overlaid d (ns_map ns !! ckey cmd))
    (cmd_hbs cmd' `min` NVME_KV_MAX_VAL_SIZE) w') as Hq. unfold wp in Hq.
  rewrite Hx in Hq. apply Hq; [unfold NVME_KV_MAX_VAL_SIZE; lia|done].
Qed.

(** C31: the key comparison of the handlers decides equality of keys: a used slot
    matches a command exactly when both have the same length and the same bytes,
    with the key of the command split over two 8-byte fields. *)
Theorem kv_key_match_iff cmd p :
  0 ≤ cmd_kl cmd ≤ 16 → pair_wf p →
  kv_key_match cmd p = true ↔ p_used p = true ∧ pkey p = ckey cmd.
Proof. apply kv_key_match_spec. Qed.

(** The key written into a slot is the key that is found: after
    [kv_key_store] the slot matches the commands with this key and no others. *)
Theorem kv_key_store_match cmd cmd' p :
  0 ≤ cmd_kl cmd ≤ 16 → 0 ≤ cmd_kl cmd' ≤ 16 → pair_wf p →
  ∃ p', kv_key_store p cmd = Some p' ∧ p_val p' = p_val p ∧ pair_wf p' ∧
        (kv_key_match cmd' p' = true ↔ ckey cmd' = ckey cmd).
Proof.
  intros Hkl Hkl' Hp. destruct (kv_key_store_spec cmd p Hkl Hp)
    as (p' & Hs & Hwf & Hu & Hk & Hv).
  exists p'. split_and!; [done..|]. rewrite kv_key_match_spec, Hk by done.
  split; [by intros [_ ->]|by intros ->].
Qed.

(** C33: growing the slot table, when the limit on keys allows more slots than it has,
    doubles it: every slot stays where it was, so no key is lost, the new slots are
    zeroed, and the slot returned is the first new one.  When the allocation fails
    the namespace is untouched. *)
Theorem kv_grow_table ns ps w :
  kv_ok ns → ns_pairs ns = Some ps → ns_entries_allocated ns < ns_max_num_keys ns →
  wp kv_grow (λ r s', s'.2 = (heap_alloc w).2 ∧
    if (heap_alloc w).1 then
      r = Some (Z.of_nat (length ps)) ∧ kv_ok s'.1 ∧ ns_map s'.1 = ns_map ns ∧
      ns_entries_allocated s'.1 = 2 * ns_entries_allocated ns ∧
      ∃ ps', ns_pairs s'.1 = Some ps' ∧ ps' = ps ++ replicate (length ps) zero_pair
    else r = None ∧ s'.1 = ns) (ns, w).
Proof.
  intros (ps' & id & Hinv) Hps Hroom.
  assert (ps' = ps) as -> by (pose proof (ki_pairs _ _ _ Hinv); congruence).
  pose proof (kv_grow_eq ns w ps id Hinv Hroom) as Hgrow. cbv zeta in Hgrow.
  destruct (kv_inv_grow _ _ _ Hinv Hroom) as (Hinv' & Habs' & _).
  pose proof (ki_len _ _ _ Hinv) as Hlen.
  destruct (heap_alloc w) as [[] w']; cbn [fst snd] in *;
    (eapply wp_run; [exact Hgrow|]); [|done].
  split; [done|]. rewrite Hlen. split_and!; [done|by eexists _, _| |cbn; lia|].
  - cbn [fst]. by rewrite (kv_inv_map _ _ _ Hinv'), (kv_inv_map _ _ _ Hinv).
  - eexists. split; [done|]. by rewrite <-Hlen, Nat2Z.id.
Qed.
End kv_theorems.

(** ** The theorems at a concrete namespace *)

Definition demo_ns : kv_ns := ns_init 4.
Definition demo_cmd : NvmeKVCmd := cast demo_store.
Definition demo_get : NvmeKVCmd := cast demo_retrieve.
Abbreviation demo_dma := (@kvdma flat_vfu zero_uninit demo_vfu).
Definition demo_w : host := demo_host demo_mem.

Lemma demo_ns_ok : kv_ok demo_ns.
Proof. exists (replicate 16 zero_pair), (id_ns_init 4). by apply kv_inv_init. Qed.
Lemma demo_cmd_typed : well_typed demo_cmd.
Proof. by apply decode_well_typed. Qed.
Lemma demo_get_typed : well_typed demo_get.
Proof. by apply decode_well_typed. Qed.

Lemma kv_store_refines_witness :
  wp (kv_store demo_dma demo_cmd) (store_post demo_dma demo_ns demo_w demo_cmd) (demo_ns, demo_w).
Proof. apply (kv_store_refines demo_dma); [apply demo_ns_ok|apply demo_cmd_typed]. Defined.

(** The state after the first STORE of the session. *)
Definition demo_stored : kv_ns * host :=
  match kv_store demo_dma demo_cmd (demo_ns, demo_w) with
  | Done (_, s) => s
  | _ => (demo_ns, demo_w)
  end.

Lemma store_then_retrieve_witness :
  ∃ w0 d, (w0 = demo_w ∨ heap_alloc demo_w = (true, w0)) ∧
    dma_read demo_dma w0 demo_cmd d ∧ Z.of_nat (length d) = 5 ∧
    ns_map demo_stored.1 !! ckey demo_cmd = Some (overlaid d (ns_map demo_ns !! ckey demo_cmd)) ∧
    wp (kv_retrieve demo_dma demo_get) (λ st s', s'.1 = demo_stored.1 ∧
      ∃ rc, c2h demo_dma demo_get (overlaid d (ns_map demo_ns !! ckey demo_cmd)) 5 demo_w =
        Done (rc, s'.2) ∧ st = xfer_status rc ∧
      (rc = 0 → dma_write demo_dma demo_w demo_get
        (take 5 (overlaid d (ns_map demo_ns !! ckey demo_cmd))) s'.2)) (demo_stored.1, demo_w).
Proof.
  destruct (store_then_retrieve demo_dma demo_ns demo_w demo_cmd demo_stored.1 demo_stored.2)
    as (w0 & d & Hw & Hd & Hl & Hm & Hr).
  - apply demo_ns_ok.
  - apply demo_cmd_typed.
  - vm_compute. reflexivity.
  - exists w0, d. split_and!; [exact Hw|exact Hd|exact Hl|exact Hm|].
    apply (Hr demo_get demo_w); [apply demo_get_typed|reflexivity..].
Defined.

(** LIST from the first key, into the page of the session's RETRIEVE, of the namespace
    that now holds one key. *)
Definition demo_list : NvmeKVCmd :=
  Build_NvmeKVCmd NVME_CMD_KV_LIST 0 11 1 0 0 (cmd_prp1 demo_get) 0 4096 0 0 0 0 0 0.
Definition demo_table : list kv_pair := default [] (ns_pairs demo_stored.1).

Lemma demo_stored_ok : kv_ok demo_stored.1.
Proof.
  apply (store_success demo_dma demo_ns demo_w demo_cmd demo_stored.1 demo_stored.2);
    [apply demo_ns_ok|apply demo_cmd_typed|vm_compute; reflexivity].
Qed.

Lemma demo_list_typed : well_typed demo_list.
Proof. repeat constructor; vm_compute; discriminate || reflexivity. Qed.

Lemma kv_list_reply_witness :
  wp (kv_list demo_dma demo_list) (λ st s', s'.1 = demo_stored.1 ∧
    ((st = NVME_CAP_EXCEEDED ∧ ∃ w1, allocs demo_w w1 ∧ heap_alloc w1 = (false, s'.2)) ∨
     ∃ ks w1 src rc,
       let reply := rds_bytes ks in
       allocs demo_w w1 ∧ take (length reply) src = reply ∧
       c2h demo_dma demo_list src (Z.of_nat (length reply)) w1 = Done (rc, s'.2) ∧
       st = xfer_status rc ∧ (rc = 0 → dma_write demo_dma w1 demo_list reply s'.2) ∧
       fills_buffer 4096 ks (list_candidates demo_list demo_table) ∧
       NoDup ks ∧ Forall (λ k, is_Some (ns_map demo_stored.1 !! k)) ks ∧
       (Z.of_nat (length ks) < 2 ^ 16 → Forall (λ k, Nat.Even (length k)) ks →
          rds_parse reply = Some ks))) (demo_stored.1, demo_w).
Proof.
  eapply wp_mono; [apply (kv_list_reply demo_dma demo_stored.1 demo_w demo_list demo_table)|].
  - apply demo_stored_ok.
  - vm_compute. reflexivity.
  - apply demo_list_typed.
  - intros st s' (Hs & _ & Hl). split; [exact Hs|]. apply Hl. discriminate.
Defined.

(** What it sends: the one key of the namespace, which the host reads back. *)
Example demo_list_sends :
  match kv_list demo_dma demo_list (demo_stored.1, demo_w) with
  | Done (st, s') =>
      st = NVME_SUCCESS ∧
      rds_parse (mem_read (h_mem s'.2) (0x10000 + cmd_prp1 demo_list) 16) = Some [ckey demo_cmd]
  | _ => False
  end.
Proof. vm_compute. split; reflexivity. Qed.

(** A slot that holds the key of the demonstration command. *)
Definition demo_pair : kv_pair :=
  {| p_key := take 10 (cmd_key_lo_bytes demo_cmd ++ cmd_key_hi_bytes demo_cmd) ++ zeros 6;
     p_kl := 10; p_val := zeros 4096; p_used := true |}.

Lemma demo_pair_wf : pair_wf demo_pair.
Proof. by split. Qed.

Lemma kv_key_match_iff_witness :
  kv_key_match demo_cmd demo_pair = true ↔ p_used demo_pair = true ∧ pkey demo_pair = ckey demo_cmd.
Proof. apply kv_key_match_iff; [vm_compute; split; discriminate|apply demo_pair_wf]. Defined.

(** A namespace of 32 keys, whose first table has 16 slots. *)
Lemma demo_ns32_ok : kv_ok (ns_init 32).
Proof. exists (replicate 16 zero_pair), (id_ns_init 32). by apply kv_inv_init. Qed.

Lemma kv_grow_table_witness :
  wp kv_grow (λ r s', s'.2 = (heap_alloc demo_w).2 ∧
    if (heap_alloc demo_w).1 then
      r = Some 16 ∧ kv_ok s'.1 ∧ ns_map s'.1 = ns_map (ns_init 32) ∧
      ns_entries_allocated s'.1 = 2 * 16 ∧
      ∃ ps', ns_pairs s'.1 = Some ps' ∧ ps' = replicate 16 zero_pair ++ replicate 16 zero_pair
    else r = None ∧ s'.1 = ns_init 32) (ns_init 32, demo_w).
Proof.
  apply (kv_grow_table (ns_init 32) (replicate 16 zero_pair) demo_w);
    [apply demo_ns32_ok|reflexivity|reflexivity].
Defined.

