(* ===== verification/DmaTheorems.v ===== *)
(** * Theorems about the wire formats and the DMA helpers

    The packed structures of [include/kvssd_nvme_spec.h], the little-endian
    accessors and the "DMA helpers" of [src/nvme.c]. *)

From S2P Require Import Prelude.
From S2P Require Import Bytes.
From S2P Require Import NvmeSpec.
From S2P Require Import Kv.
From S2P Require Import KvTable.
From S2P Require Import KvSpec.
From S2P Require Import Dma.
From S2P Require Import DmaSpec.
From S2P Require Import Ctrl.
From S2P Require Import Admin.
From S2P Require Import Regs.
From S2P Require Import RegsSpec.
From S2P Require Import IoSpec.
From S2P Require Import System.
From S2P Require Import Demo.

(** The little-endian number in the [len] bytes at [off]. *)
Definition num_at (bs : list byte) (off len : nat) : Z := le_val (take len (drop off bs)).

Lemma le_bytes_num_at bs off len :
  (off + len ≤ length bs)%nat → le_bytes len (num_at bs off len) = take len (drop off bs).
Proof.
  intros Hl. rewrite <-(le_bytes_le_val (take len (drop off bs))). f_equal.
  rewrite length_take, length_drop. lia.
Qed.

(** C32: the wire structures have their fields where the specification puts them.  In
    the 64 bytes of a submission entry the opcode is at 0, the command identifier at
    2, the namespace at 4, PRP1 and PRP2 at 24 and 32, CDW10 and CDW11 at 40 and 44;
    the KV command that the cast of the entry gives has the buffer size at 40, the
    key length at 44, the options at 45, and its key is the first bytes of 8 .. 15
    followed by 56 .. 63.  A completion entry is 16 bytes with the result at 0,
    queue head and identifier at 8 and 10, command identifier at 12, status at 14. *)
Theorem command_layout (bs : list byte) (c : NvmeCqe) :
  length bs = 64%nat → well_typed c →
  let s : NvmeSqe := decode bs in
  let k : NvmeKVCmd := cast s in
  (sqe_opcode s = num_at bs 0 1 ∧ sqe_cid s = num_at bs 2 2 ∧ sqe_nsid s = num_at bs 4 4 ∧
   sqe_prp1 s = num_at bs 24 8 ∧ sqe_prp2 s = num_at bs 32 8 ∧
   sqe_cdw10 s = num_at bs 40 4 ∧ sqe_cdw11 s = num_at bs 44 4) ∧
  (cmd_opcode k = num_at bs 0 1 ∧ cmd_prp1 k = num_at bs 24 8 ∧ cmd_prp2 k = num_at bs 32 8 ∧
   cmd_hbs k = num_at bs 40 4 ∧ cmd_kl k = num_at bs 44 1 ∧ cmd_ro k = num_at bs 45 1 ∧
   ckey k = take (Z.to_nat (cmd_kl k)) (take 8 (drop 8 bs) ++ take 8 (drop 56 bs))) ∧
  (length (encode c) = 16%nat ∧ num_at (encode c) 0 4 = cqe_cdw0 c ∧
   num_at (encode c) 8 2 = cqe_sq_head c ∧ num_at (encode c) 10 2 = cqe_sq_id c ∧
   num_at (encode c) 12 2 = cqe_cid c ∧ num_at (encode c) 14 2 = cqe_status c).
Proof.
  intros Hbs Hc s k. assert (Hk : k = decode bs).
  { unfold k, s, cast. by rewrite (encode_decode (T := NvmeSqe)). }
  rewrite Hk. clear k Hk. subst s. split; [|split].
  - explode_list bs. repeat split.
  - split_and!; [explode_list bs; reflexivity..|].
    unfold ckey. do 2 f_equal.
    + transitivity (le_bytes 8 (num_at bs 8 8)); [explode_list bs; reflexivity|].
      apply le_bytes_num_at. lia.
    + transitivity (le_bytes 8 (num_at bs 56 8)); [explode_list bs; reflexivity|].
      apply le_bytes_num_at. lia.
  - repeat (apply Forall2_cons in Hc as [? Hc]). unfold fits in *.
    destruct c. cbn in *.
    split_and!; [done|by apply (le_val_le_bytes_small 4)|by apply (le_val_le_bytes_small 2)..].
Qed.

(** The pointer cast of [nvme_io_kv] reads the KV command out of the generic
    entry: the key is CDW2, CDW3 and CDW14, CDW15, the host buffer size is CDW10,
    key length and options are the two low bytes of CDW11. *)
Theorem cast_is_kv_view (s : NvmeSqe) : well_typed s → (cast s : NvmeKVCmd) = kv_view s.
Proof. apply cast_view. Qed.

(** [rd_le] is the little-endian value of up to eight bytes, and is undefined
    (a shift by 64) on more. *)
Theorem rd_le_value {St : Type} (b : list byte) n (s : St) :
  0 ≤ n ≤ Z.of_nat (length b) →
  rd_le b n s = if n <=? 8 then Done (le_val (take (Z.to_nat n) b), s) else Undef.
Proof.
  intros Hn. destruct (Z.leb_spec n 8); [by apply rd_le_eq; lia|by apply rd_le_long; lia].
Qed.

(** A value written by [wr_le] is read back by [rd_le], truncated to the width,
    and the bytes around it are untouched. *)
Theorem wr_le_rd_le off n v buf :
  0 ≤ off → 0 ≤ n ≤ 8 → off + n ≤ Z.of_nat (length buf) →
  wp (wr_le off n v) (λ _ buf',
    length buf' = length buf ∧ take (Z.to_nat off) buf' = take (Z.to_nat off) buf ∧
    drop (Z.to_nat (off + n)) buf' = drop (Z.to_nat (off + n)) buf ∧
    rd_le (drop (Z.to_nat off) buf') n buf' = Done (v mod 2 ^ (8 * n), buf')) buf.
Proof.
  intros Ho Hn Hl. apply wr_le_wp; [done..|].
  apply copy_in_wp; [done|rewrite length_le_bytes; lia|].
  assert (Hlen : length (le_bytes (Z.to_nat n) v) = Z.to_nat n) by apply length_le_bytes.
  rewrite Hlen. assert (Ht : length (take (Z.to_nat off) buf) = Z.to_nat off)
    by (rewrite length_take; lia).
  rewrite take_app_length', (drop_app_length' _ _ (Z.to_nat off)) by done.
  replace (Z.to_nat (off + n)) with (Z.to_nat off + Z.to_nat n)%nat by lia.
  split_and!; [|done| |].
  - rewrite !length_app, Hlen, Ht, length_drop. lia.
  - rewrite app_assoc, drop_app_length' by (rewrite length_app; lia). done.
  - rewrite rd_le_eq by (rewrite ?length_app; lia).
    rewrite take_app_length', le_val_le_bytes, pow256 by done. do 4 f_equal. lia.
Qed.

Section dma_theorems.
Context `{Uninit} `{VfuOk}.

(** C20: a PRP transfer finishes in success or in -1.  On success it has moved
    exactly [len] bytes, in order, between the buffer and the guest bytes that the
    PRP pair describes (the rest of the first page, then the second page); in any
    case the buffer keeps its size, a transfer to the host leaves the buffer
    alone, and a transfer from the host leaves guest memory alone. *)
Theorem nvme_prp_xfer_moves vfu prp1 prp2 buf len to_host h :
  0 ≤ len ≤ Z.of_nat (length buf) →
  wp (nvme_prp_xfer vfu prp1 prp2 buf len to_host)
    (xfer_post to_host (prp_addrs vfu (prot_of to_host) prp1 prp2 len) buf len h) h.
Proof. apply nvme_prp_xfer_wp. Qed.

(** The same for the transfers of queue entries, which use one contiguous
    guest range. *)
Theorem nvme_gpa_xfer_moves vfu gpa buf len to_host h :
  0 ≤ len ≤ Z.of_nat (length buf) → len < 2 ^ 64 →
  wp (nvme_gpa_xfer vfu gpa buf len to_host)
    (xfer_post to_host (gpa_addrs vfu (prot_of to_host) gpa len) buf len h) h.
Proof. apply nvme_gpa_xfer_wp. Qed.

(** C34: bytes sent to the host and read back through the same PRP pair come back
    unchanged, into the first [len] bytes of the buffer, for a transfer whose bytes
    lie at distinct addresses that may be read and written. *)
Theorem prp_write_read vfu prp1 prp2 len addrs src dst src' dst' h h1 h2 :
  0 ≤ len ≤ Z.of_nat (length src) → len ≤ Z.of_nat (length dst) →
  prp_addrs vfu PROT_WRITE prp1 prp2 len = Some addrs →
  prp_addrs vfu PROT_READ prp1 prp2 len = Some addrs → NoDup addrs →
  nvme_prp_xfer vfu prp1 prp2 src len true h = Done ((0, src'), h1) →
  nvme_prp_xfer vfu prp1 prp2 dst len false h1 = Done ((0, dst'), h2) →
  dst' = take (Z.to_nat len) src ++ drop (Z.to_nat len) dst.
Proof.
  intros Hsrc Hdst Hw Hr Hnd H1x H2x.
  pose proof (nvme_prp_xfer_wp vfu prp1 prp2 src len true h Hsrc) as P1.
  pose proof (nvme_prp_xfer_wp vfu prp1 prp2 dst len false h1 ltac:(lia)) as P2.
  unfold wp in P1, P2. rewrite H1x in P1. rewrite H2x in P2.
  destruct P1 as (_ & _ & _ & _ & _ & P1), P2 as (_ & _ & _ & _ & _ & P2).
  destruct (P1 eq_refl) as (a1 & Ha1 & Hl1 & _ & Hm1), (P2 eq_refl) as (a2 & Ha2 & Hl2 & Hd & _).
  cbn [prot_of fst snd] in *. assert (a1 = addrs) as -> by congruence.
  assert (a2 = addrs) as -> by congruence. rewrite Hd, Hm1.
  rewrite write_addrs_read by (done || rewrite length_take; lia).
  by replace (length addrs) with (Z.to_nat len) by lia.
Qed.

(** C36: a transfer that needs more than the two pages of a PRP pair is refused,
    and moves nothing. *)
Theorem prp_two_pages vfu prp1 prp2 buf len to_host h :
  2 * KVSSD_PAGE_SIZE - Z.land prp1 (KVSSD_PAGE_SIZE - 1) < len →
  wp (nvme_prp_xfer vfu prp1 prp2 buf len to_host)
    (λ r h', r = (-1, buf) ∧ h_mem h' = h_mem h ∧ h_log h' = h_log h) h.
Proof.
  intros Hlen. pose proof (prp_off_range prp1) as Hoff. unfold nvme_prp_xfer, KVSSD_PAGE_SIZE in *.
  destruct (Z.eqb_spec len 0); [lia|]. apply wp_bind. unfold wp at 1, alloc. cbn.
  destruct h as [[|[] o] m l]; cbn; [| |by apply wp_ret];
    (destruct (vfu_addr_to_sgl _ _ _ _ _) as [r sgl];
     destruct (Z.leb_spec r 0); [by apply wp_ret|]; unfold truthy;
     rewrite (proj2 (Z.eqb_neq _ _)) by lia; cbn [negb];
     rewrite (proj2 (Z.ltb_lt _ _)) by lia; by apply wp_ret).
Qed.
End dma_theorems.

(** ** At concrete transfers: five bytes over a page boundary *)

Definition demo_h : host := demo_host ∅.
Definition split_xfer (to_host : bool) (buf : list byte) : M host (Z * list byte) :=
  nvme_prp_xfer demo_vfu 0x1ffe 0x3000 buf 5 to_host.
Definition demo_sent : host :=
  match split_xfer true demo_data demo_h with Done (_, h) => h | _ => demo_h end.
Definition demo_back : host :=
  match split_xfer false (zeros 8) demo_sent with Done (_, h) => h | _ => demo_h end.

Lemma command_layout_witness :
  let s : NvmeSqe := decode (encode demo_store) in
  let k : NvmeKVCmd := cast s in
  sqe_cid s = num_at (encode demo_store) 2 2 ∧
  ckey k = take 10 (take 8 (drop 8 (encode demo_store)) ++ take 8 (drop 56 (encode demo_store))) ∧
  num_at (encode (Build_NvmeCqe 0 0 1 1 9 1)) 14 2 = 1.
Proof.
  destruct (command_layout (encode demo_store) (Build_NvmeCqe 0 0 1 1 9 1)) as (Hs & Hk & Hc).
  - reflexivity.
  - repeat constructor; vm_compute; discriminate || reflexivity.
  - split; [apply Hs|]. split; [apply Hk|apply Hc].
Defined.

Lemma nvme_prp_xfer_moves_witness :
  wp (nvme_prp_xfer demo_vfu 0x1ffe 0x3000 demo_data 5 true)
    (xfer_post true (prp_addrs demo_vfu PROT_WRITE 0x1ffe 0x3000 5) demo_data 5 demo_h) demo_h.
Proof. apply nvme_prp_xfer_moves. vm_compute. split; discriminate. Defined.

Definition split_addrs : list Z := seqZ 0x11ffe 2 ++ seqZ 0x13000 3.

Lemma prp_write_read_witness : demo_data ++ zeros 3 = take 5 demo_data ++ drop 5 (zeros 8).
Proof.
  apply (prp_write_read (demo_vfu : @vfu_ctx_t flat_vfu) 0x1ffe 0x3000 5 split_addrs demo_data (zeros 8)
    demo_data (demo_data ++ zeros 3) demo_h demo_sent demo_back).
  - vm_compute. split; discriminate.
  - vm_compute. discriminate.
  - vm_compute. reflexivity.
  - vm_compute. reflexivity.
  - apply (bool_decide_unpack _). vm_compute. exact I.
  - vm_compute. reflexivity.
  - vm_compute. reflexivity.
Defined.

Lemma prp_two_pages_witness :
  wp (nvme_prp_xfer demo_vfu 0x1ffe 0x3000 (zeros 5000) 5000 true)
    (λ r h', r = (-1, zeros 5000) ∧ h_mem h' = h_mem demo_h ∧ h_log h' = h_log demo_h) demo_h.
Proof. apply prp_two_pages. vm_compute. reflexivity. Defined.
