(* ===== verification/CtrlTheorems.v ===== *)
(** * Theorems about the registers and the controller state machine *)

From S2P Require Import Prelude.
From S2P Require Import Bytes.
From S2P Require Import NvmeSpec.
From S2P Require Import Kv.
From S2P Require Import KvInv.
From S2P Require Import KvSpec.
From S2P Require Import Dma.
From S2P Require Import DmaSpec.
From S2P Require Import Ctrl.
From S2P Require Import Admin.
From S2P Require Import Regs.
From S2P Require Import CtrlInv.
From S2P Require Import RegsSpec.
From S2P Require Import StateSpec.
From S2P Require Import System.
From S2P Require Import Demo.

(** The registers the host may write: offset and width of an access. *)
Definition writable : list (Z * Z) :=
  [(NVME_REG_INTMS, 4); (NVME_REG_INTMC, 4); (NVME_REG_CC, 4); (NVME_REG_AQA, 4);
   (NVME_REG_ASQ, 8); (NVME_REG_ASQ, 4); (NVME_REG_ASQ + 4, 4);
   (NVME_REG_ACQ, 8); (NVME_REG_ACQ, 4); (NVME_REG_ACQ + 4, 4)].

Section ctrl_theorems.
Context `{Uninit} `{VfuOk}.
Implicit Types (n : nvme_ctrl) (h : host).

(** The bytes of a register that was just written. *)
Lemma le_bytes_u32 (b : list byte) : length b = 4%nat → le_bytes 4 (u32 (le_val b)) = b.
Proof.
  intros Hb. unfold u32. change (2 ^ 32) with (256 ^ Z.of_nat 4).
  rewrite le_bytes_mod, <-Hb. apply le_bytes_le_val.
Qed.

Lemma le_bytes_with_lo a (b : list byte) :
  length b = 4%nat → le_bytes 4 (with_lo a (le_val b)) = b.
Proof.
  intros Hb. rewrite <-(le_bytes_u32 b Hb) at 2. unfold with_lo.
  rewrite <-(le_bytes_mod 4 (_ + _)). change (256 ^ Z.of_nat 4) with (2 ^ 32).
  rewrite Z.add_comm, Z.mod_add, Z.mod_mod by done. done.
Qed.

Lemma le_bytes_with_hi a (b : list byte) :
  length b = 4%nat → le_bytes 4 (with_hi a (le_val b) / 2 ^ 32) = b.
Proof.
  intros Hb. rewrite <-(le_bytes_u32 b Hb) at 2. unfold with_hi.
  pose proof (Z.mod_pos_bound a (2 ^ 32)).
  rewrite Z.add_comm, Z.div_add, Z.div_small, Z.add_0_l by lia. done.
Qed.

(** C28: a register reads back what was written to it, byte for byte, for every
    writable register and width. *)
Theorem reg_write_read_back n h offset count buf :
  ctrl_inv n → (offset, count) ∈ writable → Z.of_nat (length buf) = count →
  wp (nvme_reg_write offset buf count;; nvme_reg_read offset count)
    (λ bs s', bs = buf ∧ s'.2 = h ∧ ctrl_inv s'.1) (n, h).
Proof.
  intros Hinv Hw Hl.
  assert (Hrange : 0 ≤ offset ∧ 0 ≤ count ≤ 8 ∧ offset + count ≤ 0x40)
    by (repeat (apply elem_of_cons in Hw as [[= -> ->]|Hw]; [done|]); by apply elem_of_nil in Hw).
  apply wp_bind. eapply wp_run; [apply nvme_reg_write_eq; lia || done|].
  rewrite take_ge by lia.
  eapply wp_run; [apply nvme_reg_read_eq; lia|]. split; [|split; [done|]].
  2:{ apply ctrl_inv_reg_write; [done|]. pose proof (le_val_64 buf count) as Hv.
      rewrite take_ge in Hv by lia. apply Hv. lia. }
  unfold reg_read_result. destruct (Z.leb_spec (offset + count) 0x40); [|lia].
  set (r' := n_regs (reg_write_next n offset (le_val buf) count)).
  destruct (regs_image_fields r') as (F1 & F2 & F3 & F4 & F5 & F6 & F7 & F8 & F9).
  destruct (regs_image_high r') as (F10 & F11).
  assert (H8 : count = 8 → le_bytes 8 (le_val buf) = buf).
  { intros Hc. replace 8%nat with (length buf) by lia. apply le_bytes_le_val. }
  repeat (apply elem_of_cons in Hw as [[= -> ->]|Hw];
    [first [etrans; [exact F1|]|etrans; [exact F2|]|etrans; [exact F3|]|etrans; [exact F5|]
           |etrans; [exact F6|]|etrans; [exact F8|]|etrans; [exact F10|]
           |etrans; [exact F7|]|etrans; [exact F9|]|etrans; [exact F11|]];
     unfold r'; cbn;
     first [apply le_bytes_u32; lia|apply le_bytes_with_lo; lia
           |apply le_bytes_with_hi; lia|by apply H8]|]).
  by apply elem_of_nil in Hw.
Qed.

Lemma asq_writes n v :
  reg_write_next n NVME_REG_ASQ v 8 = n_set_regs n (set_asq (n_regs n) v) ∧
  reg_write_next n NVME_REG_ASQ v 4 =
    n_set_regs n (set_asq (n_regs n) (with_lo (r_asq (n_regs n)) v)) ∧
  reg_write_next n (NVME_REG_ASQ + 4) v 4 =
    n_set_regs n (set_asq (n_regs n) (with_hi (r_asq (n_regs n)) v)).
Proof. done. Qed.

Lemma acq_writes n v :
  reg_write_next n NVME_REG_ACQ v 8 = n_set_regs n (set_acq (n_regs n) v) ∧
  reg_write_next n NVME_REG_ACQ v 4 =
    n_set_regs n (set_acq (n_regs n) (with_lo (r_acq (n_regs n)) v)) ∧
  reg_write_next n (NVME_REG_ACQ + 4) v 4 =
    n_set_regs n (set_acq (n_regs n) (with_hi (r_acq (n_regs n)) v)).
Proof. done. Qed.

(** A driver may program the 64-bit queue addresses in two 32-bit halves: the
    two writes leave the controller in the state of the one 64-bit write. *)
Theorem reg_write_halves n h reg lo hi :
  ctrl_inv n → reg = NVME_REG_ASQ ∨ reg = NVME_REG_ACQ → length lo = 4%nat → length hi = 4%nat →
  (nvme_reg_write reg lo 4;; nvme_reg_write (reg + 4) hi 4) (n, h) =
  nvme_reg_write reg (lo ++ hi) 8 (n, h).
Proof.
  intros Hinv Hreg Hlo Hhi.
  assert (Hl : le_val (lo ++ hi) = le_val lo + le_val hi * 2 ^ 32).
  { rewrite le_val_app, Hlo. change (256 ^ Z.of_nat 4) with (2 ^ 32). lia. }
  pose proof (le_val_range lo) as Rlo. pose proof (le_val_range hi) as Rhi.
  rewrite Hlo in Rlo. rewrite Hhi in Rhi. change (256 ^ Z.of_nat 4) with (2 ^ 32) in *.
  assert (Heq : ∀ a, with_hi (with_lo a (le_val lo)) (le_val hi) = le_val (lo ++ hi)).
  { intros a. unfold with_hi, with_lo. rewrite Hl, (Z.mod_small (le_val lo)) by done.
    rewrite (Z.mod_small (le_val hi)), (Z.add_comm (a / _ * _)), Z.mod_add by done.
    rewrite (Z.mod_small (le_val lo)) by done. lia. }
  assert (T : ∀ l : list byte, length l = 4%nat → take (Z.to_nat 4) l = l)
    by (intros; by apply take_ge; lia).
  rewrite nvme_reg_write_eq by (done || rewrite ?length_app; lia).
  rewrite (take_ge (lo ++ hi)) by (rewrite length_app; lia).
  erewrite bind_done by (apply nvme_reg_write_eq; done || lia).
  rewrite nvme_reg_write_eq; [|by apply ctrl_inv_reg_write, le_val_64|lia..].
  rewrite !T by done.
  destruct Hreg as [-> | ->].
  - pose proof (asq_writes n) as A. rewrite (proj2 (proj2 (asq_writes _ _))).
    rewrite (proj1 (proj2 (A _))), (proj1 (A _)). cbn. by rewrite Heq.
  - pose proof (acq_writes n) as A. rewrite (proj2 (proj2 (acq_writes _ _))).
    rewrite (proj1 (proj2 (A _))), (proj1 (A _)). cbn. by rewrite Heq.
Qed.

(** A register read returns exactly [count] bytes and changes nothing; bytes
    of the register block inside it, zeros when any byte is outside. *)
Theorem reg_read_bytes n h offset count :
  0 ≤ offset → 0 ≤ count → offset + count < 2 ^ 64 →
  wp (nvme_reg_read offset count) (λ bs s', s' = (n, h) ∧ Z.of_nat (length bs) = count ∧
    bs = if offset + count <=? 0x40
         then take (Z.to_nat count) (drop (Z.to_nat offset) (regs_image (n_regs n)))
         else zeros count) (n, h).
Proof.
  intros Ho Hc H64. eapply wp_run; [by apply nvme_reg_read_eq|].
  unfold reg_read_result. split_and!; [done| |done].
  destruct (Z.leb_spec (offset + count) 0x40).
  - rewrite length_take, length_drop, length_regs_image. lia.
  - unfold zeros. rewrite length_replicate. lia.
Qed.

(** The controller is ready exactly while CC.EN is set: whatever value is
    written to CC, afterwards CSTS is RDY as EN says, plus at most "shutdown
    complete", and then only while CC.SHN asks for a shutdown. *)
Theorem cc_write_status n h v :
  ctrl_inv n →
  wp (cc_write v) (λ _ s', s'.2 = h ∧ ctrl_inv s'.1 ∧ r_cc (n_regs s'.1) = u32 v ∧
    let csts := r_csts (n_regs s'.1) in
    Z.testbit csts 0 = cc_en (u32 v) ∧
    (csts = b2z (cc_en (u32 v)) ∨
     cc_shn (u32 v) = true ∧ csts = b2z (cc_en (u32 v)) + NVME_CSTS_SHST_COMPLETE)) (n, h).
Proof.
  intros Hinv. apply cc_write_wp; [done|]. cbv zeta.
  split_and!; [done| |done|apply cc_next_ready|].
  - apply ctrl_inv_cc_next; [done|apply u32_range].
  - apply csts_next_ok.
Qed.

(** C21: enabling: when CC.EN goes up without a new shutdown request, CSTS becomes
    RDY and queue pair 0 is live, empty, with the addresses and sizes that ASQ, ACQ
    and AQA give (sizes from 1 to 4096) and phase 1; other queues are untouched. *)
Theorem cc_write_enable n h v :
  ctrl_inv n → cc_en (r_cc (n_regs n)) = false → cc_en (u32 v) = true →
  (cc_shn (u32 v) = true → cc_shn (r_cc (n_regs n)) = true) →
  wp (cc_write v) (λ _ s', r_csts (n_regs s'.1) = NVME_CSTS_RDY ∧
    n_sq s'.1 !! 0%nat = Some (admin_sq (n_regs n)) ∧
    n_cq s'.1 !! 0%nat = Some (admin_cq (n_regs n)) ∧
    1 ≤ sq_size (admin_sq (n_regs n)) ≤ 4096 ∧ 1 ≤ cq_size (admin_cq (n_regs n)) ≤ 4096 ∧
    ∀ i, i ≠ 0%nat → n_sq s'.1 !! i = n_sq n !! i ∧ n_cq s'.1 !! i = n_cq n !! i) (n, h).
Proof.
  intros Hinv Hold Hen Hshn. apply cc_write_wp; [done|]. destruct Hinv as [[Hs Hc _ _] [] _ _ _].
  unfold cc_next, rises. rewrite Hold, Hen. cbn [negb andb fst].
  assert (cc_shn (u32 v) && negb (cc_shn (r_cc (n_regs n))) = false) as Hr.
  { destruct (cc_shn (u32 v)); [by rewrite Hshn|done]. }
  rewrite Hr. cbn [n_regs n_sq n_cq n_set_regs r_csts set_csts ctrl_up n_set_cq n_set_sq].
  split_and!.
  - unfold csts_next. rewrite Hold, Hen. cbn [eqb andb]. by rewrite orb_false_r, Hr.
  - apply list_lookup_insert_eq. lia.
  - apply list_lookup_insert_eq. lia.
  - apply aqa_size_range. lia.
  - apply aqa_size_range. lia.
  - cbn. apply aqa_size_range. rewrite Z.shiftr_div_pow2 by done.
    split; [apply Z.div_pos; lia|apply Z.div_lt_upper_bound; lia].
  - cbn. apply aqa_size_range. rewrite Z.shiftr_div_pow2 by done.
    split; [apply Z.div_pos; lia|apply Z.div_lt_upper_bound; lia].
  - intros i Hi. by rewrite !list_lookup_insert_ne.
Qed.

(** C22: a new shutdown request, or clearing CC.EN, stops every queue; the request
    is acknowledged with "shutdown complete".  The stored data stay. *)
Theorem cc_write_stops n h v :
  ctrl_inv n →
  rises (cc_shn (r_cc (n_regs n))) (cc_shn (u32 v)) = true ∨
  rises (cc_en (u32 v)) (cc_en (r_cc (n_regs n))) = true →
  wp (cc_write v) (λ _ s', all_down s'.1 ∧ n_ns s'.1 = n_ns n ∧
    (rises (cc_shn (r_cc (n_regs n))) (cc_shn (u32 v)) = true →
     Z.land (r_csts (n_regs s'.1)) NVME_CSTS_SHST_MASK = NVME_CSTS_SHST_COMPLETE)) (n, h).
Proof.
  intros Hinv Hor. apply cc_write_wp; [done|].
  destruct (cc_next_frame n (u32 v)) as (Hns & _). split_and!; [|done|].
  - unfold cc_next. set (n1 := if rises (cc_en _) (cc_en (u32 v)) then _ else _).
    enough (Hd : all_down (if rises (cc_shn (r_cc (n_regs n))) (cc_shn (u32 v))
      then ctrl_down n1 else n1)) by exact Hd.
    destruct Hor as [Hor|Hor]; [rewrite Hor; apply ctrl_down_all|].
    assert (n1 = ctrl_down n) as ->.
    { unfold n1. rewrite Hor. unfold rises in *.
      by destruct (cc_en (u32 v)), (cc_en (r_cc (n_regs n))). }
    case_match; apply ctrl_down_all.
  - unfold cc_next, csts_next, rises. cbn [fst n_regs n_set_regs r_csts set_csts].
    intros [Hs Hs']%andb_true_iff. rewrite Hs, Hs'. cbn [orb andb].
    by destruct (cc_en (u32 v)).
Qed.

(** C23: a controller reset stops every queue and clears every register but CAP and
    VS; namespace, MSI-X region and the invariant survive, and a second reset
    changes nothing. *)
Theorem reset_state n h :
  ctrl_inv n →
  wp (nvme_ctrl_reset) (λ _ s', s'.2 = h ∧ ctrl_inv s'.1 ∧ all_down s'.1 ∧
    n_regs s'.1 = Build_nvme_regs CAP_VALUE 0x00020000 0 0 0 0 0 0 0 ∧
    n_ns s'.1 = n_ns n ∧ n_msix_region s'.1 = n_msix_region n ∧
    nvme_ctrl_reset s' = Done (tt, s')) (n, h).
Proof.
  intros Hinv. pose proof (ctrl_inv_reset n Hinv) as Hr. destruct Hinv as [Hq [] _ _ _].
  eapply wp_run; [by apply nvme_ctrl_reset_eq|]. split_and!; try done.
  - apply ctrl_down_all.
  - unfold ctrl_reset_next. cbn. congruence.
  - rewrite nvme_ctrl_reset_eq by apply Hr. unfold ctrl_reset_next, ctrl_down. cbn.
    by rewrite <-!list_fmap_compose.
Qed.
End ctrl_theorems.

(** ** At the controller of {!Demo} *)

Lemma reg_write_read_back_witness :
  wp (nvme_reg_write NVME_REG_ASQ (le_bytes 8 0x1000) 8;; nvme_reg_read NVME_REG_ASQ 8)
    (λ bs s', bs = le_bytes 8 0x1000 ∧ s'.2 = demo_host ∅ ∧ ctrl_inv s'.1)
    (demo_ctrl, demo_host ∅).
Proof.
  apply reg_write_read_back; [apply demo_inv| |reflexivity].
  apply (bool_decide_unpack _). vm_compute. exact I.
Defined.

Lemma cc_write_enable_witness :
  wp (cc_write 1) (λ _ s', r_csts (n_regs s'.1) = NVME_CSTS_RDY ∧
    n_sq s'.1 !! 0%nat = Some (admin_sq demo_regs) ∧
    n_cq s'.1 !! 0%nat = Some (admin_cq demo_regs) ∧
    1 ≤ sq_size (admin_sq demo_regs) ≤ 4096 ∧ 1 ≤ cq_size (admin_cq demo_regs) ≤ 4096 ∧
    ∀ i, i ≠ 0%nat → n_sq s'.1 !! i = n_sq demo_setup !! i ∧ n_cq s'.1 !! i = n_cq demo_setup !! i)
    (demo_setup, demo_host ∅).
Proof.
  apply (cc_write_enable demo_setup); [apply demo_setup_inv|reflexivity|reflexivity|].
  vm_compute. discriminate.
Defined.

Lemma cc_write_stops_witness :
  wp (cc_write 0x4001) (λ _ s', all_down s'.1 ∧ n_ns s'.1 = n_ns demo_ready ∧
    (rises (cc_shn (r_cc (n_regs demo_ready))) (cc_shn (u32 0x4001)) = true →
     Z.land (r_csts (n_regs s'.1)) NVME_CSTS_SHST_MASK = NVME_CSTS_SHST_COMPLETE))
    (demo_ready, demo_host ∅).
Proof.
  apply (cc_write_stops demo_ready); [apply demo_ready_inv|left; reflexivity].
Defined.

Lemma reset_state_witness :
  wp nvme_ctrl_reset (λ _ s', s'.2 = demo_host ∅ ∧ ctrl_inv s'.1 ∧ all_down s'.1 ∧
    n_regs s'.1 = Build_nvme_regs CAP_VALUE 0x00020000 0 0 0 0 0 0 0 ∧
    n_ns s'.1 = n_ns demo_ready ∧ n_msix_region s'.1 = n_msix_region demo_ready ∧
    nvme_ctrl_reset s' = Done (tt, s')) (demo_ready, demo_host ∅).
Proof. apply reset_state, demo_ready_inv. Defined.
