(* ===== verification/AdminTheorems.v ===== *)
(** * Theorems about the admin commands and the completion queues *)

From Stdlib Require Import Strings.String.
From S2P Require Import Prelude.
From S2P Require Import Bytes.
From S2P Require Import NvmeSpec.
From S2P Require Import Kv.
From S2P Require Import KvTable.
From S2P Require Import KvInv.
From S2P Require Import KvSpec.
From S2P Require Import KvList.
From S2P Require Import Dma.
From S2P Require Import DmaSpec.
From S2P Require Import Ctrl.
From S2P Require Import Admin.
From S2P Require Import Regs.
From S2P Require Import CtrlInv.
From S2P Require Import RegsSpec.
From S2P Require Import StateSpec.
From S2P Require Import AdminSpec.
From S2P Require Import IoSpec.
From S2P Require Import QueueSpec.
From S2P Require Import System.
From S2P Require Import Demo.

(** [nvme_fill_ascii] writes exactly [width] bytes at [dst], the string cut to
    the width or padded with spaces, and no terminator; the bytes around the field
    are untouched. *)
Theorem nvme_fill_ascii_field off s width buf :
  Forall (λ b, b ≠ x00) s → 0 ≤ off → off + Z.of_nat width ≤ Z.of_nat (length buf) →
  wp (nvme_fill_ascii off (s ++ [x00]) (Z.of_nat width)) (λ _ b,
    b = take (Z.to_nat off) buf ++ take width (s ++ replicate width x20) ++
        drop (Z.to_nat off + width) buf) buf.
Proof.
  intros Hs Ho Hl. eapply wp_mono; [by apply nvme_fill_ascii_wp|]. intros _ b ->.
  unfold ascii_field. rewrite take_take. by rewrite Nat.min_id.
Qed.

Section admin_theorems.
Context `{Uninit} `{VfuOk}.
Implicit Types (n : nvme_ctrl) (h : host).

(** C26: Identify answers as the standard lays its pages out, and changes nothing in
    the controller.  A CNS that the table [identify_fields] does not have is refused
    and nothing is done to the host.  For every other CNS the 4096 bytes with the
    fields of the table, and zeros elsewhere, are transferred to the PRP pair; the
    status is success exactly when that transfer succeeds, and then guest memory
    holds the page.  The Identify Controller page gives vendor 1b36h, the first twenty
    characters of the serial number literal, model and firmware padded with spaces,
    version 2.0.0, an I/O controller, entry sizes 64 and 16, one namespace and the
    subsystem NQN; the namespace pages give NSZE as 4112 bytes for each key of the
    capacity and NUSE as 4112 bytes for each key stored. *)
Theorem identify_refines n h sqe :
  kv_ok (n_ns n) →
  wp (nvme_admin_identify sqe) (λ st s', s'.1 = n ∧
    match identify_fields (ns_max_num_keys (n_ns n)) (Z.of_nat (size (ns_map (n_ns n))))
            (Z.land (sqe_cdw10 sqe) 0xff) (Z.land (Z.shiftr (sqe_cdw11 sqe) 24) 0xff) with
    | None => st = NVME_BAD_FIELD ∧ s'.2 = h
    | Some fs => ∃ rc,
        nvme_prp_xfer (n_vfu n) (sqe_prp1 sqe) (sqe_prp2 sqe) (page_of fs) 4096 true h =
          Done ((rc, page_of fs), s'.2) ∧
        st = (if rc =? 0 then NVME_SUCCESS else NVME_BAD_FIELD) ∧
        (rc = 0 → ∃ addrs,
          prp_addrs (n_vfu n) PROT_WRITE (sqe_prp1 sqe) (sqe_prp2 sqe) 4096 = Some addrs ∧
          h_mem s'.2 = write_addrs (h_mem h) addrs (page_of fs))
    end) (n, h).
Proof.
  intros Hok. eapply wp_mono; [by apply nvme_admin_identify_wp|]. by intros st s' (? & _ & ?).
Qed.

(** Creating a completion queue refuses identifier 0 and those from 64 on, and
    otherwise installs an empty enabled queue with phase 1, changing nothing else;
    the invariant is kept. *)
Theorem create_cq_effect n h sqe :
  well_typed sqe → ctrl_inv n → r_csts (n_regs n) = NVME_CSTS_RDY →
  wp (nvme_admin_create_cq sqe) (λ st s', admin_post n h s' ∧
    (st, s') = if bad_qid (sqe_qid sqe) then (INVALID_QID, (n, h))
               else (NVME_SUCCESS,
                     (n_set_cq n (<[Z.to_nat (sqe_qid sqe) := new_cq sqe]> (n_cq n)), h))) (n, h).
Proof. intros. by apply nvme_admin_create_cq_wp. Qed.

(** C29: creating a submission queue refuses bad identifiers and a completion queue
    that is not enabled, and otherwise installs an empty enabled queue bound to
    that completion queue. *)
Theorem create_sq_effect n h sqe :
  well_typed sqe → ctrl_inv n → r_csts (n_regs n) = NVME_CSTS_RDY →
  wp (nvme_admin_create_sq sqe) (λ st s', admin_post n h s' ∧
    (st, s') = if bad_qid (sqe_qid sqe) || (NVME_MAX_QUEUES <=? sqe_hi11 sqe) ||
                  negb (cq_is_enabled n (sqe_hi11 sqe)) then (INVALID_QID, (n, h))
               else (NVME_SUCCESS,
                     (n_set_sq n (<[Z.to_nat (sqe_qid sqe) := new_sq sqe]> (n_sq n)), h))) (n, h).
Proof. intros. by apply nvme_admin_create_sq_wp. Qed.

(** A queue deleted after its creation is disabled again, and the admin queues,
    the registers and the data are what they were before. *)
Theorem create_delete_sq n h create del :
  well_typed create → ctrl_inv n → r_csts (n_regs n) = NVME_CSTS_RDY → sqe_qid create = sqe_qid del →
  wp (st ← nvme_admin_create_sq create; st' ← nvme_admin_delete_sq del; mret (st, st'))
    (λ r s', admin_frame n s'.1 ∧ ctrl_inv s'.1 ∧ (r.1 = NVME_SUCCESS → r.2 = NVME_SUCCESS ∧
       ∃ q, n_sq s'.1 !! Z.to_nat (sqe_qid del) = Some q ∧ sq_enabled q = false)) (n, h).
Proof.
  intros Hwt Hinv Hready Hq. apply wp_bind.
  eapply wp_mono; [by apply nvme_admin_create_sq_wp|].
  intros st [n1 h1] [(Hinv1 & Hf1 & Hh1) Hst]. cbn [fst snd] in *. apply wp_bind.
  assert (Hready1 : r_csts (n_regs n1) = NVME_CSTS_RDY) by (by rewrite (af_regs _ _ Hf1)).
  eapply wp_mono; [by apply nvme_admin_delete_sq_wp|].
  intros st' [n2 h2] [(Hinv2 & Hf2 & _) Hst']. apply wp_ret. cbn [fst snd] in *.
  split_and!; [|done|].
  - destruct Hf1, Hf2. split; congruence.
  - intros ->. rewrite Hq in Hst. destruct (bad_qid (sqe_qid del)) eqn:Hb; [done|].
    injection Hst' as -> -> ->. split; [done|]. cbn.
    pose proof (qid_ok del Hb). pose proof (qw_sqs _ (ci_queues _ Hinv1)).
    destruct (lookup_lt_is_Some_2 (n_sq n1) (Z.to_nat (sqe_qid del))) as [q Hlk]; [lia|].
    exists (sq_set_enabled q false). by rewrite list_lookup_alter_eq, Hlk.
Qed.

(** C30: Set Features keeps EDNEK and Get Features returns it; for Number of Queues
    each field of the answer is the field asked for, at most 62 (the fields are
    0-based: at most 63 queues of each kind are granted); every other feature is
    accepted without effect. *)
Theorem features_roundtrip n h sqe sqe' :
  let fid := Z.land (sqe_cdw10 sqe) 0xff in
  Z.land (sqe_cdw10 sqe') 0xff = fid →
  wp (r ← nvme_admin_set_features sqe 0; r' ← nvme_admin_get_features sqe' 0; mret (r, r'))
    (λ r s', r.1.1 = NVME_SUCCESS ∧ r.2.1 = NVME_SUCCESS ∧ s'.2 = h ∧
       s'.1 = (if fid =? NVME_FEAT_KV_EDNEK
               then n_set_ns n (ns_set_ednek (n_ns n) (sqe_cdw11 sqe)) else n) ∧
       (fid = NVME_FEAT_KV_EDNEK → r.2.2 = sqe_cdw11 sqe) ∧
       (fid = NVME_FEAT_NUM_QUEUES →
          r.1.2 mod 2 ^ 16 = Z.land (sqe_cdw11 sqe) 0xffff `min` 62 ∧
          r.1.2 / 2 ^ 16 = Z.land (Z.shiftr (sqe_cdw11 sqe) 16) 0xffff `min` 62)) (n, h).
Proof.
  intros fid Hfid. unfold nvme_admin_set_features, nvme_admin_get_features. rewrite Hfid.
  fold fid. destruct (Z.eqb_spec fid NVME_FEAT_NUM_QUEUES) as [->|H1'].
  - wp_steps. split_and!; [done..|discriminate|]. intros _. cbn [fst snd].
    change (NVME_MAX_QUEUES - 2) with 62.
    pose proof (land16_range (sqe_cdw11 sqe)) as Ra.
    pose proof (land16_range (Z.shiftr (sqe_cdw11 sqe) 16)) as Rb.
    set (a := Z.land (sqe_cdw11 sqe) 0xffff `min` 62).
    set (b := Z.land (Z.shiftr (sqe_cdw11 sqe) 16) 0xffff `min` 62).
    assert (0 ≤ a ≤ 62 ∧ 0 ≤ b ≤ 62) as [Ha Hb] by lia.
    rewrite Z.shiftl_mul_pow2, u32_small by lia.
    rewrite Z.lor_comm, <-Z.shiftl_mul_pow2, lor_shiftl_add by lia.
    rewrite Z.mod_add, Z.div_add by done. rewrite Z.mod_small, Z.div_small by lia. lia.
  - destruct (Z.eqb_spec fid NVME_FEAT_KV_EDNEK) as [H2'|H2']; wp_steps;
      split_and!; try done; intros; by destruct H1'.
Qed.
End admin_theorems.

(** ** At the enabled controller of {!Demo} *)

Lemma demo_ready_ns : kv_ok (n_ns demo_ready).
Proof. apply demo_ready_inv. Qed.

(** Identify, CNS 05h, the KV command set, page at [0x5000]. *)
Definition demo_identify : NvmeSqe :=
  Build_NvmeSqe NVME_ADM_IDENTIFY 0 3 1 0 0 0 0x5000 0 5 0x01000000 0 0 0 0.
Definition demo_delete_sq : NvmeSqe :=
  Build_NvmeSqe NVME_ADM_DELETE_SQ 0 9 0 0 0 0 0 0 1 0 0 0 0 0.
Definition demo_set_ednek : NvmeSqe :=
  Build_NvmeSqe NVME_ADM_SET_FEATURES 0 4 0 0 0 0 0 0 0x20 1 0 0 0 0.
Definition demo_get_ednek : NvmeSqe :=
  Build_NvmeSqe NVME_ADM_GET_FEATURES 0 5 0 0 0 0 0 0 0x20 0 0 0 0 0.

Lemma identify_refines_witness :
  wp (nvme_admin_identify demo_identify) (λ st s', s'.1 = demo_ready ∧
    match identify_fields (ns_max_num_keys (n_ns demo_ready))
            (Z.of_nat (size (ns_map (n_ns demo_ready))))
            (Z.land (sqe_cdw10 demo_identify) 0xff)
            (Z.land (Z.shiftr (sqe_cdw11 demo_identify) 24) 0xff) with
    | None => st = NVME_BAD_FIELD ∧ s'.2 = demo_host ∅
    | Some fs => ∃ rc,
        nvme_prp_xfer (n_vfu demo_ready) 0x5000 0 (page_of fs) 4096 true (demo_host ∅) =
          Done ((rc, page_of fs), s'.2) ∧
        st = (if rc =? 0 then NVME_SUCCESS else NVME_BAD_FIELD) ∧
        (rc = 0 → ∃ addrs,
          prp_addrs (n_vfu demo_ready) PROT_WRITE 0x5000 0 4096 = Some addrs ∧
          h_mem s'.2 = write_addrs ∅ addrs (page_of fs))
    end) (demo_ready, demo_host ∅).
Proof. apply (identify_refines demo_ready (demo_host ∅) demo_identify), demo_ready_ns. Defined.

Lemma create_sq_effect_witness :
  wp (nvme_admin_create_sq demo_create_sq) (λ st s', admin_post demo_ready (demo_host ∅) s' ∧
    (st, s') = if bad_qid (sqe_qid demo_create_sq) ||
                  (NVME_MAX_QUEUES <=? sqe_hi11 demo_create_sq) ||
                  negb (cq_is_enabled demo_ready (sqe_hi11 demo_create_sq))
               then (INVALID_QID, (demo_ready, demo_host ∅))
               else (NVME_SUCCESS,
                     (n_set_sq demo_ready (<[Z.to_nat (sqe_qid demo_create_sq) :=
                        new_sq demo_create_sq]> (n_sq demo_ready)), demo_host ∅)))
    (demo_ready, demo_host ∅).
Proof. apply create_sq_effect; [apply demo_typed|apply demo_ready_inv|apply demo_ready_csts]. Defined.

Lemma features_roundtrip_witness :
  wp (r ← nvme_admin_set_features demo_set_ednek 0;
      r' ← nvme_admin_get_features demo_get_ednek 0; mret (r, r'))
    (λ r s', r.1.1 = NVME_SUCCESS ∧ r.2.1 = NVME_SUCCESS ∧ s'.2 = demo_host ∅ ∧
       s'.1 = n_set_ns demo_ready (ns_set_ednek (n_ns demo_ready) 1) ∧
       (0x20 = NVME_FEAT_KV_EDNEK → r.2.2 = 1) ∧
       (0x20 = NVME_FEAT_NUM_QUEUES → r.1.2 mod 2 ^ 16 = 1 `min` 62 ∧ r.1.2 / 2 ^ 16 = 0 `min` 62))
    (demo_ready, demo_host ∅).
Proof.
  apply (features_roundtrip demo_ready (demo_host ∅) demo_set_ednek demo_get_ednek). reflexivity.
Defined.
