(* ===== verification/QueueTheorems.v ===== *)
(** * Theorems about the queue engine *)

From S2P Require Import Prelude.
From S2P Require Import Bytes.
From S2P Require Import NvmeSpec.
From S2P Require Import Kv.
From S2P Require Import KvTable.
From S2P Require Import KvInv.
From S2P Require Import KvSpec.
From S2P Require Import KvList.
From S2P Require Import Dma.
From S2P Require Import DmaSpec.
From S2P Require Import Ctrl.
From S2P Require Import Admin.
From S2P Require Import Regs.
From S2P Require Import CtrlInv.
From S2P Require Import RegsSpec.
From S2P Require Import StateSpec.
From S2P Require Import AdminSpec.
From S2P Require Import IoSpec.
From S2P Require Import QueueSpec.
From S2P Require Import Keeps.
From S2P Require Import Progress.
From S2P Require Import System.
From S2P Require Import Demo.

Section queue_theorems.
Context `{Uninit} `{VfuOk}.
Implicit Types (n : nvme_ctrl) (h : host).

(** Posting a completion to an enabled queue sends the 16-byte entry (command
    result, queue head and identifier, command identifier, status with the phase
    tag) to the slot of the tail, advances the tail, and fires the queue's
    interrupt vector; a queue that is not enabled is left alone. *)
Theorem post_cqe_effect n h cqid sqid sq_head cid cdw0 status cq :
  ctrl_inv n → 0 ≤ cqid < 64 → n_cq n !! Z.to_nat cqid = Some cq →
  wp (nvme_post_cqe cqid sqid sq_head cid cdw0 status) (λ _ s', ctrl_inv s'.1 ∧
    post_spec n h cqid cq (cqe_of cq sqid sq_head cid cdw0 status) s') (n, h).
Proof.
  intros Hinv Hcqid Hcq. eapply wp_mono; [apply nvme_post_cqe_wp; [apply Hinv|done..]|].
  intros u s' Hp. split; [exact (post_spec_inv _ _ _ _ _ _ Hinv Hcq Hp)|done].
Qed.

(** For a completion queue of fewer than 65536 entries, the slot and the phase
    tag follow the number [k] of entries posted: slot [k mod size], phase inverted
    on every pass, which is how the host finds new entries. *)
Theorem post_cqe_ring n h cqid sqid sq_head cid cdw0 status cq k :
  ctrl_inv n → 0 ≤ cqid < 64 → n_cq n !! Z.to_nat cqid = Some cq → cq_enabled cq = true →
  cq_size cq < 2 ^ 16 → 0 ≤ k → ring_state (cq_size cq) cq k →
  wp (nvme_post_cqe cqid sqid sq_head cid cdw0 status) (λ _ s',
    ∃ cq', n_cq s'.1 !! Z.to_nat cqid = Some cq' ∧ ring_state (cq_size cq) cq' (k + 1))
    (n, h).
Proof.
  intros Hinv Hcqid Hcq Hen Hsz Hk Hring. pose proof (ci_queues _ Hinv) as Hq.
  pose proof (Forall_lookup_1 _ _ _ _ (qw_cq _ Hq) Hcq) as Hwf.
  pose proof (cw_tail _ Hwf) as Ht. pose proof (cw_enabled _ Hwf) as Hlt.
  specialize (Hlt Hen). eapply wp_mono; [by apply nvme_post_cqe_wp|].
  intros u s' [Hdis|rc h1 _ _ _]; [congruence|]. exists (cq_advance cq). split.
  - apply list_lookup_insert_eq. rewrite (qw_cqs _ Hq). lia.
  - apply ring_state_advance; [lia|done..].
Qed.

(** C38: with 65536 entries, a size that queue creation accepts, the phase tag never
    changes: after the first pass the host cannot tell new entries from old. *)
Theorem post_cqe_65536 n h cqid sqid sq_head cid cdw0 status cq :
  ctrl_inv n → 0 ≤ cqid < 64 → n_cq n !! Z.to_nat cqid = Some cq → cq_size cq = 2 ^ 16 →
  wp (nvme_post_cqe cqid sqid sq_head cid cdw0 status) (λ _ s',
    ∃ cq', n_cq s'.1 !! Z.to_nat cqid = Some cq' ∧ cq_phase cq' = cq_phase cq ∧
           cq_size cq' = 2 ^ 16) (n, h).
Proof.
  intros Hinv Hcqid Hcq Hsz. pose proof (ci_queues _ Hinv) as Hq.
  eapply wp_mono; [by apply nvme_post_cqe_wp|]. intros u s' [Hdis|rc h1 _ _ _]; cbn.
  - by exists cq.
  - exists (cq_advance cq). rewrite cq_advance_65536 by done. split_and!; [|done|].
    + apply list_lookup_insert_eq. rewrite (qw_cqs _ Hq). lia.
    + unfold cq_advance. by case_match.
Qed.

(** C7: with the tail inside the queue the engine ends, within as many iterations
    as the queue has entries, and without undefined behaviour; it has consumed the
    entries from the head on, one after the other ([sq_entry]), and stops at the
    tail unless a fetch fails. *)
Theorem process_sq_drains n h qid sq fuel :
  ctrl_inv n → 0 ≤ qid < 64 → n_sq n !! Z.to_nat qid = Some sq → sq_enabled sq = true →
  sq_tail sq < sq_size sq → sq_size sq ≤ Z.of_nat fuel →
  wp (nvme_process_sq fuel qid) (λ _ s', ctrl_inv s'.1 ∧
    ∃ k s1, nsteps (sq_entry qid) k (n, h) s1 ∧ s1.1 = s'.1 ∧
      let sq' := sq_set_head sq ((sq_head sq + Z.of_nat k) mod sq_size sq) in
      n_sq s'.1 !! Z.to_nat qid = Some sq' ∧
      (s1 = s' ∧ sq_head sq' = sq_tail sq ∨
       ∃ b, fetch (n_vfu n) sq' s1.2 = Done ((-1, b), s'.2))) (n, h).
Proof.
  intros Hinv Hqid Hsq Hen Htl Hfuel. apply wp_of_safe.
  - unfold nvme_process_sq. apply safe_bind, wp_safe.
    apply get_sq_wp; [apply Hinv|done|]. rewrite Hsq. intros ? [= <-] _. rewrite Hen.
    cbn [negb]. eapply safe_mono; [by apply sq_loop_safe|]. intros u s' Hl.
    split; [apply Hl|apply Hl].
  - by eapply process_sq_ends.
Qed.

(** C6: one iteration of the engine on an I/O queue with pending entries.  It fetches
    the 64 bytes at the head of the queue, whatever they are.  When the fetch fails
    it stops and has changed nothing in the controller.  Otherwise it goes on: the
    head has moved on by one entry, modulo the size of the queue, the command that
    the bytes encode has been executed, by one step of the abstract machine, and one
    completion with its status and identifier and the new head has been posted to
    the completion queue of the queue. *)
Theorem sq_step_refines n h qid sq :
  ctrl_inv n → 0 < qid < 64 → n_sq n !! Z.to_nat qid = Some sq → sq_enabled sq = true →
  sq_head sq ≠ sq_tail sq →
  let head := (sq_head sq + 1) mod sq_size sq in
  ∃ rc b h1,
    fetch (n_vfu n) sq h = Done ((rc, b), h1) ∧ (rc = 0 ∨ rc = -1) ∧
    xfer_post false (gpa_addrs (n_vfu n) PROT_READ (u64 (sq_dma sq + sq_head sq * 64)) 64)
      (uninit <$> seqZ 0 64) 64 h (rc, b) h1 ∧
    wp (sq_step qid) (λ more s',
      if rc =? 0 then more = true ∧ ∃ st n2 h2 cq,
        io_post (n_set_sq n (<[Z.to_nat qid := sq_set_head sq head]> (n_sq n))) h1
          (cast (decode b : NvmeSqe)) st (n2, h2) ∧
        n_cq n2 !! Z.to_nat (sq_cqid sq) = Some cq ∧
        post_spec n2 h2 (sq_cqid sq) cq (cqe_of cq qid head (sqe_cid (decode b)) 0 st) s'
      else more = false ∧ s' = (n, h1)) (n, h).
Proof.
  intros Hinv Hqid Hsq Hen Hne head.
  pose proof (Forall_lookup_1 _ _ _ _ (qw_sq _ (ci_queues _ Hinv)) Hsq) as Hwf.
  destruct (fetch_ok (n_vfu n) sq h) as (rc & b & h1 & Hf & Hrc & _ & _ & Hx).
  exists rc, b, h1. split_and!; [done..|].
  eapply wp_mono; [apply sq_step_wp; [done|lia|done..]|]. intros more s' Hp.
  assert (Hentry : more = true → ∃ b1 h1' st n2 h2 cq,
    fetch (n_vfu n) sq h = Done ((0, b1), h1') ∧
    io_post (n_set_sq n (<[Z.to_nat qid := sq_next sq]> (n_sq n))) h1'
      (cast (decode b1 : NvmeSqe)) st (n2, h2) ∧
    n_cq n2 !! Z.to_nat (sq_cqid sq) = Some cq ∧
    post_spec n2 h2 (sq_cqid sq) cq
      (cqe_of cq qid (sq_head (sq_next sq)) (sqe_cid (decode b1)) 0 st) s').
  { intros Hmore.
    destruct (io_entry_done n h qid s' Hinv Hqid (sp_entry _ _ _ _ _ _ Hp Hmore Hne))
      as (cqe & mid & [sq' b1 h1' st n2 h2 cq s1 Hsq' _ Hf' _ Hio Hcq -> Hpost]).
    simplify_eq. by exists b1, h1', st, n2, h2, cq. }
  rewrite (sq_next_head sq Hwf (sw_enabled _ Hwf Hen)) in Hentry.
  destruct Hrc as [-> | ->]; cbn.
  - pose proof (sp_more _ _ _ _ _ _ Hp _ _ Hf) as ->. split; [done|].
    destruct Hentry as (b1 & h1' & st & n2 & h2 & cq & Hf' & Hrest); [done|].
    rewrite Hf in Hf'. injection Hf' as <- <-. by exists st, n2, h2, cq.
  - destruct more.
    { destruct Hentry as (? & ? & ? & ? & ? & ? & Hf' & _); [done|]. congruence. }
    destruct (sp_stop _ _ _ _ _ _ Hp eq_refl) as (b' & Hf' & Hn). split; [done|].
    destruct s' as [n' h']. cbn in *. congruence.
Qed.

(** C25: a tail doorbell outside the queue hangs the device: if the entries can be
    fetched, the engine never comes back from the admin queue, whatever the number
    of iterations. *)
Theorem process_sq_diverges n h sq fuel :
  ctrl_inv n → n_sq n !! 0%nat = Some sq → sq_enabled sq = true → sq_size sq ≤ sq_tail sq →
  h_heap h = [] →
  (∀ hd h, 0 ≤ hd < sq_size sq → h_heap h = [] →
     ∃ b h1, fetch (n_vfu n) (sq_set_head sq hd) h = Done ((0, b), h1)) →
  nvme_process_sq fuel 0 (n, h) = OutOfFuel.
Proof.
  intros Hinv Hsq Hen Htl Hheap Hfetch. unfold nvme_process_sq. rewrite bind_run.
  change (get_sq 0) with (get_sq (Z.of_nat 0)). rewrite (get_sq_eq n h 0 sq Hsq), Hen. cbn [negb].
  by apply (sq_loop_diverges fuel n h sq).
Qed.
End queue_theorems.

(** ** At the queues of {!Demo} *)

Definition demo_cq0 : nvme_cq := admin_cq demo_regs.
Definition demo_sq0 : nvme_sq := admin_sq demo_regs.

(** Completion queue 1 created with size field FFFFh. *)
Definition demo_create_big : NvmeSqe :=
  Build_NvmeSqe NVME_ADM_CREATE_CQ 0 7 0 0 0 0 0x4000 0 0xffff0001 0x00010003 0 0 0 0.
Definition demo_big : nvme_ctrl :=
  n_set_cq demo_ready (<[1%nat := new_cq demo_create_big]> (n_cq demo_ready)).

Lemma demo_create_big_typed : well_typed demo_create_big.
Proof. repeat constructor; vm_compute; discriminate || reflexivity. Qed.

Lemma demo_big_inv : ctrl_inv demo_big.
Proof.
  apply (ctrl_inv_set_cq demo_ready 1 cq_zero);
    [apply demo_ready_inv|reflexivity|apply new_cq_wf, demo_create_big_typed|by right].
Qed.

Lemma post_cqe_65536_witness :
  wp (nvme_post_cqe 1 1 1 7 0 NVME_SUCCESS) (λ _ s',
    ∃ cq', n_cq s'.1 !! 1%nat = Some cq' ∧ cq_phase cq' = 1 ∧ cq_size cq' = 2 ^ 16)
    (demo_big, demo_host ∅).
Proof.
  apply (post_cqe_65536 demo_big (demo_host ∅) 1 1 1 7 0 NVME_SUCCESS (new_cq demo_create_big));
    [apply demo_big_inv|lia|reflexivity|reflexivity].
Defined.

(** The admin queue with its tail at [t]. *)
Definition demo_rung (t : Z) : nvme_ctrl :=
  n_set_sq demo_ready (<[0%nat := sq_set_tail demo_sq0 (u16 t)]> (n_sq demo_ready)).

Lemma demo_rung_inv t : ctrl_inv (demo_rung t).
Proof. apply ctrl_inv_set_tail; [apply demo_ready_inv|reflexivity]. Qed.

Lemma process_sq_drains_witness :
  wp (nvme_process_sq 4 0) (λ _ s', ctrl_inv s'.1 ∧
    ∃ k s1, nsteps (sq_entry 0) k (demo_rung 2, demo_host demo_mem) s1 ∧ s1.1 = s'.1 ∧
      let sq' := sq_set_head (sq_set_tail demo_sq0 2) ((0 + Z.of_nat k) mod 4) in
      n_sq s'.1 !! 0%nat = Some sq' ∧
      (s1 = s' ∧ sq_head sq' = 2 ∨
       ∃ b, fetch (n_vfu (demo_rung 2)) sq' s1.2 = Done ((-1, b), s'.2)))
    (demo_rung 2, demo_host demo_mem).
Proof.
  apply (process_sq_drains (demo_rung 2) (demo_host demo_mem) 0 (sq_set_tail demo_sq0 2) 4);
    [apply demo_rung_inv|lia|reflexivity|reflexivity|reflexivity|].
  vm_compute. discriminate.
Defined.

Lemma process_sq_diverges_witness :
  nvme_process_sq 1000 0 (demo_rung 9, demo_host demo_mem) = OutOfFuel.
Proof.
  apply (process_sq_diverges (demo_rung 9) (demo_host demo_mem) (sq_set_tail demo_sq0 9));
    [apply demo_rung_inv|reflexivity|reflexivity|vm_compute; discriminate|reflexivity|].
  intros hd h Hhd Hh. change (sq_size (sq_set_tail demo_sq0 9)) with 4 in Hhd.
  apply (flat_fetch demo_vfu); [..|exact Hh]; unfold sq_slot; cbn; rewrite u64_small; cbn; lia.
Defined.

(** I/O queue pair 1, with the two commands of the session pending. *)
Definition demo_io : nvme_ctrl :=
  let n := n_set_cq demo_ready (<[1%nat := new_cq demo_create_cq]> (n_cq demo_ready)) in
  n_set_sq n (<[1%nat := sq_set_tail (new_sq demo_create_sq) (u16 2)]> (n_sq n)).

Lemma demo_io_inv : ctrl_inv demo_io.
Proof.
  unfold demo_io. eapply (ctrl_inv_set_sq _ 1 sq_zero);
    [|reflexivity|apply sq_wf_set_tail, new_sq_wf; [apply demo_typed|reflexivity]|by right].
  apply (ctrl_inv_set_cq demo_ready 1 cq_zero);
    [apply demo_ready_inv|reflexivity|apply new_cq_wf, demo_typed|by right].
Qed.

Lemma sq_step_refines_witness :
  let sq := sq_set_tail (new_sq demo_create_sq) (u16 2) in
  ∃ rc b h1,
    fetch (n_vfu demo_io) sq (demo_host demo_mem) = Done ((rc, b), h1) ∧
    (rc = 0 ∨ rc = -1) ∧
    xfer_post false (gpa_addrs (n_vfu demo_io) PROT_READ 0x3000 64)
      (uninit <$> seqZ 0 64) 64 (demo_host demo_mem) (rc, b) h1 ∧
    wp (sq_step 1) (λ more s',
      if rc =? 0 then more = true ∧ ∃ st n2 h2 cq,
        io_post (n_set_sq demo_io (<[1%nat := sq_set_head sq 1]> (n_sq demo_io))) h1
          (cast (decode b : NvmeSqe)) st (n2, h2) ∧
        n_cq n2 !! 1%nat = Some cq ∧
        post_spec n2 h2 1 cq (cqe_of cq 1 1 (sqe_cid (decode b)) 0 st) s'
      else more = false ∧ s' = (demo_io, h1)) (demo_io, demo_host demo_mem).
Proof.
  apply (sq_step_refines demo_io (demo_host demo_mem) 1
    (sq_set_tail (new_sq demo_create_sq) (u16 2)));
    [apply demo_io_inv|lia|reflexivity|reflexivity|vm_compute; discriminate].
Defined.
