(* ===== verification/HostTheorems.v ===== *)
(** * Theorems about the host's view of the queues *)

From S2P Require Import Prelude.
From S2P Require Import Bytes.
From S2P Require Import NvmeSpec.
From S2P Require Import Kv.
From S2P Require Import KvTable.
From S2P Require Import KvInv.
From S2P Require Import KvSpec.
From S2P Require Import KvList.
From S2P Require Import Dma.
From S2P Require Import DmaSpec.
From S2P Require Import Ctrl.
From S2P Require Import Admin.
From S2P Require Import Regs.
From S2P Require Import Keeps.
From S2P Require Import CtrlInv.
From S2P Require Import RegsSpec.
From S2P Require Import StateSpec.
From S2P Require Import AdminSpec.
From S2P Require Import IoSpec.
From S2P Require Import QueueSpec.
From S2P Require Import Progress.
From S2P Require Import HostRing.
From S2P Require Import System.
From S2P Require Import Demo.
From S2P Require Import QueueTheorems.

Section host_theorems.
Context `{Uninit} `{VfuOk}.
Implicit Types (n : nvme_ctrl) (h : host).

(** The write of [t] to the tail doorbell of queue [qid]. *)
Lemma tail_doorbell n h qid sq t fuel Q :
  ctrl_inv n → 0 ≤ qid < 64 → n_sq n !! Z.to_nat qid = Some sq → 0 ≤ t < 2 ^ 16 →
  wp (nvme_process_sq fuel qid) (λ _ s', Q (4, le_bytes 4 t) s')
    (n_set_sq n (<[Z.to_nat qid := sq_set_tail sq t]> (n_sq n)), h) →
  wp (nvme_bar0_access fuel (le_bytes 4 t) 4 (NVME_REG_DOORBELL + 8 * qid) true) Q (n, h).
Proof.
  intros Hinv Hqid Hsq Ht Hp. unfold nvme_bar0_access.
  destruct (Z.leb_spec NVME_REG_DOORBELL (NVME_REG_DOORBELL + 8 * qid)); [|lia].
  apply wp_bind. eapply wp_run; [apply rd_le_eq; [lia|by rewrite length_le_bytes]|].
  rewrite take_ge by (by rewrite length_le_bytes). cbv zeta.
  rewrite le_val_le_bytes_small by (change (256 ^ Z.of_nat 4) with (2 ^ 32); lia).
  replace (NVME_REG_DOORBELL + 8 * qid - NVME_REG_DOORBELL) with (qid * 2 * 4) by lia.
  rewrite !Z.div_mul, (u16_small qid), u32_small, (u16_small t) by lia.
  assert (truthy (Z.land (qid * 2) 1) = false) as ->.
  { unfold truthy. rewrite land1_mod, Z.mod_mul by done. done. }
  destruct (Z.ltb_spec qid NVME_MAX_QUEUES); [|unfold NVME_MAX_QUEUES in *; lia].
  apply wp_bind, wp_bind, get_sq_wp; [apply Hinv|done|]. rewrite Hsq. intros ? [= <-] _.
  apply wp_bind, put_sq_wp; [apply Hinv|done|]. eapply wp_mono; [done|].
  intros u s' HQ. by apply wp_ret.
Qed.

(** A live queue whose tail doorbell is about to be written. *)
Lemma io_live_ring n h qid sq cq t :
  io_live qid n h sq cq → 0 ≤ qid < 64 → 0 ≤ t < sq_size sq →
  io_live qid (n_set_sq n (<[Z.to_nat qid := sq_set_tail sq t]> (n_sq n))) h (sq_set_tail sq t) cq.
Proof.
  intros [Hinv Hsq Hen Hcq Hcen _ Hheap Hfetch] Hqid Ht.
  pose proof (Forall_lookup_1 _ _ _ _ (qw_sq _ (ci_queues _ Hinv)) Hsq) as Hwf.
  pose proof (sw_size _ Hwf). split; try done.
  - rewrite <-(u16_small t) by lia. by apply ctrl_inv_set_tail.
  - apply list_lookup_insert_eq. rewrite (qw_sqs _ (ci_queues _ Hinv)). lia.
  - cbn. lia.
Qed.

(** C4: a queue that is served makes progress: when its entries can be fetched and
    allocations succeed, writing a tail inside the queue to its doorbell returns,
    with every entry between the head and that tail executed in order, each as one
    step of the abstract machine and each completed by exactly one entry, and with
    the queue empty. *)
Theorem doorbell_completes n h qid sq cq t fuel :
  0 < qid < 64 → io_live qid n h sq cq → 0 ≤ t < sq_size sq → sq_size sq ≤ Z.of_nat fuel →
  wp (nvme_bar0_access fuel (le_bytes 4 t) 4 (NVME_REG_DOORBELL + 8 * qid) true)
    (λ r s', r = (4, le_bytes 4 t) ∧ ∃ cqes,
       io_run any_effect qid cqes
         (n_set_sq n (<[Z.to_nat qid := sq_set_tail sq t]> (n_sq n)), h) s' ∧
       Z.of_nat (length cqes) = (t - sq_head sq) mod sq_size sq ∧
       n_sq s'.1 !! Z.to_nat qid = Some (sq_set_head (sq_set_tail sq t) t) ∧
       n_cq s'.1 !! Z.to_nat (sq_cqid sq) = Some (Nat.iter (length cqes) cq_advance cq)) (n, h).
Proof.
  intros Hqid Hlive Ht Hfuel. pose proof (il_inv _ _ _ _ _ Hlive) as Hinv.
  pose proof (il_sq _ _ _ _ _ Hlive) as Hsq.
  pose proof (sw_size _ (Forall_lookup_1 _ _ _ _ (qw_sq _ (ci_queues _ Hinv)) Hsq)).
  apply (tail_doorbell _ _ _ sq); [done|lia|done|lia|].
  eapply wp_mono; [apply (process_sq_live _ _ _ _ (sq_set_tail sq t) cq);
    [done|apply io_live_ring; done || lia|done]|].
  intros u s' Hrun. by split.
Qed.

(** C15: the phase tag works: a host that polls the ring in guest memory, having
    consumed [m] completions and never let the controller get more than one round
    ahead, finds exactly the completions posted since, in order, after any history
    of posts and of other activity that leaves the ring alone.  The controller
    itself never looks at the host's head: without the bound on the distance,
    completions are overwritten. *)
Theorem host_sees vfu dma size addrs cqid cs s m :
  ring_mapped vfu dma size addrs → 0 ≤ cqid < 64 → ring_run vfu dma size addrs cqid cs s →
  (m ≤ length cs)%nat → Z.of_nat (length cs) ≤ Z.of_nat m + size →
  host_poll (S (Z.to_nat size)) (read_slot addrs s.2) size (Z.of_nat m) = drop m cs.
Proof. intros Hm Hcqid Hrun. by apply (ring_poll vfu dma size addrs cqid), ring_run_inv. Qed.

(** The write of [v] to doorbell [b] (0: tail, 1: head) of queue [q]. *)
Lemma doorbell_eq n h fuel q b v :
  0 ≤ q → 0 ≤ b ≤ 1 → 0x1000 + 8 * q + 4 * b < NVME_BAR0_SIZE → 0 ≤ v < 2 ^ 32 →
  nvme_bar0_access fuel (le_bytes 4 v) 4 (0x1000 + 8 * q + 4 * b) true (n, h) =
    ((if q <? 64 then
        if truthy b then cq ← get_cq q; put_cq q (cq_set_head cq (v mod 2 ^ 16))
        else sq ← get_sq q; put_sq q (sq_set_tail sq (v mod 2 ^ 16));; nvme_process_sq fuel q
      else mret tt);; mret (4, le_bytes 4 v)) (n, h).
Proof.
  unfold NVME_BAR0_SIZE, nvme_bar0_access, NVME_REG_DOORBELL, NVME_MAX_QUEUES. intros Hq Hb Ho Hv.
  rewrite (proj2 (Z.leb_le _ _)) by lia. erewrite bind_done
    by (apply rd_le_eq; [lia|by rewrite length_le_bytes]).
  rewrite take_ge by (by rewrite length_le_bytes).
  rewrite le_val_le_bytes_small, u32_small by done. cbv zeta.
  replace (0x1000 + 8 * q + 4 * b - 0x1000) with ((q * 2 + b) * 4) by lia.
  rewrite Z.div_mul, land1_mod, Z.div_add_l, (Z.div_small b), Z.add_0_r by lia.
  rewrite (Z.add_comm (q * 2)), Z.mod_add, (Z.mod_small b), (u16_small q) by lia. done.
Qed.

(** C37: a doorbell is decoded from its offset: of the 8 bytes of queue [q] from
    1000h + 8 q on, the first four are the tail doorbell of submission queue [q], the
    last four the head doorbell of completion queue [q].  Writing a head doorbell
    stores the low 16 bits of the value as the head of that completion queue and does
    nothing else; writing a tail doorbell stores them as the tail of that submission
    queue and then runs the engine on it; a queue from 64 on is ignored.  Reading
    doorbells gives zeros and changes nothing. *)
Theorem doorbell_effect n h fuel q v :
  ctrl_inv n → 0 ≤ q → 0x1000 + 8 * q + 4 < NVME_BAR0_SIZE → 0 ≤ v < 2 ^ 32 →
  let i := Z.to_nat q in
  let ring off := nvme_bar0_access fuel (le_bytes 4 v) 4 off true (n, h) in
  (if q <? 64 then ∃ sq cq, n_sq n !! i = Some sq ∧ n_cq n !! i = Some cq ∧
     ring (0x1000 + 8 * q + 4) =
       Done ((4, le_bytes 4 v), (n_set_cq n (<[i := cq_set_head cq (v mod 2 ^ 16)]> (n_cq n)), h)) ∧
     ring (0x1000 + 8 * q) =
       (nvme_process_sq fuel q;; mret (4, le_bytes 4 v))
         (n_set_sq n (<[i := sq_set_tail sq (v mod 2 ^ 16)]> (n_sq n)), h)
   else
     ring (0x1000 + 8 * q + 4) = Done ((4, le_bytes 4 v), (n, h)) ∧
     ring (0x1000 + 8 * q) = Done ((4, le_bytes 4 v), (n, h))) ∧
  ∀ buf count offset, 0x1000 ≤ offset →
    nvme_bar0_access fuel buf count offset false (n, h) = Done ((count, zeros count), (n, h)).
Proof.
  intros Hinv Hq Hsize Hv i ring. unfold NVME_BAR0_SIZE in Hsize.
  pose proof (doorbell_eq n h fuel q 1 v Hq ltac:(lia) Hsize Hv) as Hcq.
  pose proof (doorbell_eq n h fuel q 0 v Hq ltac:(lia)
    ltac:(unfold NVME_BAR0_SIZE; lia) Hv) as Hsq.
  rewrite Z.add_0_r in Hsq. change (4 * 1) with 4 in Hcq. unfold ring. rewrite Hcq, Hsq. clear Hcq Hsq ring. split.
  - destruct (Z.ltb_spec q 64) as [Hlt|]; [|done]. pose proof (ci_queues _ Hinv) as Hw.
    destruct (lookup_lt_is_Some_2 (n_sq n) i) as [sq Hsq]; [rewrite (qw_sqs _ Hw); lia|].
    destruct (lookup_lt_is_Some_2 (n_cq n) i) as [cq Hcq]; [rewrite (qw_cqs _ Hw); lia|].
    assert (q = Z.of_nat i) as Hqi by (unfold i; lia).
    exists sq, cq. rewrite Hqi. clearbody i.
    pose proof (lookup_lt_Some _ _ _ Hsq). pose proof (lookup_lt_Some _ _ _ Hcq).
    split_and!; [done..| |]; cbn [truthy Z.eqb negb]; rewrite !bind_run.
    + by rewrite (get_cq_eq n h i cq Hcq), put_cq_eq by done.
    + by rewrite (get_sq_eq n h i sq Hsq), bind_run, put_sq_eq by done.
  - intros buf count offset Ho. unfold nvme_bar0_access, NVME_REG_DOORBELL.
    by rewrite (proj2 (Z.leb_le _ _)).
Qed.

(** C5: the round trip of a batch: the host rings the tail doorbell of a served queue
    (both queues enabled, entries that can be fetched, allocations that succeed) and
    then polls the completion ring, of fewer than 65536 entries.  The doorbell write
    returns, with one completion for each command of the batch.  As long as those
    and the completions the host has not consumed yet fit in the ring together, and
    no command of the batch wrote over the ring, the poll finds the completions the
    host had not consumed followed by those of the batch, in order. *)
Theorem submit_and_poll n h qid sq cq t fuel dma size addrs cs m :
  0 < qid < 64 → io_live qid n h sq cq → 0 ≤ t < sq_size sq → sq_size sq ≤ Z.of_nat fuel →
  ring_mapped (n_vfu n) dma size addrs →
  ring_run (n_vfu n) dma size addrs (sq_cqid sq) cs (n, h) → (m ≤ length cs)%nat →
  Z.of_nat (length cs) + (t - sq_head sq) mod sq_size sq ≤ Z.of_nat m + size →
  wp (nvme_bar0_access fuel (le_bytes 4 t) 4 (NVME_REG_DOORBELL + 8 * qid) true)
    (λ _ s', ∃ cqes,
       io_run any_effect qid cqes
         (n_set_sq n (<[Z.to_nat qid := sq_set_tail sq t]> (n_sq n)), h) s' ∧
       Z.of_nat (length cqes) = (t - sq_head sq) mod sq_size sq ∧
       (io_run (slots_kept size addrs) qid cqes
          (n_set_sq n (<[Z.to_nat qid := sq_set_tail sq t]> (n_sq n)), h) s' →
        host_poll (S (Z.to_nat size)) (read_slot addrs s'.2) size (Z.of_nat m) =
          drop m cs ++ cqes)) (n, h).
Proof.
  intros Hqid Hlive Ht Hfuel Hm Hrun Hle Hround.
  eapply wp_mono; [by apply doorbell_completes|].
  intros r s' (_ & cqes & Hany & Hlen & _). exists cqes. split_and!; [done..|]. intros Hio.
  rewrite <-drop_app_le by done.
  pose proof (io_live_ring _ _ _ _ _ t Hlive ltac:(lia) Ht) as Hlive'.
  pose proof (sw_cqid _ (Forall_lookup_1 _ _ _ _
    (qw_sq _ (ci_queues _ (il_inv _ _ _ _ _ Hlive'))) (il_sq _ _ _ _ _ Hlive'))) as Hcqid.
  apply ring_run_inv in Hrun; [|done|exact Hcqid].
  eapply ring_poll; [done| |rewrite length_app; lia|rewrite length_app; lia].
  destruct Hlive' as [Hinv' Hsq' Hen' Hcq' _ _ Hheap _].
  eapply (ring_io_run (n_vfu n) dma size addrs qid _ cqes _ _ _ (sq_set_tail sq t)); try done.
  by eapply (ring_other _ _ _ _ _ _ n h cq _ h cq).
Qed.
End host_theorems.

(** ** At the queues of {!Demo} *)

Lemma flat_ring_mapped (c : @vfu_ctx_t flat_vfu) dma size :
  0 ≤ dma → dma + 16 * size ≤ flat_size c → flat_size c < 2 ^ 64 → 1 ≤ size < 2 ^ 16 →
  ring_mapped c dma size (λ i, seqZ (flat_vaddr c + dma + 16 * i) 16).
Proof.
  intros Hd Hsz H64 Hs. split; [done|..].
  - intros i Hi. rewrite u64_small by lia. unfold gpa_addrs.
    replace (flat_vaddr c + dma + 16 * i) with (flat_vaddr c + (dma + i * 16)) by lia.
    apply flat_translate_range; lia.
  - intros i _. apply NoDup_seqZ.
  - intros i j a Hi Hj Hne. rewrite !elem_of_seqZ. lia.
  - intros i bs h Hi Hl Hh. rewrite u64_small by lia.
    destruct (flat_xfer c (dma + i * 16) bs 16 true h) as (b & h' & E & Hb);
      [lia|lia|lia|done|done|done|].
    rewrite Hb in E by done. by exists h'.
Qed.

(** I/O queue pair 1, before the doorbell: rings at [0x3000] and [0x4000]. *)
Definition demo_pair : nvme_ctrl :=
  let n := n_set_cq demo_ready (<[1%nat := new_cq demo_create_cq]> (n_cq demo_ready)) in
  n_set_sq n (<[1%nat := new_sq demo_create_sq]> (n_sq n)).

Lemma demo_pair_inv : ctrl_inv demo_pair.
Proof.
  unfold demo_pair. eapply (ctrl_inv_set_sq _ 1 sq_zero);
    [|reflexivity|apply new_sq_wf; [apply demo_typed|reflexivity]|by right].
  apply (ctrl_inv_set_cq demo_ready 1 cq_zero);
    [apply demo_ready_inv|reflexivity|apply new_cq_wf, demo_typed|by right].
Qed.

Lemma demo_pair_live :
  io_live 1 demo_pair (demo_host demo_mem) (new_sq demo_create_sq) (new_cq demo_create_cq).
Proof.
  split; [apply demo_pair_inv|reflexivity..|].
  intros hd h1 Hhd Hh. change (sq_size (new_sq demo_create_sq)) with 4 in Hhd.
  apply (flat_fetch demo_vfu); [..|exact Hh]; unfold sq_slot; cbn; rewrite u64_small; cbn; lia.
Qed.

Definition demo_ctx : @vfu_ctx_t flat_vfu := demo_vfu.
Definition demo_slots (i : Z) : list Z := seqZ (0x14000 + 16 * i) 16.

Lemma demo_ring_mapped : ring_mapped demo_ctx 0x4000 4 demo_slots.
Proof. apply (flat_ring_mapped demo_ctx 0x4000 4); cbn; lia. Qed.

Lemma demo_ring_start : ring_run demo_ctx 0x4000 4 demo_slots 1 [] (demo_pair, demo_host demo_mem).
Proof.
  apply (RrStart _ _ _ _ _ _ _ (new_cq demo_create_cq));
    [apply demo_pair_inv|reflexivity|reflexivity|repeat split; reflexivity|reflexivity..|].
  intros i Hi. assert (i = 0 ∨ i = 1 ∨ i = 2 ∨ i = 3) as [-> | [-> | [-> | ->]]] by lia;
    vm_compute; reflexivity.
Qed.

Lemma doorbell_completes_witness :
  wp (nvme_bar0_access 4 (le_bytes 4 2) 4 0x1008 true)
    (λ r s', r = (4, le_bytes 4 2) ∧ ∃ cqes,
       io_run any_effect 1 cqes
         (n_set_sq demo_pair (<[1%nat := sq_set_tail (new_sq demo_create_sq) 2]> (n_sq demo_pair)),
          demo_host demo_mem) s' ∧
       Z.of_nat (length cqes) = 2 ∧
       n_sq s'.1 !! 1%nat = Some (sq_set_head (sq_set_tail (new_sq demo_create_sq) 2) 2) ∧
       n_cq s'.1 !! 1%nat = Some (Nat.iter (length cqes) cq_advance (new_cq demo_create_cq)))
    (demo_pair, demo_host demo_mem).
Proof.
  apply (doorbell_completes demo_pair (demo_host demo_mem) 1 (new_sq demo_create_sq)
    (new_cq demo_create_cq) 2 4);
    [lia|apply demo_pair_live|split; reflexivity || discriminate|vm_compute; discriminate].
Defined.

(** One entry posted to the ring, which the host then finds. *)
Definition demo_posted : machine :=
  match nvme_post_cqe 1 1 1 9 0 0 (demo_pair, demo_host demo_mem) with
  | Done (_, s) => s
  | _ => (demo_pair, demo_host demo_mem)
  end.

Lemma demo_post_runs :
  nvme_post_cqe 1 1 1 9 0 0 (demo_pair, demo_host demo_mem) = Done (tt, demo_posted).
Proof. vm_compute. reflexivity. Qed.

Lemma demo_cqe_typed : well_typed (cqe_of (new_cq demo_create_cq) 1 1 9 0 0).
Proof. repeat constructor; vm_compute; discriminate || reflexivity. Qed.

Lemma host_sees_witness :
  host_poll 5 (read_slot demo_slots demo_posted.2) 4 0 = [Build_NvmeCqe 0 0 1 1 9 1].
Proof.
  apply (host_sees demo_ctx 0x4000 4 demo_slots 1 [cqe_of (new_cq demo_create_cq) 1 1 9 0 0]
    demo_posted 0); [apply demo_ring_mapped|lia| |cbn; lia|cbn; lia].
  apply (RrPost _ _ _ _ _ [] demo_pair (demo_host demo_mem) (new_cq demo_create_cq) 1 1 9 0 0);
    [apply demo_ring_start|reflexivity|apply demo_cqe_typed|apply demo_post_runs].
Defined.

Lemma doorbell_effect_witness :
  ∃ sq cq, n_sq demo_pair !! 1%nat = Some sq ∧ n_cq demo_pair !! 1%nat = Some cq ∧
    nvme_bar0_access 4 (le_bytes 4 3) 4 0x100c true (demo_pair, demo_host demo_mem) =
      Done ((4, le_bytes 4 3),
        (n_set_cq demo_pair (<[1%nat := cq_set_head cq 3]> (n_cq demo_pair)), demo_host demo_mem)) ∧
    nvme_bar0_access 4 (le_bytes 4 3) 4 0x1008 true (demo_pair, demo_host demo_mem) =
      (nvme_process_sq 4 1;; mret (4, le_bytes 4 3))
        (n_set_sq demo_pair (<[1%nat := sq_set_tail sq 3]> (n_sq demo_pair)), demo_host demo_mem).
Proof.
  apply (doorbell_effect demo_pair (demo_host demo_mem) 4 1 3);
    [apply (il_inv _ _ _ _ _ demo_pair_live)|lia|vm_compute; reflexivity|lia].
Defined.

Lemma submit_and_poll_witness :
  wp (nvme_bar0_access 4 (le_bytes 4 2) 4 0x1008 true)
    (λ _ s', ∃ cqes,
       io_run any_effect 1 cqes
         (n_set_sq demo_pair (<[1%nat := sq_set_tail (new_sq demo_create_sq) 2]> (n_sq demo_pair)),
          demo_host demo_mem) s' ∧
       Z.of_nat (length cqes) = 2 ∧
       (io_run (slots_kept 4 demo_slots) 1 cqes
          (n_set_sq demo_pair (<[1%nat := sq_set_tail (new_sq demo_create_sq) 2]>
             (n_sq demo_pair)), demo_host demo_mem) s' →
        host_poll 5 (read_slot demo_slots s'.2) 4 0 = [] ++ cqes))
    (demo_pair, demo_host demo_mem).
Proof.
  apply (submit_and_poll demo_pair (demo_host demo_mem) 1 (new_sq demo_create_sq)
    (new_cq demo_create_cq) 2 4 0x4000 4 demo_slots [] 0);
    [lia|apply demo_pair_live|split; reflexivity || discriminate|vm_compute; discriminate
    |apply demo_ring_mapped|apply demo_ring_start|cbn; lia|vm_compute; discriminate].
Defined.

(** After the session of {!Demo}, polling finds both completions of queue 1. *)
Example demo_poll :
  match handle_all 4 demo_session (demo_ctrl, demo_host demo_mem) with
  | Done (_, (n, h)) => host_poll 5 (read_slot demo_slots h) 4 0
  | _ => []
  end = [Build_NvmeCqe 0 0 1 1 9 1; Build_NvmeCqe 0 0 2 1 10 1].
Proof. vm_compute. reflexivity. Qed.
