(* ===== verification/DeviceTheorems.v ===== *)
(** * Theorems about the whole device *)

From S2P Require Import Prelude.
From S2P Require Import Bytes.
From S2P Require Import NvmeSpec.
From S2P Require Import Kv.
From S2P Require Import KvTable.
From S2P Require Import KvInv.
From S2P Require Import KvSpec.
From S2P Require Import KvList.
From S2P Require Import Dma.
From S2P Require Import DmaSpec.
From S2P Require Import Ctrl.
From S2P Require Import Admin.
From S2P Require Import Regs.
From S2P Require Import CtrlInv.
From S2P Require Import RegsSpec.
From S2P Require Import StateSpec.
From S2P Require Import AdminSpec.
From S2P Require Import IoSpec.
From S2P Require Import QueueSpec.
From S2P Require Import System.
From S2P Require Import Progress.
From S2P Require Import Lifecycle.
From S2P Require Import History.
From S2P Require Import Demo.

Section device_theorems.
Context `{Uninit} `{VfuOk}.
Implicit Types (n : nvme_ctrl) (h : host).

(** ** Safety *)

(** C1: no reachable state of the device leads to undefined behaviour: in every
    state that initialisation, callbacks, guest memory changes and allocation
    failures can produce, every callback with the arguments libvfio-user may give
    it (accesses of at most eight bytes inside BAR 0, any access to the MSI-X
    region, a reset) stays inside its objects; it does not dereference NULL,
    shift too far or divide by zero. *)
Theorem device_safe max s fuel e :
  0 ≤ max ≤ 2 ^ 31 → reachable max s → event_ok e → handle fuel e s ≠ Undef.
Proof.
  intros Hmax Hs He Hu. destruct s as [n h].
  pose proof (handle_safe fuel e n h (reachable_inv _ _ Hmax Hs) He) as Hsafe.
  unfold safe in Hsafe. by rewrite Hu in Hsafe.
Qed.

(** C10: the invariant of the controller holds in every reachable state: array
    sizes, usable queues, a consistent register block, a well-formed namespace, and
    no queue enabled unless CSTS is exactly RDY. *)
Theorem device_invariant max s :
  0 ≤ max ≤ 2 ^ 31 → reachable max s →
  ctrl_inv s.1 ∧
  (r_csts (n_regs s.1) ≠ NVME_CSTS_RDY → all_down s.1) ∧
  r_csts (n_regs s.1) ∈ [0; 1; 8; 9].
Proof.
  intros Hmax Hs. pose proof (reachable_inv _ _ Hmax Hs) as Hinv. split; [done|].
  split; [apply Hinv|]. destruct (rw_csts _ (ci_regs _ Hinv)) as [-> | [_ ->]];
    destruct (cc_en _); apply (bool_decide_unpack _); by vm_compute.
Qed.

(** C11: CC and CSTS refine the life-cycle machine [life]: every callback changes the
    flags (CC.EN, shutdown requested, CSTS.RDY, shutdown complete) exactly as the
    machine says, and CSTS has no other bit.  Only a write at the offset of CC and a
    reset move them; RDY follows EN, so a shutdown does not clear it; "shutdown
    complete" is set by a new shutdown notification, is cleared when the notification
    goes away or EN changes, and otherwise stays; a reset clears all four. *)
Theorem phases_refine max s fuel e s' :
  0 ≤ max ≤ 2 ^ 31 → reachable max s → event_ok e → handle fuel e s = Done (tt, s') →
  life_of (n_regs s'.1) = life_event e (life_of (n_regs s.1)) ∧
  r_csts (n_regs s'.1) = life_csts (life_of (n_regs s'.1)).
Proof.
  intros Hmax Hs He Hrun. split.
  - by eapply handle_life; [eapply reachable_inv| |].
  - apply csts_flags, (ci_regs _ (reachable_inv max s' Hmax ltac:(by eapply ReachStep, StepEvent))).
Qed.

(** C27: the namespace accounts for its contents: in every reachable state the NUSE
    that Identify reports is 4112 bytes for each stored key, NSZE is 4112 bytes for
    each key of the capacity, and the number of keys never exceeds the capacity. *)
Theorem nuse_accounts max s :
  0 ≤ max ≤ 2 ^ 31 → reachable max s →
  ∃ id, ns_id_ns_kv (n_ns s.1) = Some id ∧
    id_nuse id = 4112 * Z.of_nat (size (ns_map (n_ns s.1))) ∧
    id_nsze id = 4112 * max ∧
    Z.of_nat (size (ns_map (n_ns s.1))) ≤ max ∧ id_nuse id ≤ id_nsze id.
Proof.
  intros Hmax Hs. destruct (ci_ns _ (reachable_inv _ _ Hmax Hs)) as (ps & id & Hinv).
  pose proof (kv_inv_nuse _ _ _ Hinv) as Hn. pose proof (kv_inv_size _ _ _ Hinv) as Hsz.
  assert (Hnsze : id_nsze id = 4112 * max).
  { rewrite (ki_ident _ _ _ Hinv), (reachable_max _ _ Hmax Hs).
    unfold id_ns_init, id_ns_fill. cbn [id_nsze set_id_nuse]. change SLOT with 4112.
    rewrite u64_small; lia. }
  rewrite (reachable_max _ _ Hmax Hs) in Hsz. change SLOT with 4112 in Hn.
  exists id. split_and!; [apply Hinv|done|done|done|lia].
Qed.

(** C16: a device that is not ready (never enabled, disabled, reset or shut down) is
    inert until CC.EN is set from 0 to 1: through any number of other transitions
    its queues stay disabled, and no callback then changes guest memory, makes a
    call to the library or touches the stored data. *)
Theorem down_stays_down max s s' fuel e s'' :
  0 ≤ max ≤ 2 ^ 31 → reachable max s → r_csts (n_regs s.1) ≠ NVME_CSTS_RDY →
  rtc quiet_step s s' → event_ok e → handle fuel e s' = Done (tt, s'') →
  all_down s'.1 ∧ s''.2 = s'.2 ∧ n_ns s''.1 = n_ns s'.1.
Proof.
  intros Hmax Hs Hcsts Hrun He Hh. pose proof (reachable_inv _ _ Hmax Hs) as Hinv.
  destruct (quiet_down s s' Hinv Hrun (ci_down _ Hinv Hcsts)) as [Hinv' Hd].
  split; [done|]. by eapply down_idle.
Qed.

(** C24: initialisation succeeds exactly when both of its allocations do, the second
    being tried only after the first.  Success leaves a disabled controller with CAP
    and VS set and an empty namespace of the requested size; failure reports -1 and
    leaves a namespace that owns nothing.  Guest memory is not touched. *)
Theorem init_state n h vfu max :
  0 ≤ max ≤ 2 ^ 31 →
  wp (nvme_ctrl_init vfu max) (λ rc s',
    (rc = 0 ∨ rc = -1) ∧
    (rc = 0 ↔ (heap_alloc h).1 = true ∧ (heap_alloc (heap_alloc h).2).1 = true) ∧
    (rc = 0 → ctrl_inv s'.1 ∧ all_down s'.1 ∧ ns_map (n_ns s'.1) = ∅ ∧
      ns_max_num_keys (n_ns s'.1) = max ∧
      n_regs s'.1 = Build_nvme_regs CAP_VALUE 0x00020000 0 0 0 0 0 0 0) ∧
    (rc = -1 → ns_pairs (n_ns s'.1) = None ∧ ns_id_ns_kv (n_ns s'.1) = None) ∧
    h_mem s'.2 = h_mem h) (n, h).
Proof.
  intros Hmax. unfold wp. rewrite nvme_ctrl_init_eq.
  pose proof (ctrl_init_inv vfu max Hmax) as Hinv.
  pose proof (alloc_frame h) as [M1 _]. pose proof (alloc_frame (heap_alloc h).2) as [M2 _].
  destruct (heap_alloc h) as [[] h1]; cbn [fst snd] in *;
    [destruct (heap_alloc h1) as [[] h2]; cbn [fst snd] in *|];
    (split; [by auto|]); split_and!; try done; try congruence; try by split; [|intros []].
  intros _. split; [done|]. split; [by apply (ci_down _ Hinv)|]. by split; [apply ns_init_map|].
Qed.

(** C17: only the tail doorbell of an I/O queue changes stored data: register
    writes, resets, MSI-X accesses, admin commands and completion doorbells leave
    every key and value as it was. *)
Theorem data_changes_only_by_io max s fuel e s' :
  0 ≤ max ≤ 2 ^ 31 → reachable max s → event_ok e → rings_io e = false →
  handle fuel e s = Done (tt, s') →
  ns_pairs (n_ns s'.1) = ns_pairs (n_ns s.1).
Proof.
  intros Hmax Hs He Hio Hrun. destruct s as [n h].
  pose proof (handle_safe fuel e n h (reachable_inv _ _ Hmax Hs) He) as Hsafe.
  unfold safe in Hsafe. rewrite Hrun in Hsafe. by apply Hsafe.
Qed.

(** ** The I/O path *)

(** C2: a KV command executed by the controller is one step of the abstract
    key-value machine on the command that the entry encodes; controller state
    other than the namespace is untouched, and the namespace stays well formed. *)
Theorem io_refines n h sqe :
  kv_ok (n_ns n) → wp (nvme_io_kv sqe) (io_post n h (cast sqe)) (n, h).
Proof. apply nvme_io_kv_wp. Qed.

(** A KV command touches at most the value of the key it names. *)
Theorem io_other_keys n h sqe k :
  kv_ok (n_ns n) → k ≠ ckey (cast sqe) →
  wp (nvme_io_kv sqe) (λ _ s', ns_map (n_ns s'.1) !! k = ns_map (n_ns n) !! k) (n, h).
Proof.
  intros Hok Hk. eapply wp_mono; [by apply nvme_io_kv_wp|].
  intros st s' (_ & _ & _ & Hspec). revert Hspec. unfold io_spec.
  case_match.
  { intros []; by rewrite ?lookup_insert_ne. }
  case_match; [by intros [-> _]|]. case_match.
  { unfold delete_spec. intros [_ Hd].
    repeat case_match; injection Hd as _ ->; by rewrite ?lookup_delete_ne. }
  case_match; [by intros (_ & -> & _)|]. case_match; [by intros [-> _]|].
  by intros (_ & -> & _).
Qed.

(** C3: the device is a key-value machine: every run of transitions from a
    reachable state, with any number of queues, resets, register accesses and guest
    memory changes in between, executes a sequence of KV commands fetched from the
    I/O queues, and takes the stored map where that sequence takes the abstract
    machine; nothing else changes it. *)
Theorem history_refines max s s' :
  0 ≤ max ≤ 2 ^ 31 → reachable max s → rtc dev_step s s' →
  ∃ ls, dev_history ls s s' ∧ kv_run max ls (ns_map (n_ns s.1)) (ns_map (n_ns s'.1)).
Proof.
  intros Hmax Hs Hrun. pose proof (reachable_inv _ _ Hmax Hs) as Hinv.
  destruct (dev_history_exists s s' Hrun Hinv) as [ls Hls]. exists ls. split; [done|].
  apply dev_history_kv_run; [done|done|by apply reachable_max].
Qed.

(** C14: a value survives: whatever the device goes through (controller resets,
    shutdowns, queue deletion, failed transfers, other commands), the value of a key
    stays what it is until a STORE or DELETE that names the key is executed. *)
Theorem value_survives max s s' ls k :
  0 ≤ max ≤ 2 ^ 31 → reachable max s → dev_history ls s s' → Forall (spares k) ls →
  ns_map (n_ns s'.1) !! k = ns_map (n_ns s.1) !! k.
Proof.
  intros Hmax Hs Hls Hk. pose proof (reachable_inv _ _ Hmax Hs) as Hinv.
  eapply kv_run_spares; [|done].
  apply (dev_history_kv_run max); [done|done|by apply reachable_max].
Qed.

(** ** The MSI-X region *)

(** C35: the MSI-X region is plain memory behind a bounds check: an access that does
    not fit in its 4096 bytes is refused and changes nothing; bytes written are
    read back at the same place. *)
Theorem msix_write_read n h offset bs buf :
  ctrl_inv n → 0 ≤ offset → offset + Z.of_nat (length bs) < 2 ^ 64 →
  length buf = length bs →
  let count := Z.of_nat (length bs) in
  wp (w ← nvme_msix_access bs count offset true; r ← nvme_msix_access buf count offset false;
      mret (w.1, r))
    (λ r s', ctrl_inv s'.1 ∧
       if offset + count <=? 4096 then r = (count, (count, bs))
       else r = (-1, (-1, buf)) ∧ s' = (n, h)) (n, h).
Proof.
  intros Hinv Ho H64 Hl count. pose proof (ci_msix _ Hinv) as Hm. subst count.
  unfold nvme_msix_access, NVME_MSIX_BAR_SIZE.
  rewrite (u64_small offset), (u64_small (_ + _)) by lia.
  apply wp_bind, wp_bind, wp_gets. cbn [fst].
  destruct (Z.ltb_spec 4096 (offset + Z.of_nat (length bs))),
    (Z.leb_spec (offset + Z.of_nat (length bs)) 4096); try lia.
  { apply wp_ret, wp_bind, wp_bind, wp_gets, wp_ret, wp_ret. by split_and!. }
  assert (Hb : buf_read bs 0 (Z.of_nat (length bs)) = Some bs).
  { rewrite buf_read_Some by lia. rewrite drop_0, take_ge by lia. done. }
  destruct (buf_write (n_msix_region n) offset bs) as [region|] eqn:Hw;
    [|by rewrite buf_write_Some in Hw by lia].
  pose proof (buf_read_write_eq _ _ _ _ Hw) as Hr.
  pose proof (buf_write_length _ _ _ _ Hw) as Hlen.
  apply wp_bind. eapply wp_of_option; [done|]. apply wp_bind. eapply wp_of_option; [done|].
  apply wp_bind, wp_modify, wp_ret. cbn [fst snd].
  apply wp_bind, wp_bind, wp_gets. cbn [fst n_msix_region n_set_msix].
  destruct (Z.ltb_spec 4096 (offset + Z.of_nat (length bs))); [lia|].
  apply wp_bind. eapply wp_of_option; [done|].
  apply wp_bind. eapply wp_of_option; [by rewrite buf_write_0 by lia|].
  apply wp_ret, wp_ret. rewrite drop_ge, app_nil_r by lia. split; [|done].
  destruct Hinv as [[] ? ? ? ?]. split; cbn; try done. by rewrite Hlen.
Qed.
End device_theorems.

(** ** At the device of {!Demo} *)

Lemma demo_reachable : reachable 4 (demo_ctrl, demo_host ∅).
Proof. apply (ReachInit 4 (demo_ctrl, demo_host ∅) demo_vfu). vm_compute. reflexivity. Qed.

Lemma device_safe_witness :
  handle 4 (EvBar0 (le_bytes 4 1) 4 NVME_REG_CC true) (demo_ctrl, demo_host ∅) ≠ Undef.
Proof.
  apply (device_safe 4); [lia|apply demo_reachable|].
  vm_compute. repeat split; discriminate.
Defined.

Lemma device_invariant_witness :
  ctrl_inv demo_ctrl ∧ (r_csts (n_regs demo_ctrl) ≠ NVME_CSTS_RDY → all_down demo_ctrl) ∧
  r_csts (n_regs demo_ctrl) ∈ [0; 1; 8; 9].
Proof. apply (device_invariant 4 (demo_ctrl, demo_host ∅)); [lia|apply demo_reachable]. Defined.

(** CC.EN set, on the device with its admin queues configured. *)
Definition demo_enable : event := EvBar0 (le_bytes 4 1) 4 NVME_REG_CC true.
Definition demo_enabled : machine := (reg_write_next demo_ctrl NVME_REG_CC 1 4, demo_host ∅).

Lemma phases_refine_witness :
  life_of (n_regs demo_enabled.1) = Life true false true false ∧
  r_csts (n_regs demo_enabled.1) = 1.
Proof.
  apply (phases_refine 4 (demo_ctrl, demo_host ∅) 4 demo_enable demo_enabled);
    [lia|apply demo_reachable| |vm_compute; reflexivity].
  vm_compute. repeat split; discriminate.
Defined.

(** A doorbell rung before the device is enabled does nothing. *)
Definition demo_ring : event := EvBar0 (le_bytes 4 2) 4 0x1000 true.
Definition demo_after_ring : machine :=
  match handle 4 demo_ring (demo_ctrl, demo_host ∅) with
  | Done (_, s) => s
  | _ => (demo_ctrl, demo_host ∅)
  end.

Lemma demo_ring_runs : handle 4 demo_ring (demo_ctrl, demo_host ∅) = Done (tt, demo_after_ring).
Proof. vm_compute. reflexivity. Qed.

Lemma demo_ring_ok : event_ok demo_ring.
Proof. vm_compute. repeat split; discriminate. Qed.

Lemma down_stays_down_witness :
  all_down demo_ctrl ∧ demo_after_ring.2 = demo_host ∅ ∧
  n_ns demo_after_ring.1 = n_ns demo_ctrl.
Proof.
  apply (down_stays_down 4 (demo_ctrl, demo_host ∅) (demo_ctrl, demo_host ∅) 4 demo_ring);
    [lia|apply demo_reachable|discriminate|apply rtc_refl|apply demo_ring_ok|apply demo_ring_runs].
Defined.

(** The state after the session, its value stored. *)
Definition demo_stored : machine :=
  match handle_all 4 demo_session (demo_ctrl, demo_host demo_mem) with
  | Done (_, s) => s
  | _ => (demo_ctrl, demo_host demo_mem)
  end.

Lemma demo_session_runs :
  handle_all 4 demo_session (demo_ctrl, demo_host demo_mem) = Done (tt, demo_stored).
Proof. vm_compute. reflexivity. Qed.

Lemma handle_all_steps fuel es (s s' : machine) :
  Forall event_ok es → handle_all fuel es s = Done (tt, s') → rtc dev_step s s'.
Proof.
  intros Hes. revert s. induction Hes as [|e es He _ IH]; intros s; cbn.
  - intros [= <-]. done.
  - intros Hrun. rewrite bind_run in Hrun.
    destruct (handle fuel e s) as [[[] s1]| |] eqn:E; [|done..].
    eapply rtc_l; [by eapply StepEvent|by apply IH].
Qed.

Lemma demo_session_ok : Forall event_ok demo_session.
Proof. repeat constructor; vm_compute; discriminate || reflexivity || lia. Qed.

Lemma demo_reachable_mem : reachable 4 (demo_ctrl, demo_host demo_mem).
Proof. apply (ReachInit 4 (demo_ctrl, demo_host demo_mem) demo_vfu). vm_compute. reflexivity. Qed.

Lemma reachable_rtc max (s s' : machine) : reachable max s → rtc dev_step s s' → reachable max s'.
Proof. intros Hs Hrun. induction Hrun as [|s s1 s' Hstep _ IH]; [done|]. by apply IH, (ReachStep _ s). Qed.

Lemma history_refines_witness :
  ∃ ls, dev_history ls (demo_ctrl, demo_host demo_mem) demo_stored ∧
    kv_run 4 ls (ns_map (n_ns demo_ctrl)) (ns_map (n_ns demo_stored.1)).
Proof.
  apply (history_refines 4 (demo_ctrl, demo_host demo_mem) demo_stored);
    [lia|apply demo_reachable_mem|].
  exact (handle_all_steps 4 demo_session _ _ demo_session_ok demo_session_runs).
Defined.

(** The key of the session keeps its value over a reset. *)
Definition demo_key : list byte := ckey (cast demo_store).

Lemma demo_stored_reachable : reachable 4 demo_stored.
Proof.
  apply (reachable_rtc 4 (demo_ctrl, demo_host demo_mem)); [apply demo_reachable_mem|].
  exact (handle_all_steps 4 demo_session _ _ demo_session_ok demo_session_runs).
Qed.

Lemma nuse_accounts_witness :
  ∃ id, ns_id_ns_kv (n_ns demo_stored.1) = Some id ∧
    id_nuse id = 4112 * Z.of_nat (size (ns_map (n_ns demo_stored.1))) ∧
    id_nsze id = 4112 * 4 ∧
    Z.of_nat (size (ns_map (n_ns demo_stored.1))) ≤ 4 ∧ id_nuse id ≤ id_nsze id.
Proof. apply (nuse_accounts 4 demo_stored); [lia|apply demo_stored_reachable]. Defined.

Lemma demo_reset_runs :
  handle 4 EvReset demo_stored = Done (tt, (ctrl_reset_next demo_stored.1, demo_stored.2)).
Proof.
  cbn [handle]. unfold nvme_reset_cb. rewrite (surjective_pairing demo_stored) at 1.
  rewrite !bind_run, nvme_ctrl_reset_eq; [done|].
  apply (reachable_inv 4 demo_stored); [lia|apply demo_stored_reachable].
Qed.

Lemma value_survives_witness :
  ns_map (n_ns (ctrl_reset_next demo_stored.1)) !! demo_key =
    ns_map (n_ns demo_stored.1) !! demo_key.
Proof.
  apply (value_survives 4 demo_stored (ctrl_reset_next demo_stored.1, demo_stored.2) [] demo_key);
    [lia|apply demo_stored_reachable
    |eapply (HistOther 4 EvReset); [exact I|reflexivity|apply demo_reset_runs|constructor]
    |constructor].
Defined.

(** The table cannot be allocated. *)
Definition short_host : host := {| h_heap := [true; false]; h_mem := ∅; h_log := [] |}.

Lemma init_state_witness :
  wp (nvme_ctrl_init demo_vfu 4) (λ rc s',
    (rc = 0 ∨ rc = -1) ∧ (rc = 0 ↔ true = true ∧ false = true) ∧
    (rc = 0 → ctrl_inv s'.1 ∧ all_down s'.1 ∧ ns_map (n_ns s'.1) = ∅ ∧
      ns_max_num_keys (n_ns s'.1) = 4 ∧
      n_regs s'.1 = Build_nvme_regs CAP_VALUE 0x00020000 0 0 0 0 0 0 0) ∧
    (rc = -1 → ns_pairs (n_ns s'.1) = None ∧ ns_id_ns_kv (n_ns s'.1) = None) ∧
    h_mem s'.2 = ∅) (demo_ctrl, short_host).
Proof. apply (init_state demo_ctrl short_host demo_vfu 4). lia. Defined.

Lemma data_changes_only_by_io_witness :
  ns_pairs (n_ns (ctrl_reset_next demo_ctrl)) = ns_pairs (n_ns demo_ctrl).
Proof.
  apply (data_changes_only_by_io 4 (demo_ctrl, demo_host ∅) 4 EvReset
    (ctrl_reset_next demo_ctrl, demo_host ∅));
    [lia|apply demo_reachable|exact I|reflexivity|].
  vm_compute. reflexivity.
Defined.

Lemma io_refines_witness :
  wp (nvme_io_kv demo_store) (io_post demo_ready (demo_host demo_mem) (cast demo_store))
    (demo_ready, demo_host demo_mem).
Proof. apply io_refines, demo_ready_inv. Defined.

Lemma msix_write_read_witness :
  wp (w ← nvme_msix_access demo_data 5 4091 true; r ← nvme_msix_access (zeros 5) 5 4091 false;
      mret (w.1, r))
    (λ r s', ctrl_inv s'.1 ∧ r = (5, (5, demo_data))) (demo_ctrl, demo_host ∅).
Proof.
  apply (msix_write_read demo_ctrl (demo_host ∅) 4091 demo_data (zeros 5));
    [apply demo_inv|lia|vm_compute; reflexivity|reflexivity].
Defined.

(** The whole path at work: on the concrete device, enabling the controller,
    creating a queue pair, storing a value and retrieving it into another buffer
    brings back the value, completes the four commands with success, their
    identifiers and phase 1, and fires vector 0 twice and vector 1 twice. *)
Theorem session_runs :
  demo_final = Some (demo_data,
    [Build_NvmeCqe 0 0 1 0 7 1; Build_NvmeCqe 0 0 2 0 8 1;
     Build_NvmeCqe 0 0 1 1 9 1; Build_NvmeCqe 0 0 2 1 10 1],
    [SglGet 1; SglPut 1; SglGet 1; SglPut 1; IrqTrigger 0;
     SglGet 1; SglPut 1; SglGet 1; SglPut 1; IrqTrigger 0;
     SglGet 1; SglPut 1; SglGet 1; SglPut 1; SglGet 1; SglPut 1; IrqTrigger 1;
     SglGet 1; SglPut 1; SglGet 1; SglPut 1; SglGet 1; SglPut 1; IrqTrigger 1]).
Proof. vm_compute. reflexivity. Qed.
