(* ===== verification/Trace.v ===== *)
(** * Tracing

    Models [nvme_trace_us] of [src/nvme.c], the macro [NVME_TRACE] of [src/nvme.h]
    and the callbacks of [src/main.c] that only trace.  [clock_gettime] is a
    parameter: a reading is the seconds and nanoseconds it stores, or nothing when
    it fails.  The trace points inside the controller code print only and are left
    out of the other files. *)

From S2P Require Import Prelude.
From S2P Require Import Bytes.

(** What the trace lines of [main.c] say. *)
Inductive trace_msg : Type :=
| DmaRegister (iova len : Z)
| DmaUnregister (iova len : Z)
| DeviceReset (type : Z).

Record trace : Type := {
  nvme_trace_enabled : Z;
  origin_us : Z;                        (* the static variable of nvme_trace_us *)
  tr_lines : list (Z * trace_msg);      (* lines printed, with their time stamps *)
}.
Abbreviation T := (M trace).

Definition tr_set_enabled (t : trace) (v : Z) : trace :=
  {| nvme_trace_enabled := v; origin_us := origin_us t; tr_lines := tr_lines t |}.
Definition tr_set_origin (t : trace) (v : Z) : trace :=
  {| nvme_trace_enabled := nvme_trace_enabled t; origin_us := v; tr_lines := tr_lines t |}.
Definition tr_add_line (t : trace) (l : Z * trace_msg) : trace :=
  {| nvme_trace_enabled := nvme_trace_enabled t; origin_us := origin_us t;
     tr_lines := tr_lines t ++ [l] |}.

(** Program start: static variables are zero. *)
Definition trace_zero : trace := {| nvme_trace_enabled := 0; origin_us := 0; tr_lines := [] |}.

(** [nvme_trace_enabled = getenv ("VFU_KVSSD_TRACE") != NULL]; [env]: it is set. *)
Definition trace_init (env : bool) : T unit :=
  modify (λ t, tr_set_enabled t (if env then 1 else 0)).

Definition nvme_trace_us (ts : option (Z * Z)) : T Z :=
  match ts with
  | None => mret 0
  | Some (tv_sec, tv_nsec) =>
      let now := u64 (u64 (u64 tv_sec * 1000000) + u64 tv_nsec / 1000) in
      origin ← gets origin_us;
      (if origin =? 0 then modify (λ t, tr_set_origin t now) else mret tt);;
      origin ← gets origin_us;
      mret (u64 (now - origin))
  end.

Definition NVME_TRACE (ts : option (Z * Z)) (msg : trace_msg) : T unit :=
  enabled ← gets nvme_trace_enabled;
  if truthy enabled then
    us ← nvme_trace_us ts;
    modify (λ t, tr_add_line t (us, msg))
  else mret tt.

Definition dma_register (ts : option (Z * Z)) (iova len : Z) : T unit :=
  NVME_TRACE ts (DmaRegister iova len).
Definition dma_unregister (ts : option (Z * Z)) (iova len : Z) : T unit :=
  NVME_TRACE ts (DmaUnregister iova len).

(** A sequence of trace points. *)
Fixpoint trace_all (l : list (option (Z * Z) * trace_msg)) : T unit :=
  match l with
  | [] => mret tt
  | (ts, msg) :: l' => NVME_TRACE ts msg;; trace_all l'
  end.

(** ** What the stamps are *)

(** A monotonic clock: a reading in microseconds, in the range of the code. *)
Definition now_us (ts : Z * Z) : Z := ts.1 * 1000000 + ts.2 / 1000.
Definition clock_ok (ts : Z * Z) : Prop :=
  0 ≤ ts.1 ∧ 0 ≤ ts.2 < 1000000000 ∧ now_us ts < 2 ^ 63.

Lemma now_us_u64 ts :
  clock_ok ts → u64 (u64 (u64 ts.1 * 1000000) + u64 ts.2 / 1000) = now_us ts.
Proof.
  destruct ts as [sec nsec]. unfold clock_ok, now_us. cbn. intros (? & ? & ?).
  pose proof (Z.div_pos nsec 1000).
  rewrite !(u64_small nsec), !(u64_small sec), (u64_small (sec * _)), u64_small by lia. done.
Qed.

Definition stamp (origin : Z) (l : (Z * Z) * trace_msg) : Z * trace_msg :=
  (now_us l.1 - origin, l.2).

(** Once the origin is set. *)
Lemma trace_all_run t l :
  nvme_trace_enabled t = 1 → 0 < origin_us t →
  Forall (λ x, clock_ok x.1 ∧ origin_us t ≤ now_us x.1) l →
  trace_all ((λ x, (Some x.1, x.2)) <$> l) t =
    Done (tt, {| nvme_trace_enabled := 1; origin_us := origin_us t;
                 tr_lines := tr_lines t ++ (stamp (origin_us t) <$> l) |}).
Proof.
  intros He Ho Hl. revert t He Ho Hl. induction l as [|[[sec nsec] msg] l IH]; intros t He Ho Hl.
  { destruct t. cbn in *. by rewrite He, app_nil_r. }
  apply Forall_cons in Hl as [[Hc Hle] Hl]. cbn [fmap list_fmap trace_all fst snd] in *.
  pose proof (now_us_u64 _ Hc) as Hn. destruct Hc as (_ & _ & H63). cbn [fst snd] in Hn.
  assert (Hstep : NVME_TRACE (Some (sec, nsec)) msg t =
    Done (tt, tr_add_line t (stamp (origin_us t) ((sec, nsec), msg)))).
  { unfold NVME_TRACE, nvme_trace_us, mbind, M_bind, gets, modify, mret, M_ret.
    rewrite He. cbn [truthy negb Z.eqb]. rewrite (proj2 (Z.eqb_neq _ _)) by lia.
    rewrite Hn. unfold stamp. cbn [fst snd]. by rewrite u64_small by lia. }
  rewrite (bind_done _ _ _ _ _ Hstep), (IH (tr_add_line t _)) by done.
  cbn [tr_add_line tr_lines origin_us]. by rewrite <-app_assoc.
Qed.

(** From program start. *)
Lemma trace_all_start env x l :
  Forall (λ y, clock_ok y.1 ∧ now_us x.1 ≤ now_us y.1) (x :: l) → 0 < now_us x.1 →
  wp (trace_init env;; trace_all ((λ x, (Some x.1, x.2)) <$> x :: l))
    (λ _ t, tr_lines t = if env then stamp (now_us x.1) <$> x :: l else []) trace_zero.
Proof.
  intros Hl Hx. apply wp_bind, wp_modify. destruct env.
  - apply Forall_cons in Hl as [[Hc _] Hl]. destruct x as [[sec nsec] msg].
    pose proof (now_us_u64 _ Hc) as Hn. cbn [fst snd] in *.
    cbn [fmap list_fmap trace_all]. apply wp_bind. unfold NVME_TRACE, nvme_trace_us.
    apply wp_bind, wp_gets. cbn [truthy negb Z.eqb nvme_trace_enabled tr_set_enabled].
    apply wp_bind, wp_bind, wp_gets. cbn [origin_us tr_set_enabled trace_zero Z.eqb fst snd].
    apply wp_bind, wp_modify, wp_bind, wp_gets, wp_ret, wp_modify.
    cbn [origin_us tr_set_origin]. rewrite Hn, Z.sub_diag.
    eapply wp_run; [by apply trace_all_run|]. cbn. unfold stamp. cbn. by rewrite Z.sub_diag.
  - cbv zeta. generalize (x :: l). intros l'. induction l' as [|[ts msg] l' IH]; [done|].
    cbn [fmap list_fmap trace_all]. unfold NVME_TRACE.
    apply wp_bind, wp_bind, wp_gets, wp_ret. exact IH.
Qed.
