(* ===== verification/Cli.v ===== *)
(** * The command line

    Models the first part of [src/main.c]: [parse_size], the option loop over what
    [getopt_long] returns, and the computation of the number of slots.  [strtoull]
    is modelled from the C standard (base 0, "C" locale). *)

From S2P Require Import Prelude.
From S2P Require Import Bytes.
From S2P Require Import NvmeSpec.
From S2P Require Import Kv.

(** ** [strtoull (s, &end, 0)] *)

Abbreviation str := (list byte).

Definition is_space (c : byte) : bool :=
  (Z_of_byte c =? 0x20) || ((0x09 <=? Z_of_byte c) && (Z_of_byte c <=? 0x0d)).

(** The value of an alphanumeric character as a digit. *)
Definition digit_val (c : byte) : option Z :=
  let z := Z_of_byte c in
  if (0x30 <=? z) && (z <=? 0x39) then Some (z - 0x30)
  else if (0x41 <=? z) && (z <=? 0x5a) then Some (z - 0x41 + 10)
  else if (0x61 <=? z) && (z <=? 0x7a) then Some (z - 0x61 + 10)
  else None.

Definition is_digit (base : Z) (c : byte) : bool :=
  match digit_val c with Some d => d <? base | None => false end.

Fixpoint skip_space (s : str) : str :=
  match s with c :: s' => if is_space c then skip_space s' else s | [] => [] end.

(** The longest prefix of digits: its value, appended to [acc], and the rest. *)
Fixpoint digits (base acc : Z) (s : str) : Z * str :=
  match s with
  | c :: s' =>
      match digit_val c with
      | Some d => if d <? base then digits base (acc * base + d) s' else (acc, s)
      | None => (acc, s)
      end
  | [] => (acc, [])
  end.

Definition read_sign (s : str) : bool * str :=
  match s with
  | x2d :: s' => (true, s')
  | x2b :: s' => (false, s')
  | _ => (false, s)
  end.

(** The base that a prefix selects, and the digits to read. *)
Definition read_base (s : str) : Z * str :=
  match s with
  | x30 :: (x78 | x58) :: ((c :: _) as s') => if is_digit 16 c then (16, s') else (8, s)
  | x30 :: _ => (8, s)
  | _ => (10, s)
  end.

(** The value, [end], and whether [errno] was set ([ERANGE]). *)
Definition strtoull (s : str) : Z * str * bool :=
  let '(neg, s1) := read_sign (skip_space s) in
  let '(base, s2) := read_base s1 in
  match s2 with
  | c :: _ =>
      if is_digit base c then
        let '(v, rest) := digits base 0 s2 in
        if 2 ^ 64 - 1 <? v then (2 ^ 64 - 1, rest, true)
        else (if neg : bool then u64 (- v) else v, rest, false)
      else (0, s, false)
  | [] => (0, s, false)
  end.

(** ** [parse_size] *)

Definition parse_size (s : str) : option Z :=
  let '(n, end_, err) := strtoull s in
  if err || (Nat.eqb (length end_) (length s)) then None else
  let '(n, end_) :=
    match end_ with
    | (x6b | x4b) :: e => (u64 (n * 1024), e)
    | (x6d | x4d) :: e => (u64 (n * (1024 * 1024)), e)
    | (x67 | x47) :: e => (u64 (n * (1024 * 1024 * 1024)), e)
    | _ => (n, end_)
    end in
  match end_ with [] => Some n | _ :: _ => None end.

(** ** From the capacity to the number of keys *)

Definition VFU_KVSSD_DEFAULT_CAPACITY : Z := 2 * 1024 * 1024 * 1024.

Definition capacity_slots (capacity : Z) : option Z :=
  let slots := capacity / SLOT in
  if slots =? 0 then None
  else Some (u32 (if NVME_KV_HARD_MAX_NUM_KEYS <? slots then NVME_KV_HARD_MAX_NUM_KEYS
                  else slots)).

(** ** The options of [main] *)

(** What [getopt_long] returns, with [optarg]. *)
Inductive opt : Type :=
| OptSocket (path : str)
| OptCapacity (arg : str)
| OptHelp
| OptVersion
| OptOther.

(** The option loop: an exit code, or the two settings. *)
Fixpoint main_opts (opts : list opt) (sock : option str) (capacity : Z) :
    Z + option str * Z :=
  match opts with
  | [] => inr (sock, capacity)
  | o :: opts' =>
      match o with
      | OptSocket p => main_opts opts' (Some p) capacity
      | OptCapacity a =>
          match parse_size a with
          | None => inl 2
          | Some c => main_opts opts' sock c
          end
      | OptHelp | OptVersion => inl 0
      | OptOther => inl 2
      end
  end.

(** ** Facts *)

Definition is_decimal (c : byte) : bool := (0x30 <=? Z_of_byte c) && (Z_of_byte c <=? 0x39).

(** The number a string of decimal digits denotes. *)
Definition decimal (ds : str) : Z := fold_left (λ a c, a * 10 + (Z_of_byte c - 0x30)) ds 0.

Lemma digits_decimal acc ds rest :
  Forall (λ c, is_decimal c = true) ds →
  match rest with c :: _ => is_digit 10 c = false | [] => True end →
  digits 10 acc (ds ++ rest) = (fold_left (λ a c, a * 10 + (Z_of_byte c - 0x30)) ds acc, rest).
Proof.
  intros Hds Hrest. revert acc. induction Hds as [|c ds Hc _ IH]; intros acc; cbn.
  - destruct rest as [|c rest]; cbn; [done|]. unfold is_digit in Hrest.
    destruct (digit_val c); [|done]. by rewrite Hrest.
  - unfold digit_val. unfold is_decimal in Hc. rewrite Hc.
    destruct (Z.ltb_spec (Z_of_byte c - 0x30) 10); [|lia]. apply IH.
Qed.

(** A decimal numeral without leading zero, followed by no digit. *)
Lemma strtoull_decimal c ds rest :
  Forall (λ c, is_decimal c = true) (c :: ds) → c ≠ x30 →
  match rest with c :: _ => is_digit 10 c = false | [] => True end →
  strtoull (c :: ds ++ rest) =
    if decimal (c :: ds) <? 2 ^ 64 then (decimal (c :: ds), rest, false)
    else (2 ^ 64 - 1, rest, true).
Proof.
  intros Hds H0 Hrest. pose proof (digits_decimal 0 (c :: ds) rest Hds Hrest) as Hd.
  apply Forall_cons in Hds as [Hc _]. unfold strtoull.
  assert (skip_space (c :: ds ++ rest) = c :: ds ++ rest) as ->.
  { cbn. unfold is_space, is_decimal in *.
    assert (_ || _ = false) as -> by (apply orb_false_iff; lia). done. }
  assert (read_sign (c :: ds ++ rest) = (false, c :: ds ++ rest)) as ->
    by (by destruct c).
  assert (read_base (c :: ds ++ rest) = (10, c :: ds ++ rest)) as ->
    by (by destruct c).
  assert (is_digit 10 c = true) as ->.
  { unfold is_digit, digit_val, is_decimal in *. rewrite Hc. lia. }
  change (c :: ds ++ rest) with ((c :: ds) ++ rest). rewrite Hd. fold (decimal (c :: ds)).
  by destruct (Z.ltb_spec (2 ^ 64 - 1) (decimal (c :: ds))),
    (Z.ltb_spec (decimal (c :: ds)) (2 ^ 64)); [lia| | |lia].
Qed.

(** The multiplier of a suffix. *)
Inductive suffix : str → Z → Prop :=
| SufNone : suffix [] 1
| SufK c : c = x6b ∨ c = x4b → suffix [c] 1024
| SufM c : c = x6d ∨ c = x4d → suffix [c] (1024 * 1024)
| SufG c : c = x67 ∨ c = x47 → suffix [c] (1024 * 1024 * 1024).

Lemma decimal_nonneg ds : Forall (λ c, is_decimal c = true) ds → 0 ≤ decimal ds.
Proof.
  unfold decimal. intros Hds.
  enough (∀ acc, 0 ≤ acc →
    0 ≤ fold_left (λ a c, a * 10 + (Z_of_byte c - 0x30)) ds acc) by auto with lia.
  induction Hds as [|c ds Hc _ IH]; intros acc Hacc; cbn; [done|]. apply IH.
  unfold is_decimal in Hc. lia.
Qed.

(** [parse_size] on a numeral and a suffix: the product, modulo [2 ^ 64]. *)
Lemma parse_size_numeral c ds suf mult :
  Forall (λ c, is_decimal c = true) (c :: ds) → c ≠ x30 → suffix suf mult →
  parse_size (c :: ds ++ suf) =
    if decimal (c :: ds) <? 2 ^ 64 then Some (u64 (decimal (c :: ds) * mult)) else None.
Proof.
  intros Hds H0 Hsuf. unfold parse_size. pose proof (decimal_nonneg _ Hds).
  rewrite strtoull_decimal by (done || by destruct Hsuf as [|? [-> | ->]|? [-> | ->]|? [-> | ->]]).
  destruct (Z.ltb_spec (decimal (c :: ds)) (2 ^ 64)); [|done].
  assert (Nat.eqb (length suf) (length (c :: ds ++ suf)) = false) as ->.
  { apply Nat.eqb_neq. cbn. rewrite length_app. lia. }
  cbn [orb]. destruct Hsuf as [|? [-> | ->]|? [-> | ->]|? [-> | ->]]; try done.
  by rewrite Z.mul_1_r, u64_small by lia.
Qed.

(** The number of keys: at least one, never more than the capacity holds. *)
Lemma capacity_slots_ok capacity k :
  0 ≤ capacity < 2 ^ 64 → capacity_slots capacity = Some k →
  1 ≤ k ≤ NVME_KV_HARD_MAX_NUM_KEYS ∧ k * SLOT ≤ capacity ∧
  (k < NVME_KV_HARD_MAX_NUM_KEYS → capacity < (k + 1) * SLOT).
Proof.
  unfold capacity_slots, NVME_KV_HARD_MAX_NUM_KEYS. change SLOT with 4112. intros Hc.
  pose proof (Z.div_mod capacity 4112). pose proof (Z.mod_pos_bound capacity 4112).
  destruct (Z.eqb_spec (capacity / 4112) 0); [done|]. intros [= <-].
  destruct (Z.ltb_spec (2 ^ 32 - 1) (capacity / 4112)); rewrite u32_small; lia.
Qed.
