(* ===== verification/Process.v ===== *)
(** * The process: set-up, server loop, release

    Models [main] of [src/main.c] from the creation of the vfio-user context on, and
    [on_signal].  [main] runs on a [proc]: its variables [g_stop], [errno] and
    [ctrl], the PCI configuration space, and the answers that the calls to
    libvfio-user will give.  A call to [vfu_attach_ctx] or [vfu_run_ctx] may run
    region callbacks on [ctrl] and may be interrupted by a signal. *)

From S2P Require Import Prelude.
From S2P Require Import Bytes.
From S2P Require Import NvmeSpec.
From S2P Require Import Kv.
From S2P Require Import Dma.
From S2P Require Import DmaSpec.
From S2P Require Import Ctrl.
From S2P Require Import Admin.
From S2P Require Import Regs.
From S2P Require Import System.
From S2P Require Import Cli.

(** ** Calls to the library *)

(** [struct msixcap], the fields [main] sets; the others are zero. *)
Record msixcap : Type := {
  hdr_id : Z; hdr_next : Z;
  mxc_ts : Z;
  mtab_tbir : Z; mtab_to : Z;
  mpba_pbir : Z; mpba_pbao : Z;
}.

Inductive bar : Type := BAR0 | BAR4.
Inductive region_cb : Type := CbBar0 | CbMsix.

(** The calls of [main], with the arguments that matter. *)
Inductive lib_call : Type :=
| CreateCtx (sock : str)
| SetupLog
| PciInit
| PciSetId (vid did ssvid ssid : Z)
| SetupRegion (b : bar) (size : Z) (cb : region_cb)
| AddCapability (cap : msixcap)
| SetupDma
| SetupResetCb
| SetupNrIrqs (n : Z)
| CtrlInit
| RealizeCtx
| Signals
| AttachCtx
| RunCtx
| CtrlTeardown
| DestroyCtx.

(** Linux values. *)
Definition PCI_CAP_ID_MSIX : Z := 0x11.
Definition EINTR : Z := 4.
Definition EAGAIN : Z := 11.
Definition ENOTCONN : Z := 107.

Definition msix_cap : msixcap := {|
  hdr_id := PCI_CAP_ID_MSIX; hdr_next := 0;
  mxc_ts := NVME_NUM_IRQS - 1;
  mtab_tbir := NVME_MSIX_BAR; mtab_to := Z.shiftr NVME_MSIX_TABLE_OFFSET 3;
  mpba_pbir := NVME_MSIX_BAR; mpba_pbao := Z.shiftr NVME_MSIX_PBA_OFFSET 3;
|}.

Section process.
Context `{Vfu} `{Uninit}.

(** What happens while a call is in progress: a callback, or the guest changes its
    memory or mappings ([dma_register] and [dma_unregister] do nothing). *)
Inductive incoming : Type :=
| InEvent (e : event)
| InGuest (vfu : vfu_ctx_t) (heap : list bool) (m : mem).

(** The answer to a call: its return value, the [errno] it sets when that is
    negative, whether a signal arrived meanwhile, and what came in. *)
Record answer : Type := {
  a_ret : Z;
  a_errno : Z;
  a_signal : bool;
  a_in : list incoming;
}.

Record proc : Type := {
  pr_stop : bool;              (* g_stop *)
  pr_errno : Z;                (* errno *)
  pr_ctrl : machine;           (* ctrl, and the world of the controller *)
  pr_cfg : list byte;          (* the PCI configuration space *)
  pr_answers : list answer;    (* the answers to the next calls *)
  pr_calls : list lib_call;    (* the calls so far, most recent last *)
}.
Abbreviation P := (M proc).

Definition pr_set_stop (p : proc) (b : bool) : proc :=
  {| pr_stop := b; pr_errno := pr_errno p; pr_ctrl := pr_ctrl p; pr_cfg := pr_cfg p;
     pr_answers := pr_answers p; pr_calls := pr_calls p |}.
Definition pr_set_errno (p : proc) (e : Z) : proc :=
  {| pr_stop := pr_stop p; pr_errno := e; pr_ctrl := pr_ctrl p; pr_cfg := pr_cfg p;
     pr_answers := pr_answers p; pr_calls := pr_calls p |}.
Definition pr_set_ctrl (p : proc) (s : machine) : proc :=
  {| pr_stop := pr_stop p; pr_errno := pr_errno p; pr_ctrl := s; pr_cfg := pr_cfg p;
     pr_answers := pr_answers p; pr_calls := pr_calls p |}.
Definition pr_set_cfg (p : proc) (c : list byte) : proc :=
  {| pr_stop := pr_stop p; pr_errno := pr_errno p; pr_ctrl := pr_ctrl p; pr_cfg := c;
     pr_answers := pr_answers p; pr_calls := pr_calls p |}.
Definition pr_set_answers (p : proc) (l : list answer) : proc :=
  {| pr_stop := pr_stop p; pr_errno := pr_errno p; pr_ctrl := pr_ctrl p; pr_cfg := pr_cfg p;
     pr_answers := l; pr_calls := pr_calls p |}.
Definition pr_add_call (p : proc) (c : lib_call) : proc :=
  {| pr_stop := pr_stop p; pr_errno := pr_errno p; pr_ctrl := pr_ctrl p; pr_cfg := pr_cfg p;
     pr_answers := pr_answers p; pr_calls := pr_calls p ++ [c] |}.

(** Run the controller on [ctrl]. *)
Definition on_ctrl {A} (m : M machine A) : P A := zoom pr_ctrl (λ s p, pr_set_ctrl p s) m.

Definition on_signal : P unit := modify (λ p, pr_set_stop p true).

(** [cfg[off] = v]. *)
Definition poke_cfg (off : Z) (v : byte) : P unit := zoom pr_cfg (λ c p, pr_set_cfg p c) (poke off v).

(** The class code: mass storage, NVM, NVMe; revision 0. *)
Definition set_class : P unit :=
  poke_cfg 0x08 x00;; poke_cfg 0x09 x02;; poke_cfg 0x0a x08;; poke_cfg 0x0b x01.

(** A call that gives no answer. *)
Definition note (c : lib_call) : P unit := modify (λ p, pr_add_call p c).

(** The next answer; the model has no more to say when there is none. *)
Definition next_answer : P answer :=
  l ← gets pr_answers;
  match l with
  | [] => out_of_fuel
  | a :: l' => modify (λ p, pr_set_answers p l');; mret a
  end.

(** A call that runs no callback. *)
Definition lib (c : lib_call) : P Z :=
  note c;;
  a ← next_answer;
  (if a_ret a <? 0 then modify (λ p, pr_set_errno p (a_errno a)) else mret tt);;
  mret (a_ret a).

Definition handle_in (fuel : nat) (i : incoming) : M machine unit :=
  match i with
  | InEvent e => handle fuel e
  | InGuest vfu heap m =>
      modify (λ s, (n_set_vfu s.1 vfu, {| h_heap := heap; h_mem := m; h_log := h_log s.2 |}))
  end.

Fixpoint handle_ins (fuel : nat) (l : list incoming) : M machine unit :=
  match l with
  | [] => mret tt
  | i :: l' => handle_in fuel i;; handle_ins fuel l'
  end.

(** A call that serves the client. *)
Definition lib_serve (fuel : nat) (c : lib_call) : P Z :=
  note c;;
  a ← next_answer;
  on_ctrl (handle_ins fuel (a_in a));;
  (if a_signal a : bool then on_signal else mret tt);;
  (if a_ret a <? 0 then modify (λ p, pr_set_errno p (a_errno a)) else mret tt);;
  mret (a_ret a).

(** ** The server loop *)

(** [do ret = vfu_run_ctx (vfu); while (ret >= 0 && !g_stop)]. *)
Fixpoint run_loop (fuel k : nat) : P Z :=
  ret ← lib_serve fuel RunCtx;
  stop ← gets pr_stop;
  if (0 <=? ret) && negb stop then
    match k with O => out_of_fuel | S k' => run_loop fuel k' end
  else mret ret.

(** [while (!g_stop)].  [g_stop] is read only after a call and at the head of the loop,
    so a signal counts as one during a call: the call before, when it arrives between
    that call and the next reading of [g_stop]; the call to come, whose result may
    be any, when it arrives between the reading and the call (before the first
    reading: [pr_stop] is set from the start).  A call that is never answered, because
    the library stays blocked in it, is outside the model: the answers run out, and
    the outcome is [OutOfFuel]. *)
Fixpoint serve (fuel k : nat) : P unit :=
  stop ← gets pr_stop;
  if stop : bool then mret tt else
  match k with
  | O => out_of_fuel
  | S k' =>
      ret ← lib_serve fuel AttachCtx;
      e ← gets pr_errno;
      if ret <? 0 then
        if (e =? EAGAIN) || (e =? EINTR) then serve fuel k' else mret tt
      else
        ret ← run_loop fuel k';
        e ← gets pr_errno;
        if (ret <? 0) && (e =? ENOTCONN) then serve fuel k'
        else if (ret <? 0) && negb (e =? EINTR) then mret tt
        else serve fuel k'
  end.

(** ** [main] *)

(** [err: vfu_destroy_ctx (vfu); return 1]. *)
Definition main_err : P Z := note DestroyCtx;; mret 1.
Definition main_err_ctrl : P Z := note CtrlTeardown;; on_ctrl nvme_ctrl_teardown;; main_err.

(** [if (c < 0) goto err]. *)
Definition try (c : lib_call) (k : P Z) : P Z :=
  r ← lib c; if r <? 0 then main_err else k.

(** [main] from the creation of the context; [vfu] is the context created. *)
Definition main_run (fuel : nat) (vfu : vfu_ctx_t) (sock : str) (max_num_keys : Z) : P Z :=
  r ← lib (CreateCtx sock);
  if r <? 0 then mret 1 else
  note SetupLog;;
  try PciInit (
  note (PciSetId 0x1b36 0x0010 0 0);;
  set_class;;
  try (SetupRegion BAR0 NVME_BAR0_SIZE CbBar0) (
  try (SetupRegion BAR4 NVME_MSIX_BAR_SIZE CbMsix) (
  try (AddCapability msix_cap) (
  try SetupDma (
  try SetupResetCb (
  try (SetupNrIrqs NVME_NUM_IRQS) (
  note CtrlInit;;
  r ← on_ctrl (nvme_ctrl_init vfu max_num_keys);
  if r <? 0 then main_err else
  r ← lib RealizeCtx;
  if r <? 0 then main_err_ctrl else
  note Signals;;
  k ← gets (λ p, length (pr_answers p));
  serve fuel (S k);;
  note CtrlTeardown;;
  on_ctrl nvme_ctrl_teardown;;
  note DestroyCtx;;
  mret 0))))))).

Definition main (fuel : nat) (vfu : vfu_ctx_t) (opts : list opt) : P Z :=
  match main_opts opts None VFU_KVSSD_DEFAULT_CAPACITY with
  | inl code => mret code
  | inr (None, _) => mret 2
  | inr (Some sock, capacity) =>
      match capacity_slots capacity with
      | None => mret 2
      | Some max_num_keys => main_run fuel vfu sock max_num_keys
      end
  end.
End process.
