(* ===== verification/ProcessSpec.v ===== *)
(** * The process around the device

    The server loop is a state machine over the answers of the library
    ([flat_serve]): it drives [ctrl] through transitions of the device ([dev_step])
    and ends after a signal.  Set-up and release keep to their order on every path. *)

From S2P Require Import Prelude.
From S2P Require Import Bytes.
From S2P Require Import NvmeSpec.
From S2P Require Import Kv.
From S2P Require Import KvInv.
From S2P Require Import KvSpec.
From S2P Require Import Dma.
From S2P Require Import DmaSpec.
From S2P Require Import Ctrl.
From S2P Require Import Admin.
From S2P Require Import Regs.
From S2P Require Import CtrlInv.
From S2P Require Import System.
From S2P Require Import Cli.
From S2P Require Import Process.

#[export] Instance msixcap_eq_dec : EqDecision msixcap.
Proof. solve_decision. Defined.
#[export] Instance bar_eq_dec : EqDecision bar.
Proof. solve_decision. Defined.
#[export] Instance region_cb_eq_dec : EqDecision region_cb.
Proof. solve_decision. Defined.
#[export] Instance lib_call_eq_dec : EqDecision lib_call.
Proof. solve_decision. Defined.

(** The number of keys [main] asks for, when it gets past its options. *)
Definition main_keys (opts : list opt) : option Z :=
  match main_opts opts None VFU_KVSSD_DEFAULT_CAPACITY with
  | inr (Some _, capacity) => capacity_slots capacity
  | _ => None
  end.

(** The calls of the server loop, and those that release. *)
Definition is_serving (c : lib_call) : bool :=
  match c with AttachCtx | RunCtx => true | _ => false end.
Definition is_final (c : lib_call) : bool :=
  match c with CtrlTeardown | DestroyCtx => true | _ => false end.

(** The option loop exits with code 2, or with code 0 for help and version. *)
Definition early_exit (opts : list opt) (code : Z) : Prop :=
  code = 2 ∨ code = 0 ∧ (OptHelp ∈ opts ∨ OptVersion ∈ opts).

Lemma early_exit_cons o opts code : early_exit opts code → early_exit (o :: opts) code.
Proof.
  intros [|[? [?|?]]]; [by left|right; split; [done|]..]; [left|right]; by apply list_elem_of_further.
Qed.

Lemma main_opts_code opts sock capacity code :
  main_opts opts sock capacity = inl code → early_exit opts code.
Proof.
  revert sock capacity. induction opts as [|o opts IH]; intros sock capacity; cbn; [done|].
  destruct o; cbn; try (intros [= <-]; unfold early_exit; auto using list_elem_of_here).
  - intros Hl. by eapply early_exit_cons, IH.
  - destruct (parse_size arg); [|intros [= <-]; by left]. intros Hl. by eapply early_exit_cons, IH.
Qed.

Section process_spec.
Context `{Uninit} `{VfuOk}.
Implicit Types (p : proc) (s : machine) (a : answer).

(** What libvfio-user may pass on. *)
Definition in_ok (i : incoming) : Prop :=
  match i with InEvent e => event_ok e | InGuest _ _ _ => True end.
Definition ans_ok a : Prop := Forall in_ok (a_in a).

(** ** Serving *)

Lemma handle_ins_safe fuel l s :
  ctrl_inv s.1 → Forall in_ok l →
  safe (handle_ins fuel l) (λ _ s', rtc dev_step s s' ∧ ctrl_inv s'.1) s.
Proof.
  intros Hinv Hl. revert s Hinv. induction Hl as [|i l Hi _ IH]; intros s Hinv; [done|].
  cbn. apply safe_bind. eapply (safe_mono _ (λ _ s', dev_step s s')).
  - destruct i as [e|vfu heap m], s as [n h]; cbn in *; [|by constructor].
    pose proof (handle_safe fuel e n h Hinv Hi) as Hs. revert Hs. unfold safe.
    destruct (handle fuel e (n, h)) as [[[] s']| |] eqn:E; [|done..].
    intros _. by econstructor.
  - intros _ s' Hstep. pose proof (dev_step_inv _ _ Hinv Hstep) as Hinv'.
    eapply safe_mono; [by apply IH|]. intros _ s'' [Hr ?]. split; [|done].
    by eapply rtc_l.
Qed.

(** From [p] to [p'] by serving. *)
Record served p p' : Prop := {
  sv_ctrl : rtc dev_step (pr_ctrl p) (pr_ctrl p');
  sv_inv : ctrl_inv (pr_ctrl p').1;
  sv_calls : ∃ l, pr_calls p' = pr_calls p ++ l ∧ Forall (λ c, is_serving c = true) l;
  sv_cfg : pr_cfg p' = pr_cfg p;
  sv_answers : pr_answers p' `suffix_of` pr_answers p;
}.

Lemma served_refl p : ctrl_inv (pr_ctrl p).1 → served p p.
Proof. intros. split; try done. exists []. by rewrite app_nil_r. Qed.

Lemma served_trans p1 p2 p3 : served p1 p2 → served p2 p3 → served p1 p3.
Proof.
  intros [? _ (l1 & E1 & F1) ? ?] [? ? (l2 & E2 & F2) ? ?].
  split; [by etrans|done| |congruence|by etrans].
  exists (l1 ++ l2). rewrite E2, E1, <-app_assoc. split; [done|by apply Forall_app].
Qed.

Definition serve_pre p : Prop := ctrl_inv (pr_ctrl p).1 ∧ Forall ans_ok (pr_answers p).

Lemma served_pre p p' : serve_pre p → served p p' → serve_pre p'.
Proof.
  intros [_ Ha] Hs. split; [apply Hs|]. destruct (sv_answers _ _ Hs) as [l Hl].
  rewrite Hl in Ha. apply Forall_app in Ha as [_ Ha]. done.
Qed.

(** *** The protocol of the loop

    The two nested loops as one state machine: which call is made next, given the
    last call, its answer and [g_stop]. *)

Inductive mode : Type := Attaching | Running.

Definition call_of (m : mode) : lib_call :=
  match m with Attaching => AttachCtx | Running => RunCtx end.

(** The errors after which the server waits for a client again. *)
Definition tolerated (m : mode) (errno : Z) : bool :=
  match m with
  | Attaching => (errno =? EAGAIN) || (errno =? EINTR)
  | Running => (errno =? ENOTCONN) || (errno =? EINTR)
  end.

(** A client that attached is served at least once; [None] is the end. *)
Definition next_mode (m : mode) (stop : bool) a : option mode :=
  if 0 <=? a_ret a then
    match m with
    | Attaching => Some Running
    | Running => if stop then None else Some Running
    end
  else if tolerated m (a_errno a) && negb stop then Some Attaching else None.

(** [p] after the call of [m], answered by [a], has left the controller in [s]. *)
Definition answered p (m : mode) a (l : list answer) s : proc := {|
  pr_stop := pr_stop p || a_signal a;
  pr_errno := if a_ret a <? 0 then a_errno a else pr_errno p;
  pr_ctrl := s; pr_cfg := pr_cfg p; pr_answers := l; pr_calls := pr_calls p ++ [call_of m] |}.

Fixpoint flat_serve (fuel : nat) (m : option mode) (l : list answer) p : outcome (unit * proc) :=
  match m, l with
  | None, _ => Done (tt, p)
  | Some _, [] => OutOfFuel
  | Some m, a :: l' =>
      match handle_ins fuel (a_in a) (pr_ctrl p) with
      | Done (_, s) =>
          flat_serve fuel (next_mode m (pr_stop p || a_signal a) a) l' (answered p m a l' s)
      | Undef => Undef
      | OutOfFuel => OutOfFuel
      end
  end.

Lemma lib_serve_eq fuel m p :
  lib_serve fuel (call_of m) p =
    match pr_answers p with
    | [] => OutOfFuel
    | a :: l =>
        match handle_ins fuel (a_in a) (pr_ctrl p) with
        | Done (_, s) => Done (a_ret a, answered p m a l s)
        | Undef => Undef
        | OutOfFuel => OutOfFuel
        end
    end.
Proof.
  destruct p as [stop e s cfg [|a l] calls]; [done|].
  unfold lib_serve, next_answer, on_ctrl, zoom, mbind, M_bind, answered. cbn.
  destruct (handle_ins fuel (a_in a) s) as [[[] s']| |]; [|done..]. cbn.
  destruct (a_signal a), (a_ret a <? 0); cbn; by rewrite ?orb_true_r, ?orb_false_r.
Qed.

(** What follows the run loop. *)
Definition after_run fuel (k : nat) (ret : Z) : M proc unit :=
  e ← gets pr_errno;
  if (ret <? 0) && (e =? ENOTCONN) then serve fuel k
  else if (ret <? 0) && negb (e =? EINTR) then mret tt
  else serve fuel k.

Definition start_mode p : option mode := if pr_stop p then None else Some Attaching.

Lemma flat_serve_none fuel l p : flat_serve fuel None l p = Done (tt, p).
Proof. by destruct l. Qed.

(** The outer loop is entered again: it looks at [g_stop]. *)
Lemma flat_serve_again fuel m a l p s :
  a_ret a < 0 →
  flat_serve fuel (next_mode m (pr_stop p || a_signal a) a) l (answered p m a l s) =
    if tolerated m (a_errno a)
    then flat_serve fuel (start_mode (answered p m a l s)) l (answered p m a l s)
    else Done (tt, answered p m a l s).
Proof.
  intros Ha. unfold next_mode, start_mode. rewrite (proj2 (Z.leb_gt _ _)) by done.
  cbn [pr_stop answered].
  destruct (tolerated _ _), (_ || _); cbn [andb negb]; by rewrite ?flat_serve_none.
Qed.

Section flat_step.
Context (fuel : nat) (a : answer) (l : list answer).
Hypothesis (IHs : ∀ p k, pr_answers p = l → (length l < k)%nat →
  serve fuel k p = flat_serve fuel (start_mode p) l p).
Hypothesis (IHr : ∀ p k k', pr_answers p = l → (length l ≤ k)%nat → (length l ≤ k')%nat →
  (run_loop fuel k ≫= after_run fuel k') p = flat_serve fuel (Some Running) l p).

Lemma serve_flat_step p k :
  pr_answers p = a :: l → (S (length l) < k)%nat →
  serve fuel k p = flat_serve fuel (start_mode p) (a :: l) p.
Proof using IHs IHr.
  intros Hp Hk. destruct k as [|k]; [lia|]. cbn [serve]. unfold start_mode.
  rewrite bind_run. cbn [gets]. destruct (pr_stop p) eqn:Hstop; [done|].
  rewrite bind_run, (lib_serve_eq fuel Attaching), Hp. cbn [flat_serve].
  destruct (handle_ins fuel (a_in a) (pr_ctrl p)) as [[[] s]| |]; [|done..].
  rewrite bind_run. cbn [gets]. destruct (Z.ltb_spec (a_ret a) 0) as [Hneg|Hpos].
  - rewrite flat_serve_again by done. cbn [tolerated pr_errno answered].
    rewrite (proj2 (Z.ltb_lt _ _) Hneg). destruct (_ || _); [|done]. apply IHs; [done|lia].
  - unfold next_mode. rewrite (proj2 (Z.leb_le _ _)) by done. apply IHr; [done|lia..].
Qed.

Lemma run_flat_step p k k' :
  pr_answers p = a :: l → (S (length l) ≤ k)%nat → (S (length l) ≤ k')%nat →
  (run_loop fuel k ≫= after_run fuel k') p = flat_serve fuel (Some Running) (a :: l) p.
Proof using IHs IHr.
  intros Hp Hk Hk'. destruct k as [|k]; [lia|]. cbn [run_loop].
  rewrite !bind_run, (lib_serve_eq fuel Running), Hp. cbn [flat_serve].
  destruct (handle_ins fuel (a_in a) (pr_ctrl p)) as [[[] s]| |]; [|done..].
  rewrite bind_run. cbn [gets]. destruct (Z.leb_spec 0 (a_ret a)) as [Hpos|Hneg]; cbn [andb].
  - unfold next_mode. rewrite (proj2 (Z.leb_le _ _) Hpos). cbn [pr_stop answered].
    destruct (pr_stop p || a_signal a) eqn:Hstop; cbn [negb].
    + cbn [mret M_ret]. unfold after_run. rewrite bind_run. cbn [gets].
      rewrite (proj2 (Z.ltb_ge _ _) Hpos). cbn [andb]. rewrite IHs by (done || lia).
      unfold start_mode. cbn [pr_stop answered]. by rewrite Hstop.
    + rewrite <-bind_run. apply IHr; [done|lia..].
  - rewrite flat_serve_again by done. cbn [mret M_ret]. unfold after_run.
    rewrite bind_run. cbn [gets tolerated pr_errno answered].
    rewrite (proj2 (Z.ltb_lt _ _) Hneg). cbn [andb].
    destruct (a_errno a =? ENOTCONN); cbn [orb]; [apply IHs; [done|lia]|].
    destruct (a_errno a =? EINTR); cbn [negb]; [apply IHs; [done|lia]|done].
Qed.
End flat_step.

Lemma serve_flat_aux fuel l :
  (∀ p k, pr_answers p = l → (length l < k)%nat →
     serve fuel k p = flat_serve fuel (start_mode p) l p) ∧
  (∀ p k k', pr_answers p = l → (length l ≤ k)%nat → (length l ≤ k')%nat →
     (run_loop fuel k ≫= after_run fuel k') p = flat_serve fuel (Some Running) l p).
Proof.
  induction l as [|a l [IHs IHr]].
  - split.
    + intros p [|k] Hp Hk; [lia|]. cbn [serve]. unfold start_mode.
      rewrite bind_run. cbn [gets]. destruct (pr_stop p); [done|].
      by rewrite bind_run, (lib_serve_eq fuel Attaching), Hp.
    + intros p k k' Hp _ _. destruct k; cbn [run_loop];
        by rewrite !bind_run, (lib_serve_eq fuel Running), Hp.
  - split; [intros; by apply serve_flat_step|intros; by apply run_flat_step].
Qed.

Lemma serve_flat fuel p k :
  (length (pr_answers p) < k)%nat →
  serve fuel k p = flat_serve fuel (start_mode p) (pr_answers p) p.
Proof. intros. by apply serve_flat_aux. Qed.

Lemma flat_serve_safe fuel l m p :
  pr_answers p = l → serve_pre p →
  match flat_serve fuel m l p with
  | Done (_, p') => served p p'
  | Undef => False
  | OutOfFuel => True
  end.
Proof.
  revert m p. induction l as [|a l IH]; intros [m|] p Hp [Hinv Ha]; cbn; try done;
    try by apply served_refl.
  rewrite Hp in Ha. apply Forall_cons in Ha as [Ha Hl].
  pose proof (handle_ins_safe fuel (a_in a) (pr_ctrl p) Hinv Ha) as Hs. unfold safe in Hs.
  destruct (handle_ins fuel (a_in a) (pr_ctrl p)) as [[[] s]| |]; [|done..].
  destruct Hs as [Hr Hinv'].
  assert (Hone : served p (answered p m a l s)).
  { split; cbn; try done.
    - exists [call_of m]. split; [done|]. apply Forall_singleton. by destruct m.
    - rewrite Hp. by exists [a]. }
  specialize (IH (next_mode m (pr_stop p || a_signal a) a) (answered p m a l s) eq_refl
    (conj Hinv' Hl)).
  destruct (flat_serve _ _ _ _) as [[[] p']| |]; [|done..]. by eapply served_trans.
Qed.

Lemma serve_safe fuel p :
  serve_pre p → safe (serve fuel (S (length (pr_answers p)))) (λ _ p', served p p') p.
Proof.
  intros Hp. unfold safe. rewrite serve_flat by lia. by apply flat_serve_safe.
Qed.

(** ** Set-up and release *)

(** The calls of a complete set-up. *)
Definition setup_seq (sock : str) : list lib_call :=
  [CreateCtx sock; SetupLog; PciInit; PciSetId 0x1b36 0x0010 0 0;
   SetupRegion BAR0 NVME_BAR0_SIZE CbBar0; SetupRegion BAR4 NVME_MSIX_BAR_SIZE CbMsix;
   AddCapability msix_cap; SetupDma; SetupResetCb; SetupNrIrqs NVME_NUM_IRQS;
   CtrlInit; RealizeCtx].

(** How a run that got past its options ends: its exit code, the calls it made,
    and whether the controller had been initialised. *)
Inductive main_exit (sock : str) : Z → list lib_call → bool → Prop :=
| ExitCreate : main_exit sock 1 [CreateCtx sock] false
| ExitSetup k :
    k ∈ [3; 5; 6; 7; 8; 9; 10]%nat →
    main_exit sock 1 (take k (setup_seq sock) ++ [DestroyCtx]) false
| ExitCtrlInit : main_exit sock 1 (take 11 (setup_seq sock) ++ [DestroyCtx]) true
| ExitRealize : main_exit sock 1 (setup_seq sock ++ [CtrlTeardown; DestroyCtx]) true
| ExitServed l :
    Forall (λ c, is_serving c = true) l →
    main_exit sock 0 (setup_seq sock ++ Signals :: l ++ [CtrlTeardown; DestroyCtx]) true.

(** The namespace owns no memory. *)
Definition freed s : Prop := ns_pairs (n_ns s.1) = None ∧ ns_id_ns_kv (n_ns s.1) = None.

(** The configuration space with the class code of an NVMe controller. *)
Definition with_class (cfg : list byte) : list byte :=
  take 8 cfg ++ [x00; x02; x08; x01] ++ drop 12 cfg.

Definition run_post (p0 : proc) (sock : str) (code : Z) p' : Prop :=
  ∃ inited, main_exit sock code (pr_calls p') inited ∧
    (code = 0 → pr_cfg p' = with_class (pr_cfg p0)) ∧
    if inited : bool then freed (pr_ctrl p') else pr_ctrl p' = pr_ctrl p0.

(** During set-up, after the calls [l]. *)
Record setting_up (p0 p : proc) (cfg : list byte) (l : list lib_call) : Prop := {
  su_ctrl : pr_ctrl p = pr_ctrl p0;
  su_calls : pr_calls p = l;
  su_cfg : pr_cfg p = cfg;
  su_answers : Forall ans_ok (pr_answers p);
}.

Lemma setting_up_note p0 p cfg l c :
  setting_up p0 p cfg l → setting_up p0 (pr_add_call p c) cfg (l ++ [c]).
Proof. intros [? E ? ?]. split; try done. cbn. by rewrite E. Qed.

Lemma note_safe p0 p cfg l c Q :
  setting_up p0 p cfg l → (∀ p', setting_up p0 p' cfg (l ++ [c]) → Q tt p') →
  safe (note c) Q p.
Proof. intros Hs HQ. by apply wp_safe, wp_modify, HQ, setting_up_note. Qed.

Lemma lib_safe p0 p cfg l c :
  setting_up p0 p cfg l → safe (lib c) (λ _ p', setting_up p0 p' cfg (l ++ [c])) p.
Proof.
  intros Hs. unfold lib, next_answer. apply safe_bind, wp_safe, wp_modify.
  apply (setting_up_note _ _ _ _ c) in Hs. destruct Hs as [E1 E2 E3 E4].
  apply safe_bind, safe_bind, wp_safe, wp_gets.
  cbn [pr_answers pr_add_call] in *. destruct (pr_answers p) as [|a l']; [done|].
  apply Forall_cons in E4 as [_ E4]. apply safe_bind, wp_safe, wp_modify, wp_safe, wp_ret.
  apply safe_bind, wp_safe. destruct (a_ret a <? 0); [apply wp_modify|apply wp_ret];
    by apply wp_safe, wp_ret.
Qed.

Lemma try_safe p0 p cfg l c (k : M proc Z) Q :
  setting_up p0 p cfg l →
  (∀ p', setting_up p0 p' cfg (l ++ [c]) → safe k Q p') →
  (∀ p', setting_up p0 p' cfg ((l ++ [c]) ++ [DestroyCtx]) → Q 1 p') →
  safe (try c k) Q p.
Proof.
  intros Hs Hk He. unfold try. apply safe_bind.
  eapply safe_mono; [by apply lib_safe|]. intros r p' Hp'. case_match; [|by apply Hk].
  apply safe_bind, (note_safe p0 p' cfg (l ++ [c])); [exact Hp'|].
  intros p'' Hp''. by apply wp_safe, wp_ret, He.
Qed.

Lemma set_class_eq p :
  (12 ≤ length (pr_cfg p))%nat → set_class p = Done (tt, pr_set_cfg p (with_class (pr_cfg p))).
Proof.
  intros Hl. remember (pr_cfg p) as cfg eqn:E. symmetry in E.
  do 12 (destruct cfg as [|? cfg]; [cbn in Hl; lia|]). clear Hl.
  assert (Hpoke : ∀ k v p1 c1, pr_cfg p1 = c1 → (k < length c1)%nat →
    poke_cfg (Z.of_nat k) v p1 =
      Done (tt, pr_set_cfg p1 (take k c1 ++ v :: drop (k + 1) c1))).
  { intros k v p1 c1 <- Hk. unfold poke_cfg, zoom, poke.
    by rewrite buf_write_Some, Nat2Z.id by (cbn; lia). }
  unfold set_class, mbind, M_bind.
  rewrite (Hpoke 8%nat _ _ _ E) by (cbn; lia).
  rewrite (Hpoke 9%nat _ _ _ eq_refl) by (cbn; lia).
  rewrite (Hpoke 10%nat _ _ _ eq_refl) by (cbn; lia).
  by rewrite (Hpoke 11%nat _ _ _ eq_refl) by (cbn; lia).
Qed.

Lemma set_class_safe p0 p cfg l :
  setting_up p0 p cfg l → (12 ≤ length cfg)%nat →
  safe set_class (λ _ p', setting_up p0 p' (with_class cfg) l) p.
Proof. intros [? ? <- ?] Hl. unfold safe. by rewrite set_class_eq. Qed.

(** Exits before the controller is initialised. *)
Lemma setup_exit p0 p cfg sock k :
  k ∈ [3; 5; 6; 7; 8; 9; 10]%nat →
  setting_up p0 p cfg (take k (setup_seq sock) ++ [DestroyCtx]) → run_post p0 sock 1 p.
Proof.
  intros Hk [E1 E2 _ _]. exists false. rewrite E2. split; [by apply ExitSetup|done].
Qed.

(** Tear-down and destruction end every later exit. *)
Lemma teardown_safe p (Q : Z → proc → Prop) (code : Z) :
  (∀ s, freed s → Q code (pr_add_call (pr_set_ctrl (pr_add_call p CtrlTeardown) s) DestroyCtx)) →
  safe (note CtrlTeardown;; on_ctrl nvme_ctrl_teardown;; note DestroyCtx;; mret code) Q p.
Proof.
  intros HQ. apply wp_safe, wp_bind, wp_modify, wp_bind, wp_zoom. cbn [pr_ctrl pr_add_call].
  destruct (pr_ctrl p) as [n h]. apply wp_zoom, wp_modify, wp_bind, wp_modify, wp_ret.
  by apply HQ.
Qed.

(** The part of [main] from the initialisation of the controller on. *)
Lemma main_init_safe fuel vfu sock max p0 p :
  0 ≤ max ≤ 2 ^ 31 → setting_up p0 p (with_class (pr_cfg p0)) (take 10 (setup_seq sock)) →
  safe (note CtrlInit;;
        r ← on_ctrl (nvme_ctrl_init vfu max);
        if r <? 0 then main_err else
        r ← lib RealizeCtx;
        if r <? 0 then main_err_ctrl else
        note Signals;;
        k ← gets (λ p, length (pr_answers p));
        serve fuel (S k);;
        note CtrlTeardown;;
        on_ctrl nvme_ctrl_teardown;;
        note DestroyCtx;;
        mret 0) (run_post p0 sock) p.
Proof.
  intros Hmax Hs. apply safe_bind, (note_safe _ _ _ _ _ _ Hs). clear p Hs. intros p Hs.
  apply safe_bind, wp_safe, wp_zoom. destruct (pr_ctrl p) as [n h] eqn:Ectrl.
  eapply wp_mono; [apply nvme_ctrl_init_wp|]. intros rc s (Hrc & _).
  assert (Hs1 : setting_up (pr_set_ctrl p0 s) (pr_set_ctrl p s) (with_class (pr_cfg p0))
    (take 11 (setup_seq sock))) by (destruct Hs; by split).
  clear Hs Ectrl n h.
  destruct Hrc as [[-> Hn]|[-> Hz]]; cbn [Z.ltb Z.compare].
  2:{ apply safe_bind, (note_safe _ _ _ _ _ _ Hs1). intros p1 [E1 E2 E3 _].
      apply wp_safe, wp_ret. exists true. rewrite E2. split; [apply ExitCtrlInit|].
      split; [done|]. unfold freed. by rewrite E1; cbn; rewrite Hz. }
  apply safe_bind. eapply safe_mono; [apply (lib_safe _ _ _ _ _ Hs1)|].
  clear p Hs1. intros r p Hs. case_match.
  { apply safe_bind, wp_safe, wp_modify. apply safe_bind, wp_safe, wp_zoom.
    cbn [pr_ctrl pr_add_call]. destruct (pr_ctrl p) as [n' h']. apply wp_zoom, wp_modify.
    apply safe_bind, wp_safe, wp_modify. apply wp_safe, wp_ret. exists true.
    destruct Hs as [_ E2 _ _]. cbn [pr_calls pr_add_call pr_set_ctrl]. rewrite E2.
    split; [|done]. cbn. apply (ExitRealize sock). }
  apply safe_bind, (note_safe _ _ _ _ _ _ Hs). clear p Hs. intros p Hs.
  apply safe_bind, wp_safe, wp_gets. apply safe_bind.
  eapply safe_mono; [apply (serve_safe fuel p)|].
  { destruct Hs as [E1 _ _ E4]. split; [|done]. rewrite E1. cbn. rewrite Hn.
    by apply ctrl_init_inv. }
  intros u p' Hsv. apply teardown_safe. intros s' Hfreed. exists true.
  destruct Hsv as [_ _ (l & E & Hl) Ecfg _], Hs as [_ E2 E3 _].
  cbn [pr_calls pr_cfg pr_ctrl pr_add_call pr_set_ctrl]. split; [|split; [|done]].
  - rewrite E, E2, <-!app_assoc. by apply (ExitServed sock l).
  - intros _. congruence.
Qed.

(** One fallible call of the set-up, the [k]-th call. *)
Local Ltac next_try S k :=
  apply (try_safe _ _ _ _ _ _ _ S); clear S; intros ? S;
    [|by apply (setup_exit _ _ _ _ k ltac:(set_solver) S)].

(** [main] past its options: safe, and ends in one of the exits. *)
Lemma main_run_safe fuel vfu sock max p :
  0 ≤ max ≤ 2 ^ 31 → pr_calls p = [] → (12 ≤ length (pr_cfg p))%nat →
  Forall ans_ok (pr_answers p) →
  safe (main_run fuel vfu sock max) (run_post p sock) p.
Proof.
  intros Hmax Hcalls Hcfg Hans. unfold main_run. apply safe_bind.
  assert (S0 : setting_up p p (pr_cfg p) []) by done.
  eapply safe_mono; [by apply (lib_safe _ _ _ _ _ S0)|]. clear S0. intros r p1 S1.
  case_match.
  { apply wp_safe, wp_ret. exists false. destruct S1 as [? E ? ?]. rewrite E.
    split; [constructor|done]. }
  apply safe_bind, (note_safe _ _ _ _ _ _ S1). clear S1. intros p2 S2.
  next_try S2 3%nat.
  apply safe_bind, (note_safe _ _ _ _ _ _ S2). clear S2. intros p4 S4.
  apply safe_bind. eapply safe_mono; [by apply (set_class_safe _ _ _ _ S4)|].
  clear S4. intros u p5 S5. cbn beta in S5.
  next_try S5 5%nat. next_try S5 6%nat. next_try S5 7%nat. next_try S5 8%nat.
  next_try S5 9%nat. next_try S5 10%nat.
  by apply main_init_safe.
Qed.

(** ** The end of the server loop *)

(** Every callback of the answers [l] returns, from the controller [s] on. *)
Fixpoint callbacks_return (fuel : nat) s (l : list answer) : Prop :=
  match l with
  | [] => True
  | a :: l' => match handle_ins fuel (a_in a) s with
               | Done (_, s') => callbacks_return fuel s' l'
               | _ => False
               end
  end.

(** The loop ends with the call after the one during which a signal comes, if not
    before. *)
Lemma flat_serve_stops fuel pre a b rest m p :
  pr_answers p = pre ++ a :: b :: rest → a_signal a = true →
  callbacks_return fuel (pr_ctrl p) (pre ++ [a; b]) →
  ∃ p' calls, flat_serve fuel m (pre ++ a :: b :: rest) p = Done (tt, p') ∧
    pr_calls p' = pr_calls p ++ calls ∧ Forall (λ c, is_serving c = true) calls ∧
    (length calls ≤ length pre + 2)%nat.
Proof.
  intros Hp Ha. revert m p Hp.
  assert (Hserving : ∀ m, is_serving (call_of m) = true) by (by intros []).
  induction pre as [|c pre IH]; intros [m|] p Hp Hcb;
    try (exists p, []; rewrite flat_serve_none, app_nil_r; split_and!; [done..|cbn; lia]);
    cbn in *.
  - destruct (handle_ins fuel (a_in a) (pr_ctrl p)) as [[[] s]| |]; [|done..].
    rewrite Ha, orb_true_r. unfold next_mode, answered. cbn. rewrite andb_false_r.
    destruct (0 <=? a_ret a); [|by eexists _, [_]; split_and!; [done|done|by apply Forall_singleton|cbn; lia]].
    destruct m; [|by eexists _, [_]; split_and!; [done|done|by apply Forall_singleton|cbn; lia]].
    cbn. destruct (handle_ins fuel (a_in b) s) as [[[] s']| |]; [|done..].
    rewrite Ha, orb_true_r. unfold next_mode. cbn. rewrite andb_false_r.
    exists (answered (answered p Attaching a (b :: rest) s) Running b rest s'), [AttachCtx; RunCtx].
    split_and!; [by destruct (0 <=? a_ret b); rewrite flat_serve_none; unfold answered; cbn; rewrite Ha, orb_true_r
      |cbn; by rewrite <-app_assoc|by repeat constructor|cbn; lia].
  - destruct (handle_ins fuel (a_in c) (pr_ctrl p)) as [[[] s]| |]; [|done..].
    destruct (IH (next_mode m (pr_stop p || a_signal c) c)
      (answered p m c (pre ++ a :: b :: rest) s) eq_refl Hcb) as (p' & calls & E & Hc & Hf & Hlen).
    exists p', (call_of m :: calls). split_and!; [done| |by constructor|cbn; lia].
    rewrite Hc. cbn. by rewrite <-app_assoc.
Qed.

(** A call of the set-up that is answered without an error. *)
Lemma lib_ok c a l p :
  pr_answers p = a :: l → 0 ≤ a_ret a →
  lib c p = Done (a_ret a, pr_set_answers (pr_add_call p c) l).
Proof.
  intros E Ha. unfold lib, next_answer, mbind, M_bind. cbn. rewrite E. cbn.
  destruct (Z.ltb_spec (a_ret a) 0); [lia|done].
Qed.

Lemma try_ok c a l p (k : M proc Z) Q :
  pr_answers p = a :: l → 0 ≤ a_ret a →
  wp k Q (pr_set_answers (pr_add_call p c) l) → wp (try c k) Q p.
Proof.
  intros E Ha Hk. unfold try. apply wp_bind. eapply wp_run; [by apply (lib_ok _ _ _ _ E)|].
  cbv beta. destruct (Z.ltb_spec (a_ret a) 0); [lia|done].
Qed.

Lemma nvme_ctrl_init_ok n h vfu max :
  h_heap h = [] → nvme_ctrl_init vfu max (n, h) = Done (0, (ctrl_init_state vfu max, h)).
Proof. destruct h as [o m l]. cbn. by intros ->. Qed.

(** When set-up succeeds and the callbacks return, a signal ends [main]. *)
Lemma main_run_ends fuel vfu sock max p setup pre a b rest :
  (12 ≤ length (pr_cfg p))%nat → h_heap (pr_ctrl p).2 = [] →
  pr_answers p = setup ++ pre ++ a :: b :: rest →
  length setup = 9%nat → Forall (λ a, 0 ≤ a_ret a) setup → a_signal a = true →
  callbacks_return fuel (ctrl_init_state vfu max, (pr_ctrl p).2) (pre ++ [a; b]) →
  wp (main_run fuel vfu sock max) (λ code p', code = 0 ∧ ∃ calls,
    pr_calls p' = pr_calls p ++ setup_seq sock ++ Signals :: calls ++ [CtrlTeardown; DestroyCtx] ∧
    Forall (λ c, is_serving c = true) calls ∧ (length calls ≤ length pre + 2)%nat) p.
Proof.
  intros Hcfg Hheap Ha Hlen Hok Hsig Hcb.
  do 9 (destruct setup as [|? setup]; [done|]). destruct setup; [|done]. clear Hlen.
  rewrite !Forall_cons in Hok. destruct_and!. cbn [app] in Ha.
  unfold main_run. apply wp_bind. eapply wp_run; [by apply (lib_ok _ _ _ _ Ha)|]. cbv beta.
  rewrite (proj2 (Z.ltb_ge _ _)) by done. apply wp_bind, wp_modify.
  eapply try_ok; [reflexivity|done|]. apply wp_bind, wp_modify, wp_bind.
  eapply wp_run; [by apply set_class_eq|].
  do 6 (eapply try_ok; [reflexivity|done|]).
  apply wp_bind, wp_modify, wp_bind, wp_zoom. cbn [pr_ctrl pr_add_call pr_set_answers pr_set_cfg].
  destruct (pr_ctrl p) as [n h]. eapply wp_run; [by apply nvme_ctrl_init_ok|].
  cbn [Z.ltb Z.compare]. apply wp_bind. eapply wp_run; [by eapply lib_ok|]. cbv beta.
  rewrite (proj2 (Z.ltb_ge _ _)) by done.
  apply wp_bind, wp_modify, wp_bind, wp_gets, wp_bind. set (p1 := pr_add_call _ Signals).
  destruct (flat_serve_stops fuel pre a b rest (start_mode p1) p1 eq_refl Hsig Hcb)
    as (p' & calls & E & Hcalls & Hserving & Hle).
  eapply wp_run; [by rewrite serve_flat by lia|].
  apply wp_bind, wp_modify, wp_bind, wp_zoom.
  cbn [pr_ctrl pr_add_call]. destruct (pr_ctrl p') as [n' h'].
  apply wp_zoom, wp_modify, wp_bind, wp_modify, wp_ret. split; [done|]. exists calls.
  cbn [pr_calls pr_add_call pr_set_ctrl]. rewrite Hcalls. split_and!; [|done..].
  unfold p1. cbn. by rewrite <-!app_assoc.
Qed.
End process_spec.
