(* ===== verification/CliTheorems.v ===== *)
(** * Theorems about the command line *)

From Stdlib Require Import Strings.String.
From S2P Require Import Prelude.
From S2P Require Import Bytes.
From S2P Require Import NvmeSpec.
From S2P Require Import Kv.
From S2P Require Import Cli.

(** C40: [parse_size] on a decimal numeral that does not start with 0 (a leading 0
    would make it octal or hexadecimal) with an optional suffix k, m or g of either
    case: a numeral of [2 ^ 64] or more is refused; any other gives the number of
    bytes modulo [2 ^ 64], exact when the product is less, wrapped silently
    otherwise. *)
Theorem parse_size_suffix c ds suf mult :
  Forall (λ c, is_decimal c = true) (c :: ds) → c ≠ x30 → suffix suf mult →
  parse_size (c :: ds ++ suf) =
    if decimal (c :: ds) <? 2 ^ 64 then Some (u64 (decimal (c :: ds) * mult)) else None.
Proof. apply parse_size_numeral. Qed.

(** "2G" is the default capacity, "99999999999G" is accepted and wraps, and 2^64 is
    refused. *)
Lemma parse_size_suffix_witness :
  parse_size [x32; x47] = Some VFU_KVSSD_DEFAULT_CAPACITY ∧
  parse_size (list_byte_of_string "99999999999G") = Some 15140462030378500096 ∧
  parse_size (list_byte_of_string "18446744073709551616") = None.
Proof.
  split_and!.
  - apply (parse_size_suffix x32 [] [x47] (1024 * 1024 * 1024));
      [by repeat constructor|discriminate|constructor; by right].
  - apply (parse_size_suffix x39 (list_byte_of_string "9999999999") [x47] (1024 * 1024 * 1024));
      [by repeat constructor|discriminate|constructor; by right].
  - apply (parse_size_suffix x31 (list_byte_of_string "8446744073709551616") [] 1);
      [by repeat constructor|discriminate|constructor].
Defined.

(** A minus sign is accepted: "-1" is the largest capacity. *)
Theorem parse_size_negative : parse_size (list_byte_of_string "-1") = Some (2 ^ 64 - 1).
Proof. vm_compute. reflexivity. Qed.

(** C39: the number of keys derived from the capacity is at least one and at most
    [2 ^ 32 - 1], the slots it stands for fit in the capacity, it is the largest such
    number, and the size advertised in NSZE is exact: the product does not wrap.  A
    capacity below one slot is refused. *)
Theorem capacity_to_keys capacity :
  0 ≤ capacity < 2 ^ 64 →
  match capacity_slots capacity with
  | None => capacity < 4112
  | Some k =>
      1 ≤ k ≤ NVME_KV_HARD_MAX_NUM_KEYS ∧ k * 4112 ≤ capacity ∧
      (k < NVME_KV_HARD_MAX_NUM_KEYS → capacity < (k + 1) * 4112) ∧
      id_nsze (id_ns_init k) = k * 4112
  end.
Proof.
  intros Hc. destruct (capacity_slots capacity) as [k|] eqn:E.
  - destruct (capacity_slots_ok _ _ Hc E) as (Hk & Hle & Hmax). change SLOT with 4112 in *.
    split_and!; [lia..|done|]. cbn. change SLOT with 4112. apply u64_small. lia.
  - unfold capacity_slots in E. change SLOT with 4112 in E.
    destruct (Z.eqb_spec (capacity / 4112) 0) as [Hz|]; [|done].
    pose proof (Z.div_mod capacity 4112). pose proof (Z.mod_pos_bound capacity 4112). lia.
Qed.

Lemma capacity_to_keys_witness :
  1 ≤ 522247 ≤ NVME_KV_HARD_MAX_NUM_KEYS ∧ 522247 * 4112 ≤ VFU_KVSSD_DEFAULT_CAPACITY ∧
  (522247 < NVME_KV_HARD_MAX_NUM_KEYS → VFU_KVSSD_DEFAULT_CAPACITY < (522247 + 1) * 4112) ∧
  id_nsze (id_ns_init 522247) = 522247 * 4112.
Proof.
  apply (capacity_to_keys VFU_KVSSD_DEFAULT_CAPACITY).
  split; [vm_compute; discriminate|reflexivity].
Defined.
