(* ===== verification/ProcessTheorems.v ===== *)
(** * Theorems about the process and its trace *)

From S2P Require Import Prelude.
From S2P Require Import Bytes.
From S2P Require Import NvmeSpec.
From S2P Require Import Kv.
From S2P Require Import KvInv.
From S2P Require Import KvSpec.
From S2P Require Import Dma.
From S2P Require Import DmaSpec.
From S2P Require Import Ctrl.
From S2P Require Import Admin.
From S2P Require Import Regs.
From S2P Require Import CtrlInv.
From S2P Require Import AdminSpec.
From S2P Require Import System.
From S2P Require Import Demo.
From S2P Require Import Trace.
From S2P Require Import Cli.
From S2P Require Import Process.
From S2P Require Import ProcessSpec.

Section process_theorems.
Context `{Uninit} `{VfuOk}.
Implicit Types (p : proc) (s : machine).


(** C18: the nested loops of the server are one state machine.  Waiting for a client,
    an attach that succeeds leads to running, an interrupted or empty one (EINTR,
    EAGAIN) to waiting again unless [g_stop] is set, any other error to the end.
    Running, a call that succeeds leads to running again unless [g_stop] is set; a
    detached client (ENOTCONN) and an interrupt (EINTR) lead back to waiting unless
    [g_stop] is set; any other error ends.  Each step makes one call and passes what
    came in to the callbacks of the controller, in order, before it decides.  The
    loop of the code is this machine exactly: same calls, same controller, same end,
    whatever the answers, also when a callback goes wrong or a call stays blocked. *)
Theorem serve_protocol fuel p :
  serve fuel (S (length (pr_answers p))) p =
    flat_serve fuel (if pr_stop p then None else Some Attaching) (pr_answers p) p.
Proof. apply serve_flat. lia. Qed.

(** C13: a signal ends the process.  When the options lead to a run, the nine library calls
    of set-up succeed and allocations do, when the signal comes during a call of the server loop that the
    library answers (with any result), as it answers the next one, and when the
    callbacks run by then return, [main] exits with code 0 after the set-up calls, at
    most one more call of the server loop after the signalled one, the tear-down of
    the controller and the destruction of the context. *)
Theorem main_stops fuel vfu opts p k setup pre a b rest :
  main_keys opts = Some k →
  (12 ≤ length (pr_cfg p))%nat → h_heap (pr_ctrl p).2 = [] →
  pr_answers p = setup ++ pre ++ a :: b :: rest →
  length setup = 9%nat → Forall (λ a, 0 ≤ a_ret a) setup → a_signal a = true →
  callbacks_return fuel (ctrl_init_state vfu k, (pr_ctrl p).2) (pre ++ [a; b]) →
  wp (main fuel vfu opts) (λ code p', code = 0 ∧ ∃ sock calls,
    pr_calls p' = pr_calls p ++ setup_seq sock ++ Signals :: calls ++ [CtrlTeardown; DestroyCtx] ∧
    Forall (λ c, is_serving c = true) calls ∧ (length calls ≤ length pre + 2)%nat) p.
Proof.
  unfold main, main_keys. intros Hk. repeat case_match; try done. injection Hk as <-.
  intros. eapply wp_mono; [by eapply main_run_ends|]. intros code p' (? & calls & ?). eauto.
Qed.
End process_theorems.

(** Trace stamps are the microseconds since the first trace point, one line for
    each trace point in order, when tracing was asked for; without it nothing is
    printed. *)
Theorem trace_stamps env x l :
  Forall (λ y, clock_ok y.1 ∧ now_us x.1 ≤ now_us y.1) (x :: l) → 0 < now_us x.1 →
  wp (trace_init env;; trace_all ((λ x, (Some x.1, x.2)) <$> x :: l))
    (λ _ t, tr_lines t = if env then stamp (now_us x.1) <$> x :: l else []) trace_zero.
Proof. apply trace_all_start. Qed.

(** ** A run *)

Definition ok_answer : answer := {| a_ret := 0; a_errno := 0; a_signal := false; a_in := [] |}.
(** [-s s -c 64K]. *)
Definition demo_opts : list opt := [OptSocket [x73]; OptCapacity [x36; x34; x4b]].
(** A client attaches, runs the session of {!Demo} and detaches; the next attach is
    interrupted by a signal. *)
Definition demo_serving : list answer :=
  [ok_answer;
   {| a_ret := 0; a_errno := 0; a_signal := false; a_in := InEvent <$> demo_session |};
   {| a_ret := -1; a_errno := ENOTCONN; a_signal := false; a_in := [InEvent EvReset] |};
   {| a_ret := -1; a_errno := EINTR; a_signal := true; a_in := [] |};
   ok_answer].
Definition demo_proc : proc := {|
  pr_stop := false; pr_errno := 0; pr_ctrl := (demo_ctrl, demo_host demo_mem);
  pr_cfg := zeros 256; pr_answers := replicate 9 ok_answer ++ demo_serving; pr_calls := [] |}.




Lemma main_stops_witness :
  wp (@main flat_vfu zero_uninit 4 demo_vfu demo_opts) (λ code p', code = 0 ∧ ∃ sock calls,
    pr_calls p' = setup_seq sock ++ Signals :: calls ++ [CtrlTeardown; DestroyCtx] ∧
    Forall (λ c, is_serving c = true) calls ∧ (length calls ≤ 5)%nat) demo_proc.
Proof.
  apply (main_stops 4 (demo_vfu : @vfu_ctx_t flat_vfu) demo_opts demo_proc 15
    (replicate 9 ok_answer) (take 3 demo_serving)
    {| a_ret := -1; a_errno := EINTR; a_signal := true; a_in := [] |} ok_answer []);
    [reflexivity|vm_compute; lia|reflexivity|reflexivity|reflexivity|repeat constructor; done
    |reflexivity|].
  vm_compute. exact I.
Defined.

(** The calls of that run after set-up: attach, run, run (the client detaches), attach
    (interrupted), release. *)
Example demo_run_calls :
  match @main flat_vfu zero_uninit 4 demo_vfu demo_opts demo_proc with
  | Done (code, p') => code = 0 ∧ drop 13 (pr_calls p') =
      [AttachCtx; RunCtx; RunCtx; AttachCtx; CtrlTeardown; DestroyCtx]
  | _ => False
  end.
Proof. vm_compute. split; reflexivity. Qed.
